(** * kick-streamer-watch: a shallow embedding of the plugin core

    The first part embeds the TypeScript sources, one module per source
    file:

    - [JsString]      the string primitives the sources call ([split],
                      [trim], [join], [toUpperCase], template interpolation);
    - [TextUtils]     [src/utils/textUtils.ts] ([wrapText]);
    - [CodeUnits]     [src/utils/textUtils.ts] again, on texts of 16-bit
                      code units;
    - [TokenManager]  [src/auth/tokenManager.ts] (in the source tree at hand,
                      [src/unnamed/part_001]): the cached credentials and the
                      single-flight token refresh, as a transition system over
                      the suspension points of the asynchronous code;
    - [ImageUtils]    [src/utils/imageUtils.ts]: the image cache, the bordered
                      image and the collage;
    - [Monitor]       [src/actions/kickStatus.ts] and
                      [src/actions/live-status-action.ts]: the per-button
                      channel monitor;
    - [XmlEscape], [ProfileImage]
                      [src/utils/imageUtils.ts] again: [escapeXml] and the
                      file a profile image is kept in;
    - [TokenAccess]   [src/auth/tokenManager.ts] again: the access token;
    - [KickOfficialApi]
                      [src/actions/kickOfficialApi.ts];
    - [StorageProvider], [FileCredentials], [Mutex], [StreamDeckStorage]
                      the credential storages ([src/auth/storageProvider.ts],
                      [src/server/credentials.ts], [src/unnamed/part_002],
                      [src/unnamed/part_001]);
    - [Handlers]      the event handlers of [src/actions/live-status-action.ts];
    - [PropertyInspector]
                      [com.kick-streamer-watch.sdPlugin/ui/js/live-status.js];
    - [AuthWorker]    [kick-auth-worker/src/index.ts];
    - [Samples], [MoreSamples]
                      concrete inputs.

    Two services of the runtime are carried as unknown functions: the base64
    encoding of [Buffer], and [renderTextOverlay], whose output prints
    floating point coordinates.

    The second part states and proves the properties.

    Strings are [string]: every [ascii] stands for one UTF-16 code unit below
    256, so [length] is the [.length] of the sources.  [CodeUnits] has the
    texts of all code units, for [wrapText], whose regular expression tells
    apart code units above 256. *)

From Stdlib Require Import ZArith List String Ascii Lia Bool Arith DecimalString.
From Stdlib Require Import Permutation Sorted.
Import ListNotations.
Open Scope string_scope.

(* ================================================================== *)
(** ** String primitives of the runtime *)
(* ================================================================== *)

Module JsString.

Definition chr (n : nat) : string := String (ascii_of_nat n) EmptyString.

(** The characters the sources name by escape. *)
Definition LF : ascii := ascii_of_nat 10.
Definition CR : ascii := ascii_of_nat 13.
Definition NL : string := String LF EmptyString.
Definition DQ : string := chr 34.

(** [!s] on a string: only the empty string is falsy. *)
Definition truthy (s : string) : bool := negb (s =? "").

(** [o || d] on an optional string: [undefined] and the empty string fall
    through to [d]. *)
Definition orElse (o : option string) (d : string) : string :=
  match o with
  | Some s => if truthy s then s else d
  | None => d
  end.

(** [!!o] on an optional string. *)
Definition truthyOpt (o : option string) : bool :=
  match o with
  | Some s => truthy s
  | None => false
  end.

(** White space and line terminators stripped by [String.prototype.trim],
    among the code units below 256: TAB, LF, VT, FF, CR, SP and NBSP. *)
Definition is_ws (c : ascii) : bool :=
  let n := nat_of_ascii c in
  (n =? 9)%nat || (n =? 10)%nat || (n =? 11)%nat || (n =? 12)%nat
  || (n =? 13)%nat || (n =? 32)%nat || (n =? 160)%nat.

(** Characters a regular expression's [.] does not match (no [s] flag),
    among the code units below 256: LF and CR.  The two others, U+2028 and
    U+2029, are in [CodeUnits]. *)
Definition is_line_terminator (c : ascii) : bool :=
  Ascii.eqb c LF || Ascii.eqb c CR.

(** [s.split(sep)] for a one-character separator: never the empty list. *)
Fixpoint split_on (sep : ascii) (s : string) : list string :=
  match s with
  | EmptyString => [EmptyString]
  | String c r =>
      if Ascii.eqb c sep then EmptyString :: split_on sep r
      else match split_on sep r with
           | [] => [String c EmptyString]
           | w :: ws => String c w :: ws
           end
  end.

(** [l.join(sep)]. *)
Definition join (sep : string) (l : list string) : string := String.concat sep l.

Fixpoint trimStart (s : string) : string :=
  match s with
  | EmptyString => EmptyString
  | String c r => if is_ws c then trimStart r else s
  end.

Fixpoint trimEnd (s : string) : string :=
  match s with
  | EmptyString => EmptyString
  | String c r =>
      match trimEnd r with
      | EmptyString => if is_ws c then EmptyString else String c EmptyString
      | r' => String c r'
      end
  end.

Definition trim (s : string) : string := trimEnd (trimStart s).

(** [toUpperCase] on the ASCII letters (the sources apply it to the status
    keywords only). *)
Definition upper_ascii (c : ascii) : ascii :=
  let n := nat_of_ascii c in
  if ((97 <=? n) && (n <=? 122))%nat then ascii_of_nat (n - 32) else c.

Fixpoint toUpperCase (s : string) : string :=
  match s with
  | EmptyString => EmptyString
  | String c r => String (upper_ascii c) (toUpperCase r)
  end.

(** Membership of a character in a string. *)
Fixpoint occurs (c : ascii) (s : string) : bool :=
  match s with
  | EmptyString => false
  | String d r => Ascii.eqb d c || occurs c r
  end.

Fixpoint all_chars (p : ascii -> bool) (s : string) : bool :=
  match s with
  | EmptyString => true
  | String d r => p d && all_chars p r
  end.

(** [`${n}`] for a natural number. *)
Definition nat_str (n : nat) : string := NilZero.string_of_uint (Nat.to_uint n).

(** [`${b}`] for a boolean. *)
Definition bool_str (b : bool) : string := if b then "true" else "false".

(** Template fragments are written with an apostrophe where the source has a
    double quote; [Q] puts the double quotes back.  It is applied to literal
    fragments only, never to interpolated values. *)
Fixpoint Q (s : string) : string :=
  match s with
  | EmptyString => EmptyString
  | String c r =>
      String (if Ascii.eqb c (ascii_of_nat 39) then ascii_of_nat 34 else c) (Q r)
  end.

(** Whether a string starts, or ends, with a character [trim] strips. *)
Definition startsWs (s : string) : bool :=
  match s with
  | EmptyString => false
  | String c _ => is_ws c
  end.

Fixpoint endsWs (s : string) : bool :=
  match s with
  | EmptyString => false
  | String c EmptyString => is_ws c
  | String _ r => endsWs r
  end.

(** The number of positions of [s] at which [p] occurs. *)
Fixpoint countOcc (p s : string) : nat :=
  match s with
  | EmptyString => 0
  | String _ r => ((if String.prefix p s then 1 else 0) + countOcc p r)%nat
  end.

(** Whether [p] occurs in [s], and the proposition that it does: [s] is
    some text, then [p], then some text. *)
Fixpoint isSub (p s : string) : bool :=
  String.prefix p s
  || match s with
     | EmptyString => false
     | String _ r => isSub p r
     end.

Definition contains (p s : string) : Prop := exists pre post, s = pre ++ p ++ post.

End JsString.

Import JsString.

(* ================================================================== *)
(** ** src/utils/textUtils.ts *)
(* ================================================================== *)

Module TextUtils.

(** The loop of [wrapText]: [currentLine] absorbs the next word while the
    line stays within [maxLength], otherwise it is pushed and the word starts
    the next line. *)
Fixpoint packWords (maxLength : nat) (currentLine : string) (words : list string)
  : list string :=
  match words with
  | [] => [currentLine]
  | w :: ws =>
      if (String.length currentLine + 1 + String.length w <=? maxLength)%nat
      then packWords maxLength (currentLine ++ " " ++ w) ws
      else currentLine :: packWords maxLength w ws
  end.

(** [line.match(/.{1,n}/g)] for [1 <= n]: the successive greedy matches.
    [cur] is the match being extended and [room] what it may still take; a
    line terminator is matched by nothing, so it ends the current match and
    is skipped. *)
Fixpoint regexChunks (n : nat) (cur : string) (room : nat) (s : string)
  : list string :=
  match s with
  | EmptyString => if truthy cur then [cur] else []
  | String c r =>
      if is_line_terminator c
      then (if truthy cur then [cur] else []) ++ regexChunks n EmptyString n r
      else match room with
           | O => cur :: regexChunks n (String c EmptyString) (n - 1) r
           | S room' => regexChunks n (cur ++ String c EmptyString) room' r
           end
  end.

(** The callback of [lines.map]: [None] stands for the [SyntaxError] that
    [new RegExp('.{1,0}', 'g')] raises. *)
Definition forceSplit (maxLength : nat) (line : string) : option string :=
  if (maxLength <? String.length line)%nat then
    match maxLength with
    | O => None
    | S _ =>
        Some (match regexChunks maxLength EmptyString maxLength line with
              | [] => line
              | cs => join NL cs
              end)
    end
  else Some line.

Fixpoint mapOpt {A B : Type} (f : A -> option B) (l : list A) : option (list B) :=
  match l with
  | [] => Some []
  | x :: xs =>
      match f x with
      | None => None
      | Some y => option_map (cons y) (mapOpt f xs)
      end
  end.

(** [wrapText] (textUtils.ts, lines 1-25). *)
Definition wrapText (text : string) (maxLength : nat) : option string :=
  if (String.length text <=? maxLength)%nat then Some text
  else
    match split_on " "%char text with
    | [] => None
    | w0 :: ws =>
        option_map (join NL) (mapOpt (forceSplit maxLength) (packWords maxLength w0 ws))
    end.

(** The lines of a text, as [split('\n')] gives them (it is how
    [renderTextOverlay] reads a wrapped subtitle), and the bound the wrapping
    is meant to establish on each. *)
Definition linesOf (s : string) : list string := split_on LF s.

Definition within (n : nat) (l : string) : Prop := (String.length l <= n)%nat.

(** A match of [.{1,n}]: between one and [n] characters, none of them a
    line terminator. *)
Definition isChunk (n : nat) (ch : string) : Prop :=
  ch <> "" /\ (String.length ch <= n)%nat
  /\ all_chars (fun c => negb (is_line_terminator c)) ch = true.

(** A word of four carriage returns. *)
Definition fourCR : string := String CR (String CR (String CR (String CR ""))).

End TextUtils.

(* ================================================================== *)
(** ** src/utils/textUtils.ts, on 16-bit code units *)
(* ================================================================== *)

Module CodeUnits.

Import TextUtils (mapOpt).

(** A JavaScript string as it is: a sequence of UTF-16 code units.
    [String.prototype.length], [split], [join] and a regular expression
    without the [u] flag all work on code units.  The strings of
    [JsString] are the texts whose code units are below 256 ([ofString]);
    among the four line terminators of the language, two lie above. *)
Definition Text := list N.

Definition SP : N := 32.
Definition LF : N := 10.
Definition CR : N := 13.
Definition LS : N := 8232.
Definition PS : N := 8233.

Definition ofString (s : string) : Text := map N_of_ascii (list_ascii_of_string s).

(** Characters a regular expression's [.] does not match (no [s] flag):
    LF, CR, U+2028 and U+2029. *)
Definition is_line_terminator (c : N) : bool :=
  (c =? LF)%N || (c =? CR)%N || (c =? LS)%N || (c =? PS)%N.

Definition occurs (c : N) (s : Text) : bool := existsb (N.eqb c) s.

Definition nonEmpty (s : Text) : bool :=
  match s with
  | [] => false
  | _ :: _ => true
  end.

(** [s.split(sep)] for a one-character separator: never the empty list. *)
Fixpoint split_on (sep : N) (s : Text) : list Text :=
  match s with
  | [] => [[]]
  | c :: r =>
      if (c =? sep)%N then [] :: split_on sep r
      else match split_on sep r with
           | [] => [[c]]
           | w :: ws => (c :: w) :: ws
           end
  end.

(** [l.join(sep)]. *)
Fixpoint join (sep : Text) (l : list Text) : Text :=
  match l with
  | [] => []
  | x :: xs =>
      match xs with
      | [] => x
      | _ :: _ => (x ++ sep ++ join sep xs)%list
      end
  end.

(** The loop of [wrapText]. *)
Fixpoint packWords (maxLength : nat) (currentLine : Text) (words : list Text)
  : list Text :=
  match words with
  | [] => [currentLine]
  | w :: ws =>
      if (List.length currentLine + 1 + List.length w <=? maxLength)%nat
      then packWords maxLength (currentLine ++ [SP] ++ w)%list ws
      else currentLine :: packWords maxLength w ws
  end.

(** [line.match(/.{1,n}/g)] for [1 <= n]: the successive greedy matches.
    [cur] is the match being extended and [room] what it may still take; a
    line terminator is matched by nothing, so it ends the current match and
    is skipped. *)
Fixpoint regexChunks (n : nat) (cur : Text) (room : nat) (s : Text) : list Text :=
  match s with
  | [] => if nonEmpty cur then [cur] else []
  | c :: r =>
      if is_line_terminator c
      then ((if nonEmpty cur then [cur] else []) ++ regexChunks n [] n r)%list
      else match room with
           | O => cur :: regexChunks n [c] (n - 1) r
           | S room' => regexChunks n (cur ++ [c])%list room' r
           end
  end.

(** The callback of [lines.map]: [None] stands for the [SyntaxError] that
    [new RegExp('.{1,0}', 'g')] raises. *)
Definition forceSplit (maxLength : nat) (line : Text) : option Text :=
  if (maxLength <? List.length line)%nat then
    match maxLength with
    | O => None
    | S _ =>
        Some (match regexChunks maxLength [] maxLength line with
              | [] => line
              | cs => join [LF] cs
              end)
    end
  else Some line.

(** [wrapText] (textUtils.ts, lines 1-25). *)
Definition wrapText (text : Text) (maxLength : nat) : option Text :=
  if (List.length text <=? maxLength)%nat then Some text
  else
    match split_on SP text with
    | [] => None
    | w0 :: ws =>
        option_map (join [LF]) (mapOpt (forceSplit maxLength) (packWords maxLength w0 ws))
    end.

(** The lines of a text, as [split('\n')] gives them, and the bound the
    wrapping is meant to establish on each. *)
Definition linesOf (s : Text) : list Text := split_on LF s.

Definition within (n : nat) (l : Text) : Prop := (List.length l <= n)%nat.

(** A match of [.{1,n}]: between one and [n] code units, none of them a
    line terminator. *)
Definition isChunk (n : nat) (ch : Text) : Prop :=
  ch <> [] /\ (List.length ch <= n)%nat
  /\ forallb (fun c => negb (is_line_terminator c)) ch = true.

(** A text without CR, U+2028 or U+2029: its only line terminators are
    line feeds. *)
Definition softBreaksOnly (s : Text) : Prop :=
  occurs CR s = false /\ occurs LS s = false /\ occurs PS s = false.

(** A word of four line separators (U+2028). *)
Definition fourLS : Text := [LS; LS; LS; LS].

End CodeUnits.

(* ================================================================== *)
(** ** src/auth/tokenManager.ts *)
(* ================================================================== *)

Module TokenManager.

(** [TokenEndpointResponse] of [src/types.ts].  [extras] holds the keys the
    index signature admits, each with its serialised value. *)
Record TokenEndpointResponse := {
  access_token : option string;
  token_type : option string;
  id_token : option string;
  refresh_token : option string;
  scope : option string;
  expires_at : option Z;
  expires_in : option Z;
  extras : list (string * string)
}.

(** [Credentials] of [src/server/credentials.ts]; the server metadata is
    carried, never inspected. *)
Record Credentials := {
  serverMetadata : string;
  clientId : string;
  clientSecret : string;
  tokens : option TokenEndpointResponse
}.

Inductive JsError :=
| KickCredentialsMissingError (message : string)
| Error (message : string).

(** What the runtime answers at the three [await]s of the refresh. *)
Inductive FetchResult :=
| NetworkFailure (e : JsError)
| HttpResponse (ok : bool) (statusText : string).

Inductive JsonResult :=
| JsonFailure (e : JsError)
| JsonValue (refreshed : TokenEndpointResponse).

Inductive SaveResult :=
| SaveOk
| SaveFailed (e : JsError).

(** A settled promise of type [Promise<TokenEndpointResponse | undefined>]. *)
Inductive Settlement :=
| Fulfilled (v : option TokenEndpointResponse)
| Rejected (e : JsError).

(** The asynchronous closure stored in [refreshInFlight], by the [await] it
    is suspended at. *)
Inductive Flight :=
| AwaitFetch (credentials : Credentials) (currentTokens : TokenEndpointResponse)
| AwaitJson (credentials : Credentials) (currentTokens : TokenEndpointResponse)
| AwaitSave (mergedTokens : TokenEndpointResponse)
| Settled (r : Settlement).


(** One call of [refreshTokens]: the promise it awaits ([None] when it threw
    before reaching the [await]) and, once it has finished, what it returned
    or threw. *)
Record Caller := {
  joined : option nat;
  outcome : option (JsError + TokenEndpointResponse)
}.

(** The module-level variables, the promises created so far (a promise is
    named by its position in [flights]), the requests posted to the worker
    (by the refresh token they carry), the credential sets handed to
    [save], and the calls of [refreshTokens] (a call is named by its position
    in [callers]). *)
Record State := {
  cachedCredentials : option Credentials;
  cachedTokens : option TokenEndpointResponse;
  refreshInFlight : option nat;
  flights : list Flight;
  requests : list (option string);
  saved : list Credentials;
  callers : list Caller
}.

Definition initial : State :=
  {| cachedCredentials := None; cachedTokens := None; refreshInFlight := None;
     flights := []; requests := []; saved := []; callers := [] |}.

Fixpoint update_nth {A : Type} (n : nat) (x : A) (l : list A) : list A :=
  match l, n with
  | [], _ => []
  | _ :: t, O => x :: t
  | h :: t, S n' => h :: update_nth n' x t
  end.

(** [x || d] on an optional number: [undefined] and [0] fall through. *)
Definition orElseZ (o : option Z) (d : Z) : Z :=
  match o with
  | Some v => if (v =? 0)%Z then d else v
  | None => d
  end.

(** [mergedTokens]: the refreshed response, the refresh token kept when the
    server sent none, [expires_at] computed when absent. *)
Definition mergeTokens (refreshed currentTokens : TokenEndpointResponse) (now : Z)
  : TokenEndpointResponse :=
  {| access_token := access_token refreshed;
     token_type := token_type refreshed;
     id_token := id_token refreshed;
     refresh_token :=
       match refresh_token refreshed with
       | Some r => Some r
       | None => refresh_token currentTokens
       end;
     scope := scope refreshed;
     expires_at :=
       Some (orElseZ (expires_at refreshed)
                     (now / 1000 + orElseZ (expires_in refreshed) 7200)%Z);
     expires_in := expires_in refreshed;
     extras := extras refreshed |}.

Definition withTokens (c : Credentials) (t : TokenEndpointResponse) : Credentials :=
  {| serverMetadata := serverMetadata c; clientId := clientId c;
     clientSecret := clientSecret c; tokens := Some t |}.

Definition setFlight (s : State) (p : nat) (f : Flight) : State :=
  {| cachedCredentials := cachedCredentials s; cachedTokens := cachedTokens s;
     refreshInFlight := refreshInFlight s;
     flights := update_nth p f (flights s);
     requests := requests s; saved := saved s; callers := callers s |}.

Definition addCaller (s : State) (c : Caller) : State :=
  {| cachedCredentials := cachedCredentials s; cachedTokens := cachedTokens s;
     refreshInFlight := refreshInFlight s; flights := flights s;
     requests := requests s; saved := saved s; callers := (callers s ++ [c])%list |}.

(** What a caller gets from [await refreshInFlight]. *)
Definition awaited (r : Settlement) : JsError + TokenEndpointResponse :=
  match r with
  | Fulfilled (Some t) => inr t
  | Fulfilled None =>
      inl (KickCredentialsMissingError "Unable to refresh Kick API tokens.")
  | Rejected e => inl e
  end.

(** The atomic stretches of code between two suspension points. *)
Inductive Event :=
| Call (credentials : Credentials) (currentTokens : TokenEndpointResponse)
| FetchDone (p : nat) (r : FetchResult)
| JsonDone (p : nat) (r : JsonResult) (now : Z)
| SaveDone (p : nat) (r : SaveResult)
| Resume (c : nat)
| Invalidate.

(** [refreshTokens] (lines 96-146), stretch by stretch; [Invalidate] is
    [invalidateCredentialsCache] (lines 19-22).  A caller is resumed at any
    time after the promise it awaits has settled: the run-time resumes the
    callers that were waiting when it settled one after the other, in the
    order they came, and a caller that comes later, when its own turn
    comes. *)
Definition step (s : State) (e : Event) : option State :=
  match e with
  | Call credentials currentTokens =>
      (* refreshTokens, from its entry to [await refreshInFlight] *)
      if negb (truthyOpt (refresh_token currentTokens)) then
        Some (addCaller s
          {| joined := None;
             outcome := Some (inl (KickCredentialsMissingError
               "Kick credentials missing refresh token. Re-run the auth helper CLI.")) |})
      else
        match refreshInFlight s with
        | None =>
            let p := List.length (flights s) in
            Some {| cachedCredentials := cachedCredentials s;
                    cachedTokens := cachedTokens s;
                    refreshInFlight := Some p;
                    flights := (flights s ++ [AwaitFetch credentials currentTokens])%list;
                    requests := (requests s ++ [refresh_token currentTokens])%list;
                    saved := saved s;
                    callers := (callers s ++ [{| joined := Some p; outcome := None |}])%list |}
        | Some p =>
            Some (addCaller s {| joined := Some p; outcome := None |})
        end
  | FetchDone p r =>
      match nth_error (flights s) p with
      | Some (AwaitFetch credentials currentTokens) =>
          match r with
          | NetworkFailure e => Some (setFlight s p (Settled (Rejected e)))
          | HttpResponse false statusText =>
              Some (setFlight s p
                (Settled (Rejected (Error ("Token refresh failed: " ++ statusText)))))
          | HttpResponse true _ =>
              Some (setFlight s p (AwaitJson credentials currentTokens))
          end
      | _ => None
      end
  | JsonDone p r now =>
      match nth_error (flights s) p with
      | Some (AwaitJson credentials currentTokens) =>
          match r with
          | JsonFailure e => Some (setFlight s p (Settled (Rejected e)))
          | JsonValue refreshed =>
              let mergedTokens := mergeTokens refreshed currentTokens now in
              let creds := withTokens credentials mergedTokens in
              Some {| cachedCredentials := Some creds;
                      cachedTokens := Some mergedTokens;
                      refreshInFlight := refreshInFlight s;
                      flights := update_nth p (AwaitSave mergedTokens) (flights s);
                      requests := requests s;
                      saved := (saved s ++ [creds])%list;
                      callers := callers s |}
          end
      | _ => None
      end
  | SaveDone p r =>
      match nth_error (flights s) p with
      | Some (AwaitSave mergedTokens) =>
          match r with
          | SaveOk => Some (setFlight s p (Settled (Fulfilled (Some mergedTokens))))
          | SaveFailed e => Some (setFlight s p (Settled (Rejected e)))
          end
      | _ => None
      end
  | Resume c =>
      (* the continuation of [await refreshInFlight], with its [finally] *)
      match nth_error (callers s) c with
      | Some {| joined := Some p; outcome := None |} =>
          match nth_error (flights s) p with
          | Some (Settled r) =>
              Some {| cachedCredentials := cachedCredentials s;
                      cachedTokens := cachedTokens s;
                      refreshInFlight := None;
                      flights := flights s;
                      requests := requests s;
                      saved := saved s;
                      callers :=
                        update_nth c {| joined := Some p; outcome := Some (awaited r) |}
                                   (callers s) |}
          | _ => None
          end
      | _ => None
      end
  | Invalidate =>
      Some {| cachedCredentials := None; cachedTokens := None;
              refreshInFlight := refreshInFlight s; flights := flights s;
              requests := requests s; saved := saved s; callers := callers s |}
  end.

(** A schedule, event after event; [None] when an event cannot happen where
    it stands. *)
Fixpoint exec (s : State) (es : list Event) : option State :=
  match es with
  | [] => Some s
  | e :: es' =>
      match step s e with
      | Some s' => exec s' es'
      | None => None
      end
  end.


(** The error a failed request settles the refresh with: the network error,
    or the error built from the status text of a response that is not ok. *)
Definition refreshFailure (r : FetchResult) : option JsError :=
  match r with
  | NetworkFailure e => Some e
  | HttpResponse false statusText => Some (Error ("Token refresh failed: " ++ statusText))
  | HttpResponse true _ => None
  end.

(** A call that reaches the [await]: it carries a refresh token. *)
Definition isJoin (e : Event) : bool :=
  match e with
  | Call _ currentTokens => truthyOpt (refresh_token currentTokens)
  | _ => false
  end.

Definition waitingOn (p : nat) : Caller := {| joined := Some p; outcome := None |}.

Definition addCallers (s : State) (cs : list Caller) : State :=
  {| cachedCredentials := cachedCredentials s; cachedTokens := cachedTokens s;
     refreshInFlight := refreshInFlight s; flights := flights s;
     requests := requests s; saved := saved s; callers := (callers s ++ cs)%list |}.

(** The state while the refresh [p] of this call is under way: [k] callers
    wait on it. *)
Definition during (s : State) (rt : option string) (f : Flight) (k : nat)
           (cc : option Credentials) (ct : option TokenEndpointResponse)
           (sv : list Credentials) : State :=
  {| cachedCredentials := cc; cachedTokens := ct;
     refreshInFlight := Some (List.length (flights s));
     flights := (flights s ++ [f])%list;
     requests := (requests s ++ [rt])%list;
     saved := sv;
     callers := (callers s ++ repeat (waitingOn (List.length (flights s))) k)%list |}.

End TokenManager.

(* ================================================================== *)
(** ** src/utils/imageUtils.ts *)
(* ================================================================== *)

Module ImageUtils.

Record TextOverlay := {
  title : string;
  subtitle : option string
}.

(** An entry of [imageCache]; times are milliseconds ([Date.now()]). *)
Record CacheEntry := {
  value : string;
  expiresAt : Z;
  lastUsed : Z
}.

(** [imageCache]: a [Map] is iterated in insertion order, and the order is
    observable through the stable sort of the eviction, so the map is the
    list of its entries, oldest insertion first, with no key twice. *)
Definition ImageCache := list (string * CacheEntry).

Fixpoint map_get (k : string) (m : ImageCache) : option CacheEntry :=
  match m with
  | [] => None
  | (k', e) :: m' => if k' =? k then Some e else map_get k m'
  end.

(** [Map.prototype.set]: an existing key keeps its place, a new key goes
    last. *)
Fixpoint map_set (k : string) (e : CacheEntry) (m : ImageCache) : ImageCache :=
  match m with
  | [] => [(k, e)]
  | (k', e') :: m' => if k' =? k then (k', e) :: m' else (k', e') :: map_set k e m'
  end.

Definition map_delete (k : string) (m : ImageCache) : ImageCache :=
  filter (fun p => negb (fst p =? k)) m.

Definition IMAGE_CACHE_MS : Z := 10 * 60 * 1000.
Definition MAX_CACHE_SIZE : nat := 50.

(** [Math.ceil(MAX_CACHE_SIZE * CACHE_EVICTION_PERCENTAGE)] with
    [CACHE_EVICTION_PERCENTAGE = 0.2]: the double nearest to [50 * 0.2] is
    [10], so the count is the ceiling of [50 * 2 / 10]. *)
Definition CACHE_EVICTION_TENTHS : nat := 2.
Definition toRemove : nat := (MAX_CACHE_SIZE * CACHE_EVICTION_TENTHS + 9) / 10.

(** [sort((a, b) => a[1].lastUsed - b[1].lastUsed)]: ascending and stable. *)
Fixpoint insertSorted (x : string * CacheEntry) (l : ImageCache) : ImageCache :=
  match l with
  | [] => [x]
  | y :: l' =>
      if (lastUsed (snd y) <=? lastUsed (snd x))%Z
      then y :: insertSorted x l'
      else x :: l
  end.

Definition sortedEntries (m : ImageCache) : ImageCache :=
  fold_left (fun acc x => insertSorted x acc) m [].

(** The pruning loop: the keys of the first [toRemove] sorted entries are
    deleted one after the other. *)
Definition evicted (m : ImageCache) : list string :=
  map fst (firstn toRemove (sortedEntries m)).

Definition prune (m : ImageCache) : ImageCache :=
  fold_left (fun acc k => map_delete k acc) (evicted m) m.

(** Layout constants; [`${x}`] prints them with at most one decimal. *)
Definition VIEWBOX_SIZE : Z := 100.
Definition BORDER_RADIUS : Z := 15.
Definition INNER_RECT_SIZE : Z := 98.
Definition INNER_RECT_OFFSET : Z := 1.

Definition Z_str (z : Z) : string := NilZero.string_of_int (Z.to_int z).

(** A number that is a multiple of one half, by its double: [`${x}`]. *)
Definition halves_str (h : Z) : string :=
  (Z_str (h / 2) ++ (if (h mod 2 =? 0)%Z then "" else ".5"))%string.

Definition PATH_MIN : Z := INNER_RECT_OFFSET.
Definition PATH_MAX : Z := VIEWBOX_SIZE - INNER_RECT_OFFSET.
Definition ARC_START : Z := INNER_RECT_OFFSET + BORDER_RADIUS.
Definition ARC_END : Z := VIEWBOX_SIZE - (INNER_RECT_OFFSET + BORDER_RADIUS).

(** The constants with a fractional part, counted in halves:
    [CENTER_LINE_GAP = 0.5] is one half, [TOP_JUNCTION_Y = 16.5] is 33 halves,
    [SIDE_JUNCTION_Y = 17.5] is 35 halves. *)
Definition CENTER_X_h : Z := 2 * 50.
Definition CENTER_Y_h : Z := 2 * 50.
Definition CENTER_LINE_GAP_h : Z := 1.
Definition CENTER_X_LEFT_h : Z := CENTER_X_h - CENTER_LINE_GAP_h.
Definition CENTER_X_RIGHT_h : Z := CENTER_X_h + CENTER_LINE_GAP_h.
Definition CENTER_Y_TOP_h : Z := CENTER_Y_h - CENTER_LINE_GAP_h.
Definition CENTER_Y_BOTTOM_h : Z := CENTER_Y_h + CENTER_LINE_GAP_h.
Definition TOP_JUNCTION_Y_h : Z := 33.
Definition SIDE_JUNCTION_Y_h : Z := 35.

Definition BS : string := chr 92.

Definition hex_digit (n : nat) : string :=
  String (nth n ["0"; "1"; "2"; "3"; "4"; "5"; "6"; "7"; "8"; "9";
                 "a"; "b"; "c"; "d"; "e"; "f"]%char "0"%char) EmptyString.

(** [JSON.stringify] of a string, without the surrounding quotes. *)
Fixpoint json_escape (s : string) : string :=
  match s with
  | EmptyString => EmptyString
  | String c r =>
      let n := nat_of_ascii c in
      (if (n =? 34)%nat then BS ++ DQ
       else if (n =? 92)%nat then BS ++ BS
       else if (n =? 8)%nat then BS ++ "b"
       else if (n =? 12)%nat then BS ++ "f"
       else if (n =? 10)%nat then BS ++ "n"
       else if (n =? 13)%nat then BS ++ "r"
       else if (n =? 9)%nat then BS ++ "t"
       else if (n <? 32)%nat then BS ++ "u00" ++ hex_digit (n / 16) ++ hex_digit (n mod 16)
       else String c EmptyString) ++ json_escape r
  end.

Definition json_string (s : string) : string := DQ ++ json_escape s ++ DQ.

(** [`${JSON.stringify(textOverlay)}`]; an absent overlay prints as
    [undefined], an absent subtitle leaves its key out. *)
Definition overlay_json (o : option TextOverlay) : string :=
  match o with
  | None => "undefined"
  | Some t =>
      "{" ++ Q "'title':" ++ json_string (title t)
      ++ match subtitle t with
         | Some s => "," ++ Q "'subtitle':" ++ json_string s
         | None => ""
         end
      ++ "}"
  end.

Definition fullCacheKey (colorDataUri : string) (isLive : bool)
           (textOverlay : option TextOverlay) : string :=
  colorDataUri ++ "-" ++ bool_str isLive ++ "-" ++ overlay_json textOverlay.

Definition grayscaleAttr (isLive : bool) : string :=
  if isLive then "" else Q "filter='url(#grayscale)'".

Definition borderColorOf (isLive : bool) : string :=
  if isLive then "#53fc18" else "#ff0000".

(** The keys of the cache, the order of the eviction, the entries a set of
    evicted keys leaves, and the two facts every reachable cache satisfies. *)
Definition keys (m : ImageCache) : list string := map fst m.

Definition byLastUsed (x y : string * CacheEntry) : Prop :=
  (lastUsed (snd x) <= lastUsed (snd y))%Z.

Definition keptBy (ks : list string) (p : string * CacheEntry) : bool :=
  negb (existsb (String.eqb (fst p)) ks).

Definition cache_ok (m : ImageCache) : Prop :=
  NoDup (keys m) /\ (List.length m <= MAX_CACHE_SIZE)%nat.

(** A lookup that finds nothing usable: no entry, or an expired one. *)
Definition cacheMiss (key : string) (now : Z) (m : ImageCache) : Prop :=
  match map_get key m with
  | Some cached => (expiresAt cached <= now)%Z
  | None => True
  end.

(** One call of [getProcessedImage], by its arguments and the time it
    reads. *)
Record ImageCall := {
  call_uri : string;
  call_live : bool;
  call_overlay : option TextOverlay;
  call_now : Z
}.

(** The key a call looks up, and the time of the last call of a sequence
    that used the key [k], whether it found the entry or rendered it. *)
Definition callKey (c : ImageCall) : string :=
  fullCacheKey (call_uri c) (call_live c) (call_overlay c).

Fixpoint lastUse (k : string) (calls : list ImageCall) : option Z :=
  match calls with
  | [] => None
  | c :: rest =>
      match lastUse k rest with
      | Some t => Some t
      | None => if callKey c =? k then Some (call_now c) else None
      end
  end.

Section WithRuntime.

(** [Buffer.from(svg, 'utf8').toString('base64')], a service of the
    runtime. *)
Variable toBase64 : string -> string.

(** [renderTextOverlay]: the [<text>] elements of an overlay.  Their [y]
    coordinates are products of the font size by [1.1] printed as doubles;
    the function is carried as it is, an unknown function of the overlay. *)
Variable renderTextOverlay : option TextOverlay -> string.

Definition dataUri (svg : string) : string :=
  "data:image/svg+xml;base64," ++ toBase64 svg.

(** The SVG text of [getProcessedImage] (imageUtils.ts, lines 121-138). *)
Definition processedSvg (colorDataUri : string) (isLive : bool)
           (textOverlay : option TextOverlay) : string :=
  let n := Z_str in
  Q "<?xml version='1.0' encoding='UTF-8'?>
<svg xmlns='http://www.w3.org/2000/svg' viewBox='0 0 " ++ n VIEWBOX_SIZE ++ " " ++ n VIEWBOX_SIZE ++ Q "'>
  <defs>
    <filter id='grayscale'>
      <feColorMatrix type='matrix' values='0.2126 0.7152 0.0722 0 0 0.2126 0.7152 0.0722 0 0 0.2126 0.7152 0.0722 0 0 0 0 0 1 0' />
    </filter>
    <filter id='textShadow' x='-20%' y='-20%' width='140%' height='140%'>
      <feDropShadow dx='0' dy='1' stdDeviation='1' flood-color='black' flood-opacity='0.8'/>
    </filter>
    <clipPath id='clip'>
      <rect x='" ++ n INNER_RECT_OFFSET ++ Q "' y='" ++ n INNER_RECT_OFFSET
  ++ Q "' width='" ++ n INNER_RECT_SIZE ++ Q "' height='" ++ n INNER_RECT_SIZE
  ++ Q "' rx='" ++ n BORDER_RADIUS ++ Q "' ry='" ++ n BORDER_RADIUS ++ Q "' />
    </clipPath>
  </defs>
  <rect width='" ++ n VIEWBOX_SIZE ++ Q "' height='" ++ n VIEWBOX_SIZE ++ Q "' fill='#000' />
  <image href='" ++ colorDataUri ++ Q "' x='0' y='0' width='" ++ n VIEWBOX_SIZE
  ++ Q "' height='" ++ n VIEWBOX_SIZE
  ++ Q "' preserveAspectRatio='xMidYMid slice' clip-path='url(#clip)' "
  ++ grayscaleAttr isLive ++ Q " />
  <rect x='" ++ n INNER_RECT_OFFSET ++ Q "' y='" ++ n INNER_RECT_OFFSET
  ++ Q "' width='" ++ n INNER_RECT_SIZE ++ Q "' height='" ++ n INNER_RECT_SIZE
  ++ Q "' rx='" ++ n BORDER_RADIUS ++ Q "' ry='" ++ n BORDER_RADIUS
  ++ Q "' fill='none' stroke='" ++ borderColorOf isLive ++ Q "' stroke-width='2' />
  " ++ renderTextOverlay textOverlay ++ "
</svg>".

(** [getProcessedImage] (lines 88-149): the image and the cache it leaves; [now] is the
    value [Date.now()] returns in the call. *)
Definition getProcessedImage (colorDataUri : string) (isLive : bool)
           (textOverlay : option TextOverlay) (now : Z) (imageCache : ImageCache)
  : string * ImageCache :=
  let key := fullCacheKey colorDataUri isLive textOverlay in
  let fresh (_ : unit) :=
    let pruned :=
      if (MAX_CACHE_SIZE <=? List.length imageCache)%nat then prune imageCache
      else imageCache in
    let uri := dataUri (processedSvg colorDataUri isLive textOverlay) in
    (uri, map_set key {| value := uri; expiresAt := now + IMAGE_CACHE_MS;
                         lastUsed := now |} pruned) in
  match map_get key imageCache with
  | Some cached =>
      if (now <? expiresAt cached)%Z then
        (value cached,
         map_set key {| value := value cached; expiresAt := expiresAt cached;
                        lastUsed := now |} imageCache)
      else fresh tt
  | None => fresh tt
  end.

(** What a call that renders anew leaves in the cache. *)
Definition renderedAnew (uri : string) (live : bool) (o : option TextOverlay)
           (now : Z) (m : ImageCache) : ImageCache :=
  map_set (fullCacheKey uri live o)
    {| value := dataUri (processedSvg uri live o);
       expiresAt := now + IMAGE_CACHE_MS; lastUsed := now |}
    (if (MAX_CACHE_SIZE <=? List.length m)%nat then prune m else m).

(** The cache a sequence of calls leaves, from the empty cache the module
    starts with. *)
Definition cacheAfter (calls : list ImageCall) : ImageCache :=
  fold_left (fun m c =>
               snd (getProcessedImage (call_uri c) (call_live c) (call_overlay c)
                                      (call_now c) m)) calls [].

(** *** The collage *)

Record CollageItem := {
  image : string;
  isLive : bool;
  isFlashing : bool
}.

Fixpoint mapi_from {A B : Type} (i : nat) (f : A -> nat -> B) (l : list A) : list B :=
  match l with
  | [] => []
  | x :: l' => f x i :: mapi_from (S i) f l'
  end.

(** [l.map((x, i) => ...)]. *)
Definition mapi {A B : Type} (f : A -> nat -> B) (l : list A) : list B :=
  mapi_from 0 f l.

Definition collagePattern (item : CollageItem) (index : nat) : string :=
  Q "
    <pattern id='pat" ++ nat_str index ++ Q "' patternUnits='userSpaceOnUse' width='100' height='100'>
        <image href='" ++ image item ++ Q "' x='0' y='0' width='100' height='100' preserveAspectRatio='xMidYMid slice' "
  ++ grayscaleAttr (isLive item) ++ Q " />
    </pattern>".

Definition collagePatterns (items : list CollageItem) : list string :=
  mapi collagePattern items.

Record Geometry := {
  tag : string;
  attrs : string
}.

Definition geometries (count : nat) : list Geometry :=
  if (count =? 2)%nat then
    [ {| tag := "rect"; attrs := Q "x='0' y='0' width='50' height='100'" |};
      {| tag := "rect"; attrs := Q "x='50' y='0' width='50' height='100'" |} ]
  else if (count =? 3)%nat then
    [ {| tag := "polygon"; attrs := Q "points='50,50 0,17 0,0 100,0 100,17'" |};
      {| tag := "polygon"; attrs := Q "points='50,50 100,17 100,100 50,100'" |};
      {| tag := "polygon"; attrs := Q "points='50,50 50,100 0,100 0,17'" |} ]
  else
    [ {| tag := "rect"; attrs := Q "x='0' y='0' width='50' height='50'" |};
      {| tag := "rect"; attrs := Q "x='50' y='0' width='50' height='50'" |};
      {| tag := "rect"; attrs := Q "x='0' y='50' width='50' height='50'" |};
      {| tag := "rect"; attrs := Q "x='50' y='50' width='50' height='50'" |} ].

Definition separators (count : nat) : string :=
  if (count =? 2)%nat then
    Q "<line x1='50' y1='0' x2='50' y2='100' stroke='black' stroke-width='2' />"
  else if (count =? 3)%nat then
    Q "
            <line x1='50' y1='50' x2='0' y2='17' stroke='black' stroke-width='2' />
            <line x1='50' y1='50' x2='100' y2='17' stroke='black' stroke-width='2' />
            <line x1='50' y1='50' x2='50' y2='100' stroke='black' stroke-width='2' />
        "
  else
    Q "
            <line x1='50' y1='0' x2='50' y2='100' stroke='black' stroke-width='2' />
            <line x1='0' y1='50' x2='100' y2='50' stroke='black' stroke-width='2' />
        ".

Definition clipDef (geo : Geometry) (i : nat) : string :=
  Q "<clipPath id='clip" ++ nat_str i ++ Q "'><" ++ tag geo ++ " " ++ attrs geo
  ++ " /></clipPath>".

Definition clipDefs (count : nat) : list string := mapi clipDef (geometries count).

Definition imageShape (items : list CollageItem) (geo : Geometry) (i : nat) : string :=
  let fill :=
    match nth_error items i with
    | Some item => if isFlashing item then "#53fc18" else "url(#pat" ++ nat_str i ++ ")"
    | None => "url(#pat" ++ nat_str i ++ ")"
    end in
  "<" ++ tag geo ++ " " ++ attrs geo ++ Q " fill='" ++ fill ++ Q "' />".

Definition imageShapes (items : list CollageItem) : list string :=
  mapi (imageShape items) (geometries (List.length items)).

(** The [d] attributes of the tile borders.  [z] prints an integer constant,
    [h] one counted in halves. *)
Definition borderPaths (count : nat) : list string :=
  let z := Z_str in
  let h := halves_str in
  let R := z BORDER_RADIUS ++ "," ++ z BORDER_RADIUS in
  if (count =? 2)%nat then
    [ "M " ++ h CENTER_X_LEFT_h ++ "," ++ z PATH_MIN ++ " L " ++ z ARC_START ++ "," ++ z PATH_MIN
      ++ " A " ++ R ++ " 0 0 0 " ++ z PATH_MIN ++ "," ++ z ARC_START
      ++ " L " ++ z PATH_MIN ++ "," ++ z ARC_END
      ++ " A " ++ R ++ " 0 0 0 " ++ z ARC_START ++ "," ++ z PATH_MAX
      ++ " L " ++ h CENTER_X_LEFT_h ++ "," ++ z PATH_MAX;
      "M " ++ h CENTER_X_RIGHT_h ++ "," ++ z PATH_MIN ++ " L " ++ z ARC_END ++ "," ++ z PATH_MIN
      ++ " A " ++ R ++ " 0 0 1 " ++ z PATH_MAX ++ "," ++ z ARC_START
      ++ " L " ++ z PATH_MAX ++ "," ++ z ARC_END
      ++ " A " ++ R ++ " 0 0 1 " ++ z ARC_END ++ "," ++ z PATH_MAX
      ++ " L " ++ h CENTER_X_RIGHT_h ++ "," ++ z PATH_MAX ]
  else if (count =? 3)%nat then
    [ "M " ++ z PATH_MIN ++ "," ++ h TOP_JUNCTION_Y_h
      ++ " A " ++ R ++ " 0 0 1 " ++ z ARC_START ++ "," ++ z PATH_MIN
      ++ " L " ++ z ARC_END ++ "," ++ z PATH_MIN
      ++ " A " ++ R ++ " 0 0 1 " ++ z PATH_MAX ++ "," ++ h TOP_JUNCTION_Y_h;
      "M " ++ z PATH_MAX ++ "," ++ h SIDE_JUNCTION_Y_h
      ++ " L " ++ z PATH_MAX ++ "," ++ z ARC_END
      ++ " A " ++ R ++ " 0 0 1 " ++ z ARC_END ++ "," ++ z PATH_MAX
      ++ " L " ++ h CENTER_X_RIGHT_h ++ "," ++ z PATH_MAX;
      "M " ++ h CENTER_X_LEFT_h ++ "," ++ z PATH_MAX
      ++ " L " ++ z ARC_START ++ "," ++ z PATH_MAX
      ++ " A " ++ R ++ " 0 0 1 " ++ z PATH_MIN ++ "," ++ z ARC_END
      ++ " L " ++ z PATH_MIN ++ "," ++ h SIDE_JUNCTION_Y_h ]
  else
    [ "M " ++ h CENTER_X_LEFT_h ++ "," ++ z PATH_MIN ++ " L " ++ z ARC_START ++ "," ++ z PATH_MIN
      ++ " A " ++ R ++ " 0 0 0 " ++ z PATH_MIN ++ "," ++ z ARC_START
      ++ " L " ++ z PATH_MIN ++ "," ++ h CENTER_Y_TOP_h;
      "M " ++ h CENTER_X_RIGHT_h ++ "," ++ z PATH_MIN ++ " L " ++ z ARC_END ++ "," ++ z PATH_MIN
      ++ " A " ++ R ++ " 0 0 1 " ++ z PATH_MAX ++ "," ++ z ARC_START
      ++ " L " ++ z PATH_MAX ++ "," ++ h CENTER_Y_TOP_h;
      "M " ++ z PATH_MIN ++ "," ++ h CENTER_Y_BOTTOM_h ++ " L " ++ z PATH_MIN ++ "," ++ z ARC_END
      ++ " A " ++ R ++ " 0 0 0 " ++ z ARC_START ++ "," ++ z PATH_MAX
      ++ " L " ++ h CENTER_X_LEFT_h ++ "," ++ z PATH_MAX;
      "M " ++ z PATH_MAX ++ "," ++ h CENTER_Y_BOTTOM_h ++ " L " ++ z PATH_MAX ++ "," ++ z ARC_END
      ++ " A " ++ R ++ " 0 0 1 " ++ z ARC_END ++ "," ++ z PATH_MAX
      ++ " L " ++ h CENTER_X_RIGHT_h ++ "," ++ z PATH_MAX ].

Definition borderOf (paths : list string) (item : CollageItem) (i : nat) : string :=
  match nth_error paths i with
  | Some d =>
      if truthy d then
        Q "<path d='" ++ d ++ Q "' fill='none' stroke='" ++ borderColorOf (isLive item)
        ++ Q "' stroke-width='2' />"
      else ""
  | None => ""
  end.

Definition borders (items : list CollageItem) : list string :=
  mapi (borderOf (borderPaths (List.length items))) (firstn 4 items).

Definition flashSquareSvg : string :=
  Q "<?xml version='1.0' encoding='UTF-8'?>
<svg xmlns='http://www.w3.org/2000/svg' viewBox='0 0 100 100'>
  <rect width='100' height='100' fill='#53fc18' rx='15' ry='15' />
</svg>".

(** The SVG text of [generateCollageSvg] (lines 339-361). *)
Definition collageSvg (items : list CollageItem) (textOverlay : option TextOverlay)
  : string :=
  Q "<?xml version='1.0' encoding='UTF-8'?>
<svg xmlns='http://www.w3.org/2000/svg' viewBox='0 0 100 100'>
  <defs>
    <filter id='grayscale'>
      <feColorMatrix type='matrix' values='0.2126 0.7152 0.0722 0 0 0.2126 0.7152 0.0722 0 0 0.2126 0.7152 0.0722 0 0 0 0 0 1 0' />
    </filter>
    <clipPath id='mainClip'>
      <rect x='1' y='1' width='98' height='98' rx='15' ry='15' />
    </clipPath>
    " ++ join NL (collagePatterns items) ++ "
    " ++ join NL (clipDefs (List.length items)) ++ Q "
  </defs>
  
  <rect width='100' height='100' fill='#000' />
  
  <g clip-path='url(#mainClip)'>
    " ++ join NL (imageShapes items) ++ "
    " ++ separators (List.length items) ++ "
  </g>
  
  " ++ join NL (borders items) ++ "
  " ++ renderTextOverlay textOverlay ++ "
</svg>".

(** [generateCollageSvg] (lines 219-364); only the single-tile case goes through the
    cache. *)
Definition generateCollageSvg (items : list CollageItem)
           (textOverlay : option TextOverlay) (now : Z) (imageCache : ImageCache)
  : string * ImageCache :=
  match items with
  | [] => ("", imageCache)
  | [item] =>
      if isFlashing item then (dataUri flashSquareSvg, imageCache)
      else getProcessedImage (image item) (isLive item) textOverlay now imageCache
  | _ => (dataUri (collageSvg items textOverlay), imageCache)
  end.

End WithRuntime.

End ImageUtils.

(* ================================================================== *)
(** ** src/actions/kickStatus.ts and src/actions/live-status-action.ts *)
(* ================================================================== *)

Module Monitor.

Import ImageUtils.

Inductive ResultStatus := live | offline | error | not_found.

(** [ActionState.lastStatus] adds ["unknown"], the value before the first
    refresh. *)
Inductive LastStatus := unknown | known (s : ResultStatus).

Definition status_eqb (a b : ResultStatus) : bool :=
  match a, b with
  | live, live | offline, offline | error, error | not_found, not_found => true
  | _, _ => false
  end.

Definition status_str (s : ResultStatus) : string :=
  match s with
  | live => "live"
  | offline => "offline"
  | error => "error"
  | not_found => "not_found"
  end.

Record StatusResult := {
  isLive : bool;
  status : ResultStatus;
  displayName : option string;
  thumbnailUrl : option string;
  base64Image : option string;
  rawBase64Image : option string;
  viewerCount : option Z;
  title : option string;
  category : option string
}.

(** [KickChannelStatus] of [kickOfficialApi.ts]. *)
Record KickChannelStatus := {
  cs_isLive : bool;
  cs_displayName : string;
  cs_profileImageUrl : option string;
  cs_liveStatusText : option string;
  cs_viewerCount : option Z;
  cs_category : option string
}.

(** What the world answers to one [checkStreamerStatus]: [fetchChannelStatus]
    throws, finds no channel, or returns a channel; [localImage] is then the
    data URI read from the downloaded profile image, when there is one. *)
Inductive ChannelFetch :=
| FetchFails
| ChannelMissing
| ChannelFound (cs : KickChannelStatus) (localImage : option string).

Definition optEqb (a b : option string) : bool :=
  match a, b with
  | Some x, Some y => x =? y
  | None, None => true
  | _, _ => false
  end.

(** A [Set<string>], in insertion order. *)
Definition StringSet := list string.

Definition set_has (x : string) (s : StringSet) : bool := existsb (String.eqb x) s.

Definition set_add (x : string) (s : StringSet) : StringSet :=
  if set_has x s then s else (s ++ [x])%list.

(** The timers are known by whether they are armed. *)
Record ActionState := {
  channels : list string;
  pollTimer : bool;
  lastStatus : LastStatus;
  alertEndTime : Z;
  keyDownTime : Z;
  alertTimer : bool;
  lastResult : option StatusResult;
  alertToggleState : bool;
  multiResults : option (list StatusResult);
  alertingChannels : StringSet
}.

(** [getState] on a context seen for the first time. *)
Definition initialState : ActionState :=
  {| channels := []; pollTimer := false; lastStatus := unknown; alertEndTime := 0;
     keyDownTime := 0; alertTimer := false; lastResult := None;
     alertToggleState := false; multiResults := None; alertingChannels := [] |}.

Inductive Timer := Poll | Alert.

(** What a handler asks of the host, in order. *)
Inductive Effect :=
| SetTitle (text : string)
| SetImage (image : string)
| ClearInterval (t : Timer)
| SetInterval (t : Timer) (ms : Z).

Definition RED : string := "imgs/actions/red.png".
Definition GREEN : string := "imgs/actions/green.png".

(** The one-pixel placeholder of the collage. *)
Definition placeholder : string :=
  "data:image/png;base64,iVBORw0KGgoAAAANSUhEUgAAAAEAAAABCAQAAAC1HAwCAAAAC0lEQVR42mNkYAAAAAYAAjCB0C8AAAAASUVORK5CYII=".

(** [parseChannels] (lines 137-141): the channel list [configureChannel] computes from the
    setting. *)
Definition parseChannels (channelValue : option string) : list string :=
  firstn 4
    (filter (fun c => (0 <? String.length c)%nat)
       (map trim (split_on ","%char
                    (match channelValue with Some v => v | None => "" end)))).

(** The transition check of [refresh] (the block that fills
    [newAlertingChannels]), on the state as it is after [multiResults] has
    been replaced. *)
Definition transitionAt (chs : list string) (oldMultiResults newMultiResults : list StatusResult)
           (acc : StringSet) (newR : StatusResult) (index : nat) : StringSet :=
  let indicesAligned :=
    (List.length oldMultiResults =? List.length newMultiResults)%nat
    && (List.length chs =? List.length newMultiResults)%nat in
  let oldR :=
    if indicesAligned then nth_error oldMultiResults index
    else find (fun o => optEqb (displayName o) (displayName newR)) oldMultiResults in
  let stableIdentifier :=
    if indicesAligned then nth_error chs index else displayName newR in
  match oldR, stableIdentifier with
  | Some o, Some id =>
      if negb (isLive o) && isLive newR && truthy id then set_add id acc else acc
  | _, _ => acc
  end.

Fixpoint forEach_from {A T : Type} (f : T -> A -> nat -> T) (i : nat) (l : list A) (s : T) : T :=
  match l with
  | [] => s
  | x :: l' => forEach_from f (S i) l' (f s x i)
  end.

Definition detectTransitions (chs : list string) (last : LastStatus)
           (oldMultiResults newMultiResults : option (list StatusResult))
           (result : StatusResult) : StringSet :=
  match oldMultiResults, newMultiResults with
  | Some old, Some new =>
      forEach_from (transitionAt chs old new) 0 new []
  | _, _ =>
      match chs, last with
      | [c], known offline => if status_eqb (status result) live then [c] else []
      | _, _ => []
      end
  end.

Definition sumViewers (rs : list StatusResult) : Z :=
  fold_left (fun acc r => (acc + match viewerCount r with
                                 | Some v => v
                                 | None => 0
                                 end)%Z) rs 0%Z.

(** [liveResults.map(r => r.displayName).join("\n")]: an absent name joins
    as the empty string. *)
Definition liveNames (rs : list StatusResult) : string :=
  join NL (map (fun r => match displayName r with Some d => d | None => "" end)
               (filter isLive rs)).

Definition firstTruthy (a b : option string) : option string :=
  if truthyOpt a then a else b.

(** The words of the properties: a well-formed configured channel; index
    alignment; a channel that was not live at a position and is live now; an
    alert cycle started by a handler; a result that is plainly offline, or
    plainly live. *)
Definition nonEmpty (c : string) : bool := (0 <? String.length c)%nat.

Definition wellFormedChannel (c : string) : Prop :=
  c <> "" /\ startsWs c = false /\ endsWs c = false /\ occurs ","%char c = false.



Definition alertStarted (fx : list Effect) : Prop := In (SetInterval Alert 1000) fx.



Section WithRuntime.

Variable toBase64 : string -> string.
Variable renderTextOverlay : option TextOverlay -> string.

(** The answers of the world during one handler: the channel fetch of the
    [i]-th call of [checkStreamerStatus], for the slug it asks. *)
Variable fetch : nat -> string -> ChannelFetch.

(** [Date.now()] during the handler. *)
Variable now : Z.

Definition plain (s : ResultStatus) (name : option string) : StatusResult :=
  {| isLive := false; status := s; displayName := name; thumbnailUrl := None;
     base64Image := None; rawBase64Image := None; viewerCount := None;
     title := None; category := None |}.

(** [buildStatusResult] (kickStatus.ts, lines 61-93). *)
Definition buildStatusResult (cs : KickChannelStatus) (localImage : option string)
           (cache : ImageCache) : StatusResult * ImageCache :=
  let rawBase64Image :=
    if truthyOpt (cs_profileImageUrl cs) then localImage else None in
  let '(displayImage, cache') :=
    match rawBase64Image with
    | Some raw =>
        if truthy raw then
          let '(img, c) :=
            getProcessedImage toBase64 renderTextOverlay raw (cs_isLive cs) None now cache in
          (Some img, c)
        else (None, cache)
    | None => (None, cache)
    end in
  ({| isLive := cs_isLive cs;
      status := if cs_isLive cs then live else offline;
      displayName := Some (cs_displayName cs);
      thumbnailUrl := match displayImage with
                      | Some i => Some i
                      | None => cs_profileImageUrl cs
                      end;
      base64Image := displayImage;
      rawBase64Image := rawBase64Image;
      viewerCount := cs_viewerCount cs;
      title := cs_liveStatusText cs;
      category := cs_category cs |}, cache').

(** [checkStreamerStatus] (kickStatus.ts, lines 22-59); it catches whatever
    the fetch throws. *)
Definition checkStreamerStatus (i : nat) (username : string) (cache : ImageCache)
  : StatusResult * ImageCache :=
  let channel := trim username in
  if negb (truthy channel) then (plain error None, cache)
  else
    match fetch i channel with
    | FetchFails => (plain error (Some channel), cache)
    | ChannelMissing => (plain not_found (Some channel), cache)
    | ChannelFound cs localImage => buildStatusResult cs localImage cache
    end.

(** [Promise.all(state.channels.map(...))]: the calls, here completed in
    the order of the channels. *)
Fixpoint checkAll (i : nat) (chs : list string) (cache : ImageCache)
  : list StatusResult * ImageCache :=
  match chs with
  | [] => ([], cache)
  | c :: chs' =>
      let '(r, cache1) := checkStreamerStatus i c cache in
      let '(rs, cache2) := checkAll (S i) chs' cache1 in
      (r :: rs, cache2)
  end.

Definition collageItemOf (flashing : StatusResult -> bool) (r : StatusResult) : CollageItem :=
  {| image := orElse (rawBase64Image r) placeholder;
     ImageUtils.isLive := isLive r;
     isFlashing := flashing r |}.

(** The fallback of [render]: [imageSource], or the static indicator when
    there is none ([!imageSource]). *)
Definition indicatorOr (imageSource : option string) (result : StatusResult) : string :=
  if truthyOpt imageSource then match imageSource with Some i => i | None => "" end
  else if isLive result then GREEN else RED.

(** [render] (live-status-action.ts, lines 357-431), from the state it
    reads. *)
Definition render (result : StatusResult) (isAlerting : bool) (state : ActionState)
           (cache : ImageCache) : list Effect * ImageCache :=
  let finish (titleText : string) (imageSource : option string) (cache : ImageCache) :=
    let '(img, cache') :=
      if isAlerting && alertToggleState state then
        match multiResults state with
        | Some rs =>
            if (1 <? List.length (channels state))%nat then
              let items :=
                map (collageItemOf (fun r =>
                       match displayName r with
                       | Some d => truthy d && set_has d (alertingChannels state)
                       | None => false
                       end)) rs in
              let names := if existsb isLive rs then liveNames rs else "" in
              generateCollageSvg toBase64 renderTextOverlay items
                (Some {| ImageUtils.title := names; subtitle := None |}) now cache
            else (GREEN, cache)
        | None => (GREEN, cache)
        end
      else (indicatorOr imageSource result, cache) in
    ([SetTitle titleText; SetImage img], cache') in
  if (1 <? List.length (channels state))%nat then
    finish "" (base64Image result) cache
  else
    let name :=
      match displayName result with
      | Some d => d
      | None => match channels state with
                | c :: _ => c
                | [] => "Unknown"
                end
      end in
    if status_eqb (status result) error || negb (truthyOpt (displayName result)) then
      ([SetTitle (orElse (nth_error (channels state) 0) "Unknown" ++ NL ++ "Not Found");
        SetImage RED], cache)
    else if negb (status_eqb (status result) live) then
      let statusText :=
        if status_eqb (status result) not_found then "NOT FOUND"
        else toUpperCase (status_str (status result)) in
      finish (name ++ NL ++ statusText) (base64Image result) cache
    else
      match rawBase64Image result with
      | Some raw =>
          if truthy raw then
            let category := orElse (category result) "Live" in
            let wrapped := match TextUtils.wrapText category 15 with
                           | Some w => w
                           | None => category
                           end in
            let '(img, cache') :=
              getProcessedImage toBase64 renderTextOverlay raw true
                (Some {| ImageUtils.title := name; subtitle := Some wrapped |}) now cache in
            finish "" (Some img) cache'
          else finish "" (base64Image result) cache
      | None => finish "" (base64Image result) cache
      end.

(** [clearTimers] (lines 173-182) and [startPolling] (lines 161-171). *)
Definition clearTimers (state : ActionState) : ActionState * list Effect :=
  ({| channels := channels state; pollTimer := false; lastStatus := lastStatus state;
      alertEndTime := alertEndTime state; keyDownTime := keyDownTime state;
      alertTimer := false; lastResult := lastResult state;
      alertToggleState := alertToggleState state;
      multiResults := multiResults state;
      alertingChannels := alertingChannels state |},
   ((if pollTimer state then [ClearInterval Poll] else [])
    ++ (if alertTimer state then [ClearInterval Alert] else []))%list).

Definition startPolling (state : ActionState) : ActionState * list Effect :=
  ({| channels := channels state; pollTimer := true; lastStatus := lastStatus state;
      alertEndTime := alertEndTime state; keyDownTime := keyDownTime state;
      alertTimer := alertTimer state; lastResult := lastResult state;
      alertToggleState := alertToggleState state;
      multiResults := multiResults state;
      alertingChannels := alertingChannels state |},
   ((if pollTimer state then [ClearInterval Poll] else []) ++ [SetInterval Poll 60000])%list).

(** [state.alertingChannels = newAlertingChannels] (line 317) followed by
    [startAlert]. *)
Definition startAlert (newAlertingChannels : StringSet) (state : ActionState)
  : ActionState * list Effect :=
  ({| channels := channels state; pollTimer := pollTimer state;
      lastStatus := lastStatus state;
      alertEndTime := now + 60000; keyDownTime := keyDownTime state;
      alertTimer := true; lastResult := lastResult state;
      alertToggleState := true;
      multiResults := multiResults state;
      alertingChannels := newAlertingChannels |},
   ((if alertTimer state then [ClearInterval Alert] else []) ++ [SetInterval Alert 1000])%list).

Definition setMultiResults (rs : list StatusResult) (state : ActionState) : ActionState :=
  {| channels := channels state; pollTimer := pollTimer state;
     lastStatus := lastStatus state; alertEndTime := alertEndTime state;
     keyDownTime := keyDownTime state; alertTimer := alertTimer state;
     lastResult := lastResult state; alertToggleState := alertToggleState state;
     multiResults := Some rs; alertingChannels := alertingChannels state |}.

Definition setLast (result : StatusResult) (state : ActionState) : ActionState :=
  {| channels := channels state; pollTimer := pollTimer state;
     lastStatus := known (status result); alertEndTime := alertEndTime state;
     keyDownTime := keyDownTime state; alertTimer := alertTimer state;
     lastResult := Some result; alertToggleState := alertToggleState state;
     multiResults := multiResults state; alertingChannels := alertingChannels state |}.

(** The end of [refresh], from the transition check on.  [old] is
    [oldMultiResults] and [state] already holds the new [multiResults]. *)
Definition settle (old : option (list StatusResult)) (result : StatusResult)
           (state : ActionState) (cache : ImageCache)
  : ActionState * ImageCache * list Effect :=
  let newAlertingChannels :=
    detectTransitions (channels state) (lastStatus state) old (multiResults state) result in
  let '(state1, fx1) :=
    match newAlertingChannels with
    | [] => (state, [])
    | _ => startAlert newAlertingChannels state
    end in
  let state2 := setLast result state1 in
  if alertTimer state2 then (state2, cache, fx1)
  else
    let '(fx2, cache') := render result false state2 cache in
    (state2, cache', (fx1 ++ fx2)%list).

(** The synthetic result of a multi-channel refresh. *)
Definition aggregate (validResults : list StatusResult) (cache : ImageCache)
  : StatusResult * ImageCache :=
  let anyLive := existsb isLive validResults in
  let collageItems := map (collageItemOf (fun _ => false)) validResults in
  let names0 := if existsb isLive validResults then liveNames validResults else "" in
  let names :=
    match validResults with
    | [r] => if truthy names0 then names0
             else orElse (displayName r) ""
    | _ => names0
    end in
  let '(collageSvg, cache') :=
    generateCollageSvg toBase64 renderTextOverlay collageItems
      (Some {| ImageUtils.title := names; subtitle := None |}) now cache in
  ({| isLive := anyLive;
      status := if anyLive then live else offline;
      displayName := Some names;
      thumbnailUrl := None;
      base64Image := Some collageSvg;
      rawBase64Image := None;
      viewerCount := Some (sumViewers validResults);
      title := None;
      category :=
        firstTruthy
          (match find isLive validResults with
           | Some r => category r
           | None => None
           end)
          (match validResults with
           | r :: _ => category r
           | [] => None
           end) |}, cache').

(** [refresh] (lines 184-334).  The [catch] of its [try] is not reached:
    [checkStreamerStatus] does not throw, and the host's [setTitle] and
    [setImage] are taken to succeed. *)
Definition refresh (state : ActionState) (cache : ImageCache)
  : ActionState * ImageCache * list Effect :=
  match channels state with
  | [] => (state, cache, [])
  | [channel] =>
      let oldMultiResults := multiResults state in
      let '(result, cache1) := checkStreamerStatus 0 channel cache in
      settle oldMultiResults result (setMultiResults [result] state) cache1
  | chs =>
      let oldMultiResults := multiResults state in
      let '(allResults, cache1) := checkAll 0 chs cache in
      let validResults :=
        filter (fun r => negb (status_eqb (status r) not_found)) allResults in
      match validResults, allResults with
      | [], _ :: _ => (state, cache1, [SetImage RED; SetTitle "Not Found"])
      | _, _ =>
          let state1 := setMultiResults validResults state in
          let '(result, cache2) := aggregate validResults cache1 in
          settle oldMultiResults result state1 cache2
      end
  end.

Definition setChannels (chs : list string) (state : ActionState) : ActionState :=
  {| channels := chs; pollTimer := pollTimer state;
     lastStatus := lastStatus state; alertEndTime := alertEndTime state;
     keyDownTime := keyDownTime state; alertTimer := alertTimer state;
     lastResult := lastResult state; alertToggleState := alertToggleState state;
     multiResults := multiResults state; alertingChannels := alertingChannels state |}.

(** [configureChannel] (lines 130-159). *)
Definition configureChannel (channelValue : option string) (state : ActionState)
           (cache : ImageCache) : ActionState * ImageCache * list Effect :=
  let chs := parseChannels channelValue in
  match chs with
  | [] =>
      let '(state1, fx) := clearTimers (setChannels [] state) in
      (state1, cache, (fx ++ [SetTitle "No Channel"; SetImage RED])%list)
  | _ =>
      if (join "," chs =? join "," (channels state)) && pollTimer state then
        (state, cache, [])
      else
        let '(state1, cache1, fx1) := refresh (setChannels chs state) cache in
        let '(state2, fx2) := startPolling state1 in
        (state2, cache1, (fx1 ++ fx2)%list)
  end.

(** One tick of the alert timer armed by [startAlert]. *)
Definition alertTick (state : ActionState) (cache : ImageCache)
  : ActionState * ImageCache * list Effect :=
  let withAlert (armed toggle : bool) :=
    {| channels := channels state; pollTimer := pollTimer state;
       lastStatus := lastStatus state; alertEndTime := alertEndTime state;
       keyDownTime := keyDownTime state; alertTimer := armed;
       lastResult := lastResult state; alertToggleState := toggle;
       multiResults := multiResults state;
       alertingChannels := alertingChannels state |} in
  if (alertEndTime state <? now)%Z then
    let state1 := withAlert false (alertToggleState state) in
    let fx0 := if alertTimer state then [ClearInterval Alert] else [] in
    match lastResult state with
    | Some r => let '(fx, cache') := render r false state1 cache in
                (state1, cache', (fx0 ++ fx)%list)
    | None => (state1, cache, fx0)
    end
  else
    let state1 := withAlert (alertTimer state) (negb (alertToggleState state)) in
    match lastResult state with
    | Some r => let '(fx, cache') := render r true state1 cache in
                (state1, cache', fx)
    | None => (state1, cache, [])
    end.

End WithRuntime.

End Monitor.

(* ================================================================== *)
(** ** Further primitives of the runtime *)
(* ================================================================== *)

Module JsData.

(** [toLowerCase] on the code units below 256: the letters A-Z and the
    Latin-1 capitals from U+00C0 to U+00DE, the multiplication sign U+00D7
    excepted, move up by 32; nothing else changes. *)
Definition lower_ascii (c : ascii) : ascii :=
  let n := nat_of_ascii c in
  if ((65 <=? n) && (n <=? 90))%nat
     || ((192 <=? n) && (n <=? 222) && negb (n =? 215))%nat
  then ascii_of_nat (n + 32) else c.

Fixpoint toLowerCase (s : string) : string :=
  match s with
  | EmptyString => EmptyString
  | String c r => String (lower_ascii c) (toLowerCase r)
  end.

(** [s.replace(/[...]/g, f)] for a character class: every character of the
    class is replaced by what [f] gives for it. *)
Fixpoint replaceClass (class : ascii -> bool) (f : ascii -> string) (s : string)
  : string :=
  match s with
  | EmptyString => EmptyString
  | String c r =>
      (if class c then f c else String c EmptyString) ++ replaceClass class f r
  end.

(** A [Map] with string keys that is only read by key: the list of its
    entries, no key twice. *)
Section StringMap.

Context {V : Type}.

Fixpoint get (k : string) (m : list (string * V)) : option V :=
  match m with
  | [] => None
  | (k', v) :: m' => if k' =? k then Some v else get k m'
  end.

Fixpoint set (k : string) (v : V) (m : list (string * V)) : list (string * V) :=
  match m with
  | [] => [(k, v)]
  | (k', v') :: m' => if k' =? k then (k', v) :: m' else (k', v') :: set k v m'
  end.

Definition delete (k : string) (m : list (string * V)) : list (string * V) :=
  filter (fun p => negb (fst p =? k)) m.

End StringMap.

End JsData.

(* ================================================================== *)
(** ** src/utils/imageUtils.ts: the text of the overlay, the image files *)
(* ================================================================== *)

Module XmlEscape.

Import JsData.

Definition APOS : ascii := ascii_of_nat 39.
Definition QUOT : ascii := ascii_of_nat 34.

(** [ESCAPE_XML_MAP] (imageUtils.ts, lines 151-157); [None] is the
    [undefined] of a key the record does not have. *)
Definition ESCAPE_XML_MAP (c : ascii) : option string :=
  if Ascii.eqb c "<" then Some "&lt;"
  else if Ascii.eqb c ">" then Some "&gt;"
  else if Ascii.eqb c "&" then Some "&amp;"
  else if Ascii.eqb c APOS then Some "&apos;"
  else if Ascii.eqb c QUOT then Some "&quot;"
  else None.

(** The class of the regular expression of [escapeXml]. *)
Definition special (c : ascii) : bool :=
  Ascii.eqb c "<" || Ascii.eqb c ">" || Ascii.eqb c "&"
  || Ascii.eqb c APOS || Ascii.eqb c QUOT.

(** [escapeXml] (lines 159-161). *)
Definition escapeXml (unsafe : string) : string :=
  replaceClass special
    (fun c => match ESCAPE_XML_MAP c with
              | Some e => e
              | None => String c EmptyString
              end) unsafe.

(** The characters that open or close markup or an attribute value. *)
Definition markup (c : ascii) : bool :=
  Ascii.eqb c "<" || Ascii.eqb c ">" || Ascii.eqb c APOS || Ascii.eqb c QUOT.

(** What one character becomes, and the six shapes it can have. *)
Definition escapeChar (c : ascii) : string :=
  if special c then match ESCAPE_XML_MAP c with
                    | Some e => e
                    | None => String c ""
                    end
  else String c "".

Inductive Shape (c : ascii) : string -> Prop :=
| ShapeLt : c = "<"%char -> Shape c "&lt;"
| ShapeGt : c = ">"%char -> Shape c "&gt;"
| ShapeAmp : c = "&"%char -> Shape c "&amp;"
| ShapeApos : c = APOS -> Shape c "&apos;"
| ShapeQuot : c = QUOT -> Shape c "&quot;"
| ShapeSelf : special c = false -> Shape c (String c "").

End XmlEscape.

Module ProfileImage.

Import JsData.

(** The class [[a-z0-9_-]] under the [i] flag: letters of either case,
    digits, the underscore and the hyphen. *)
Definition safeChar (c : ascii) : bool :=
  let n := nat_of_ascii c in
  ((97 <=? n) && (n <=? 122) || (65 <=? n) && (n <=? 90)
   || (48 <=? n) && (n <=? 57) || (n =? 95) || (n =? 45))%nat.

(** [slug.replace(/[^a-z0-9_-]/gi, "_")] (line 55). *)
Definition safeSlug (slug : string) : string :=
  replaceClass (fun c => negb (safeChar c)) (fun _ => "_") slug.

(** [url.split("?")[0]?.split(".").pop()?.toLowerCase() || "jpg"]
    (line 53). *)
Definition extOf (url : string) : string :=
  let beforeQuery := hd EmptyString (split_on "?" url) in
  orElse (Some (toLowerCase (last (split_on "." beforeQuery) EmptyString))) "jpg".

Definition fileName (slug url : string) : string :=
  safeSlug slug ++ "." ++ extOf url.

(** What the world answers to the download of [getLocalProfileImage]. *)
Inductive Download :=
| RequestFails
| NotOk (status : nat)
| BodyFails
| Body (bytes : string).

Inductive FileEffect :=
| Mkdir (dir : string)
| Access (path : string)
| Request (url : string)
| WriteFile (path : string) (bytes : string).

Section WithFiles.

(** [path.resolve(currentDir, CACHE_DIR_NAME)] and [path.join]. *)
Variable cacheDir : string.
Variable pathJoin : string -> string -> string.

(** The files [fs.access] finds, the answer to a request, the paths
    [fs.writeFile] can write. *)
Variable accessible : string -> bool.
Variable download : string -> Download.
Variable writable : string -> bool.

(** [getLocalProfileImage] (lines 41-86): the path it returns and what it
    asked of the file system and the network.  A failure of [mkdir] is
    logged and has no other consequence. *)
Definition getLocalProfileImage (slug url : string)
  : option string * list FileEffect :=
  let filePath := pathJoin cacheDir (fileName slug url) in
  let before := [Mkdir cacheDir; Access filePath] in
  if accessible filePath then (Some filePath, before)
  else
    match download url with
    | Body bytes =>
        if writable filePath
        then (Some filePath, (before ++ [Request url; WriteFile filePath bytes])%list)
        else (None, (before ++ [Request url; WriteFile filePath bytes])%list)
    | _ => (None, (before ++ [Request url])%list)
    end.

Definition requested (fx : list FileEffect) : list string :=
  flat_map (fun e => match e with Request u => [u] | _ => [] end) fx.

Definition written (fx : list FileEffect) : list string :=
  flat_map (fun e => match e with WriteFile p _ => [p] | _ => [] end) fx.

End WithFiles.

End ProfileImage.

(* ================================================================== *)
(** ** src/auth/tokenManager.ts: the access token *)
(* ================================================================== *)

Module TokenAccess.

Import TokenManager.

Definition TOKEN_EXPIRY_SKEW_SECONDS : Z := 60.

(** [shouldRefreshToken] (lines 86-94); [now] is [Date.now()], in
    milliseconds. *)
Definition shouldRefreshToken (tokens : TokenEndpointResponse) (now : Z) : bool :=
  match expires_at tokens with
  | None => false
  | Some expiresAt =>
      if (expiresAt =? 0)%Z then false
      else (expiresAt - TOKEN_EXPIRY_SKEW_SECONDS <=? now / 1000)%Z
  end.

(** [assertAccessToken] (lines 78-84). *)
Definition assertAccessToken (tokens : TokenEndpointResponse) : JsError + string :=
  let missing :=
    KickCredentialsMissingError
      "Kick credentials missing access token. Re-run the auth helper." in
  match access_token tokens with
  | Some a => if truthy a then inr a else inl missing
  | None => inl missing
  end.

(** What the runtime answers to one refresh, when nothing else runs between
    its [await]s: the response of the worker, its body and the time it is
    read at, and the result of the save. *)
Record RefreshAnswers := {
  fetched : FetchResult;
  body : JsonResult;
  bodyTime : Z;
  stored : SaveResult
}.

(** What the runtime answers during one call: the credentials the storage
    loads (or the error it throws), the time [shouldRefreshToken] reads,
    the answers to the refresh, and the error the storage throws when it
    deletes, if any. *)
Record Answers := {
  loaded : JsError + Credentials;
  clock : Z;
  refreshAnswers : RefreshAnswers;
  deleted : option JsError
}.

(** The calls made to the credential storage, besides the saves the state
    records. *)
Inductive StorageCall :=
| LoadCredentials
| DeleteCredentials.

(** The asynchronous closure of [refreshTokens] (lines 105-134) run to its
    end: what its promise settles with, and the merged tokens once the body
    has been read. *)
Definition flightResult (currentTokens : TokenEndpointResponse) (w : RefreshAnswers)
  : Settlement * option TokenEndpointResponse :=
  match fetched w with
  | NetworkFailure e => (Rejected e, None)
  | HttpResponse false statusText =>
      (Rejected (Error ("Token refresh failed: " ++ statusText)), None)
  | HttpResponse true _ =>
      match body w with
      | JsonFailure e => (Rejected e, None)
      | JsonValue refreshed =>
          let mergedTokens := mergeTokens refreshed currentTokens (bodyTime w) in
          (match stored w with
           | SaveOk => Fulfilled (Some mergedTokens)
           | SaveFailed e => Rejected e
           end, Some mergedTokens)
      end
  end.

(** [refreshTokens] (lines 96-146) called while no refresh is in flight and
    run to its end before anything else: the state it leaves and what it
    returns or throws. *)
Definition refreshTokensAlone (credentials : Credentials)
           (currentTokens : TokenEndpointResponse) (w : RefreshAnswers) (s : State)
  : State * (JsError + TokenEndpointResponse) :=
  if negb (truthyOpt (refresh_token currentTokens)) then
    let e := KickCredentialsMissingError
               "Kick credentials missing refresh token. Re-run the auth helper CLI." in
    (addCaller s {| joined := None; outcome := Some (inl e) |}, inl e)
  else
    let p := List.length (flights s) in
    let '(r, merged) := flightResult currentTokens w in
    ({| cachedCredentials :=
          match merged with
          | Some m => Some (withTokens credentials m)
          | None => cachedCredentials s
          end;
        cachedTokens :=
          match merged with
          | Some m => Some m
          | None => cachedTokens s
          end;
        refreshInFlight := None;
        flights := (flights s ++ [Settled r])%list;
        requests := (requests s ++ [refresh_token currentTokens])%list;
        saved :=
          match merged with
          | Some m => (saved s ++ [withTokens credentials m])%list
          | None => saved s
          end;
        callers :=
          (callers s ++ [{| joined := Some p; outcome := Some (awaited r) |}])%list |},
     awaited r).

(** The same call as a schedule of the transition system. *)
Definition soleCaller (credentials : Credentials) (currentTokens : TokenEndpointResponse)
           (w : RefreshAnswers) (s : State) : list Event :=
  let p := List.length (flights s) in
  let c := List.length (callers s) in
  if negb (truthyOpt (refresh_token currentTokens)) then [Call credentials currentTokens]
  else
    (Call credentials currentTokens :: FetchDone p (fetched w)
     :: match fetched w with
        | HttpResponse true _ =>
            JsonDone p (body w) (bodyTime w)
            :: match body w with
               | JsonValue _ => [SaveDone p (stored w)]
               | JsonFailure _ => []
               end
        | _ => []
        end ++ [Resume c])%list.

Definition setCachedCredentials (c : option Credentials) (s : State) : State :=
  {| cachedCredentials := c; cachedTokens := cachedTokens s;
     refreshInFlight := refreshInFlight s; flights := flights s;
     requests := requests s; saved := saved s; callers := callers s |}.

Definition setCachedTokens (t : option TokenEndpointResponse) (s : State) : State :=
  {| cachedCredentials := cachedCredentials s; cachedTokens := t;
     refreshInFlight := refreshInFlight s; flights := flights s;
     requests := requests s; saved := saved s; callers := callers s |}.

(** [invalidateCredentialsCache] (lines 19-22). *)
Definition invalidateCredentialsCache (s : State) : State :=
  setCachedTokens None (setCachedCredentials None s).

(** [loadCredentials] (lines 63-76). *)
Definition loadCredentials (w : Answers) (s : State)
  : (JsError + Credentials) * State * list StorageCall :=
  match cachedCredentials s with
  | Some c => (inr c, s, [])
  | None =>
      match loaded w with
      | inr c => (inr c, setCachedCredentials (Some c) s, [LoadCredentials])
      | inl _ =>
          (inl (KickCredentialsMissingError
                  "Kick credentials not found. Run `npm run auth` (or the helper script) to generate credentials.json."),
           s, [LoadCredentials])
      end
  end.

(** [ensureCredentials] (lines 39-61). *)
Definition ensureCredentials (w : Answers) (s : State)
  : (JsError + TokenEndpointResponse * Credentials) * State * list StorageCall :=
  match loadCredentials w s with
  | (inl e, s1, fx) => (inl e, s1, fx)
  | (inr credentials, s1, fx) =>
      let s2 :=
        match cachedTokens s1 with
        | Some _ => s1
        | None => setCachedTokens (tokens credentials) s1
        end in
      match cachedTokens s2 with
      | None =>
          (inl (KickCredentialsMissingError
                  "Kick credentials incomplete. Run the auth helper CLI to generate tokens."),
           s2, fx)
      | Some cached =>
          if shouldRefreshToken cached (clock w) && truthyOpt (refresh_token cached)
          then
            match refreshTokensAlone credentials cached (refreshAnswers w) s2 with
            | (s3, inl e) => (inl e, s3, fx)
            | (s3, inr t) => (inr (t, credentials), setCachedTokens (Some t) s3, fx)
            end
          else (inr (cached, credentials), s2, fx)
      end
  end.

(** [getAccessToken] (lines 29-32). *)
Definition getAccessToken (w : Answers) (s : State)
  : (JsError + string) * State * list StorageCall :=
  match ensureCredentials w s with
  | (inl e, s1, fx) => (inl e, s1, fx)
  | (inr (tokens, _), s1, fx) => (assertAccessToken tokens, s1, fx)
  end.

(** [refreshCurrentTokens] (lines 34-37); [again] answers the refresh that
    follows [ensureCredentials]. *)
Definition refreshCurrentTokens (w : Answers) (again : RefreshAnswers) (s : State)
  : (JsError + TokenEndpointResponse) * State * list StorageCall :=
  match ensureCredentials w s with
  | (inl e, s1, fx) => (inl e, s1, fx)
  | (inr (tokens, credentials), s1, fx) =>
      let '(s2, r) := refreshTokensAlone credentials tokens again s1 in
      (r, s2, fx)
  end.

(** [logout] (lines 24-27). *)
Definition logout (w : Answers) (s : State)
  : option JsError * State * list StorageCall :=
  (deleted w, invalidateCredentialsCache s, [DeleteCredentials]).

(** Tokens that expire at a given second. *)
Definition expiresAtSecond (t : TokenEndpointResponse) (e : Z) : Prop :=
  expires_at t = Some e /\ e <> 0%Z.

End TokenAccess.

(* ================================================================== *)
(** ** src/actions/kickOfficialApi.ts *)
(* ================================================================== *)

Module KickOfficialApi.

Import JsData.
Import TokenManager (JsError, KickCredentialsMissingError, Error).
Import TokenAccess (getAccessToken, refreshCurrentTokens).
Import Monitor (KickChannelStatus, Build_KickChannelStatus, cs_isLive,
                cs_displayName, cs_profileImageUrl, cs_liveStatusText,
                cs_viewerCount, cs_category).

(** A field of type [string | { url?: string | null } | null], possibly
    absent: nothing ([null], [undefined]), a string, or an object with the
    [url] it has when that is a string. *)
Inductive ImageField :=
| NoImage
| ImageString (s : string)
| ImageObject (url : option string).

(** [coalesceImageUrl] (lines 96-106). *)
Definition coalesceImageUrl (value : ImageField) : option string :=
  match value with
  | ImageString s => if (0 <? String.length s)%nat then Some s else None
  | ImageObject (Some url) => Some url
  | _ => None
  end.

(** [KickStream] and [KickChannelEntry] (lines 186-209), by the fields
    [fetchChannelStatus] reads; an optional string is [None] when it is
    absent or [null].  [entry.user?.name], [entry.user?.profile_picture],
    [entry.category?.name] and [stream.category?.name] are fields of their
    own, and [entry.slug] is [entry_slug]. *)
Record KickStream := {
  is_live : option bool;
  viewer_count : option Z;
  session_title : option string;
  session_status : option string;
  thumbnail : ImageField;
  thumbnail_url : ImageField;
  stream_category_name : option string
}.

Record KickChannelEntry := {
  entry_slug : option string;
  banner_picture : ImageField;
  stream : option KickStream;
  stream_title : option string;
  user_name : option string;
  user_profile_picture : ImageField;
  category_name : option string
}.

(** [a || b] on optional strings: [a] when it is a non-empty string, [b]
    otherwise. *)
Definition orOpt (a b : option string) : option string :=
  if truthyOpt a then a else b.

(** [a ?? b]. *)
Definition nullish (a : option string) (b : string) : string :=
  match a with
  | Some s => s
  | None => b
  end.

Definition isNull (a : option string) : bool :=
  match a with
  | Some _ => false
  | None => true
  end.

(** [stream?.f]. *)
Definition ofStream {A : Type} (stream : option KickStream) (f : KickStream -> option A)
  : option A :=
  match stream with
  | Some st => f st
  | None => None
  end.

Definition imageOfStream (stream : option KickStream) (f : KickStream -> ImageField)
  : ImageField :=
  match stream with
  | Some st => f st
  | None => NoImage
  end.

(** What the proxy knows of a channel (lines 149, 169-172), and an entry of
    [webInfoCache]. *)
Record WebInfo := {
  profileImageUrl : option string;
  username : option string
}.

Record WebCacheEntry := {
  info : WebInfo;
  timestamp : Z
}.

Definition WebInfoCache := list (string * WebCacheEntry).

Definition WEB_INFO_CACHE_TTL : Z := 60 * 60 * 1000.

(** What [res.json()] gives for the response [performAuthorizedRequest]
    returned (line 29): an error thrown, or the payload with its [data]. *)
Inductive ApiAnswer :=
| ApiThrows (e : JsError)
| ApiPayload (data : option (list KickChannelEntry)).

(** The answer of the proxy: the request or the reading of the body
    throws, the response is not ok, or the payload with
    [user?.profile_pic] and [user?.username]. *)
Inductive WebAnswer :=
| WebFails
| WebNotOk
| WebPayload (profile_pic : ImageField) (username : option string).

(** The requests sent: to the API, by the slug and the bearer token they
    carry, and to the proxy, by the slug. *)
Inductive Request :=
| GetChannels (slug bearer : string)
| GetWebChannel (slug : string).

(** A response of [fetch], by what [performAuthorizedRequest] reads of it;
    [ok] is the status being in the range 200-299. *)
Record Response := {
  status : nat;
  statusText : string
}.

Definition ok (r : Response) : bool :=
  ((200 <=? status r) && (status r <=? 299))%nat.

(** What the runtime answers during one call of [performAuthorizedRequest],
    when nothing else runs between its [await]s: the answers during the
    first [getAccessToken], the answer to the first request (which may throw),
    the answers during [refreshCurrentTokens] (during its [ensureCredentials]
    and to the refresh it then makes), the answers during the second
    [getAccessToken], and the answer to the second request. *)
Record Exchange := {
  tokenAnswers : TokenAccess.Answers;
  response : JsError + Response;
  renewalAnswers : TokenAccess.Answers;
  renewalRefresh : TokenAccess.RefreshAnswers;
  retryTokenAnswers : TokenAccess.Answers;
  retryResponse : JsError + Response
}.

(** The end of [performAuthorizedRequest] (lines 136-146). *)
Definition checked (response : Response) : JsError + Response :=
  if (status response =? 401)%nat then
    inl (KickCredentialsMissingError
           "Kick API request unauthorized. Re-run the credential helper to refresh tokens.")
  else if negb (ok response) then
    inl (Error ("Kick API request failed with status " ++ nat_str (status response)))
  else inr response.

(** [performAuthorizedRequest] (lines 108-147): what it returns or throws,
    the state it leaves the token manager in, the bearer tokens of the
    requests it sent, in order, and the calls made to the credential
    storage. *)
Definition performAuthorizedRequest (x : Exchange) (s : TokenManager.State)
  : (JsError + Response) * TokenManager.State * list string
    * list TokenAccess.StorageCall :=
  match getAccessToken (tokenAnswers x) s with
  | (inl e, s1, fx1) => (inl e, s1, [], fx1)
  | (inr accessToken, s1, fx1) =>
      match response x with
      | inl e => (inl e, s1, [accessToken], fx1)
      | inr response1 =>
          if (status response1 =? 401)%nat then
            match refreshCurrentTokens (renewalAnswers x) (renewalRefresh x) s1 with
            | (inl e, s2, fx2) => (inl e, s2, [accessToken], (fx1 ++ fx2)%list)
            | (inr _, s2, fx2) =>
                match getAccessToken (retryTokenAnswers x) s2 with
                | (inl e, s3, fx3) =>
                    (inl e, s3, [accessToken], (fx1 ++ fx2 ++ fx3)%list)
                | (inr accessToken2, s3, fx3) =>
                    (match retryResponse x with
                     | inl e => inl e
                     | inr response2 => checked response2
                     end,
                     s3, [accessToken; accessToken2], (fx1 ++ fx2 ++ fx3)%list)
                end
            end
          else (checked response1, s1, [accessToken], fx1)
      end
  end.

Section WithNetwork.

(** The answers during the call of [performAuthorizedRequest], and what
    reading the body of its response gives. *)
Variable exchange : Exchange.
Variable body : ApiAnswer.

Variable web : string -> WebAnswer.

(** [Date.now()] in [fetchWebChannelInfo]. *)
Variable now : Z.

(** [fetchWebChannelInfo] (lines 149-180). *)
Definition fetchWebChannelInfo (slug : string) (webInfoCache : WebInfoCache)
  : option WebInfo * WebInfoCache * list Request :=
  let lookup (_ : unit) :=
    match web slug with
    | WebPayload profile_pic username =>
        let info := {| profileImageUrl := coalesceImageUrl profile_pic;
                       username := username |} in
        (Some info, set slug {| info := info; timestamp := now |} webInfoCache,
         [GetWebChannel slug])
    | _ => (None, webInfoCache, [GetWebChannel slug])
    end in
  match get slug webInfoCache with
  | Some cached =>
      if (timestamp cached <=? now)%Z
         && (now - timestamp cached <=? WEB_INFO_CACHE_TTL)%Z
      then (Some (info cached), webInfoCache, [])
      else lookup tt
  | None => lookup tt
  end.

(** [fetchChannelStatus] (lines 20-94): what it returns or throws, the
    cache it leaves, the requests that were sent and the state it leaves the
    token manager in. *)
Definition fetchChannelStatus (slug : string) (webInfoCache : WebInfoCache)
           (s : TokenManager.State)
  : (JsError + option KickChannelStatus) * WebInfoCache * list Request
    * TokenManager.State :=
  let normalizedSlug := toLowerCase (trim slug) in
  if negb (truthy normalizedSlug) then (inr None, webInfoCache, [], s)
  else
    let '(authorized, s', bearers, _) := performAuthorizedRequest exchange s in
    let sent := map (GetChannels normalizedSlug) bearers in
    match authorized, body with
    | inl e, _ => (inl e, webInfoCache, sent, s')
    | inr _, ApiThrows e => (inl e, webInfoCache, sent, s')
    | inr _, ApiPayload (Some (entry :: _)) =>
        let stream := stream entry in
        let isLive :=
          match ofStream stream is_live with
          | Some true => true
          | _ => false
          end in
        let liveStatusText :=
          orOpt (orOpt (orOpt (stream_title entry) (ofStream stream session_title))
                       (ofStream stream session_status))
                (if isLive then Some "live" else None) in
        let category :=
          orOpt (category_name entry) (ofStream stream stream_category_name) in
        let profileImageUrl0 :=
          orOpt (orOpt (orOpt (coalesceImageUrl (user_profile_picture entry))
                              (coalesceImageUrl (imageOfStream stream thumbnail)))
                       (coalesceImageUrl (imageOfStream stream thumbnail_url)))
                (coalesceImageUrl (banner_picture entry)) in
        let displayName0 :=
          match user_name entry with
          | Some n => n
          | None => nullish (entry_slug entry) normalizedSlug
          end in
        let isNameMissing := negb (truthyOpt (user_name entry)) in
        let apiHasProfilePic :=
          truthyOpt (coalesceImageUrl (user_profile_picture entry)) in
        let isRawSlugName :=
          match user_name entry with
          | Some n => n =? normalizedSlug
          | None => false
          end in
        let '(profileImageUrl1, displayName1, cache1, reqs) :=
          if isNull profileImageUrl0 || isNameMissing || isRawSlugName
             || negb apiHasProfilePic
          then
            let '(webInfo, cache1, reqs) :=
              fetchWebChannelInfo normalizedSlug webInfoCache in
            match webInfo with
            | Some wi =>
                (if truthyOpt (profileImageUrl wi)
                    && (isNull profileImageUrl0 || negb apiHasProfilePic)
                 then profileImageUrl wi else profileImageUrl0,
                 match username wi with
                 | Some u =>
                     if truthy u && (isNameMissing || isRawSlugName) then u
                     else displayName0
                 | None => displayName0
                 end, cache1, reqs)
            | None => (profileImageUrl0, displayName0, cache1, reqs)
            end
          else (profileImageUrl0, displayName0, webInfoCache, []) in
        (inr (Some {| cs_isLive := isLive;
                      cs_displayName := displayName1;
                      cs_profileImageUrl := profileImageUrl1;
                      cs_liveStatusText := liveStatusText;
                      cs_viewerCount := ofStream stream viewer_count;
                      cs_category := category |}),
         cache1, (sent ++ reqs)%list, s')
    | inr _, ApiPayload _ => (inr None, webInfoCache, sent, s')
    end.

End WithNetwork.

Definition webRequests (reqs : list Request) : list string :=
  flat_map (fun r => match r with GetWebChannel s => [s] | _ => [] end) reqs.

Definition apiRequests (reqs : list Request) : list string :=
  flat_map (fun r => match r with GetChannels _ b => [b] | _ => [] end) reqs.

(** What a call posts to the worker: the requests of [s'] are those of [s]
    and at most [n] more. *)
Definition grows (s s' : TokenManager.State) (n : nat) : Prop :=
  exists l, TokenManager.requests s' = (TokenManager.requests s ++ l)%list
            /\ (List.length l <= n)%nat.

(** The entry [fetchChannelStatus] reads, when there is one, and the two
    fields of the result that come from the entry alone. *)
Definition firstEntry (a : ApiAnswer) : option KickChannelEntry :=
  match a with
  | ApiPayload (Some (entry :: _)) => Some entry
  | _ => None
  end.

Definition liveOf (entry : KickChannelEntry) : bool :=
  match ofStream (stream entry) is_live with
  | Some true => true
  | _ => false
  end.

Definition statusTextOf (entry : KickChannelEntry) : option string :=
  orOpt (orOpt (orOpt (stream_title entry) (ofStream (stream entry) session_title))
               (ofStream (stream entry) session_status))
        (if liveOf entry then Some "live" else None).

End KickOfficialApi.

(* ================================================================== *)
(** ** src/auth/storageProvider.ts *)
(* ================================================================== *)

Module StorageProvider.

Import TokenManager (JsError, KickCredentialsMissingError, Error).

(** A storage object, by its identity: [storage !== currentStorage]
    compares references. *)
Definition Storage := nat.

(** The module-level variables (lines 4-5). *)
Record Provider := {
  currentStorage : Storage;
  storageConfigured : bool
}.

(** The [FileCredentialStorage] created when the module is loaded. *)
Definition defaultStorage : Storage := 0%nat.

Definition initial : Provider :=
  {| currentStorage := defaultStorage; storageConfigured := false |}.

(** [setCredentialStorage] (lines 16-26). *)
Definition setCredentialStorage (storage : Storage) (p : Provider) : JsError + Provider :=
  if storageConfigured p && negb (storage =? currentStorage p)%nat then
    inl (Error ("Credential storage has already been configured. "
                ++ "setCredentialStorage should only be called once during initialization."))
  else inr {| currentStorage := storage; storageConfigured := true |}.

(** [getCredentialStorage] (lines 28-30). *)
Definition getCredentialStorage (p : Provider) : Storage := currentStorage p.

(** A sequence of calls of [setCredentialStorage]; a call that throws leaves
    the variables as they are. *)
Fixpoint configureAll (calls : list Storage) (p : Provider) : Provider :=
  match calls with
  | [] => p
  | storage :: rest =>
      match setCredentialStorage storage p with
      | inr p' => configureAll rest p'
      | inl _ => configureAll rest p
      end
  end.

End StorageProvider.

(* ================================================================== *)
(** ** JSON values *)
(* ================================================================== *)

Module Json.

Import JsData.

(** A value as [JSON.parse] returns it, and [undefined]. *)
#[warnings="-register-all"]
Inductive JValue :=
| JUndefined
| JNull
| JBool (b : bool)
| JNumber (z : Z)
| JString (s : string)
| JArray (items : list JValue)
| JObject (fields : list (string * JValue)).

(** [!!v]. *)
Definition truthyJ (v : JValue) : bool :=
  match v with
  | JUndefined | JNull => false
  | JBool b => b
  | JNumber z => negb (z =? 0)%Z
  | JString s => truthy s
  | JArray _ | JObject _ => true
  end.

(** [o.k] on an object; a key the object does not have reads as
    [undefined]. *)
Definition field (k : string) (fields : list (string * JValue)) : JValue :=
  match get k fields with
  | Some v => v
  | None => JUndefined
  end.

(** [k in o]. *)
Definition hasKey (k : string) (fields : list (string * JValue)) : bool :=
  match get k fields with
  | Some _ => true
  | None => false
  end.

Definition isString (v : JValue) : bool :=
  match v with
  | JString _ => true
  | _ => false
  end.

End Json.

(* ================================================================== *)
(** ** src/server/credentials.ts and src/auth/fileStorage.ts (in the
       source tree at hand, src/unnamed/part_002) *)
(* ================================================================== *)

Module FileCredentials.

Import JsData Json.
Import TokenManager (JsError, KickCredentialsMissingError, Error, Build_Credentials).
Import Monitor (StringSet, set_add, set_has).

(** [Array.from(new Set(l))]: the first occurrence of every element, in
    order. *)
Definition unique (l : list string) : list string :=
  fold_left (fun acc x => set_add x acc) l [].

(** [cachedCredentialsPath] and the files on disk, by their path. *)
Record Disk := {
  cachedCredentialsPath : option string;
  files : list (string * string)
}.

Section WithPaths.

(** [path.normalize], and the three fixed paths: [defaultSourcePath],
    [path.join(pluginRoot, "credentials.json")] and
    [path.resolve(cwd, "credentials.json")]. *)
Variable normalize : string -> string.
Variable defaultSourcePath : string.
Variable pluginCredentialsPath : string.
Variable cwdCredentialsPath : string.

(** The paths [mkdir] and [writeFile] succeed on, the files [readFile] can
    read, the files [unlink] can remove. *)
Variable writable : string -> bool.
Variable readable : string -> bool.
Variable removable : string -> bool.

(** [JSON.stringify(v, undefined, 2)] and [JSON.parse]. *)
Variable stringify : JValue -> string.
Variable parse : string -> JsError + JValue.

(** The error [readFile] throws. *)
Variable readError : string -> JsError.

Definition pushCached (paths : list string) (cached : option string) : list string :=
  if truthyOpt cached then
    match cached with
    | Some c => (paths ++ [normalize c])%list
    | None => paths
    end
  else paths.

(** [getCandidatePaths] (lines 31-46). *)
Definition getCandidatePaths (cached : option string) : list string :=
  unique (map normalize
              (pushCached [defaultSourcePath; pluginCredentialsPath; cwdCredentialsPath]
                          cached)).

(** [getWriteTargets] (lines 48-60). *)
Definition getWriteTargets (cached : option string) : list string :=
  unique (map normalize (pushCached [defaultSourcePath; pluginCredentialsPath] cached)).

(** The loop of [persistToTargets]: the targets written, in order, and the
    files afterwards. *)
Fixpoint writeEach (payload : string) (targets : list string)
         (fs : list (string * string)) : list string * list (string * string) :=
  match targets with
  | [] => ([], fs)
  | target :: rest =>
      if writable target then
        let '(successful, fs') := writeEach payload rest (set target payload fs) in
        (target :: successful, fs')
      else writeEach payload rest fs
  end.

(** [persistToTargets] (lines 62-83). *)
Definition persistToTargets (payload : string) (d : Disk) : (JsError + string) * Disk :=
  let '(successful, fs') :=
    writeEach payload (getWriteTargets (cachedCredentialsPath d)) (files d) in
  match successful with
  | [] =>
      (inl (Error "Failed to persist Kick credentials to disk."),
       {| cachedCredentialsPath := cachedCredentialsPath d; files := fs' |})
  | first :: _ =>
      (inr first, {| cachedCredentialsPath := Some first; files := fs' |})
  end.

(** [writeCredentials] (lines 85-100). *)
Definition writeCredentials (serverMetadata : JValue) (clientId clientSecret : JValue)
           (tokens : JValue) (d : Disk) : (JsError + string) * Disk :=
  let credentials :=
    JObject [("serverMetadata", serverMetadata); ("clientId", clientId);
             ("clientSecret", clientSecret); ("tokens", tokens)] in
  persistToTargets (stringify credentials) d.

(** The loop of [readCredentials]. *)
Fixpoint readFirst (locations : list string) (d : Disk) : (JsError + JValue) * Disk :=
  match locations with
  | [] =>
      (inl (Error "Kick credentials not found. Run the auth helper to generate credentials.json."),
       d)
  | candidate :: rest =>
      match get candidate (files d) with
      | None => readFirst rest d
      | Some contents =>
          if readable candidate then
            (parse contents,
             {| cachedCredentialsPath := Some candidate; files := files d |})
          else (inl (readError candidate), d)
      end
  end.

(** [readCredentials] (lines 102-116). *)
Definition readCredentials (d : Disk) : (JsError + JValue) * Disk :=
  readFirst (getCandidatePaths (cachedCredentialsPath d)) d.

(** The loop of [deleteCredentials]. *)
Fixpoint unlinkEach (targets : list string) (fs : list (string * string))
  : list (string * string) :=
  match targets with
  | [] => fs
  | target :: rest =>
      match get target fs with
      | Some _ =>
          if removable target then unlinkEach rest (delete target fs)
          else unlinkEach rest fs
      | None => unlinkEach rest fs
      end
  end.

(** [deleteCredentials] (lines 118-130). *)
Definition deleteCredentials (d : Disk) : Disk :=
  {| cachedCredentialsPath := None;
     files := unlinkEach (getWriteTargets (cachedCredentialsPath d)) (files d) |}.

(** [FileCredentialStorage] (src/unnamed/part_002, lines 4-23): [load],
    [save] on a credentials object, and [delete]. *)
Definition load (d : Disk) : (JsError + JValue) * Disk := readCredentials d.

Definition save (credentials : list (string * JValue)) (d : Disk)
  : (JsError + unit) * Disk :=
  match writeCredentials (field "serverMetadata" credentials)
                         (field "clientId" credentials)
                         (field "clientSecret" credentials)
                         (field "tokens" credentials) d with
  | (inl e, d') => (inl e, d')
  | (inr _, d') => (inr tt, d')
  end.

Definition delete_ (d : Disk) : Disk := deleteCredentials d.

End WithPaths.

(** A credentials object with its four fields, in the order
    [writeCredentials] builds it. *)
Definition credentialsObject (serverMetadata clientId clientSecret tokens : JValue)
  : list (string * JValue) :=
  [("serverMetadata", serverMetadata); ("clientId", clientId);
   ("clientSecret", clientSecret); ("tokens", tokens)].

End FileCredentials.

(* ================================================================== *)
(** ** src/auth/streamDeckStorage.ts (in the source tree at hand, the
       second part of src/unnamed/part_001) *)
(* ================================================================== *)

Module Mutex.

Import TokenManager (update_nth).

(** The promises of a [Mutex] (src/unnamed/part_001, lines 156-180), in the
    order they are created; a promise is named by its position.  A promise is
    [Promise.resolve()], or [new Promise(resolve => ...)], pending until its
    [resolve] is called, or [source.then(callback)], which settles after
    [source] has, with what the callback returns: at once when that is not a
    promise, and after that promise when it is one.  The callbacks of
    [lock] are [() => release], which returns the [resolve] of [nextLock],
    and [() => nextLock]. *)
Inductive Callback :=
| ReturnRelease (nextLock : nat)
| ReturnPromise (nextLock : nat).

Inductive Promise :=
| Resolved
| Created (resolved : bool)
| Then (source : nat) (callback : Callback) (settled : bool).

(** A call of [dispatch]: the promise [lock] returned and that it awaits;
    then it is inside [fn], with the function [unlock] it was given, by the
    promise that function resolves; then it has called [unlock]. *)
Inductive Phase :=
| Waiting
| Inside (unlock : nat)
| Done.

Record Dispatch := {
  currentLock : nat;
  phase : Phase
}.

(** The promises, the field [this.mutex], and the calls of [dispatch]. *)
Record State := {
  promises : list Promise;
  mutex : nat;
  dispatches : list Dispatch
}.

(** [private mutex = Promise.resolve()]. *)
Definition initial : State :=
  {| promises := [Resolved]; mutex := 0; dispatches := [] |}.

Definition fulfilled (s : State) (p : nat) : bool :=
  match nth_error (promises s) p with
  | Some Resolved => true
  | Some (Created b) => b
  | Some (Then _ _ b) => b
  | None => false
  end.

(** What is put in the place of a promise when it settles is settled. *)
Definition settledKind (x : Promise) : bool :=
  match x with
  | Resolved => true
  | Created b => b
  | Then _ _ b => b
  end.

(** The stretches of code: [dispatch] up to its [await], with the whole of
    [lock]; the settling of a promise made by [then]; the resumption of
    [await this.lock()]; and [unlock()] in the [finally]. *)
Inductive Event :=
| Lock
| Settle (p : nat)
| Enter (k : nat)
| Unlock (k : nat).

Definition setPhase (k : nat) (a : nat) (ph : Phase) (s : State) : list Dispatch :=
  update_nth k {| currentLock := a; phase := ph |} (dispatches s).

Definition step (s : State) (e : Event) : option State :=
  match e with
  | Lock =>
      let nextLock := List.length (promises s) in
      let currentLock := S nextLock in
      let chained := S (S nextLock) in
      Some {| promises :=
                (promises s
                 ++ [Created false;
                     Then (mutex s) (ReturnRelease nextLock) false;
                     Then (mutex s) (ReturnPromise nextLock) false])%list;
              mutex := chained;
              dispatches :=
                (dispatches s ++ [{| currentLock := currentLock; phase := Waiting |}])%list |}
  | Settle p =>
      match nth_error (promises s) p with
      | Some (Then source callback false) =>
          if fulfilled s source
             && match callback with
                | ReturnRelease _ => true
                | ReturnPromise q => fulfilled s q
                end
          then Some {| promises := update_nth p (Then source callback true) (promises s);
                       mutex := mutex s; dispatches := dispatches s |}
          else None
      | _ => None
      end
  | Enter k =>
      match nth_error (dispatches s) k with
      | Some {| currentLock := a; phase := Waiting |} =>
          match nth_error (promises s) a with
          | Some (Then _ (ReturnRelease n) true) =>
              Some {| promises := promises s; mutex := mutex s;
                      dispatches := setPhase k a (Inside n) s |}
          | _ => None
          end
      | _ => None
      end
  | Unlock k =>
      match nth_error (dispatches s) k with
      | Some {| currentLock := a; phase := Inside n |} =>
          match nth_error (promises s) n with
          | Some (Created _) =>
              Some {| promises := update_nth n (Created true) (promises s);
                      mutex := mutex s;
                      dispatches := setPhase k a Done s |}
          | _ => None
          end
      | _ => None
      end
  end.

Fixpoint exec (s : State) (es : list Event) : option State :=
  match es with
  | [] => Some s
  | e :: es' =>
      match step s e with
      | Some s' => exec s' es'
      | None => None
      end
  end.

Definition phaseOf (s : State) (k : nat) : option Phase :=
  option_map phase (nth_error (dispatches s) k).

(** The [k]-th caller is inside [fn]; it is still waiting; it has left. *)
Definition holding (s : State) (k : nat) : Prop :=
  exists n, phaseOf s k = Some (Inside n).

Definition waiting (s : State) (k : nat) : Prop := phaseOf s k = Some Waiting.

Definition left (s : State) (k : nat) : Prop := phaseOf s k = Some Done.

Definition isSettle (e : Event) : bool :=
  match e with
  | Settle _ => true
  | _ => false
  end.

(** The invariant.  The [k]-th call of [lock] made the promises [3k+1]
    ([nextLock]), [3k+2] (the promise it returned) and [3k+3] (the new
    [this.mutex]), both made by [then] on the [this.mutex] it found, [3k].
    A promise made by [then] that has settled had its source settled, and
    the promise its callback returned; [nextLock] is resolved by the
    caller's [unlock] alone. *)
Record Inv (s : State) : Prop := {
  inv_size : List.length (promises s) = (1 + 3 * List.length (dispatches s))%nat;
  inv_root : nth_error (promises s) 0 = Some Resolved;
  inv_mutex : mutex s = (3 * List.length (dispatches s))%nat;
  inv_call : forall k, (k < List.length (dispatches s))%nat ->
    exists b c e ph,
      nth_error (promises s) (3 * k + 1) = Some (Created b)
      /\ nth_error (promises s) (3 * k + 2)
         = Some (Then (3 * k) (ReturnRelease (3 * k + 1)) c)
      /\ nth_error (promises s) (3 * k + 3)
         = Some (Then (3 * k) (ReturnPromise (3 * k + 1)) e)
      /\ nth_error (dispatches s) k = Some {| currentLock := 3 * k + 2; phase := ph |}
      /\ (e = true -> b = true /\ fulfilled s (3 * k) = true)
      /\ (c = true -> fulfilled s (3 * k) = true)
      /\ match ph with
         | Waiting => b = false
         | Inside u => u = (3 * k + 1)%nat /\ c = true /\ b = false
         | Done => b = true /\ c = true
         end
}.

End Mutex.

Module StreamDeckStorage.

Import JsData Json.
Import TokenManager (JsError, KickCredentialsMissingError, Error).

(** [isValidCredentials] (lines 182-197). *)
Definition isValidCredentials (value : JValue) : bool :=
  match value with
  | JObject creds =>
      hasKey "serverMetadata" creds && hasKey "clientId" creds
      && hasKey "clientSecret" creds && hasKey "tokens" creds
      && isString (field "clientId" creds) && isString (field "clientSecret" creds)
  | _ => false
  end.

Definition message (e : JsError) : string :=
  match e with
  | KickCredentialsMissingError m => m
  | Error m => m
  end.

(** What the bodies of [load], [save] and [delete] ask, in order. *)
Inductive StoreCall :=
| GetGlobalSettings
| SetGlobalSettings
| ReadCredentialsFile.

(** The global settings of the host: an object.  Each body runs inside
    [mutex.dispatch], one at a time, and the calls to the host are taken to
    succeed. *)
Definition Settings := list (string * JValue).

(** [_save] (lines 236-241). *)
Definition save_ (credentials : JValue) (settings : Settings)
  : Settings * list StoreCall :=
  (set "credentials" credentials settings, [GetGlobalSettings; SetGlobalSettings]).

(** [save] (lines 230-234). *)
Definition save (credentials : JValue) (settings : Settings)
  : Settings * list StoreCall :=
  save_ credentials settings.

(** [load] (lines 202-228); [file] is what [readCredentials] returns or
    throws. *)
Definition load (file : JsError + JValue) (settings : Settings)
  : (JsError + JValue) * Settings * list StoreCall :=
  let wrapped (details : string) :=
    Error ("No credentials found in settings or file. Original error: " ++ details) in
  let fallback (_ : unit) :=
    match file with
    | inl e =>
        (inl (wrapped (message e)), settings, [GetGlobalSettings; ReadCredentialsFile])
    | inr fileCreds =>
        if negb (isValidCredentials fileCreds) then
          (inl (wrapped "Invalid credentials loaded from file."), settings,
           [GetGlobalSettings; ReadCredentialsFile])
        else
          let '(settings', calls) := save_ fileCreds settings in
          (inr fileCreds, settings',
           ([GetGlobalSettings; ReadCredentialsFile] ++ calls)%list)
    end in
  let credentials := field "credentials" settings in
  if truthyJ credentials && isValidCredentials credentials
  then (inr credentials, settings, [GetGlobalSettings])
  else fallback tt.

(** [delete] (lines 243-250). *)
Definition delete_ (settings : Settings) : Settings * list StoreCall :=
  (delete "credentials" settings, [GetGlobalSettings; SetGlobalSettings]).

Definition readsFile (calls : list StoreCall) : bool :=
  existsb (fun c => match c with ReadCredentialsFile => true | _ => false end) calls.

End StreamDeckStorage.

(* ================================================================== *)
(** ** src/actions/live-status-action.ts: the handlers of the action *)
(* ================================================================== *)

Module Handlers.

Import JsData ImageUtils Monitor.

(** [this.states]: the state of every button on screen, by its context. *)
Definition States := list (string * ActionState).

(** [getState] (lines 45-59): the state of a context, created when the
    context is seen for the first time. *)
Definition getState (context : string) (states : States) : ActionState * States :=
  match get context states with
  | Some state => (state, states)
  | None => (initialState, set context initialState states)
  end.

(** What a handler asks of the host: to show something on the button or to
    change a timer, to open a url, to wait. *)
Inductive HostCall :=
| Button (context : string) (e : Effect)
| OpenUrl (url : string)
| Sleep (ms : Z).

Definition setKeyDownTime (t : Z) (state : ActionState) : ActionState :=
  {| channels := channels state; pollTimer := pollTimer state;
     lastStatus := lastStatus state; alertEndTime := alertEndTime state;
     keyDownTime := t; alertTimer := alertTimer state;
     lastResult := lastResult state; alertToggleState := alertToggleState state;
     multiResults := multiResults state; alertingChannels := alertingChannels state |}.

(** [r.isLive && r.displayName]. *)
Definition liveAndNamed (r : StatusResult) : bool :=
  isLive r && truthyOpt (displayName r).

Definition streamUrl (r : StatusResult) : string :=
  "https://kick.com/" ++ match displayName r with
                         | Some d => d
                         | None => "undefined"
                         end.

(** The events the host sends, and the two timers of a button. *)
Inductive PluginEvent :=
| WillAppear (context : string) (channel : option string)
| DidReceiveSettings (context : string) (channel : option string)
| WillDisappear (context : string)
| KeyDown (context : string)
| KeyUp (context : string)
| PollTimer (context : string)
| AlertTimer (context : string).

Definition contextOf (e : PluginEvent) : string :=
  match e with
  | WillAppear c _ | DidReceiveSettings c _ | WillDisappear c
  | KeyDown c | KeyUp c | PollTimer c | AlertTimer c => c
  end.

Section WithRuntime.

Variable toBase64 : string -> string.
Variable renderTextOverlay : option TextOverlay -> string.
Variable fetch : nat -> string -> ChannelFetch.
Variable now : Z.

(** A method of the action that works on the state of one context: the
    state is looked up, changed in place, and stays in the map. *)
Definition onState (context : string)
           (f : ActionState -> ImageCache -> ActionState * ImageCache * list Effect)
           (states : States) (cache : ImageCache)
  : States * ImageCache * list HostCall :=
  let '(state, states1) := getState context states in
  let '(state', cache', fx) := f state cache in
  (set context state' states1, cache', map (Button context) fx).

(** [onWillAppear] and [onDidReceiveSettings] (lines 84-92). *)
Definition onWillAppear (context : string) (channel : option string) :=
  onState context (configureChannel toBase64 renderTextOverlay fetch now channel).

Definition onDidReceiveSettings (context : string) (channel : option string) :=
  onState context (configureChannel toBase64 renderTextOverlay fetch now channel).

(** [onWillDisappear] (lines 94-101). *)
Definition onWillDisappear (context : string) (states : States) (cache : ImageCache)
  : States * ImageCache * list HostCall :=
  match get context states with
  | Some state =>
      (delete context states, cache, map (Button context) (snd (clearTimers state)))
  | None => (states, cache, [])
  end.

(** [onKeyDown] (lines 103-107). *)
Definition onKeyDown (context : string) :=
  onState context (fun state cache => (setKeyDownTime now state, cache, [])).

(** [onKeyUp] (lines 109-128). *)
Definition onKeyUp (context : string) (states : States) (cache : ImageCache)
  : States * ImageCache * list HostCall :=
  let '(state, states1) := getState context states in
  let calls :=
    match channels state with
    | [] => []
    | [_] =>
        match lastResult state with
        | Some r => if liveAndNamed r then [OpenUrl (streamUrl r)] else []
        | None => []
        end
    | _ :: _ :: _ =>
        match multiResults state with
        | Some rs =>
            flat_map (fun channel => [Sleep 500; OpenUrl (streamUrl channel)])
                     (filter liveAndNamed rs)
        | None => []
        end
    end in
  (states1, cache, calls).

(** The callbacks of the two timers (lines 165-170 and 342-354). *)
Definition onPollTimer (context : string) :=
  onState context (refresh toBase64 renderTextOverlay fetch now).

Definition onAlertTimer (context : string) :=
  onState context (alertTick toBase64 renderTextOverlay now).

Definition handle (e : PluginEvent) (states : States) (cache : ImageCache)
  : States * ImageCache * list HostCall :=
  match e with
  | WillAppear c channel => onWillAppear c channel states cache
  | DidReceiveSettings c channel => onDidReceiveSettings c channel states cache
  | WillDisappear c => onWillDisappear c states cache
  | KeyDown c => onKeyDown c states cache
  | KeyUp c => onKeyUp c states cache
  | PollTimer c => onPollTimer c states cache
  | AlertTimer c => onAlertTimer c states cache
  end.

End WithRuntime.

(** The urls a handler opened, in order. *)
Definition opened (calls : list HostCall) : list string :=
  flat_map (fun c => match c with OpenUrl u => [u] | _ => [] end) calls.

(** The results a key press looks at: the last result of a button with one
    channel, the result snapshot of a button with several. *)
Definition watched (state : ActionState) : list StatusResult :=
  match channels state with
  | [] => []
  | [_] => match lastResult state with
           | Some r => [r]
           | None => []
           end
  | _ :: _ :: _ => match multiResults state with
                   | Some rs => rs
                   | None => []
                   end
  end.

End Handlers.

(* ================================================================== *)
(** ** com.kick-streamer-watch.sdPlugin/ui/js/live-status.js *)
(* ================================================================== *)

Module PropertyInspector.

(** The list of inputs of the inspector, by their values. *)
Definition Inputs := list string.

(** [sendSettings] (lines 124-139): the [channel] setting sent to the
    plugin. *)
Definition sendSettings (inputs : Inputs) : string :=
  join "," (filter (fun val => (0 <? String.length val)%nat) (map trim inputs)).

(** [updateUI] (lines 111-122): the inputs shown for a [channel]
    setting. *)
Definition updateUI (channel : option string) : Inputs :=
  let channels :=
    filter truthy (map trim (split_on ","%char (orElse channel ""))) in
  match channels with
  | [] => [""]
  | _ => channels
  end.

(** [checkLimit] (lines 63-70): whether the button that adds an input is
    shown. *)
Definition checkLimit (maxStreamers : nat) (inputs : Inputs) : bool :=
  negb (maxStreamers <=? List.length inputs)%nat.

(** The click on the button that adds an input (lines 13-16). *)
Definition addStreamer (inputs : Inputs) : Inputs := (inputs ++ [""])%list.

(** The channels typed in the inputs. *)
Definition typed (inputs : Inputs) : list string :=
  filter (fun val => (0 <? String.length val)%nat) (map trim inputs).

End PropertyInspector.

(* ================================================================== *)
(** ** kick-auth-worker/src/index.ts *)
(* ================================================================== *)

Module AuthWorker.

Import JsData Json.
Import TokenManager (JsError, KickCredentialsMissingError, Error).
Import StreamDeckStorage (message).

Record Env := {
  KICK_CLIENT_ID : string;
  KICK_CLIENT_SECRET : string
}.

(** A request, by what the handler reads of it: the method, the path of the
    url, and what [request.json()] returns or throws. *)
Record Request := {
  method : string;
  path : string;
  json : JsError + JValue
}.

(** A response: the status, the body ([None] for [null]) and the
    headers. *)
Record Response := {
  status : nat;
  body : option string;
  headers : list (string * string)
}.

Definition corsHeaders : list (string * string) :=
  [("Access-Control-Allow-Origin", "*");
   ("Access-Control-Allow-Methods", "GET, POST, OPTIONS");
   ("Access-Control-Allow-Headers", "Content-Type")].

Definition jsonHeaders : list (string * string) :=
  ("Content-Type", "application/json") :: corsHeaders.

(** The requests the worker sends: a form posted to the token endpoint of
    Kick, by its parameters, or the channel asked of the web API, by its
    slug. *)
Inductive Upstream :=
| PostToken (params : list (string * string))
| GetChannel (slug : string).

(** What comes back: the request throws, or a response with its status and
    what reading its body as JSON returns or throws. *)
Inductive UpstreamAnswer :=
| UpstreamFails (e : JsError)
| UpstreamResponse (status : nat) (data : JsError + JValue).

Section WithServices.

Variable upstream : Upstream -> UpstreamAnswer.

(** [JSON.stringify], the conversion of a value to a string that
    [URLSearchParams.append] applies, and the [TypeError] raised when
    [null] is destructured. *)
Variable stringify : JValue -> string.
Variable toString : JValue -> string.
Variable destructureError : JsError.

(** [err.message] in the body of the answer to an exception. *)
Definition internalError (e : JsError) : Response :=
  {| status := 500; body := Some ("Internal Server Error: " ++ message e);
     headers := corsHeaders |}.

Definition plainResponse (status : nat) (text : string) : Response :=
  {| status := status; body := Some text; headers := corsHeaders |}.

(** [response.ok]: the status is in the range 200-299. *)
Definition okStatus (st : nat) : bool := ((200 <=? st) && (st <=? 299))%nat.

(** [const { a, b } = body]: the properties of an object; [undefined] for
    those of any other value but [null], which cannot be destructured. *)
Definition destructure (body : JValue) (k : string) : JsError + JValue :=
  match body with
  | JNull | JUndefined => inl destructureError
  | JObject fields => inr (field k fields)
  | _ => inr JUndefined
  end.

(** The end of the [/token] and [/refresh] routes: the form is posted and
    the answer relayed with its status. *)
Definition relayToken (params : list (string * string)) : Response * list Upstream :=
  match upstream (PostToken params) with
  | UpstreamFails e => (internalError e, [PostToken params])
  | UpstreamResponse st (inl e) => (internalError e, [PostToken params])
  | UpstreamResponse st (inr data) =>
      ({| status := st; body := Some (stringify data); headers := jsonHeaders |},
       [PostToken params])
  end.

(** The handler [fetch] (lines 7-124): the response and the requests sent
    upstream. *)
Definition fetchHandler (request : Request) (env : Env) : Response * list Upstream :=
  if method request =? "OPTIONS" then
    ({| status := 200; body := None; headers := corsHeaders |}, [])
  else if (path request =? "/auth-params") && (method request =? "GET") then
    ({| status := 200;
        body := Some (stringify (JObject
                  [("clientId", JString (KICK_CLIENT_ID env));
                   ("authEndpoint", JString "https://id.kick.com/oauth/authorize");
                   ("tokenEndpoint", JString "https://id.kick.com/oauth/token");
                   ("scope", JString "channel:read user:read")]));
        headers := jsonHeaders |}, [])
  else if (path request =? "/token") && (method request =? "POST") then
    match json request with
    | inl e => (internalError e, [])
    | inr body =>
        match destructure body "code", destructure body "redirect_uri",
              destructure body "code_verifier" with
        | inr code, inr redirect_uri, inr code_verifier =>
            if negb (truthyJ code) || negb (truthyJ redirect_uri)
               || negb (truthyJ code_verifier)
            then (plainResponse 400 "Missing required parameters", [])
            else
              relayToken [("grant_type", "authorization_code");
                          ("client_id", KICK_CLIENT_ID env);
                          ("client_secret", KICK_CLIENT_SECRET env);
                          ("code", toString code);
                          ("redirect_uri", toString redirect_uri);
                          ("code_verifier", toString code_verifier)]
        | _, _, _ => (internalError destructureError, [])
        end
    end
  else if (path request =? "/refresh") && (method request =? "POST") then
    match json request with
    | inl e => (internalError e, [])
    | inr body =>
        match destructure body "refresh_token" with
        | inr refresh_token =>
            if negb (truthyJ refresh_token)
            then (plainResponse 400 "Missing refresh_token", [])
            else
              relayToken [("grant_type", "refresh_token");
                          ("client_id", KICK_CLIENT_ID env);
                          ("client_secret", KICK_CLIENT_SECRET env);
                          ("refresh_token", toString refresh_token)]
        | inl e => (internalError e, [])
        end
    end
  else if String.prefix "/proxy/channel/" (path request) && (method request =? "GET") then
    let slug := last (split_on "/"%char (path request)) "" in
    if negb (truthy slug) then (plainResponse 400 "Missing slug", [])
    else
      match upstream (GetChannel slug) with
      | UpstreamFails e => (internalError e, [GetChannel slug])
      | UpstreamResponse st data =>
          if negb (okStatus st)
          then (plainResponse st ("Kick API Error: " ++ nat_str st), [GetChannel slug])
          else
            match data with
            | inl e => (internalError e, [GetChannel slug])
            | inr d =>
                ({| status := 200; body := Some (stringify d); headers := jsonHeaders |},
                 [GetChannel slug])
            end
      end
  else (plainResponse 404 "Not Found", []).

End WithServices.

(** A response carries the three headers that open it to any origin. *)
Definition allowsAnyOrigin (r : Response) : Prop :=
  forall h, In h corsHeaders -> In h (headers r).

(** The parameters of a form, by name. *)
Definition param (k : string) (params : list (string * string)) : option string :=
  get k params.

End AuthWorker.

(* ================================================================== *)
(** ** Sample inputs *)
(* ================================================================== *)

Module Samples.

Import ImageUtils Monitor.

(** Stand-ins for the two runtime services, where a concrete run needs
    them. *)
Definition sampleBase64 (s : string) : string := s.
Definition sampleOverlay (o : option TextOverlay) : string := "".

(** Answers of the world. *)
Definition liveChannel : KickChannelStatus :=
  {| cs_isLive := true; cs_displayName := "Foo"; cs_profileImageUrl := None;
     cs_liveStatusText := Some "live"; cs_viewerCount := Some 12%Z;
     cs_category := Some "Just Chatting" |}.

Definition offlineChannel : KickChannelStatus :=
  {| cs_isLive := false; cs_displayName := "Bar"; cs_profileImageUrl := None;
     cs_liveStatusText := None; cs_viewerCount := None; cs_category := None |}.

Definition allMissing : nat -> string -> ChannelFetch := fun _ _ => ChannelMissing.
Definition allFailing : nat -> string -> ChannelFetch := fun _ _ => FetchFails.
Definition allLive : nat -> string -> ChannelFetch :=
  fun _ _ => ChannelFound liveChannel None.
Definition firstGoesLive : nat -> string -> ChannelFetch :=
  fun i _ => if (i =? 0)%nat then ChannelFound liveChannel None
             else ChannelFound offlineChannel None.

(** Monitor states. *)
Definition threeChannels : ActionState := setChannels ["a"; "b"; "c"] initialState.

Definition singleFoo : ActionState := setChannels ["foo"] initialState.

(** A button configured with ["a"] whose first poll failed. *)
Definition afterFailedPoll : ActionState :=
  {| channels := ["a"]; pollTimer := true; lastStatus := known error;
     alertEndTime := 0; keyDownTime := 0; alertTimer := false;
     lastResult := Some (plain error (Some "a"));
     alertToggleState := false;
     multiResults := Some [plain error (Some "a")];
     alertingChannels := [] |}.

(** Two channels, both offline at the last poll. *)
Definition twoOffline : ActionState :=
  {| channels := ["a"; "b"]; pollTimer := true; lastStatus := known offline;
     alertEndTime := 0; keyDownTime := 0; alertTimer := false;
     lastResult := None; alertToggleState := false;
     multiResults := Some [plain offline (Some "a"); plain offline (Some "b")];
     alertingChannels := [] |}.

Definition errorResult : StatusResult := plain error (Some "foo").

Definition offlineWithImage : StatusResult :=
  {| isLive := false; status := offline; displayName := Some "Foo";
     thumbnailUrl := None; base64Image := Some "data:image/svg+xml;base64,AAAA";
     rawBase64Image := Some "data:image/png;base64,BBBB"; viewerCount := None;
     title := None; category := None |}.

(** Fifty calls of [getProcessedImage] on fifty images, one per millisecond. *)
Definition fiftyCalls : list ImageCall :=
  map (fun n => {| call_uri := nat_str n; call_live := true; call_overlay := None;
                   call_now := Z.of_nat n |}) (seq 0 50).

(** The same calls, then the first image asked again: it is found, and is
    now the most recently used. *)
Definition fiftyCallsAndAHit : list ImageCall :=
  (fiftyCalls ++ [{| call_uri := "0"; call_live := true; call_overlay := None;
                     call_now := 50 |}])%list.

(** Three items of a collage: the second is offline. *)
Definition threeItems : list CollageItem :=
  [ {| image := "A"; ImageUtils.isLive := true; isFlashing := false |};
    {| image := "B"; ImageUtils.isLive := false; isFlashing := false |};
    {| image := "C"; ImageUtils.isLive := true; isFlashing := false |} ].

(** Tokens and credentials. *)
Definition staleTokens : TokenManager.TokenEndpointResponse :=
  {| TokenManager.access_token := Some "old-access";
     TokenManager.token_type := Some "Bearer";
     TokenManager.id_token := None;
     TokenManager.refresh_token := Some "refresh-1";
     TokenManager.scope := None;
     TokenManager.expires_at := Some 1700000000%Z;
     TokenManager.expires_in := None;
     TokenManager.extras := [] |}.

Definition noRefreshToken : TokenManager.TokenEndpointResponse :=
  {| TokenManager.access_token := Some "old-access";
     TokenManager.token_type := Some "Bearer";
     TokenManager.id_token := None;
     TokenManager.refresh_token := None;
     TokenManager.scope := None;
     TokenManager.expires_at := Some 1700000000%Z;
     TokenManager.expires_in := None;
     TokenManager.extras := [] |}.

Definition refreshedTokens : TokenManager.TokenEndpointResponse :=
  {| TokenManager.access_token := Some "new-access";
     TokenManager.token_type := Some "Bearer";
     TokenManager.id_token := None;
     TokenManager.refresh_token := None;
     TokenManager.scope := None;
     TokenManager.expires_at := None;
     TokenManager.expires_in := Some 3600%Z;
     TokenManager.extras := [] |}.

Definition someCredentials : TokenManager.Credentials :=
  {| TokenManager.serverMetadata := "{}"; TokenManager.clientId := "id";
     TokenManager.clientSecret := "secret";
     TokenManager.tokens := Some staleTokens |}.

(** The tokens the first refresh below leaves. *)
Definition mergedTokens : TokenManager.TokenEndpointResponse :=
  TokenManager.mergeTokens refreshedTokens staleTokens 1700000100000.


(** A category whose last word is written in code units above 256. *)
Definition wideCategory : CodeUnits.Text :=
  (CodeUnits.ofString "Just Chatting and more " ++ [26085%N; 26412%N; 35486%N])%list.

End Samples.

(** Further sample inputs. *)
Module MoreSamples.

Import JsData Json ImageUtils Monitor Samples.

(** The cache directory of the profile images, with a file system that has
    every file. *)
Definition sampleJoin (dir file : string) : string := dir ++ "/" ++ file.
Definition everyFile (path : string) : bool := true.
Definition noDownload (url : string) : ProfileImage.Download := ProfileImage.RequestFails.

(** An entry of the API with a proper name and a profile picture, live, and
    the status [fetchChannelStatus] makes of it. *)
Definition fooStream : KickOfficialApi.KickStream :=
  {| KickOfficialApi.is_live := Some true;
     KickOfficialApi.viewer_count := Some 12%Z;
     KickOfficialApi.session_title := None;
     KickOfficialApi.session_status := None;
     KickOfficialApi.thumbnail := KickOfficialApi.NoImage;
     KickOfficialApi.thumbnail_url := KickOfficialApi.NoImage;
     KickOfficialApi.stream_category_name := Some "Just Chatting" |}.

Definition fooEntry : KickOfficialApi.KickChannelEntry :=
  {| KickOfficialApi.entry_slug := Some "foo";
     KickOfficialApi.banner_picture := KickOfficialApi.NoImage;
     KickOfficialApi.stream := Some fooStream;
     KickOfficialApi.stream_title := None;
     KickOfficialApi.user_name := Some "Foo";
     KickOfficialApi.user_profile_picture :=
       KickOfficialApi.ImageString "https://files.kick.com/foo.png";
     KickOfficialApi.category_name := None |}.

Definition fooBody : KickOfficialApi.ApiAnswer :=
  KickOfficialApi.ApiPayload (Some [fooEntry]).

Definition fooWeb (slug : string) : KickOfficialApi.WebAnswer :=
  KickOfficialApi.WebPayload (KickOfficialApi.ImageString "https://files.kick.com/web.png")
                             (Some "FooFromWeb").

Definition fooStatus : KickChannelStatus :=
  {| cs_isLive := true; cs_displayName := "Foo";
     cs_profileImageUrl := Some "https://files.kick.com/foo.png";
     cs_liveStatusText := Some "live"; cs_viewerCount := Some 12%Z;
     cs_category := Some "Just Chatting" |}.

(** Tokens that expire late, a state that holds them, and a world in which
    the storage cannot be read. *)
Definition freshTokens : TokenManager.TokenEndpointResponse :=
  {| TokenManager.access_token := Some "fresh-access";
     TokenManager.token_type := Some "Bearer";
     TokenManager.id_token := None;
     TokenManager.refresh_token := Some "refresh-2";
     TokenManager.scope := None;
     TokenManager.expires_at := Some 1800000000%Z;
     TokenManager.expires_in := None;
     TokenManager.extras := [] |}.

Definition freshCredentials : TokenManager.Credentials :=
  {| TokenManager.serverMetadata := "{}"; TokenManager.clientId := "";
     TokenManager.clientSecret := ""; TokenManager.tokens := Some freshTokens |}.

Definition holdingTokens (c : TokenManager.Credentials) (t : TokenManager.TokenEndpointResponse)
  : TokenManager.State :=
  {| TokenManager.cachedCredentials := Some c; TokenManager.cachedTokens := Some t;
     TokenManager.refreshInFlight := None; TokenManager.flights := [];
     TokenManager.requests := []; TokenManager.saved := []; TokenManager.callers := [] |}.

Definition workerAnswers : TokenAccess.RefreshAnswers :=
  {| TokenAccess.fetched := TokenManager.HttpResponse true "OK";
     TokenAccess.body := TokenManager.JsonValue refreshedTokens;
     TokenAccess.bodyTime := 1700000100000%Z;
     TokenAccess.stored := TokenManager.SaveOk |}.

Definition worldAt (clock : Z) (loaded : TokenManager.JsError + TokenManager.Credentials)
  : TokenAccess.Answers :=
  {| TokenAccess.loaded := loaded; TokenAccess.clock := clock;
     TokenAccess.refreshAnswers := workerAnswers; TokenAccess.deleted := None |}.

Definition noStorage : TokenManager.JsError + TokenManager.Credentials :=
  inl (TokenManager.Error "ENOENT").

(** An exchange with the API that answers 200 at once, and one that answers
    401 first and 200 to the second request; the tokens in memory are due in
    the second. *)
Definition okResponse : KickOfficialApi.Response :=
  {| KickOfficialApi.status := 200; KickOfficialApi.statusText := "OK" |}.

Definition unauthorized : KickOfficialApi.Response :=
  {| KickOfficialApi.status := 401; KickOfficialApi.statusText := "Unauthorized" |}.

Definition answeredAtOnce : KickOfficialApi.Exchange :=
  {| KickOfficialApi.tokenAnswers := worldAt 1700000000000 noStorage;
     KickOfficialApi.response := inr okResponse;
     KickOfficialApi.renewalAnswers := worldAt 1700000000000 noStorage;
     KickOfficialApi.renewalRefresh := workerAnswers;
     KickOfficialApi.retryTokenAnswers := worldAt 1700000000000 noStorage;
     KickOfficialApi.retryResponse := inr okResponse |}.

Definition answeredAfterRenewal : KickOfficialApi.Exchange :=
  {| KickOfficialApi.tokenAnswers := worldAt 1700000100000 noStorage;
     KickOfficialApi.response := inr unauthorized;
     KickOfficialApi.renewalAnswers := worldAt 1700000100000 noStorage;
     KickOfficialApi.renewalRefresh := workerAnswers;
     KickOfficialApi.retryTokenAnswers := worldAt 1700000100000 noStorage;
     KickOfficialApi.retryResponse := inr okResponse |}.

(** A disk with the credentials of the repository and of the working
    directory, paths that are their own normal form, and a JSON text that
    stands for one credentials object. *)
Definition samePath (p : string) : string := p.

Definition sampleCredentialsObject : list (string * JValue) :=
  FileCredentials.credentialsObject (JObject []) (JString "") (JString "")
                                    (JObject [("access_token", JString "abc")]).

Definition sampleStringify (v : JValue) : string := "{...}".

Definition sampleParse (s : string) : TokenManager.JsError + JValue :=
  inr (JObject sampleCredentialsObject).

Definition sampleReadError (p : string) : TokenManager.JsError := TokenManager.Error "EACCES".

Definition twoFiles : FileCredentials.Disk :=
  {| FileCredentials.cachedCredentialsPath := None;
     FileCredentials.files := [("/repo/credentials.json", "A");
                               ("/cwd/credentials.json", "B")] |}.

(** Three callers of the mutex: the first is let in once the promise its
    [lock] returned has settled, the second after the first has called
    [unlock] and the chain has settled; the third waits. *)
Definition twoDispatches : list Mutex.Event :=
  [Mutex.Lock; Mutex.Lock; Mutex.Settle 2; Mutex.Enter 0; Mutex.Lock;
   Mutex.Unlock 0; Mutex.Settle 3; Mutex.Settle 5; Mutex.Enter 1].

(** A button whose alert runs, the channel being live. *)
Definition liveResult : StatusResult :=
  {| isLive := true; status := live; displayName := Some "Foo"; thumbnailUrl := None;
     base64Image := None; rawBase64Image := None; viewerCount := Some 12%Z;
     title := Some "live"; category := Some "Just Chatting" |}.

Definition alerting : ActionState :=
  {| channels := ["a"]; pollTimer := true; lastStatus := known live;
     alertEndTime := 60000; keyDownTime := 0; alertTimer := true;
     lastResult := Some liveResult; alertToggleState := true;
     multiResults := Some [liveResult]; alertingChannels := ["a"] |}.

(** Three inputs of the inspector, one of them empty. *)
Definition threeInputs : PropertyInspector.Inputs := [" foo "; ""; "bar"].

End MoreSamples.

Import TextUtils.


(* ================================================================== *)
(** * Properties *)
(* ================================================================== *)

(** ** Strings *)

(** *** Splitting and trimming *)

Lemma length_append (a b : string) :
  String.length (a ++ b) = (String.length a + String.length b)%nat.
Proof. induction a; simpl; congruence. Qed.

Lemma append_assoc (a b c : string) : (a ++ b) ++ c = a ++ b ++ c.
Proof. induction a; simpl; congruence. Qed.

Lemma append_empty_r (s : string) : s ++ "" = s.
Proof. induction s; simpl; congruence. Qed.

(** *** Counting and finding a text in another *)

Lemma prefix_app_sep p : forall x c r,
  occurs c p = false -> String.prefix p (x ++ String c r) = String.prefix p x.
Proof.
  induction p as [|a p IH]; intros x c r H; [now destruct x|].
  simpl in H. apply orb_false_iff in H. destruct H as [H1 H2].
  destruct x as [|b x]; simpl.
  - destruct (ascii_dec a c) as [->|]; [|reflexivity].
    now rewrite Ascii.eqb_refl in H1.
  - destruct (ascii_dec a b); [now apply IH|reflexivity].
Qed.

(** No occurrence of [p] straddles a character that is not in [p]. *)
Lemma countOcc_app_sep p x c r :
  occurs c p = false ->
  countOcc p (x ++ String c r) = (countOcc p x + countOcc p (String c r))%nat.
Proof.
  intros H. remember (String c r) as y eqn:Ey.
  induction x as [|b x IH]; [reflexivity|].
  change (String b x ++ y) with (String b (x ++ y)).
  cbn [countOcc]. rewrite IH.
  change (String b (x ++ y)) with (String b x ++ y).
  subst y. rewrite prefix_app_sep by exact H. lia.
Qed.

(** No element starts in a text without [<]. *)
Lemma countOcc_plain_app p x y :
  occurs "<"%char x = false ->
  countOcc (String "<"%char p) (x ++ y) = countOcc (String "<"%char p) y.
Proof.
  induction x as [|b x IH]; intros H; [reflexivity|].
  simpl in H. apply orb_false_iff in H. destruct H as [H1 H2].
  change (String b x ++ y) with (String b (x ++ y)). cbn [countOcc String.prefix].
  destruct (ascii_dec "<" b) as [<-|]; [discriminate|]. now rewrite IH.
Qed.

Lemma contains_refl p : contains p p.
Proof. exists "", "". simpl. now rewrite append_empty_r. Qed.

Lemma contains_app_l p x y : contains p x -> contains p (x ++ y).
Proof.
  intros [pre [post ->]]. exists pre, (post ++ y). now rewrite !append_assoc.
Qed.

Lemma contains_app_r p x y : contains p y -> contains p (x ++ y).
Proof.
  intros [pre [post ->]]. exists (x ++ pre), post. now rewrite !append_assoc.
Qed.

Lemma contains_join p sep l : In p l -> contains p (join sep l).
Proof.
  unfold join. induction l as [|x l IH]; simpl; [contradiction|].
  intros [->|H].
  - destruct l; [apply contains_refl|apply contains_app_l, contains_refl].
  - destruct l as [|y l]; [contradiction|].
    apply contains_app_r, contains_app_r. now apply IH.
Qed.

Lemma prefix_contains p : forall s, String.prefix p s = true -> contains p s.
Proof.
  induction p as [|a p IH]; intros s H.
  - exists "", s. reflexivity.
  - destruct s as [|b s]; [discriminate|]. simpl in H.
    destruct (ascii_dec a b) as [<-|]; [|discriminate].
    destruct (IH s H) as [pre [post E]].
    assert (Hp : exists post', s = p ++ post').
    { clear - H. revert s H. induction p as [|c p IHp]; intros s H; [now exists s|].
      destruct s as [|d s]; [discriminate|]. simpl in H.
      destruct (ascii_dec c d) as [<-|]; [|discriminate].
      destruct (IHp s H) as [post' ->]. now exists post'. }
    destruct Hp as [post' ->]. exists "", post'. reflexivity.
Qed.

Lemma isSub_contains p s : isSub p s = true -> contains p s.
Proof.
  induction s as [|c s IH]; simpl; intros H.
  - rewrite orb_false_r in H. now apply prefix_contains.
  - apply orb_true_iff in H. destruct H as [H|H]; [now apply prefix_contains|].
    destruct (IH H) as [pre [post ->]]. now exists (String c pre), post.
Qed.

(** The count of an element in a text made of literal pieces and of holes:
    the literal pieces are counted by evaluation; a hole without [<], or a
    hole that [H] says holds none and that is followed by a character not in
    the element's name, adds nothing. *)
Ltac plain_hole :=
  first [ assumption
        | reflexivity
        | match goal with
          | |- context [if ?b then _ else _] => destruct b; reflexivity
          end ].

Ltac count_elements unfolder H :=
  repeat (simpl; rewrite ?append_assoc;
          first [ rewrite countOcc_plain_app by (unfolder; plain_hole)
                | rewrite countOcc_app_sep by reflexivity; rewrite H ]);
  reflexivity.

(** An element of a text made of pieces, found in one of the pieces or among
    the strings joined into one of them. *)
Ltac find_element :=
  lazymatch goal with
  | |- contains _ (join _ _) =>
      apply contains_join; simpl; solve [repeat (first [left; reflexivity | right])]
  | |- contains _ (_ ++ _) =>
      first [ apply contains_app_l; find_element | apply contains_app_r; find_element ]
  | |- contains _ _ => apply isSub_contains; vm_compute; reflexivity
  end.

Lemma split_on_nonempty sep s : split_on sep s <> [].
Proof.
  destruct s as [|c r]; simpl; [discriminate|].
  destruct (Ascii.eqb c sep); [discriminate|].
  destruct (split_on sep r); discriminate.
Qed.

Lemma split_on_sep_free sep s :
  Forall (fun w => occurs sep w = false) (split_on sep s).
Proof.
  induction s as [|c r IH]; simpl.
  - repeat constructor.
  - destruct (Ascii.eqb c sep) eqn:E.
    + constructor; [reflexivity|exact IH].
    + destruct (split_on sep r) as [|w ws]; [repeat constructor; simpl; now rewrite E|].
      inversion IH; subst. constructor; [simpl; now rewrite E|assumption].
Qed.

Lemma join_split sep s : join (String sep "") (split_on sep s) = s.
Proof.
  induction s as [|c r IH]; simpl; [reflexivity|].
  destruct (Ascii.eqb_spec c sep) as [->|Hne].
  - pose proof (split_on_nonempty sep r) as Hn.
    unfold join in *. simpl.
    destruct (split_on sep r) as [|w ws]; [congruence|].
    simpl in *. now rewrite IH.
  - pose proof (split_on_nonempty sep r) as Hn.
    unfold join in *.
    destruct (split_on sep r) as [|w ws]; [congruence|].
    destruct ws; simpl in *; now rewrite <- IH.
Qed.

Lemma split_on_app_sep sep p rest :
  occurs sep p = false ->
  split_on sep (p ++ String sep rest) = p :: split_on sep rest.
Proof.
  induction p as [|c p IH]; simpl; intros H.
  - now rewrite Ascii.eqb_refl.
  - apply orb_false_iff in H. destruct H as [H1 H2].
    rewrite H1, (IH H2). reflexivity.
Qed.

Lemma split_on_sep_free_word sep p :
  occurs sep p = false -> split_on sep p = [p].
Proof.
  induction p as [|c p IH]; simpl; intros H; [reflexivity|].
  apply orb_false_iff in H. destruct H as [H1 H2].
  now rewrite H1, (IH H2).
Qed.

(** [split] undoes [join] on separator-free pieces: the pieces of a string
    are determined by the string. *)
Lemma split_on_join sep ps :
  ps <> [] -> Forall (fun w => occurs sep w = false) ps ->
  split_on sep (join (String sep "") ps) = ps.
Proof.
  induction ps as [|p ps IH]; intros Hne HF; [congruence|].
  inversion HF as [|? ? Hp Hps]; subst.
  destruct ps as [|q ps].
  - simpl. now apply split_on_sep_free_word.
  - assert (E : join (String sep "") (p :: q :: ps)
                = p ++ String sep (join (String sep "") (q :: ps))) by reflexivity.
    rewrite E, split_on_app_sep by exact Hp.
    f_equal. apply IH; [discriminate|exact Hps].
Qed.

Lemma trimStart_spec s :
  exists l, s = l ++ trimStart s /\ all_chars is_ws l = true
            /\ startsWs (trimStart s) = false.
Proof.
  induction s as [|c r [l [H1 [H2 H3]]]]; simpl.
  - exists "". auto.
  - destruct (is_ws c) eqn:E.
    + exists (String c l). simpl. rewrite E, H2, <- H1. auto.
    + exists "". simpl. auto.
Qed.

Lemma trimEnd_spec s :
  exists r, s = trimEnd s ++ r /\ all_chars is_ws r = true
            /\ endsWs (trimEnd s) = false.
Proof.
  induction s as [|c s [r [H1 [H2 H3]]]]; simpl.
  - exists "". auto.
  - destruct (trimEnd s) as [|d t] eqn:E.
    + simpl in H1. subst r. destruct (is_ws c) eqn:W.
      * exists (String c s). simpl. rewrite W, H2. auto.
      * exists s. simpl. rewrite W. auto.
    + exists r. rewrite H1 at 1. simpl in *. auto.
Qed.

Lemma trimEnd_startsWs s : startsWs s = false -> startsWs (trimEnd s) = false.
Proof.
  destruct s as [|c r]; simpl; [auto|]. intros H.
  destruct (trimEnd r); [rewrite H|]; simpl; auto.
Qed.

Lemma occurs_append c a b : occurs c (a ++ b) = occurs c a || occurs c b.
Proof. induction a; simpl; [reflexivity|]. now rewrite IHa, orb_assoc. Qed.

(** [trim] removes white space at both ends and nothing else. *)
Lemma trim_spec s :
  exists l r, s = l ++ trim s ++ r
              /\ all_chars is_ws l = true /\ all_chars is_ws r = true
              /\ startsWs (trim s) = false /\ endsWs (trim s) = false.
Proof.
  destruct (trimStart_spec s) as [l [H1 [H2 H3]]].
  destruct (trimEnd_spec (trimStart s)) as [r [H4 [H5 H6]]].
  exists l, r. unfold trim. rewrite <- H4, <- H1.
  repeat split; auto. now apply trimEnd_startsWs.
Qed.

Lemma trim_occurs c s : occurs c s = false -> occurs c (trim s) = false.
Proof.
  destruct (trim_spec s) as [l [r [H _]]]. intros Ho.
  rewrite H, !occurs_append in Ho.
  apply orb_false_iff in Ho. destruct Ho as [_ Ho].
  apply orb_false_iff in Ho. tauto.
Qed.


Lemma mapOpt_total {A B : Type} (f : A -> option B) (l : list A) :
  (forall x, exists y, f x = Some y) -> exists ys, mapOpt f l = Some ys.
Proof.
  intros Hf. induction l as [|x l [ys IH]]; simpl; [eauto|].
  destruct (Hf x) as [y ->]. rewrite IH. simpl. eauto.
Qed.

(** ** src/utils/textUtils.ts *)

Lemma all_chars_append p a b : all_chars p (a ++ b) = all_chars p a && all_chars p b.
Proof. induction a; simpl; [reflexivity|]. now rewrite IHa, andb_assoc. Qed.

Lemma truthy_true s : truthy s = true <-> s <> "".
Proof.
  unfold truthy. destruct (String.eqb_spec s ""); simpl; split; intros; congruence.
Qed.

Lemma occurs_split c sep s :
  occurs c s = false -> Forall (fun w => occurs c w = false) (split_on sep s).
Proof.
  induction s as [|d r IH]; simpl; intros H.
  - repeat constructor.
  - apply orb_false_iff in H. destruct H as [H1 H2]. specialize (IH H2).
    destruct (Ascii.eqb d sep).
    + constructor; [reflexivity|exact IH].
    + destruct (split_on sep r) as [|w ws]; [repeat constructor; simpl; now rewrite H1|].
      inversion IH; subst. constructor; [simpl; now rewrite H1|assumption].
Qed.

(** *** wrapText on code units *)

Module CodeUnitFacts.

Import CodeUnits.
Import TextUtils (mapOpt).
Local Open Scope list_scope.

Lemma wide_split_nonempty sep s : split_on sep s <> [].
Proof.
  destruct s as [|c r]; simpl; [discriminate|].
  destruct (c =? sep)%N; [discriminate|].
  destruct (split_on sep r); discriminate.
Qed.

Lemma wide_split_word sep p :
  occurs sep p = false -> split_on sep p = [p].
Proof.
  induction p as [|c p IH]; simpl; intros H; [reflexivity|].
  apply orb_false_iff in H. destruct H as [H1 H2].
  rewrite N.eqb_sym in H1. now rewrite H1, (IH H2).
Qed.

Lemma wide_split_app_sep sep p rest :
  occurs sep p = false ->
  split_on sep (p ++ sep :: rest) = p :: split_on sep rest.
Proof.
  induction p as [|c p IH]; simpl; intros H.
  - now rewrite N.eqb_refl.
  - apply orb_false_iff in H. destruct H as [H1 H2].
    rewrite N.eqb_sym in H1. rewrite H1, (IH H2). reflexivity.
Qed.

Lemma wide_join_cons sep p q ps :
  join [sep] (p :: q :: ps) = (p ++ sep :: join [sep] (q :: ps))%list.
Proof. reflexivity. Qed.

(** [split] undoes [join] on separator-free pieces. *)
Lemma wide_split_join sep ps :
  ps <> [] -> Forall (fun w => occurs sep w = false) ps ->
  split_on sep (join [sep] ps) = ps.
Proof.
  induction ps as [|p ps IH]; intros Hne HF; [congruence|].
  inversion HF as [|? ? Hp Hps]; subst.
  destruct ps as [|q ps].
  - simpl. now apply wide_split_word.
  - rewrite wide_join_cons, wide_split_app_sep by exact Hp.
    f_equal. apply IH; [discriminate|exact Hps].
Qed.

Lemma wide_split_pieces_le sep s :
  Forall (fun p => (List.length p <= List.length s)%nat) (split_on sep s).
Proof.
  induction s as [|c r IH]; simpl.
  - repeat constructor.
  - destruct (c =? sep)%N.
    + constructor; [simpl; lia|].
      eapply Forall_impl; [|exact IH]. simpl. intros; lia.
    + destruct (split_on sep r) as [|w ws]; [constructor; [simpl; lia|constructor]|].
      inversion IH; subst. constructor; [simpl; lia|].
      eapply Forall_impl; [|eassumption]. simpl. intros; lia.
Qed.

Lemma wide_split_append sep a b :
  split_on sep (a ++ sep :: b) = (split_on sep a ++ split_on sep b)%list.
Proof.
  induction a as [|c a IH]; simpl.
  - now rewrite N.eqb_refl.
  - destruct (c =? sep)%N; [now rewrite IH|].
    rewrite IH. pose proof (wide_split_nonempty sep a) as Hn.
    destruct (split_on sep a) as [|w ws]; [congruence|reflexivity].
Qed.

Lemma wide_linesOf_join ls :
  ls <> [] -> linesOf (join [LF] ls) = flat_map linesOf ls.
Proof.
  unfold linesOf. induction ls as [|l ls IH]; intros Hne; [congruence|].
  destruct ls as [|l' ls].
  - simpl. now rewrite app_nil_r.
  - rewrite wide_join_cons, wide_split_append, IH by discriminate. reflexivity.
Qed.

Lemma wide_occurs_split c sep s :
  occurs c s = false -> Forall (fun w => occurs c w = false) (split_on sep s).
Proof.
  induction s as [|d r IH]; simpl; intros H.
  - repeat constructor.
  - apply orb_false_iff in H. destruct H as [H1 H2]. specialize (IH H2).
    destruct (d =? sep)%N.
    + constructor; [reflexivity|exact IH].
    + destruct (split_on sep r) as [|w ws]; [repeat constructor; simpl; now rewrite H1|].
      inversion IH; subst. constructor; [simpl; now rewrite H1|assumption].
Qed.

Lemma wide_packWords_nonempty n cur ws : packWords n cur ws <> [].
Proof.
  revert cur. induction ws as [|w ws IH]; intros cur; simpl; [discriminate|].
  destruct (_ <=? n)%nat; [apply IH|discriminate].
Qed.

Lemma wide_packWords_occurs c n ws : forall cur,
  (c =? SP)%N = false ->
  occurs c cur = false -> Forall (fun w => occurs c w = false) ws ->
  Forall (fun l => occurs c l = false) (packWords n cur ws).
Proof.
  induction ws as [|w ws IH]; intros cur Hsp Hcur Hws; simpl.
  - repeat constructor. exact Hcur.
  - inversion Hws as [|? ? Hw Hws']; subst.
    destruct (_ <=? n)%nat.
    + apply IH; auto.
      unfold occurs in *. rewrite existsb_app. cbn [existsb].
      now rewrite Hcur, Hsp, Hw.
    + constructor; [exact Hcur|]. now apply IH.
Qed.

Lemma nonEmpty_true s : nonEmpty s = true <-> s <> [].
Proof. destruct s; simpl; split; intros; congruence. Qed.

Lemma wide_regexChunks_chunks n s : forall cur room,
  (1 <= n)%nat -> (List.length cur + room = n)%nat ->
  forallb (fun c => negb (is_line_terminator c)) cur = true ->
  Forall (isChunk n) (regexChunks n cur room s).
Proof.
  induction s as [|c r IH]; intros cur room Hn Hlen Hcur; simpl.
  - destruct (nonEmpty cur) eqn:T; [|constructor].
    repeat constructor; [now apply nonEmpty_true|lia|exact Hcur].
  - destruct (is_line_terminator c) eqn:L.
    + apply Forall_app. split.
      * destruct (nonEmpty cur) eqn:T; [|constructor].
        repeat constructor; [now apply nonEmpty_true|lia|exact Hcur].
      * apply IH; auto.
    + destruct room as [|room'].
      * constructor.
        -- repeat split; [|lia|exact Hcur]. intros ->. simpl in Hlen. lia.
        -- apply IH; [exact Hn|simpl; lia|simpl; now rewrite L].
      * apply IH; [exact Hn|rewrite length_app; simpl; lia|].
        rewrite forallb_app, Hcur. simpl. now rewrite L.
Qed.

Lemma wide_regexChunks_none n s : forall cur room,
  regexChunks n cur room s = [] -> cur = [] /\ forallb is_line_terminator s = true.
Proof.
  induction s as [|c r IH]; intros cur room; simpl.
  - destruct (nonEmpty cur) eqn:T; [discriminate|]. intros _. split; [|reflexivity].
    destruct cur; [reflexivity|discriminate].
  - destruct (is_line_terminator c) eqn:L.
    + intros H. apply app_eq_nil in H. destruct H as [H1 H2].
      destruct (IH _ _ H2) as [_ Hr]. split; [|exact Hr].
      destruct cur; [reflexivity|discriminate].
    + destruct room as [|room']; [discriminate|].
      intros H. destruct (IH _ _ H) as [Hc _]. destruct cur; discriminate.
Qed.

Lemma wide_chunk_no_LF n ch : isChunk n ch -> occurs LF ch = false.
Proof.
  intros [_ [_ H]]. unfold occurs.
  induction ch as [|c ch IH]; cbn [existsb forallb] in *; [reflexivity|].
  apply andb_true_iff in H. destruct H as [H1 H2]. rewrite (IH H2), orb_false_r.
  unfold is_line_terminator in H1. apply negb_true_iff in H1.
  repeat (apply orb_false_iff in H1; destruct H1 as [H1 ?]).
  rewrite N.eqb_sym. exact H1.
Qed.

(** A text made of line terminators, none of them CR, U+2028 or U+2029,
    is made of line feeds: each of its lines is empty. *)
Lemma wide_only_LF_lines s :
  forallb is_line_terminator s = true ->
  occurs CR s = false -> occurs LS s = false -> occurs PS s = false ->
  Forall (fun p => p = []) (linesOf s).
Proof.
  unfold linesOf, occurs.
  induction s as [|c r IH]; cbn [forallb existsb split_on]; intros Ht Hcr Hls Hps.
  - repeat constructor.
  - apply andb_true_iff in Ht. destruct Ht as [Hc Hr].
    apply orb_false_iff in Hcr, Hls, Hps.
    destruct Hcr as [C1 C2], Hls as [L1 L2], Hps as [P1 P2].
    unfold is_line_terminator in Hc.
    rewrite (N.eqb_sym c CR), C1, (N.eqb_sym c LS), L1, (N.eqb_sym c PS), P1,
      !orb_false_r in Hc.
    rewrite Hc. constructor; [reflexivity|]. now apply IH.
Qed.

Lemma softBreaksOnly_split sep s :
  softBreaksOnly s -> Forall softBreaksOnly (split_on sep s).
Proof.
  intros [H1 [H2 H3]].
  pose proof (wide_occurs_split CR sep s H1) as F1.
  pose proof (wide_occurs_split LS sep s H2) as F2.
  pose proof (wide_occurs_split PS sep s H3) as F3.
  rewrite Forall_forall in *. intros w Hw. repeat split; auto.
Qed.

Lemma softBreaksOnly_packWords n ws cur :
  softBreaksOnly cur -> Forall softBreaksOnly ws ->
  Forall softBreaksOnly (packWords n cur ws).
Proof.
  intros [H1 [H2 H3]] F.
  assert (F1 : Forall (fun w => occurs CR w = false) ws)
    by (eapply Forall_impl; [|exact F]; intros w Hw; apply Hw).
  assert (F2 : Forall (fun w => occurs LS w = false) ws)
    by (eapply Forall_impl; [|exact F]; intros w Hw; apply Hw).
  assert (F3 : Forall (fun w => occurs PS w = false) ws)
    by (eapply Forall_impl; [|exact F]; intros w Hw; apply Hw).
  pose proof (wide_packWords_occurs CR n ws cur eq_refl H1 F1) as G1.
  pose proof (wide_packWords_occurs LS n ws cur eq_refl H2 F2) as G2.
  pose proof (wide_packWords_occurs PS n ws cur eq_refl H3 F3) as G3.
  rewrite Forall_forall in *. intros w Hw. repeat split; auto.
Qed.

(** The lines of what [forceSplit] returns are within the width. *)
Lemma wide_forceSplit_lines n line :
  (1 <= n)%nat -> softBreaksOnly line ->
  exists out, forceSplit n line = Some out /\ Forall (within n) (linesOf out).
Proof.
  intros Hn [Hcr [Hls Hps]]. unfold forceSplit.
  destruct (n <? List.length line)%nat eqn:E.
  - destruct n as [|n']; [lia|].
    set (n := S n') in *.
    pose proof (wide_regexChunks_chunks n line [] n Hn eq_refl eq_refl) as Hch.
    pose proof (wide_regexChunks_none n line [] n) as Hnone.
    destruct (regexChunks n [] n line) as [|ch chs] eqn:R.
    + exists line. split; [reflexivity|].
      destruct (Hnone eq_refl) as [_ Hall].
      eapply Forall_impl; [|exact (wide_only_LF_lines line Hall Hcr Hls Hps)].
      intros p ->. unfold within. simpl. lia.
    + exists (join [LF] (ch :: chs)). split; [reflexivity|].
      unfold linesOf. rewrite wide_split_join.
      * eapply Forall_impl; [|exact Hch]. intros p [_ [H _]]. exact H.
      * discriminate.
      * eapply Forall_impl; [|exact Hch]. intros p. apply wide_chunk_no_LF.
  - exists line. split; [reflexivity|].
    apply Nat.ltb_ge in E.
    eapply Forall_impl; [|exact (wide_split_pieces_le LF line)].
    unfold within. simpl. intros; lia.
Qed.

Lemma wide_mapOpt_lines n lines :
  (1 <= n)%nat -> Forall softBreaksOnly lines ->
  exists outs, mapOpt (forceSplit n) lines = Some outs
               /\ List.length outs = List.length lines
               /\ Forall (fun out => Forall (within n) (linesOf out)) outs.
Proof.
  intros Hn. induction 1 as [|l ls Hl _ [outs [E [Hlen HF]]]]; simpl.
  - exists []. repeat split; constructor.
  - destruct (wide_forceSplit_lines n l Hn Hl) as [out [Eo Ho]].
    rewrite Eo, E. simpl. exists (out :: outs). repeat split; [simpl; congruence|].
    constructor; assumption.
Qed.

(** X1.  For every text, a sequence of UTF-16 code units, that holds no
    carriage return, no U+2028 and no U+2029, and every width of at least
    one, [wrapText] returns, every line of what it returns (as
    [split('\n')] gives them) is at most [maxLength] code units long, and a
    text that already fits is returned unchanged. *)
Theorem wrapText_lines_within (text : Text) (maxLength : nat) :
  (1 <= maxLength)%nat -> softBreaksOnly text ->
  exists out,
    wrapText text maxLength = Some out
    /\ Forall (within maxLength) (linesOf out)
    /\ ((List.length text <= maxLength)%nat -> out = text).
Proof.
  intros Hn Hs. unfold wrapText.
  destruct (List.length text <=? maxLength)%nat eqn:E.
  - exists text. repeat split; auto.
    apply Nat.leb_le in E.
    eapply Forall_impl; [|exact (wide_split_pieces_le LF text)].
    unfold within. simpl. intros; lia.
  - apply Nat.leb_gt in E.
    pose proof (wide_split_nonempty SP text) as Hne.
    pose proof (softBreaksOnly_split SP text Hs) as Hws.
    destruct (split_on SP text) as [|w0 ws]; [congruence|].
    inversion Hws as [|? ? Hw0 Hws']; subst.
    destruct (wide_mapOpt_lines maxLength (packWords maxLength w0 ws) Hn)
      as [outs [Eo [Hlen HF]]].
    { now apply softBreaksOnly_packWords. }
    rewrite Eo. simpl. exists (join [LF] outs). split; [reflexivity|]. split; [|lia].
    rewrite wide_linesOf_join.
    + apply Forall_flat_map. exact HF.
    + intros ->. simpl in Hlen. symmetry in Hlen. apply length_zero_iff_nil in Hlen.
      exact (wide_packWords_nonempty _ _ _ Hlen).
Qed.

(** **** The strings of [JsString] are the texts of code units below 256 *)

Lemma ofString_app a b : ofString (a ++ b)%string = ofString a ++ ofString b.
Proof. unfold ofString. induction a as [|c a IH]; simpl; [reflexivity|]. now rewrite IH. Qed.

Lemma ofString_length s : List.length (ofString s) = String.length s.
Proof. unfold ofString. induction s as [|c s IH]; simpl; [reflexivity|]. now rewrite IH. Qed.

Lemma ofString_nonEmpty s : nonEmpty (ofString s) = JsString.truthy s.
Proof. destruct s; reflexivity. Qed.

Lemma N_of_ascii_eqb c d : (N_of_ascii c =? N_of_ascii d)%N = Ascii.eqb c d.
Proof.
  destruct (Ascii.eqb_spec c d) as [->|Hne]; [apply N.eqb_refl|].
  apply N.eqb_neq. intros H. apply Hne.
  now rewrite <- (ascii_N_embedding c), <- (ascii_N_embedding d), H.
Qed.

Lemma ofString_line_terminator c :
  is_line_terminator (N_of_ascii c) = JsString.is_line_terminator c.
Proof. destruct c as [[] [] [] [] [] [] [] []]; reflexivity. Qed.

Lemma ofString_split sep s :
  split_on (N_of_ascii sep) (ofString s) = map ofString (JsString.split_on sep s).
Proof.
  induction s as [|c r IH]; [reflexivity|].
  change (ofString (String c r)) with (N_of_ascii c :: ofString r).
  cbn [split_on JsString.split_on]. rewrite N_of_ascii_eqb, IH.
  destruct (Ascii.eqb c sep); [reflexivity|].
  destruct (JsString.split_on sep r); reflexivity.
Qed.

Lemma ofString_join sep l :
  ofString (JsString.join (String sep "") l) = join [N_of_ascii sep] (map ofString l).
Proof.
  unfold JsString.join. induction l as [|x l IH]; [reflexivity|].
  destruct l as [|y l]; [reflexivity|].
  change (String.concat (String sep "") (x :: y :: l))
    with (x ++ String sep (String.concat (String sep "") (y :: l)))%string.
  rewrite ofString_app.
  change (ofString (String sep (String.concat (String sep "") (y :: l))))
    with (N_of_ascii sep :: ofString (String.concat (String sep "") (y :: l))).
  now rewrite IH.
Qed.

Lemma ofString_packWords n ws : forall cur,
  packWords n (ofString cur) (map ofString ws)
  = map ofString (TextUtils.packWords n cur ws).
Proof.
  induction ws as [|w ws IH]; intros cur; [reflexivity|].
  cbn [map packWords TextUtils.packWords]. rewrite !ofString_length.
  destruct (_ <=? n)%nat.
  - rewrite <- IH. f_equal. now rewrite !ofString_app.
  - cbn [map]. now rewrite IH.
Qed.

Lemma ofString_regexChunks n s : forall cur room,
  regexChunks n (ofString cur) room (ofString s)
  = map ofString (TextUtils.regexChunks n cur room s).
Proof.
  induction s as [|c r IH]; intros cur room.
  - cbn [TextUtils.regexChunks]. change (ofString "") with (@nil N).
    cbn [regexChunks]. rewrite ofString_nonEmpty. now destruct (JsString.truthy cur).
  - change (ofString (String c r)) with (N_of_ascii c :: ofString r).
    cbn [regexChunks TextUtils.regexChunks]. rewrite ofString_line_terminator.
    destruct (JsString.is_line_terminator c).
    + rewrite map_app, ofString_nonEmpty. change (@nil N) with (ofString "").
      rewrite IH. now destruct (JsString.truthy cur).
    + destruct room as [|room'].
      * cbn [map]. change [N_of_ascii c] with (ofString (String c "")). now rewrite IH.
      * change [N_of_ascii c] with (ofString (String c "")).
        now rewrite <- ofString_app, IH.
Qed.

Lemma ofString_forceSplit n line :
  forceSplit n (ofString line) = option_map ofString (TextUtils.forceSplit n line).
Proof.
  unfold forceSplit, TextUtils.forceSplit. rewrite ofString_length.
  destruct (n <? String.length line)%nat; [|reflexivity].
  destruct n as [|n']; [reflexivity|].
  change (@nil N) with (ofString ""). rewrite ofString_regexChunks.
  destruct (TextUtils.regexChunks (S n') "" (S n') line) as [|ch chs]; [reflexivity|].
  cbn [option_map]. f_equal. symmetry. apply (ofString_join JsString.LF).
Qed.

Lemma ofString_mapOpt n lines :
  mapOpt (forceSplit n) (map ofString lines)
  = option_map (map ofString) (mapOpt (TextUtils.forceSplit n) lines).
Proof.
  induction lines as [|l ls IH]; [reflexivity|].
  cbn [map mapOpt]. rewrite ofString_forceSplit, IH.
  destruct (TextUtils.forceSplit n l); [|reflexivity].
  cbn [option_map]. now destruct (mapOpt (TextUtils.forceSplit n) ls).
Qed.

(** On a text of code units below 256 [wrapText] is [TextUtils.wrapText]. *)
Lemma wrapText_on_strings text maxLength :
  wrapText (ofString text) maxLength
  = option_map ofString (TextUtils.wrapText text maxLength).
Proof.
  unfold wrapText, TextUtils.wrapText. rewrite ofString_length.
  destruct (String.length text <=? maxLength)%nat; [reflexivity|].
  change SP with (N_of_ascii " "%char). rewrite ofString_split.
  destruct (JsString.split_on " " text) as [|w0 ws]; [reflexivity|].
  cbn [map]. rewrite ofString_packWords, ofString_mapOpt.
  destruct (mapOpt (TextUtils.forceSplit maxLength) (TextUtils.packWords maxLength w0 ws));
    [|reflexivity].
  cbn [option_map]. f_equal. symmetry. apply (ofString_join JsString.LF).
Qed.

(** The same failure as with carriage returns: a word of four line
    separators is returned whole. *)
Example wrapText_line_separators_unsplit :
  wrapText fourLS 3 = Some fourLS /\ linesOf fourLS = [fourLS].
Proof. split; reflexivity. Qed.

End CodeUnitFacts.

(** C10.  The code at the failing input: a word of four carriage returns is
    longer than the width 3, the regular expression [.{1,3}] matches
    nowhere in it, and [wrapText] returns it whole, one line of four
    characters. *)
Theorem wrapText_carriage_returns_unsplit :
  wrapText fourCR 3 = Some fourCR
  /\ linesOf fourCR = [fourCR]
  /\ String.length fourCR = 4%nat.
Proof. repeat split; reflexivity. Qed.

(** ** src/auth/tokenManager.ts *)

Module TokenFacts.

Import TokenManager.

Lemma update_nth_length {A} n (x : A) l : List.length (update_nth n x l) = List.length l.
Proof.
  revert n. induction l as [|h t IH]; intros [|n]; simpl; auto.
Qed.

Lemma nth_error_update_eq {A} n (x : A) l :
  (n < List.length l)%nat -> nth_error (update_nth n x l) n = Some x.
Proof.
  revert n. induction l as [|h t IH]; intros [|n]; simpl; intros H; try lia; auto.
  apply IH. lia.
Qed.

Lemma nth_error_update_neq {A} n m (x : A) l :
  n <> m -> nth_error (update_nth n x l) m = nth_error l m.
Proof.
  revert n m. induction l as [|h t IH]; intros [|n] [|m] H; simpl; auto; try congruence.
Qed.

Lemma nth_error_snoc {A} (l : list A) x n :
  nth_error (l ++ [x]) n
  = if (n <? List.length l)%nat then nth_error l n
    else if (n =? List.length l)%nat then Some x else None.
Proof.
  destruct (n <? List.length l)%nat eqn:E.
  - apply Nat.ltb_lt in E. now apply nth_error_app1.
  - apply Nat.ltb_ge in E. rewrite nth_error_app2 by exact E.
    destruct (n =? List.length l)%nat eqn:E2.
    + apply Nat.eqb_eq in E2. subst. now rewrite Nat.sub_diag.
    + apply Nat.eqb_neq in E2.
      destruct (n - List.length l)%nat as [|k] eqn:K; [lia|].
      simpl. now destruct k.
Qed.


(** C6.  A failed refresh is an explicit error and leaves the caches alone.
    Without a refresh token the call throws before anything is posted.  With
    one, when the request fails (network failure, or a response that is not
    ok), the caller throws the error the refresh settled with.  In both
    cases [cachedTokens] and [cachedCredentials] are what they were before
    the call, and nothing is saved. *)
Theorem refresh_failure_explicit (s : State) (credentials : Credentials)
        (currentTokens : TokenEndpointResponse) :
  refreshInFlight s = None ->
  (truthyOpt (refresh_token currentTokens) = false ->
   exists s' e,
     step s (Call credentials currentTokens) = Some s'
     /\ nth_error (callers s') (List.length (callers s))
        = Some {| joined := None; outcome := Some (inl e) |}
     /\ cachedTokens s' = cachedTokens s
     /\ cachedCredentials s' = cachedCredentials s
     /\ requests s' = requests s)
  /\ (truthyOpt (refresh_token currentTokens) = true ->
      forall r e, refreshFailure r = Some e ->
      exists s',
        exec s [Call credentials currentTokens;
                FetchDone (List.length (flights s)) r;
                Resume (List.length (callers s))] = Some s'
        /\ nth_error (callers s') (List.length (callers s))
           = Some {| joined := Some (List.length (flights s)); outcome := Some (inl e) |}
        /\ cachedTokens s' = cachedTokens s
        /\ cachedCredentials s' = cachedCredentials s
        /\ saved s' = saved s
        /\ refreshInFlight s' = None).
Proof.
  intros Hm. split.
  - intros Ht. simpl. rewrite Ht. simpl.
    eexists. eexists. split; [reflexivity|]. simpl. repeat split.
    rewrite nth_error_snoc, Nat.ltb_irrefl, Nat.eqb_refl. reflexivity.
  - intros Ht r e Hr. simpl. rewrite Ht, Hm. simpl.
    rewrite nth_error_snoc, Nat.ltb_irrefl, Nat.eqb_refl.
    assert (Hf : forall x,
      nth_error (update_nth (List.length (flights s)) x
                   (flights s ++ [AwaitFetch credentials currentTokens]))
                (List.length (flights s)) = Some x).
    { intros x. apply nth_error_update_eq. rewrite length_app. simpl. lia. }
    assert (Hc : forall x,
      nth_error (update_nth (List.length (callers s)) x
                   (callers s ++ [{| joined := Some (List.length (flights s)); outcome := None |}]))
                (List.length (callers s)) = Some x).
    { intros x. apply nth_error_update_eq. rewrite length_app. simpl. lia. }
    destruct r as [e'|[|] st]; simpl in Hr; try discriminate; injection Hr as <-;
      simpl; rewrite nth_error_snoc, Nat.ltb_irrefl, Nat.eqb_refl, Hf;
      eexists; (split; [reflexivity|]); simpl; rewrite Hc; repeat split.
Qed.

(** X4.  A successful refresh, from a state with no refresh in flight:
    the caller returns the merged tokens, which are the refreshed response
    with the old refresh token when the server sent none and with
    [expires_at] computed from [expires_in] (7200 seconds when absent) when
    the server sent none; the caches hold the merged tokens and the
    credentials with them, and these credentials have been handed to
    [save]. *)
Theorem refresh_success_merges (s : State) (credentials : Credentials)
        (currentTokens refreshed : TokenEndpointResponse) (statusText : string)
        (now : Z) :
  refreshInFlight s = None ->
  truthyOpt (refresh_token currentTokens) = true ->
  exists s',
    exec s [Call credentials currentTokens;
            FetchDone (List.length (flights s)) (HttpResponse true statusText);
            JsonDone (List.length (flights s)) (JsonValue refreshed) now;
            SaveDone (List.length (flights s)) SaveOk;
            Resume (List.length (callers s))] = Some s'
    /\ nth_error (callers s') (List.length (callers s))
       = Some {| joined := Some (List.length (flights s));
                 outcome := Some (inr (mergeTokens refreshed currentTokens now)) |}
    /\ cachedTokens s' = Some (mergeTokens refreshed currentTokens now)
    /\ cachedCredentials s'
       = Some (withTokens credentials (mergeTokens refreshed currentTokens now))
    /\ saved s'
       = (saved s ++ [withTokens credentials (mergeTokens refreshed currentTokens now)])%list
    /\ refreshInFlight s' = None
    /\ access_token (mergeTokens refreshed currentTokens now) = access_token refreshed
    /\ refresh_token (mergeTokens refreshed currentTokens now)
       = match refresh_token refreshed with
         | Some r => Some r
         | None => refresh_token currentTokens
         end
    /\ expires_at (mergeTokens refreshed currentTokens now)
       = Some (match expires_at refreshed with
               | Some e => if (e =? 0)%Z then
                             (now / 1000 + orElseZ (expires_in refreshed) 7200)%Z
                           else e
               | None => (now / 1000 + orElseZ (expires_in refreshed) 7200)%Z
               end).
Proof.
  intros Hm Ht. simpl. rewrite Ht, Hm. simpl.
  rewrite nth_error_snoc, Nat.ltb_irrefl, Nat.eqb_refl.
  assert (Hlen : forall x : Flight,
             (List.length (flights s) < List.length (flights s ++ [x]))%nat).
  { intros x. rewrite length_app. simpl. lia. }
  simpl. rewrite nth_error_update_eq by apply Hlen.
  simpl. rewrite nth_error_update_eq
    by (rewrite update_nth_length; apply Hlen).
  simpl. rewrite nth_error_snoc, Nat.ltb_irrefl, Nat.eqb_refl.
  rewrite nth_error_update_eq
    by (rewrite !update_nth_length; apply Hlen).
  eexists. split; [reflexivity|]. simpl.
  rewrite nth_error_update_eq by (rewrite length_app; simpl; lia).
  repeat split.
Qed.

End TokenFacts.

(** ** src/utils/imageUtils.ts *)

Import ImageUtils.

(** *** The image cache *)

Lemma insertSorted_perm x l : Permutation (insertSorted x l) (x :: l).
Proof.
  induction l as [|y l IH]; simpl; [reflexivity|].
  destruct (lastUsed (snd y) <=? lastUsed (snd x))%Z; [|reflexivity].
  rewrite IH. apply perm_swap.
Qed.

Lemma insertSorted_sorted x l :
  StronglySorted byLastUsed l -> StronglySorted byLastUsed (insertSorted x l).
Proof.
  induction 1 as [|y l Hs IH Hy]; simpl.
  - repeat constructor.
  - destruct (lastUsed (snd y) <=? lastUsed (snd x))%Z eqn:E.
    + constructor; [exact IH|].
      rewrite (insertSorted_perm x l). constructor; [|exact Hy].
      apply Z.leb_le in E. exact E.
    + apply Z.leb_gt in E.
      constructor; [constructor; assumption|].
      constructor; [unfold byLastUsed; lia|].
      eapply Forall_impl; [|exact Hy]. unfold byLastUsed. intros; lia.
Qed.

Lemma sort_fold_perm m : forall acc,
  Permutation (fold_left (fun acc x => insertSorted x acc) m acc) (acc ++ m)%list.
Proof.
  induction m as [|x m IH]; intros acc; simpl.
  - now rewrite app_nil_r.
  - rewrite IH, insertSorted_perm. apply Permutation_middle.
Qed.

Lemma sort_fold_sorted m : forall acc,
  StronglySorted byLastUsed acc ->
  StronglySorted byLastUsed (fold_left (fun acc x => insertSorted x acc) m acc).
Proof.
  induction m as [|x m IH]; intros acc H; simpl; [exact H|].
  apply IH. now apply insertSorted_sorted.
Qed.

Lemma sortedEntries_perm m : Permutation (sortedEntries m) m.
Proof. unfold sortedEntries. now rewrite sort_fold_perm. Qed.

Lemma sortedEntries_sorted m : StronglySorted byLastUsed (sortedEntries m).
Proof. apply sort_fold_sorted. constructor. Qed.

Lemma StronglySorted_app_le {A} (R : A -> A -> Prop) (a b : list A) :
  StronglySorted R (a ++ b)%list -> forall x y, In x a -> In y b -> R x y.
Proof.
  induction a as [|h a IH]; simpl; intros H x y Hx Hy; [contradiction|].
  inversion H as [|? ? Hs Hf]; subst.
  destruct Hx as [->|Hx].
  - rewrite Forall_forall in Hf. apply Hf. apply in_or_app. now right.
  - now apply IH.
Qed.

Lemma filter_filter {A} (f g : A -> bool) l :
  filter f (filter g l) = filter (fun x => g x && f x) l.
Proof.
  induction l as [|x l IH]; simpl; [reflexivity|].
  destruct (g x); simpl; [destruct (f x)|]; now rewrite IH.
Qed.

Lemma delete_all_filter ks : forall m,
  fold_left (fun acc k => map_delete k acc) ks m = filter (keptBy ks) m.
Proof.
  induction ks as [|k ks IH]; intros m; simpl.
  - induction m as [|x m IHm]; simpl; [reflexivity|]. now rewrite <- IHm.
  - rewrite IH. unfold map_delete. rewrite filter_filter.
    apply filter_ext. intros p. unfold keptBy. simpl.
    now rewrite negb_orb.
Qed.

(** The pruning loop keeps, in their order, the entries whose key is not
    among the evicted ones. *)
Lemma prune_filter m : prune m = filter (keptBy (evicted m)) m.
Proof. apply delete_all_filter. Qed.

Lemma Permutation_filter {A} (f : A -> bool) (l l' : list A) :
  Permutation l l' -> Permutation (filter f l) (filter f l').
Proof.
  induction 1 as [|x l l' _ IH|x y l|l l' l'' _ IH1 _ IH2]; simpl.
  - reflexivity.
  - destruct (f x); [now constructor|exact IH].
  - destruct (f x), (f y); try reflexivity. apply perm_swap.
  - now rewrite IH1.
Qed.

Lemma keptBy_false ks p : In (fst p) ks -> keptBy ks p = false.
Proof.
  intros H. unfold keptBy. apply negb_false_iff. apply existsb_exists.
  exists (fst p). split; [exact H|apply String.eqb_refl].
Qed.

Lemma keptBy_true ks p : ~ In (fst p) ks -> keptBy ks p = true.
Proof.
  intros H. unfold keptBy. apply negb_true_iff.
  destruct (existsb (String.eqb (fst p)) ks) eqn:E; [|reflexivity].
  apply existsb_exists in E. destruct E as [k [Hk E]].
  apply String.eqb_eq in E. subst k. contradiction.
Qed.

Lemma filter_none {A} (f : A -> bool) l :
  (forall x, In x l -> f x = false) -> filter f l = [].
Proof.
  induction l as [|x l IH]; simpl; intros H; [reflexivity|].
  rewrite (H x) by auto. apply IH. auto.
Qed.

Lemma filter_all {A} (f : A -> bool) l :
  (forall x, In x l -> f x = true) -> filter f l = l.
Proof.
  induction l as [|x l IH]; simpl; intros H; [reflexivity|].
  rewrite (H x) by auto. f_equal. apply IH. auto.
Qed.

Lemma NoDup_app_disjoint {A} (a b : list A) :
  NoDup (a ++ b)%list -> forall x, In x a -> ~ In x b.
Proof.
  induction a as [|h a IH]; simpl; intros H x Hx; [contradiction|].
  inversion H as [|? ? Hn Hd]; subst.
  destruct Hx as [->|Hx].
  - intros Hb. apply Hn. apply in_or_app. now right.
  - now apply IH.
Qed.

(** With distinct keys, the survivors of the pruning are the entries after
    the first [toRemove] of the sorted list. *)
Lemma prune_survivors m :
  NoDup (keys m) ->
  Permutation (prune m) (skipn toRemove (sortedEntries m)).
Proof.
  intros Hnd. rewrite prune_filter.
  rewrite (Permutation_filter _ _ _ (Permutation_sym (sortedEntries_perm m))).
  unfold evicted.
  set (s := sortedEntries m).
  assert (Hs : NoDup (keys (firstn toRemove s ++ skipn toRemove s)%list)).
  { rewrite firstn_skipn. unfold keys.
    eapply Permutation_NoDup; [|exact Hnd].
    apply Permutation_map. symmetry. apply sortedEntries_perm. }
  rewrite <- (firstn_skipn toRemove s) at 2.
  rewrite filter_app.
  rewrite filter_none, filter_all; [reflexivity| |].
  - intros p Hp. apply keptBy_true. intros Hin.
    unfold keys in Hs. rewrite map_app in Hs.
    apply (NoDup_app_disjoint _ _ Hs (fst p) Hin). now apply in_map.
  - intros p Hp. apply keptBy_false. now apply in_map.
Qed.

Lemma toRemove_10 : toRemove = 10%nat.
Proof. reflexivity. Qed.

Lemma prune_length m :
  NoDup (keys m) -> List.length (prune m) = (List.length m - toRemove)%nat.
Proof.
  intros Hnd. rewrite (Permutation_length (prune_survivors m Hnd)).
  rewrite length_skipn. now rewrite (Permutation_length (sortedEntries_perm m)).
Qed.

Lemma evicted_length m :
  (toRemove <= List.length m)%nat -> List.length (evicted m) = toRemove.
Proof.
  intros H. unfold evicted. rewrite length_map, length_firstn.
  rewrite (Permutation_length (sortedEntries_perm m)). lia.
Qed.

(** Every evicted entry was used no later than every surviving one. *)
Lemma prune_lru m :
  NoDup (keys m) ->
  forall x y, In x (firstn toRemove (sortedEntries m)) -> In y (prune m) ->
              byLastUsed x y.
Proof.
  intros Hnd x y Hx Hy.
  apply (Permutation_in _ (prune_survivors m Hnd)) in Hy.
  eapply StronglySorted_app_le; [|exact Hx|exact Hy].
  rewrite firstn_skipn. apply sortedEntries_sorted.
Qed.

Lemma NoDup_keys_filter f m : NoDup (keys m) -> NoDup (keys (filter f m)).
Proof.
  unfold keys. induction m as [|p m IH]; simpl; intros H; [constructor|].
  inversion H as [|? ? Hn Hd]; subst.
  destruct (f p); simpl; [constructor|]; auto.
  intros Hin. apply Hn. apply in_map_iff in Hin. destruct Hin as [q [Hq Hin]].
  apply filter_In in Hin. apply in_map_iff. exists q. tauto.
Qed.

Lemma map_get_None k m : map_get k m = None <-> ~ In k (keys m).
Proof.
  unfold keys. induction m as [|[k' e] m IH]; simpl; [tauto|].
  destruct (String.eqb_spec k' k) as [->|Hne].
  - split; [discriminate|]. intros H. exfalso. apply H. now left.
  - rewrite IH. tauto.
Qed.

Lemma map_set_fresh k e m : map_get k m = None -> map_set k e m = (m ++ [(k, e)])%list.
Proof.
  induction m as [|[k' e'] m IH]; simpl; [reflexivity|].
  destruct (k' =? k); [discriminate|]. intros H. now rewrite (IH H).
Qed.

Lemma map_set_present k e m :
  map_get k m <> None -> keys (map_set k e m) = keys m.
Proof.
  unfold keys. induction m as [|[k' e'] m IH]; simpl; [congruence|].
  destruct (k' =? k); simpl; [reflexivity|]. intros H. now rewrite (IH H).
Qed.

Lemma keys_length m : List.length (keys m) = List.length m.
Proof. apply length_map. Qed.

Lemma map_set_ok k e m :
  NoDup (keys m) ->
  NoDup (keys (map_set k e m))
  /\ (List.length (map_set k e m) <= S (List.length m))%nat
  /\ (map_get k m <> None -> List.length (map_set k e m) = List.length m).
Proof.
  intros Hnd. destruct (map_get k m) as [e0|] eqn:G.
  - assert (Hk : keys (map_set k e m) = keys m) by (apply map_set_present; congruence).
    rewrite Hk. rewrite <- (keys_length (map_set k e m)), Hk, keys_length.
    repeat split; auto.
  - rewrite (map_set_fresh k e m G). unfold keys. rewrite map_app, length_app. simpl.
    repeat split; [|lia|congruence].
    apply map_get_None in G.
    apply NoDup_rev in Hnd. rewrite <- (rev_involutive (map fst m ++ [k])).
    apply NoDup_rev. rewrite rev_app_distr. simpl. constructor; [|exact Hnd].
    rewrite <- in_rev. exact G.
Qed.

Lemma map_get_set k e m : map_get k (map_set k e m) = Some e.
Proof.
  induction m as [|[k' e'] m IH]; simpl.
  - now rewrite String.eqb_refl.
  - destruct (k' =? k) eqn:E; simpl; rewrite E; [reflexivity|exact IH].
Qed.

Lemma map_set_length_present k e m :
  map_get k m <> None -> List.length (map_set k e m) = List.length m.
Proof.
  induction m as [|[k' e'] m IH]; simpl; [congruence|].
  destruct (k' =? k); simpl; [reflexivity|]. intros H. now rewrite (IH H).
Qed.

Lemma map_set_In k e m k' e' :
  NoDup (keys m) -> In (k', e') (map_set k e m) ->
  (k' = k /\ e' = e) \/ (k' <> k /\ In (k', e') m).
Proof.
  unfold keys. induction m as [|[k0 e0] m IH]; simpl; intros Hnd H.
  - destruct H as [H|[]]. injection H as <- <-. now left.
  - inversion Hnd as [|? ? Hn Hd]; subst.
    destruct (String.eqb_spec k0 k) as [->|Hne].
    + destruct H as [H|H].
      * injection H as <- <-. now left.
      * right. split; [|now right]. intros ->. apply Hn.
        apply in_map_iff. now exists (k, e').
    + destruct H as [H|H].
      * injection H as <- <-. right. split; [exact Hne|now left].
      * destruct (IH Hd H) as [?|[? ?]]; [now left|right; auto].
Qed.

Section ImageFacts.

Variable toBase64 : string -> string.
Variable renderTextOverlay : option TextOverlay -> string.

Local Abbreviation getProcessedImage :=
  (ImageUtils.getProcessedImage toBase64 renderTextOverlay).
Local Abbreviation renderedAnew :=
  (ImageUtils.renderedAnew toBase64 renderTextOverlay).
Local Abbreviation cacheAfter :=
  (ImageUtils.cacheAfter toBase64 renderTextOverlay).

Lemma getProcessedImage_miss uri live o now m :
  cacheMiss (fullCacheKey uri live o) now m ->
  snd (getProcessedImage uri live o now m) = renderedAnew uri live o now m.
Proof.
  unfold cacheMiss, ImageUtils.getProcessedImage, renderedAnew.
  destruct (map_get (fullCacheKey uri live o) m) as [cached|]; [|reflexivity].
  intros H. apply Z.ltb_ge in H. now rewrite H.
Qed.

Lemma getProcessedImage_ok uri live o now m :
  cache_ok m -> cache_ok (snd (getProcessedImage uri live o now m)).
Proof.
  intros [Hnd Hlen]. unfold ImageUtils.getProcessedImage.
  assert (Hfresh : cache_ok (renderedAnew uri live o now m)).
  { unfold renderedAnew.
    set (pruned := if (MAX_CACHE_SIZE <=? List.length m)%nat then prune m else m).
    assert (Hp : NoDup (keys pruned) /\ (List.length pruned < MAX_CACHE_SIZE)%nat).
    { unfold pruned. destruct (MAX_CACHE_SIZE <=? List.length m)%nat eqn:E.
      - split; [rewrite prune_filter; now apply NoDup_keys_filter|].
        rewrite (prune_length m Hnd). apply Nat.leb_le in E.
        unfold MAX_CACHE_SIZE in *. rewrite toRemove_10. lia.
      - apply Nat.leb_gt in E. auto. }
    destruct Hp as [Hp1 Hp2].
    destruct (map_set_ok (fullCacheKey uri live o)
                {| value := dataUri toBase64 (processedSvg renderTextOverlay uri live o);
                   expiresAt := now + IMAGE_CACHE_MS; lastUsed := now |} pruned Hp1)
      as [H1 [H2 _]].
    split; [exact H1|lia]. }
  destruct (map_get (fullCacheKey uri live o) m) as [cached|] eqn:G; [|exact Hfresh].
  destruct (now <? expiresAt cached)%Z; [|exact Hfresh].
  simpl.
  destruct (map_set_ok (fullCacheKey uri live o)
              {| value := value cached; expiresAt := expiresAt cached; lastUsed := now |}
              m Hnd) as [H1 [_ H3]].
  split; [exact H1|]. rewrite H3 by congruence. exact Hlen.
Qed.

Lemma cacheAfter_ok calls : cache_ok (cacheAfter calls).
Proof.
  unfold cacheAfter.
  assert (H : forall m, cache_ok m ->
            cache_ok (fold_left (fun m c =>
               snd (getProcessedImage (call_uri c) (call_live c) (call_overlay c)
                                      (call_now c) m)) calls m)).
  { induction calls as [|c calls IH]; intros m Hm; simpl; [exact Hm|].
    apply IH. now apply getProcessedImage_ok. }
  apply H. split; [constructor|simpl; unfold MAX_CACHE_SIZE; lia].
Qed.

(** The entries a call leaves: the one of its key, used now, and entries
    that were there before. *)
Lemma getProcessedImage_entries uri live o now m k e :
  NoDup (keys m) ->
  In (k, e) (snd (getProcessedImage uri live o now m)) ->
  (k = fullCacheKey uri live o /\ lastUsed e = now)
  \/ (k <> fullCacheKey uri live o /\ In (k, e) m).
Proof.
  intros Hnd. unfold ImageUtils.getProcessedImage.
  assert (Hfresh :
    In (k, e) (map_set (fullCacheKey uri live o)
                 {| value := dataUri toBase64 (processedSvg renderTextOverlay uri live o);
                    expiresAt := now + IMAGE_CACHE_MS; lastUsed := now |}
                 (if (MAX_CACHE_SIZE <=? List.length m)%nat then prune m else m)) ->
    (k = fullCacheKey uri live o /\ lastUsed e = now)
    \/ (k <> fullCacheKey uri live o /\ In (k, e) m)).
  { intros H. apply map_set_In in H.
    - destruct H as [[-> ->]|[Hne H]]; [now left|]. right. split; [exact Hne|].
      destruct (MAX_CACHE_SIZE <=? List.length m)%nat; [|exact H].
      rewrite prune_filter in H. now apply filter_In in H.
    - destruct (MAX_CACHE_SIZE <=? List.length m)%nat; [|exact Hnd].
      rewrite prune_filter. now apply NoDup_keys_filter. }
  destruct (map_get (fullCacheKey uri live o) m) as [cached|]; [|exact Hfresh].
  destruct (now <? expiresAt cached)%Z; [|exact Hfresh].
  cbn [snd]. intros H. apply map_set_In in H; [|exact Hnd].
  destruct H as [[-> ->]|[Hne H]]; [now left|now right].
Qed.

Lemma lastUse_fold calls : forall m k e,
  cache_ok m ->
  In (k, e) (fold_left (fun m c =>
               snd (getProcessedImage (call_uri c) (call_live c) (call_overlay c)
                                      (call_now c) m)) calls m) ->
  match lastUse k calls with
  | Some t => lastUsed e = t
  | None => In (k, e) m
  end.
Proof.
  induction calls as [|c calls IH]; intros m k e Hok H; simpl in *; [exact H|].
  specialize (IH _ k e (getProcessedImage_ok _ _ _ _ m Hok) H).
  destruct (lastUse k calls) as [t|]; [exact IH|].
  apply getProcessedImage_entries in IH; [|apply Hok].
  unfold callKey. destruct IH as [[-> Hl]|[Hne Hin]].
  - now rewrite String.eqb_refl.
  - apply not_eq_sym, String.eqb_neq in Hne. now rewrite Hne.
Qed.

(** The [lastUsed] of an entry is the time of the last call that used its
    key. *)
Lemma cacheAfter_lastUse calls k e :
  In (k, e) (cacheAfter calls) -> lastUse k calls = Some (lastUsed e).
Proof.
  intros H. unfold ImageUtils.cacheAfter in H.
  apply lastUse_fold in H.
  - destruct (lastUse k calls); [now subst|contradiction].
  - split; [constructor|simpl; unfold MAX_CACHE_SIZE; lia].
Qed.

(** C5.  After any sequence of calls of [getProcessedImage] the cache holds
    at most [MAX_CACHE_SIZE] = 50 entries.  A call that misses while the cache
    holds 50 entries first removes [toRemove] = ceil(50 * 0.2) = 10 entries,
    those with the ten smallest [lastUsed] (every evicted entry was used no
    later than every entry kept), the 40 others stay in their order, and the
    new entry is then set.  The [lastUsed] of an entry is the time of the
    last call that used its key: a call that finds the entry, not expired,
    returns its value and sets its [lastUsed] to the time of the call, leaving
    the keys as they are; so the evicted keys are those whose last use, by a
    call that rendered or by one that found the entry, is the oldest. *)
Theorem image_cache_bounded_lru (calls : list ImageCall) :
  (List.length (cacheAfter calls) <= MAX_CACHE_SIZE)%nat
  /\ MAX_CACHE_SIZE = 50%nat /\ toRemove = 10%nat
  /\ (forall uri live o now,
      List.length (cacheAfter calls) = MAX_CACHE_SIZE ->
      cacheMiss (fullCacheKey uri live o) now (cacheAfter calls) ->
      snd (getProcessedImage uri live o now (cacheAfter calls))
      = map_set (fullCacheKey uri live o)
          {| value := dataUri toBase64 (processedSvg renderTextOverlay uri live o);
             expiresAt := now + IMAGE_CACHE_MS; lastUsed := now |}
          (prune (cacheAfter calls))
      /\ List.length (evicted (cacheAfter calls)) = 10%nat
      /\ NoDup (evicted (cacheAfter calls))
      /\ prune (cacheAfter calls)
         = filter (keptBy (evicted (cacheAfter calls))) (cacheAfter calls)
      /\ List.length (prune (cacheAfter calls)) = 40%nat
      /\ (forall k e k' e',
             In (k, e) (cacheAfter calls) -> In k (evicted (cacheAfter calls)) ->
             In (k', e') (prune (cacheAfter calls)) ->
             (lastUsed e <= lastUsed e')%Z)
      /\ (List.length (snd (getProcessedImage uri live o now (cacheAfter calls)))
          <= MAX_CACHE_SIZE)%nat
      /\ (forall k k',
             In k (evicted (cacheAfter calls)) ->
             In k' (keys (prune (cacheAfter calls))) ->
             exists t t', lastUse k calls = Some t /\ lastUse k' calls = Some t'
                          /\ (t <= t')%Z))
  /\ (forall k e, In (k, e) (cacheAfter calls) -> lastUse k calls = Some (lastUsed e))
  /\ (forall uri live o now cached,
         map_get (fullCacheKey uri live o) (cacheAfter calls) = Some cached ->
         (now < expiresAt cached)%Z ->
         fst (getProcessedImage uri live o now (cacheAfter calls)) = value cached
         /\ map_get (fullCacheKey uri live o)
                    (snd (getProcessedImage uri live o now (cacheAfter calls)))
            = Some {| value := value cached; expiresAt := expiresAt cached;
                      lastUsed := now |}
         /\ keys (snd (getProcessedImage uri live o now (cacheAfter calls)))
            = keys (cacheAfter calls)).
Proof.
  destruct (cacheAfter_ok calls) as [Hnd Hlen].
  split; [exact Hlen|]. split; [reflexivity|]. split; [reflexivity|].
  split; [|split; [intros k e; apply cacheAfter_lastUse|]].
  2:{ intros uri live o now cached Hget Hnow.
      unfold ImageUtils.getProcessedImage. rewrite Hget.
      apply Z.ltb_lt in Hnow. rewrite Hnow. cbn [fst snd].
      split; [reflexivity|]. split; [apply map_get_set|].
      apply map_set_present. congruence. }
  intros uri live o now Hfull Hmiss.
  pose proof (cacheAfter_lastUse calls) as Hlast.
  set (m := cacheAfter calls) in *.
  assert (Hlru : forall k e k' e',
             In (k, e) m -> In k (evicted m) -> In (k', e') (prune m) ->
             (lastUsed e <= lastUsed e')%Z).
  { intros k e k' e' Hin Hk Hs.
    unfold evicted in Hk. apply in_map_iff in Hk. destruct Hk as [[k0 e0] [Hk0 Hf]].
    simpl in Hk0. subst k0.
    assert (He : e0 = e).
    { assert (Hm : In (k, e0) m).
      { apply (Permutation_in _ (sortedEntries_perm m)).
        rewrite <- (firstn_skipn toRemove). apply in_or_app. now left. }
      clear - Hnd Hin Hm. unfold keys in Hnd.
      induction m as [|[k1 e1] m IH]; simpl in *; [contradiction|].
      inversion Hnd as [|? ? Hn Hd]; subst.
      destruct Hin as [Hin|Hin], Hm as [Hm|Hm].
      - congruence.
      - injection Hin as -> ->. exfalso. apply Hn. apply in_map_iff. now exists (k, e0).
      - injection Hm as -> ->. exfalso. apply Hn. apply in_map_iff. now exists (k, e).
      - now apply IH. }
    subst e0. exact (prune_lru m Hnd (k, e) (k', e') Hf Hs). }
  assert (Hev : List.length (evicted m) = 10%nat).
  { rewrite evicted_length; [reflexivity|]. rewrite Hfull. unfold MAX_CACHE_SIZE, toRemove. simpl. lia. }
  repeat split.
  - rewrite (getProcessedImage_miss _ _ _ _ _ Hmiss). unfold renderedAnew.
    rewrite Hfull, Nat.leb_refl. reflexivity.
  - exact Hev.
  - unfold evicted.
    assert (Hs : NoDup (keys (firstn toRemove (sortedEntries m) ++ skipn toRemove (sortedEntries m))%list)).
    { rewrite firstn_skipn. unfold keys.
      eapply Permutation_NoDup; [|exact Hnd].
      apply Permutation_map. symmetry. apply sortedEntries_perm. }
    unfold keys in Hs. rewrite map_app in Hs. now apply NoDup_app_remove_r in Hs.
  - apply prune_filter.
  - rewrite (prune_length m Hnd), Hfull. reflexivity.
  - exact Hlru.
  - apply getProcessedImage_ok. split; [exact Hnd|exact Hlen].
  - intros k k' Hk Hk'.
    assert (He : exists e, In (k, e) m).
    { unfold evicted in Hk. apply in_map_iff in Hk. destruct Hk as [[k0 e0] [Hk0 Hf]].
      simpl in Hk0. subst k0. exists e0.
      apply (Permutation_in _ (sortedEntries_perm m)).
      rewrite <- (firstn_skipn toRemove). apply in_or_app. now left. }
    destruct He as [e He].
    unfold keys in Hk'. apply in_map_iff in Hk'. destruct Hk' as [[k0 e'] [Hk0 He']].
    simpl in Hk0. subst k0.
    exists (lastUsed e), (lastUsed e'). split; [now apply Hlast|]. split.
    + apply Hlast. rewrite prune_filter in He'. now apply filter_In in He'.
    + now apply (Hlru k e k' e').
Qed.


(** X2.  Cache round trip: when a call renders anew, the same call again
    before the entry expires (within [IMAGE_CACHE_MS] of the first) returns
    the same image and leaves the cache at the same size. *)
Theorem cache_round_trip (uri : string) (live : bool) (o : option TextOverlay)
        (now1 now2 : Z) (m : ImageCache) :
  cacheMiss (fullCacheKey uri live o) now1 m ->
  (now2 < now1 + IMAGE_CACHE_MS)%Z ->
  fst (getProcessedImage uri live o now2 (snd (getProcessedImage uri live o now1 m)))
  = fst (getProcessedImage uri live o now1 m)
  /\ List.length (snd (getProcessedImage uri live o now2
                         (snd (getProcessedImage uri live o now1 m))))
     = List.length (snd (getProcessedImage uri live o now1 m)).
Proof.
  intros Hmiss Hnow.
  assert (E1 : getProcessedImage uri live o now1 m
               = (dataUri toBase64 (processedSvg renderTextOverlay uri live o),
                  renderedAnew uri live o now1 m)).
  { unfold cacheMiss in Hmiss. unfold ImageUtils.getProcessedImage, ImageUtils.renderedAnew.
    destruct (map_get (fullCacheKey uri live o) m) as [cached|]; [|reflexivity].
    apply Z.ltb_ge in Hmiss. now rewrite Hmiss. }
  rewrite E1. cbn [fst snd].
  unfold ImageUtils.getProcessedImage. unfold ImageUtils.renderedAnew.
  rewrite map_get_set. cbn [expiresAt value].
  apply Z.ltb_lt in Hnow. rewrite Hnow. cbn [fst snd].
  split; [reflexivity|].
  apply map_set_length_present. rewrite map_get_set. discriminate.
Qed.

(** C9.  With three items whose images hold no [<], and a text overlay
    whose rendering holds no clip path, pattern or path of its own,
    [generateCollageSvg] returns the data URI of an SVG text that holds
    exactly four clip paths (the fixed clip path [mainClip] of the rounded
    outline and one per tile: the polygons of a top wedge and of two lower
    wedges that meet at the centre), exactly three fill patterns, one per
    item, and exactly three border paths: the border of the top wedge ends at
    y = 16.5 on both sides, and the borders of the two lower wedges start,
    or end, at y = 17.5; the three wedges are drawn filled with the pattern
    of their item, or in green while it flashes. *)
Theorem collage_three_tiles (a b c : CollageItem) (textOverlay : option TextOverlay)
        (now : Z) (cache : ImageCache) :
  occurs "<"%char (image a) = false ->
  occurs "<"%char (image b) = false ->
  occurs "<"%char (image c) = false ->
  countOcc "<clipPath" (renderTextOverlay textOverlay) = 0%nat ->
  countOcc "<pattern" (renderTextOverlay textOverlay) = 0%nat ->
  countOcc "<path" (renderTextOverlay textOverlay) = 0%nat ->
  let svg := collageSvg renderTextOverlay [a; b; c] textOverlay in
  generateCollageSvg toBase64 renderTextOverlay [a; b; c] textOverlay now cache
  = (dataUri toBase64 svg, cache)
  /\ (countOcc "<clipPath" svg = 4%nat
      /\ contains (Q "<clipPath id='mainClip'>") svg
      /\ contains
           (Q "<clipPath id='clip0'><polygon points='50,50 0,17 0,0 100,0 100,17' /></clipPath>")
           svg
      /\ contains
           (Q "<clipPath id='clip1'><polygon points='50,50 100,17 100,100 50,100' /></clipPath>")
           svg
      /\ contains
           (Q "<clipPath id='clip2'><polygon points='50,50 50,100 0,100 0,17' /></clipPath>")
           svg)
  /\ (countOcc "<pattern" svg = 3%nat
      /\ contains (collagePattern a 0) svg
      /\ contains (collagePattern b 1) svg
      /\ contains (collagePattern c 2) svg)
  /\ (countOcc "<path" svg = 3%nat
      /\ contains
           (Q "<path d='M 1,16.5 A 15,15 0 0 1 16,1 L 84,1 A 15,15 0 0 1 99,16.5' fill='none' stroke='"
            ++ borderColorOf (isLive a) ++ Q "' stroke-width='2' />") svg
      /\ contains
           (Q "<path d='M 99,17.5 L 99,84 A 15,15 0 0 1 84,99 L 50.5,99' fill='none' stroke='"
            ++ borderColorOf (isLive b) ++ Q "' stroke-width='2' />") svg
      /\ contains
           (Q "<path d='M 49.5,99 L 16,99 A 15,15 0 0 1 1,84 L 1,17.5' fill='none' stroke='"
            ++ borderColorOf (isLive c) ++ Q "' stroke-width='2' />") svg)
  /\ (contains
        (Q "<polygon points='50,50 0,17 0,0 100,0 100,17' fill='"
         ++ (if isFlashing a then "#53fc18" else "url(#pat0)") ++ Q "' />") svg
      /\ contains
           (Q "<polygon points='50,50 100,17 100,100 50,100' fill='"
            ++ (if isFlashing b then "#53fc18" else "url(#pat1)") ++ Q "' />") svg
      /\ contains
           (Q "<polygon points='50,50 50,100 0,100 0,17' fill='"
            ++ (if isFlashing c then "#53fc18" else "url(#pat2)") ++ Q "' />") svg).
Proof.
  intros Ha Hb Hc Ho1 Ho2 Ho3 svg. subst svg.
  split; [reflexivity|]. unfold collageSvg.
  split; [|split; [|split]].
  - split; [count_elements ltac:(unfold grayscaleAttr, borderColorOf) Ho1|].
    repeat split; find_element.
  - split; [count_elements ltac:(unfold grayscaleAttr, borderColorOf) Ho2|].
    repeat split; find_element.
  - split; [count_elements ltac:(unfold grayscaleAttr, borderColorOf) Ho3|].
    repeat split; find_element.
  - repeat split; find_element.
Qed.

End ImageFacts.

(** ** src/actions/live-status-action.ts *)

Import Monitor.

(** *** The configured channel list *)

Lemma parseChannels_length v : (List.length (parseChannels v) <= 4)%nat.
Proof. unfold parseChannels. rewrite length_firstn. lia. Qed.

Lemma Forall_firstn {A} (P : A -> Prop) n l : Forall P l -> Forall P (firstn n l).
Proof.
  intros H. revert n. induction H; intros [|n]; simpl; constructor; auto.
Qed.

Lemma parseChannels_wf v : Forall wellFormedChannel (parseChannels v).
Proof.
  unfold parseChannels. apply Forall_firstn.
  apply Forall_forall. intros c Hc.
  apply filter_In in Hc. destruct Hc as [Hin Hlen].
  apply in_map_iff in Hin. destruct Hin as [w [<- Hw]].
  pose proof (split_on_sep_free ","%char (match v with Some v0 => v0 | None => "" end)) as HF.
  rewrite Forall_forall in HF. specialize (HF w Hw).
  destruct (trim_spec w) as [l [r [_ [_ [_ [H1 H2]]]]]].
  repeat split; auto.
  - intros E. rewrite E in Hlen. discriminate.
  - now apply trim_occurs.
Qed.

Lemma parseChannels_pieces v ps :
  ps <> [] -> Forall (fun w => occurs ","%char w = false) ps ->
  join "," ps = match v with Some s => s | None => "" end ->
  parseChannels v = firstn 4 (filter nonEmpty (map trim ps)).
Proof.
  intros Hne HF Hj. unfold parseChannels. rewrite <- Hj.
  now rewrite (split_on_join ","%char ps Hne HF).
Qed.

Lemma join_first_nonempty c cs : c <> "" -> join "," (c :: cs) <> "".
Proof.
  intros Hc. unfold join. destruct cs; simpl; [exact Hc|].
  destruct c; [congruence|discriminate].
Qed.

Lemma join_inj (l1 l2 : list string) :
  Forall wellFormedChannel l1 -> l1 <> [] ->
  Forall (fun c => occurs ","%char c = false) l2 ->
  join "," l1 = join "," l2 -> l1 = l2.
Proof.
  intros H1 Hne H2 E.
  assert (H1' : Forall (fun c => occurs ","%char c = false) l1).
  { eapply Forall_impl; [|exact H1]. intros a [_ [_ [_ H]]]. exact H. }
  destruct l2 as [|d l2].
  - destruct l1 as [|c l1]; [congruence|]. exfalso.
    inversion H1 as [|? ? [Hc _] _]; subst.
    exact (join_first_nonempty c l1 Hc E).
  - rewrite <- (split_on_join ","%char l1 Hne H1').
    rewrite <- (split_on_join ","%char (d :: l2)) by (auto; discriminate).
    now rewrite E.
Qed.

Section MonitorFacts.

Variable toBase64 : string -> string.
Variable renderTextOverlay : option TextOverlay -> string.
Variable fetch : nat -> string -> ChannelFetch.
Variable now : Z.

Local Abbreviation checkStreamerStatus := (Monitor.checkStreamerStatus toBase64 renderTextOverlay fetch now).
Local Abbreviation checkAll := (Monitor.checkAll toBase64 renderTextOverlay fetch now).
Local Abbreviation refresh := (Monitor.refresh toBase64 renderTextOverlay fetch now).
Local Abbreviation render := (Monitor.render toBase64 renderTextOverlay now).

Lemma buildStatusResult_status cs img cache :
  status (fst (buildStatusResult toBase64 renderTextOverlay now cs img cache)) <> not_found.
Proof.
  unfold buildStatusResult.
  destruct (if truthyOpt (cs_profileImageUrl cs) then img else None) as [raw|].
  - destruct (truthy raw).
    + destruct (getProcessedImage _ _ _ _ _ _ _); simpl. destruct (cs_isLive cs); discriminate.
    + simpl. destruct (cs_isLive cs); discriminate.
  - simpl. destruct (cs_isLive cs); discriminate.
Qed.

(** A call that resolves as not-found leaves the image cache alone. *)
Lemma checkStreamerStatus_not_found i c cache :
  status (fst (checkStreamerStatus i c cache)) = not_found ->
  snd (checkStreamerStatus i c cache) = cache.
Proof.
  unfold Monitor.checkStreamerStatus.
  destruct (negb (truthy (trim c))); [reflexivity|].
  destruct (fetch i (trim c)); try reflexivity.
  intros H. exfalso. exact (buildStatusResult_status _ _ _ H).
Qed.

Lemma checkAll_length chs : forall i cache,
  List.length (fst (checkAll i chs cache)) = List.length chs.
Proof.
  induction chs as [|c chs IH]; intros i cache; simpl; [reflexivity|].
  destruct (checkStreamerStatus i c cache) as [r c1].
  specialize (IH (S i) c1).
  destruct (checkAll (S i) chs c1) as [rs c2]. simpl in *. now rewrite IH.
Qed.

Lemma checkAll_not_found chs : forall i cache,
  Forall (fun r => status r = not_found) (fst (checkAll i chs cache)) ->
  snd (checkAll i chs cache) = cache.
Proof.
  induction chs as [|c chs IH]; intros i cache; simpl; [reflexivity|].
  pose proof (checkStreamerStatus_not_found i c cache) as Hc.
  destruct (checkStreamerStatus i c cache) as [r c1].
  specialize (IH (S i) c1).
  destruct (checkAll (S i) chs c1) as [rs c2]. simpl in *.
  intros HF. inversion HF as [|? ? Hr Hrs]; subst.
  rewrite (IH Hrs). now apply Hc.
Qed.

Lemma filter_valid_none rs :
  Forall (fun r => status r = not_found) rs ->
  filter (fun r => negb (status_eqb (status r) not_found)) rs = [].
Proof.
  induction 1 as [|r rs Hr _ IH]; simpl; [reflexivity|].
  now rewrite Hr, IH.
Qed.

(** C1.  In a refresh of a button with at least two configured channels in
    which every channel resolves as not-found, [refresh] sets the red image
    and the title "Not Found" and returns; the state, and so the configured
    channel list, is unchanged, and so is the image cache.  With three
    channels the list still has three. *)
Theorem refresh_all_not_found (state : ActionState) (cache : ImageCache) :
  (2 <= List.length (channels state))%nat ->
  Forall (fun r => status r = not_found) (fst (checkAll 0 (channels state) cache)) ->
  refresh state cache = (state, cache, [SetImage RED; SetTitle "Not Found"])
  /\ channels (fst (fst (refresh state cache))) = channels state
  /\ (List.length (channels state) = 3%nat ->
      List.length (channels (fst (fst (refresh state cache)))) = 3%nat).
Proof.
  intros Hn Hall.
  assert (E : refresh state cache = (state, cache, [SetImage RED; SetTitle "Not Found"])).
  { unfold Monitor.refresh.
    destruct (channels state) as [|c1 [|c2 chs]] eqn:Ech; simpl in Hn; try lia.
    pose proof (checkAll_not_found _ _ _ Hall) as Hc.
    pose proof (checkAll_length (c1 :: c2 :: chs) 0 cache) as Hl.
    destruct (checkAll 0 (c1 :: c2 :: chs) cache) as [allResults cache1].
    simpl in Hall, Hc, Hl. subst cache1.
    rewrite (filter_valid_none _ Hall).
    destruct allResults; [discriminate|reflexivity]. }
  rewrite E. simpl. auto.
Qed.


(** *** Transition detection *)





Lemma render_effects r a st cache :
  exists t i, fst (render r a st cache) = [SetTitle t; SetImage i].
Proof.
  unfold Monitor.render.
  repeat match goal with
         | |- context [let '(_, _) := ?x in _] => destruct x
         | |- context [if ?b then _ else _] => destruct b
         | |- context [match ?x with _ => _ end] => destruct x
         end; simpl; eauto.
Qed.

Lemma render_no_alert r a st cache : ~ alertStarted (fst (render r a st cache)).
Proof.
  destruct (render_effects r a st cache) as [t [i E]]. rewrite E.
  unfold alertStarted. simpl. intros [H|[H|[]]]; discriminate.
Qed.

(** What [settle] does with the set of detected transitions. *)
Lemma settle_spec old result st cache :
  let ids := detectTransitions (channels st) (lastStatus st) old (multiResults st) result in
  let out := settle toBase64 renderTextOverlay now old result st cache in
  (ids <> [] ->
     alertStarted (snd out) /\ alertingChannels (fst (fst out)) = ids
     /\ alertTimer (fst (fst out)) = true
     /\ alertToggleState (fst (fst out)) = true
     /\ alertEndTime (fst (fst out)) = (now + 60000)%Z)
  /\ (ids = [] ->
     ~ alertStarted (snd out) /\ alertingChannels (fst (fst out)) = alertingChannels st
     /\ alertTimer (fst (fst out)) = alertTimer st).
Proof.
  cbv zeta. unfold settle.
  destruct (detectTransitions (channels st) (lastStatus st) old (multiResults st) result)
    as [|x ids] eqn:E.
  - split; [congruence|]. intros _. simpl.
    destruct (alertTimer st) eqn:T; simpl.
    + unfold alertStarted. simpl. auto.
    + pose proof (render_no_alert result false (setLast result st) cache) as Hr.
      destruct (render result false (setLast result st) cache) as [fx2 c']. simpl in *. auto.
  - split; [|discriminate]. intros _. simpl.
    unfold alertStarted. rewrite in_app_iff. simpl. repeat split; auto.
Qed.


(** [settle] replaces the last status and result and keeps the channel list
    and the result snapshot. *)
Lemma settle_frame old result st cache :
  channels (fst (fst (settle toBase64 renderTextOverlay now old result st cache))) = channels st
  /\ multiResults (fst (fst (settle toBase64 renderTextOverlay now old result st cache)))
     = multiResults st
  /\ lastStatus (fst (fst (settle toBase64 renderTextOverlay now old result st cache)))
     = known (status result).
Proof.
  unfold settle.
  destruct (detectTransitions (channels st) (lastStatus st) old (multiResults st) result)
    as [|x ids]; cbn [startAlert setLast alertTimer].
  - destruct (alertTimer st); [simpl; auto|].
    destruct (render result false _ cache); simpl; auto.
  - simpl; auto.
Qed.


Lemma singleton_transitions c last prev result other :
  detectTransitions [c] last (Some [prev]) (Some [result]) other
  = if negb (isLive prev) && isLive result && truthy c then [c] else [].
Proof.
  unfold detectTransitions. simpl. unfold transitionAt. simpl.
  destruct (negb (isLive prev) && isLive result && truthy c); reflexivity.
Qed.

(** C3, as amended.  With one configured channel: when the previous refresh
    left its one result, the alert starts exactly when that result was not
    live (offline, error or not-found alike) and the new result is live;
    when there is no previous result yet, it starts exactly when the
    previous status is offline and the new status is live.  Where it starts,
    the alerting set is the configured channel.  After the refresh the
    snapshot is the new result and the last status is its status. *)
Theorem single_channel_transition (state : ActionState) (cache : ImageCache) (c : string) :
  channels state = [c] -> c <> "" ->
  (forall prev, multiResults state = Some [prev] ->
     (alertStarted (snd (refresh state cache)) <->
      isLive prev = false /\ isLive (fst (checkStreamerStatus 0 c cache)) = true)
     /\ (alertStarted (snd (refresh state cache)) ->
         alertingChannels (fst (fst (refresh state cache))) = [c]
         /\ alertTimer (fst (fst (refresh state cache))) = true))
  /\ (multiResults state = None ->
     (alertStarted (snd (refresh state cache)) <->
      lastStatus state = known offline /\ status (fst (checkStreamerStatus 0 c cache)) = live)
     /\ (alertStarted (snd (refresh state cache)) ->
         alertingChannels (fst (fst (refresh state cache))) = [c]
         /\ alertTimer (fst (fst (refresh state cache))) = true))
  /\ multiResults (fst (fst (refresh state cache))) = Some [fst (checkStreamerStatus 0 c cache)]
  /\ lastStatus (fst (fst (refresh state cache)))
     = known (status (fst (checkStreamerStatus 0 c cache))).
Proof.
  intros Hch Hc. apply truthy_true in Hc.
  unfold Monitor.refresh. rewrite Hch.
  destruct (checkStreamerStatus 0 c cache) as [result cache1]. simpl fst.
  pose proof (settle_spec (multiResults state) result
                (setMultiResults [result] state) cache1) as Hs.
  cbv zeta in Hs. simpl in Hs. rewrite Hch in Hs.
  set (out := settle toBase64 renderTextOverlay now (multiResults state) result
                (setMultiResults [result] state) cache1) in *.
  destruct Hs as [Hfire Hquiet].
  assert (Hout : multiResults (fst (fst out)) = Some [result]
                 /\ lastStatus (fst (fst out)) = known (status result)).
  { destruct (settle_frame (multiResults state) result
                (setMultiResults [result] state) cache1) as [_ [H1 H2]].
    fold out in H1, H2. now rewrite H1, H2. }
  assert (Hgen : forall b : bool,
             detectTransitions [c] (lastStatus state) (multiResults state)
               (Some [result]) result = (if b then [c] else []) ->
             (alertStarted (snd out) <-> b = true)
             /\ (alertStarted (snd out) ->
                 alertingChannels (fst (fst out)) = [c] /\ alertTimer (fst (fst out)) = true)).
  { intros b E. rewrite E in Hfire, Hquiet. destruct b.
    - destruct (Hfire ltac:(discriminate)) as [H1 [H2 [H3 _]]]. tauto.
    - destruct (Hquiet eq_refl) as [H1 _]. split; [split; [tauto|discriminate]|tauto]. }
  split; [|split].
  - intros prev Hprev. rewrite Hprev in Hgen.
    destruct (Hgen _ (singleton_transitions c _ prev result result)) as [H1 H2].
    split; [|exact H2]. rewrite H1, Hc.
    destruct (isLive prev), (isLive result); simpl; intuition congruence.
  - intros Hnone. rewrite Hnone in Hgen.
    specialize (Hgen (match lastStatus state with
                      | known offline => status_eqb (status result) live
                      | _ => false
                      end)).
    destruct Hgen as [H1 H2].
    { unfold detectTransitions.
      destruct (lastStatus state) as [|[]]; try reflexivity. }
    split; [|exact H2]. rewrite H1.
    destruct (lastStatus state) as [|[]]; destruct (status result); simpl;
      intuition congruence.
  - exact Hout.
Qed.


(** With a positive width the regular expression is well formed and
    [wrapText] returns. *)
Lemma wrapText_total text maxLength :
  (1 <= maxLength)%nat -> exists out, wrapText text maxLength = Some out.
Proof.
  intros Hn. unfold wrapText.
  destruct (String.length text <=? maxLength)%nat; [eauto|].
  pose proof (split_on_nonempty " "%char text) as Hne.
  destruct (split_on " "%char text) as [|w0 ws]; [congruence|].
  destruct (mapOpt_total (forceSplit maxLength) (packWords maxLength w0 ws)) as [ys ->].
  - intros line. unfold forceSplit.
    destruct (maxLength <? String.length line)%nat; [|eauto].
    destruct maxLength; [lia|eauto].
  - simpl. eauto.
Qed.

(** C8, as amended.  With one configured channel, outside the flash phase
    of an alert: a result with status error, or with no display name, gets
    the title "<slug>\nNot Found" and the static red image; a not-found or
    offline result with a name gets "<name>\nNOT FOUND" or "<name>\nOFFLINE"
    and, as image, the image the result carries, or the static indicator
    (red when the result is not live) when it carries none; a live result
    clears the title and, when it has a raw image, the image is made anew by
    [getProcessedImage] with the name as title and the category (or "Live"),
    wrapped at width 15, as subtitle; without a raw image it is the image the
    result carries, or the static indicator. *)
Theorem render_single_channel (result : StatusResult) (isAlerting : bool)
        (state : ActionState) (cache : ImageCache) :
  List.length (channels state) = 1%nat ->
  isAlerting && alertToggleState state = false ->
  (status result = error \/ truthyOpt (displayName result) = false ->
   render result isAlerting state cache
   = ([SetTitle (orElse (nth_error (channels state) 0) "Unknown" ++ NL ++ "Not Found");
       SetImage RED], cache))
  /\ (forall name, displayName result = Some name -> name <> "" ->
      (status result = not_found ->
       render result isAlerting state cache
       = ([SetTitle (name ++ NL ++ "NOT FOUND");
           SetImage (indicatorOr (base64Image result) result)], cache))
      /\ (status result = offline ->
          render result isAlerting state cache
          = ([SetTitle (name ++ NL ++ "OFFLINE");
              SetImage (indicatorOr (base64Image result) result)], cache))
      /\ (status result = live ->
          forall raw, rawBase64Image result = Some raw -> raw <> "" ->
          exists w,
            wrapText (orElse (category result) "Live") 15 = Some w
            /\ render result isAlerting state cache
               = ([SetTitle "";
                   SetImage (indicatorOr
                     (Some (fst (getProcessedImage toBase64 renderTextOverlay raw true
                                   (Some {| ImageUtils.title := name; subtitle := Some w |})
                                   now cache))) result)],
                  snd (getProcessedImage toBase64 renderTextOverlay raw true
                         (Some {| ImageUtils.title := name; subtitle := Some w |})
                         now cache)))
      /\ (status result = live -> truthyOpt (rawBase64Image result) = false ->
          render result isAlerting state cache
          = ([SetTitle ""; SetImage (indicatorOr (base64Image result) result)], cache)))
  /\ (isLive result = false -> truthyOpt (base64Image result) = false ->
      indicatorOr (base64Image result) result = RED).
Proof.
  intros Hlen Hflash.
  assert (Hmulti : (1 <? List.length (channels state))%nat = false)
    by (rewrite Hlen; reflexivity).
  split; [|split].
  - intros Herr. unfold Monitor.render. rewrite Hmulti.
    destruct Herr as [-> | ->]; simpl; [reflexivity|].
    now rewrite orb_true_r.
  - intros name Hname Hne. apply truthy_true in Hne.
    assert (Ht : truthyOpt (displayName result) = true) by (rewrite Hname; exact Hne).
    repeat split.
    + intros Hs. unfold Monitor.render. rewrite Hmulti, Hflash, Hs, Ht, Hname. reflexivity.
    + intros Hs. unfold Monitor.render. rewrite Hmulti, Hflash, Hs, Ht, Hname. reflexivity.
    + intros Hs raw Hraw Hrne. apply truthy_true in Hrne.
      destruct (wrapText_total (orElse (category result) "Live") 15) as [w Hw]; [lia|].
      exists w. split; [exact Hw|].
      unfold Monitor.render. rewrite Hmulti, Hflash, Hs, Ht, Hname, Hraw, Hrne, Hw.
      cbn [status_eqb orb negb].
      destruct (getProcessedImage _ _ _ _ _ _ _). reflexivity.
    + intros Hs Hraw. unfold Monitor.render. rewrite Hmulti, Hflash, Hs, Ht, Hname.
      cbn [status_eqb orb negb].
      destruct (rawBase64Image result) as [raw|]; [|reflexivity].
      simpl in Hraw. rewrite Hraw. reflexivity.
  - intros Hl Hb. unfold indicatorOr. now rewrite Hb, Hl.
Qed.


Local Abbreviation configureChannel :=
  (Monitor.configureChannel toBase64 renderTextOverlay fetch now).

Lemma refresh_channels st cache : channels (fst (fst (refresh st cache))) = channels st.
Proof.
  unfold Monitor.refresh.
  destruct (channels st) as [|c1 [|c2 chs]] eqn:E.
  - simpl. exact E.
  - destruct (checkStreamerStatus 0 c1 cache) as [r c'].
    destruct (settle_frame (multiResults st) r (setMultiResults [r] st) c') as [H _].
    rewrite H. exact E.
  - destruct (checkAll 0 (c1 :: c2 :: chs) cache) as [all c'].
    destruct (filter _ all) as [|v vs] eqn:F.
    + destruct all; cbv beta iota.
      * destruct (aggregate _ _ _ _ _) as [r c''].
        destruct (settle_frame (multiResults st) r (setMultiResults [] st) c'') as [H _].
        rewrite H. exact E.
      * exact E.
    + destruct (aggregate _ _ _ _ _) as [r c''].
      destruct (settle_frame (multiResults st) r (setMultiResults (v :: vs) st) c'') as [H _].
      rewrite H. exact E.
Qed.

(** What [configureChannel] stores is the list computed from the setting. *)
Lemma configureChannel_channels (channelValue : option string)
      (state : ActionState) (cache : ImageCache) :
  Forall (fun c => occurs ","%char c = false) (channels state) ->
  channels (fst (fst (configureChannel channelValue state cache)))
  = parseChannels channelValue.
Proof.
  intros Hwf. unfold Monitor.configureChannel.
  pose proof (parseChannels_wf channelValue) as Hp.
  destruct (parseChannels channelValue) as [|c cs] eqn:E; [reflexivity|].
  destruct (join "," (c :: cs) =? join "," (channels state)) eqn:J.
  - destruct (pollTimer state); simpl.
    + apply String.eqb_eq in J. symmetry.
      apply join_inj; auto. discriminate.
    + pose proof (refresh_channels (setChannels (c :: cs) state) cache) as Hr.
      destruct (refresh (setChannels (c :: cs) state) cache) as [[s1 c1] fx1].
      simpl in *. exact Hr.
  - simpl.
    pose proof (refresh_channels (setChannels (c :: cs) state) cache) as Hr.
    destruct (refresh (setChannels (c :: cs) state) cache) as [[s1 c1] fx1].
    simpl in *. exact Hr.
Qed.

(** With a channel to watch, [configureChannel] leaves the poll timer
    armed. *)
Lemma configureChannel_polling (channelValue : option string)
      (state : ActionState) (cache : ImageCache) :
  parseChannels channelValue <> [] ->
  pollTimer (fst (fst (configureChannel channelValue state cache))) = true.
Proof.
  intros Hne. unfold Monitor.configureChannel.
  destruct (parseChannels channelValue) as [|c cs] eqn:E; [congruence|].
  destruct (join "," (c :: cs) =? join "," (channels state)).
  - destruct (pollTimer state) eqn:P; simpl; [exact P|].
    destruct (refresh (setChannels (c :: cs) state) cache) as [[s1 c1] fx1].
    reflexivity.
  - simpl. destruct (refresh (setChannels (c :: cs) state) cache) as [[s1 c1] fx1].
    reflexivity.
Qed.

(** X3.  Configuring again with a setting that yields the same channel list,
    while polling is active, does nothing: no fetch, no render, no timer
    restarted, whatever the world would answer. *)
Theorem configure_idempotent (channelValue again : option string)
        (state : ActionState) (cache cache' : ImageCache)
        (fetch' : nat -> string -> ChannelFetch) (now' : Z) :
  Forall (fun c => occurs ","%char c = false) (channels state) ->
  parseChannels channelValue <> [] ->
  parseChannels again = parseChannels channelValue ->
  Monitor.configureChannel toBase64 renderTextOverlay fetch' now' again
    (fst (fst (configureChannel channelValue state cache))) cache'
  = (fst (fst (configureChannel channelValue state cache)), cache', []).
Proof.
  intros Hwf Hne Hsame.
  pose proof (configureChannel_channels channelValue state cache Hwf) as Hc.
  pose proof (configureChannel_polling channelValue state cache Hne) as Hp.
  set (s1 := fst (fst (configureChannel channelValue state cache))) in *.
  unfold Monitor.configureChannel at 1. rewrite Hsame, Hc, Hp.
  destruct (parseChannels channelValue) as [|c cs]; [congruence|].
  now rewrite String.eqb_refl.
Qed.

(** C7.  [configureChannel] leaves as channel list the list computed from
    the setting: for any way to cut the setting at its commas, the pieces
    trimmed, the empty ones dropped, the first four kept, in their order;
    its entries are non-empty, trimmed and comma-free.  When that list is
    empty the stored list is emptied, both timers are cancelled, and the
    title "No Channel" and the red image are set.  The premise, that the
    stored channels hold no comma, is true of a fresh button and of every
    list [configureChannel] stores. *)
Theorem configure_channel_list (channelValue : option string)
        (state : ActionState) (cache : ImageCache) :
  Forall (fun c => occurs ","%char c = false) (channels state) ->
  channels (fst (fst (configureChannel channelValue state cache)))
  = parseChannels channelValue
  /\ (forall ps, ps <> [] -> Forall (fun w => occurs ","%char w = false) ps ->
      join "," ps = match channelValue with Some s => s | None => "" end ->
      parseChannels channelValue = firstn 4 (filter nonEmpty (map trim ps)))
  /\ (List.length (parseChannels channelValue) <= 4)%nat
  /\ Forall wellFormedChannel (parseChannels channelValue)
  /\ (parseChannels channelValue = [] ->
      channels (fst (fst (configureChannel channelValue state cache))) = []
      /\ pollTimer (fst (fst (configureChannel channelValue state cache))) = false
      /\ alertTimer (fst (fst (configureChannel channelValue state cache))) = false
      /\ snd (configureChannel channelValue state cache)
         = ((if pollTimer state then [ClearInterval Poll] else [])
            ++ (if alertTimer state then [ClearInterval Alert] else [])
            ++ [SetTitle "No Channel"; SetImage RED])%list)
  /\ Forall (fun c => occurs ","%char c = false)
       (channels (fst (fst (configureChannel channelValue state cache)))).
Proof.
  intros Hwf.
  pose proof (configureChannel_channels channelValue state cache Hwf) as Hstored.
  split; [exact Hstored|split; [|split; [|split; [|split]]]].
  - intros ps. apply parseChannels_pieces.
  - apply parseChannels_length.
  - apply parseChannels_wf.
  - intros E. unfold Monitor.configureChannel. rewrite E. simpl.
    rewrite <- app_assoc. auto.
  - rewrite Hstored. eapply Forall_impl; [|apply parseChannels_wf].
    intros c [_ [_ [_ H]]]. exact H.
Qed.

End MonitorFacts.

(** ** src/utils/imageUtils.ts: escaping and file names *)

Module XmlFacts.

Import JsData XmlEscape.

Lemma string_app_assoc (a b c : string) : (a ++ b) ++ c = a ++ (b ++ c).
Proof. induction a; simpl; congruence. Qed.

Lemma replaceClass_app class f a b :
  replaceClass class f (a ++ b) = replaceClass class f a ++ replaceClass class f b.
Proof.
  induction a as [|c a IH]; simpl; [reflexivity|].
  rewrite IH. now rewrite string_app_assoc.
Qed.

Lemma all_chars_app p a b : all_chars p (a ++ b) = all_chars p a && all_chars p b.
Proof. induction a; simpl; [reflexivity|]. now rewrite IHa, andb_assoc. Qed.

Lemma escapeXml_cons c r : escapeXml (String c r) = escapeChar c ++ escapeXml r.
Proof. reflexivity. Qed.

Lemma escapeChar_shape c : Shape c (escapeChar c).
Proof.
  unfold escapeChar, special, ESCAPE_XML_MAP.
  destruct (Ascii.eqb_spec c "<"); [subst; now constructor|].
  destruct (Ascii.eqb_spec c ">"); [subst; now constructor|].
  destruct (Ascii.eqb_spec c "&"); [subst; now constructor|].
  destruct (Ascii.eqb_spec c APOS); [subst; now constructor|].
  destruct (Ascii.eqb_spec c QUOT); [subst; now constructor|].
  simpl. apply ShapeSelf. unfold special.
  repeat match goal with
         | H : c <> _ |- _ => apply Ascii.eqb_neq in H; rewrite H; clear H
         end.
  reflexivity.
Qed.

Lemma append_inv_head (a x y : string) : a ++ x = a ++ y -> x = y.
Proof. induction a; simpl; intros H; [exact H|]. inversion H. auto. Qed.

Lemma escapeXml_inj_aux s : forall t, escapeXml s = escapeXml t -> s = t.
Proof.
  induction s as [|c r IH]; intros [|d u] H.
  - reflexivity.
  - rewrite escapeXml_cons in H. simpl in H.
    destruct (escapeChar_shape d); discriminate.
  - rewrite escapeXml_cons in H. simpl in H.
    destruct (escapeChar_shape c); discriminate.
  - rewrite !escapeXml_cons in H.
    assert (E : c = d /\ escapeXml r = escapeXml u).
    { destruct (escapeChar_shape c) as [Hc|Hc|Hc|Hc|Hc|Hc];
      destruct (escapeChar_shape d) as [Hd|Hd|Hd|Hd|Hd|Hd];
      simpl in H; try discriminate;
      try (subst; split; [reflexivity|]; now inversion H);
      try (inversion H; subst; discriminate).
      inversion H. subst. auto. }
    destruct E as [-> E]. f_equal. now apply IH.
Qed.

(** X5.  The escaped text holds no character that opens or closes markup or
    an attribute value, whatever the input; a text without any of the five
    special characters is returned as it is; and escaping goes through
    concatenation. *)
Theorem escapeXml_no_markup (s t : string) :
  all_chars (fun c => negb (markup c)) (escapeXml s) = true
  /\ (all_chars (fun c => negb (special c)) s = true -> escapeXml s = s)
  /\ escapeXml (s ++ t) = escapeXml s ++ escapeXml t.
Proof.
  split; [|split].
  - induction s as [|c r IH]; [reflexivity|].
    rewrite escapeXml_cons, all_chars_app, IH, andb_true_r.
    destruct (escapeChar_shape c) as [Hc|Hc|Hc|Hc|Hc|Hc]; try reflexivity.
    simpl. rewrite andb_true_r. unfold special in Hc. unfold markup.
    repeat (apply orb_false_iff in Hc; destruct Hc as [Hc ?]).
    now repeat match goal with H : _ = false |- _ => rewrite H; clear H end.
  - induction s as [|c r IH]; [reflexivity|]. simpl. intros H.
    apply andb_true_iff in H. destruct H as [H1 H2].
    rewrite escapeXml_cons. unfold escapeChar.
    apply negb_true_iff in H1. rewrite H1. simpl. now rewrite IH.
  - apply replaceClass_app.
Qed.

(** X6.  Escaping loses nothing: two different texts never have the same
    escaped form (so a text that already holds an entity, such as the four
    characters of the entity of [<], is told from the character itself). *)
Theorem escapeXml_injective (s t : string) : s <> t -> escapeXml s <> escapeXml t.
Proof. intros Hne E. apply Hne. now apply escapeXml_inj_aux. Qed.

End XmlFacts.

Module ProfileImageFacts.

Import JsData ProfileImage.

Lemma safeSlug_length slug : String.length (safeSlug slug) = String.length slug.
Proof.
  induction slug as [|c r IH]; [reflexivity|].
  unfold safeSlug in *. simpl. destruct (safeChar c); simpl; now rewrite IH.
Qed.

Lemma safeSlug_safe slug : all_chars safeChar (safeSlug slug) = true.
Proof.
  induction slug as [|c r IH]; [reflexivity|].
  unfold safeSlug in *. simpl. destruct (safeChar c) eqn:E; simpl.
  - now rewrite E, IH.
  - now rewrite IH.
Qed.

Lemma safeSlug_fixed s : all_chars safeChar s = true -> safeSlug s = s.
Proof.
  induction s as [|c r IH]; [reflexivity|]. simpl. intros H.
  apply andb_true_iff in H. destruct H as [H1 H2].
  unfold safeSlug in *. simpl. rewrite H1. simpl. now rewrite IH.
Qed.

Lemma last_In_nonempty {A} (l : list A) d : l <> [] -> In (last l d) l.
Proof.
  induction l as [|x l IH]; [congruence|]. intros _.
  destruct l as [|y l]; [now left|]. right. apply IH. discriminate.
Qed.

Lemma occurs_toLowerCase c s :
  lower_ascii c = c -> (forall d, lower_ascii d = c -> d = c) ->
  occurs c s = false -> occurs c (toLowerCase s) = false.
Proof.
  intros Hc Hinv. induction s as [|d r IH]; simpl; [auto|]. intros H.
  apply orb_false_iff in H. destruct H as [H1 H2].
  rewrite (IH H2), orb_false_r.
  apply Ascii.eqb_neq. intros E. apply Hinv in E. subst d.
  now rewrite Ascii.eqb_refl in H1.
Qed.

Lemma lower_ascii_cases d :
  lower_ascii d = d \/ lower_ascii d = ascii_of_nat (nat_of_ascii d + 32).
Proof.
  unfold lower_ascii. destruct (_ || _); auto.
Qed.

Lemma lower_ascii_letter d :
  lower_ascii d <> d -> (97 <= nat_of_ascii (lower_ascii d))%nat.
Proof.
  unfold lower_ascii.
  destruct ((65 <=? nat_of_ascii d) && (nat_of_ascii d <=? 90)
            || (192 <=? nat_of_ascii d) && (nat_of_ascii d <=? 222)
               && negb (nat_of_ascii d =? 215))%nat eqn:E; [|congruence].
  intros _.
  assert (B : (65 <= nat_of_ascii d <= 222)%nat).
  { apply orb_true_iff in E. destruct E as [E|E];
    repeat (apply andb_true_iff in E; destruct E as [E ?]);
    repeat match goal with
           | H : (_ <=? _)%nat = true |- _ => apply Nat.leb_le in H
           end; lia. }
  rewrite nat_ascii_embedding by lia. lia.
Qed.

Lemma lower_preimage c d :
  (nat_of_ascii c < 97)%nat -> lower_ascii d = c -> d = c.
Proof.
  intros Hc E. destruct (ascii_dec (lower_ascii d) d) as [F|F]; [congruence|].
  apply lower_ascii_letter in F. rewrite E in F. lia.
Qed.

Lemma lower_fixed c : (nat_of_ascii c < 65)%nat -> lower_ascii c = c.
Proof.
  intros H. unfold lower_ascii.
  replace (65 <=? nat_of_ascii c)%nat with false by (symmetry; apply Nat.leb_gt; lia).
  replace (192 <=? nat_of_ascii c)%nat with false by (symmetry; apply Nat.leb_gt; lia).
  reflexivity.
Qed.

Lemma extOf_spec url :
  extOf url <> ""
  /\ occurs "."%char (extOf url) = false /\ occurs "?"%char (extOf url) = false.
Proof.
  unfold extOf.
  set (piece := hd "" (split_on "?" url)).
  set (e := toLowerCase (last (split_on "." piece) "")).
  assert (Hq : occurs "?"%char piece = false).
  { pose proof (split_on_sep_free "?"%char url) as HF.
    pose proof (split_on_nonempty "?"%char url) as Hn. subst piece.
    destruct (split_on "?" url); [congruence|]. now inversion HF. }
  assert (Hlast : In (last (split_on "." piece) "") (split_on "." piece))
    by (apply last_In_nonempty, split_on_nonempty).
  assert (Hd : occurs "."%char e = false).
  { subst e. apply occurs_toLowerCase;
      [reflexivity | intros d; apply lower_preimage; vm_compute; lia |].
    pose proof (split_on_sep_free "."%char piece) as HF.
    rewrite Forall_forall in HF. now apply HF. }
  assert (Hq' : occurs "?"%char e = false).
  { subst e. apply occurs_toLowerCase;
      [reflexivity | intros d; apply lower_preimage; vm_compute; lia |].
    pose proof (occurs_split "?"%char "."%char piece Hq) as HS.
    rewrite Forall_forall in HS. now apply HS. }
  unfold orElse. destruct (truthy e) eqn:T.
  - split; [now apply truthy_true|]. auto.
  - split; [discriminate|]. split; reflexivity.
Qed.

Section Files.

Variable cacheDir : string.
Variable pathJoin : string -> string -> string.
Variable accessible : string -> bool.
Variable download : string -> Download.
Variable writable : string -> bool.

Local Abbreviation getLocalProfileImage :=
  (ProfileImage.getLocalProfileImage cacheDir pathJoin accessible download writable).

(** X7.  The cached profile image of a channel is the file
    [<safe slug>.<extension>] of the cache directory, where the safe slug has
    the length of the slug and only letters, digits, underscores and hyphens
    (a slug made of these is kept as it is), and the extension is never
    empty and holds neither a dot nor a question mark. *)
Theorem profile_image_file_name (slug url path : string) :
  fst (getLocalProfileImage slug url) = Some path ->
  path = pathJoin cacheDir (safeSlug slug ++ "." ++ extOf url)
  /\ String.length (safeSlug slug) = String.length slug
  /\ all_chars safeChar (safeSlug slug) = true
  /\ (all_chars safeChar slug = true -> safeSlug slug = slug)
  /\ extOf url <> ""
  /\ occurs "."%char (extOf url) = false
  /\ occurs "?"%char (extOf url) = false.
Proof.
  intros H. split.
  - unfold ProfileImage.getLocalProfileImage in H.
    destruct (accessible _); [simpl in H; now inversion H|].
    destruct (download url); try discriminate.
    destruct (writable _); [simpl in H; now inversion H|discriminate].
  - split; [apply safeSlug_length|]. split; [apply safeSlug_safe|].
    split; [apply safeSlug_fixed|]. apply extOf_spec.
Qed.

End Files.

End ProfileImageFacts.

(** ** src/auth/tokenManager.ts: the access token *)

Module TokenAccessFacts.

Import TokenManager TokenAccess.

Lemma nth_error_app_last {A} (l : list A) x : nth_error (l ++ [x]) (List.length l) = Some x.
Proof. induction l; simpl; auto. Qed.

Lemma update_nth_last {A} (l : list A) x y :
  update_nth (List.length l) y (l ++ [x]) = (l ++ [y])%list.
Proof. induction l; simpl; [reflexivity|]. now rewrite IHl. Qed.

(** [refreshTokensAlone] is the transition system run on the schedule of a
    call that is alone. *)
Lemma refreshTokensAlone_exec credentials currentTokens w s :
  refreshInFlight s = None ->
  exec s (soleCaller credentials currentTokens w s)
  = Some (fst (refreshTokensAlone credentials currentTokens w s)).
Proof.
  intros M. unfold soleCaller, refreshTokensAlone.
  destruct (truthyOpt (refresh_token currentTokens)) eqn:T; cbn [negb].
  - unfold flightResult.
    cbn [exec step]. rewrite T, M. cbn [negb].
    destruct (fetched w) as [e|[|] st];
      [ | destruct (body w) as [e|refreshed]; [|destruct (stored w) as [|e]] | ];
      repeat first
        [ progress cbn [exec step app fst flights callers setFlight cachedCredentials
                        cachedTokens requests saved refreshInFlight]
        | rewrite nth_error_app_last
        | rewrite update_nth_last ];
      reflexivity.
  - cbn. now rewrite T.
Qed.

Lemma shouldRefresh_threshold t e now :
  expiresAtSecond t e ->
  shouldRefreshToken t now = true <-> ((e - 60) * 1000 <= now)%Z.
Proof.
  intros [E N]. unfold shouldRefreshToken. rewrite E.
  apply Z.eqb_neq in N. rewrite N. unfold TOKEN_EXPIRY_SKEW_SECONDS.
  rewrite Z.leb_le. split; intros H.
  - pose proof (Z.mul_div_le now 1000 ltac:(lia)). lia.
  - apply Z.div_le_lower_bound; lia.
Qed.

(** X13.  A token is due for refresh from sixty seconds before the second it
    expires at, and stays due: with [expires_at = e] (not zero) it is due
    exactly at the times [now >= (e - 60) * 1000] milliseconds; a token
    without [expires_at], or with [expires_at = 0], is never due. *)
Theorem token_due_sixty_seconds_early (t : TokenEndpointResponse) (now later : Z) :
  (forall e, expiresAtSecond t e ->
             (shouldRefreshToken t now = true <-> ((e - 60) * 1000 <= now)%Z))
  /\ (shouldRefreshToken t now = true -> (now <= later)%Z ->
      shouldRefreshToken t later = true)
  /\ ((expires_at t = None \/ expires_at t = Some 0%Z) ->
      shouldRefreshToken t now = false).
Proof.
  split; [|split].
  - intros e H. now apply shouldRefresh_threshold.
  - intros H L. unfold shouldRefreshToken in *.
    destruct (expires_at t) as [e|]; [|discriminate].
    destruct (e =? 0)%Z; [discriminate|].
    apply Z.leb_le in H. apply Z.leb_le.
    pose proof (Z.div_le_mono now later 1000 ltac:(lia) L). lia.
  - intros [H|H]; unfold shouldRefreshToken; now rewrite H.
Qed.

Lemma assertAccessToken_ok t a :
  assertAccessToken t = inr a -> access_token t = Some a /\ a <> "".
Proof.
  unfold assertAccessToken. destruct (access_token t) as [x|]; cbn; [|discriminate].
  destruct (truthy x) eqn:T; [|discriminate]. intros H. inversion H. subst.
  split; [reflexivity|]. now apply truthy_true.
Qed.

Lemma refreshTokensAlone_tokens credentials currentTokens w s s' t :
  refreshTokensAlone credentials currentTokens w s = (s', inr t) ->
  cachedTokens s' = Some t.
Proof.
  unfold refreshTokensAlone.
  destruct (truthyOpt (refresh_token currentTokens)); cbn [negb]; [|discriminate].
  unfold flightResult.
  destruct (fetched w) as [e|[|] st]; cbn; try discriminate.
  destruct (body w) as [e|refreshed]; cbn; try discriminate.
  destruct (stored w); cbn; try discriminate.
  intros H. inversion H. reflexivity.
Qed.

Lemma ensureCredentials_tokens w s t c s' fx :
  ensureCredentials w s = (inr (t, c), s', fx) -> cachedTokens s' = Some t.
Proof.
  unfold ensureCredentials.
  destruct (loadCredentials w s) as [[[e|credentials] s1] fx1]; [discriminate|].
  set (s2 := match cachedTokens s1 with
             | Some _ => s1
             | None => setCachedTokens (tokens credentials) s1
             end).
  destruct (cachedTokens s2) as [cached|] eqn:C; [|discriminate].
  destruct (_ && _).
  - destruct (refreshTokensAlone credentials cached (refreshAnswers w) s2)
      as [s3 [e|t']]; [discriminate|].
    intros H. inversion H. reflexivity.
  - intros H. inversion H. subst. exact C.
Qed.

(** X14.  The access token that is returned is never empty and is the access
    token of the tokens the module holds afterwards; and whatever the
    storage throws when the credentials cannot be loaded, the caller gets a
    [KickCredentialsMissingError]. *)
Theorem access_token_never_empty (w : Answers) (s : State) :
  let '(res, s', fx) := getAccessToken w s in
  (forall a, res = inr a ->
             a <> "" /\ exists t, cachedTokens s' = Some t /\ access_token t = Some a)
  /\ (cachedCredentials s = None -> (exists e, loaded w = inl e) ->
      exists m, res = inl (KickCredentialsMissingError m) /\ s' = s
                /\ fx = [LoadCredentials]).
Proof.
  unfold getAccessToken.
  destruct (ensureCredentials w s) as [[[e|[t c]] s1] fx] eqn:E.
  - split; [discriminate|]. intros Hc [e0 Hl].
    unfold ensureCredentials, loadCredentials in E. rewrite Hc, Hl in E.
    inversion E. eauto.
  - split.
    + intros a Ha. apply assertAccessToken_ok in Ha. destruct Ha as [Ha Hne].
      split; [exact Hne|]. exists t. split; [|exact Ha].
      now apply ensureCredentials_tokens in E.
    + intros Hc [e0 Hl].
      unfold ensureCredentials, loadCredentials in E. rewrite Hc, Hl in E.
      discriminate.
Qed.

Lemma getAccessToken_in_memory (w : Answers) (s : State) (c : Credentials)
      (t : TokenEndpointResponse) (a : string) :
  cachedCredentials s = Some c -> cachedTokens s = Some t ->
  access_token t = Some a -> a <> "" ->
  shouldRefreshToken t (clock w) = false \/ truthyOpt (refresh_token t) = false ->
  getAccessToken w s = (inr a, s, []).
Proof.
  intros Hc Ht Ha Hne Hfresh.
  unfold getAccessToken, ensureCredentials, loadCredentials.
  rewrite Hc, Ht. cbn. rewrite Ht.
  assert (F : shouldRefreshToken t (clock w) && truthyOpt (refresh_token t) = false)
    by (destruct Hfresh as [-> | ->]; [reflexivity|apply andb_false_r]).
  rewrite F. unfold assertAccessToken. rewrite Ha. cbn.
  apply truthy_true in Hne. now rewrite Hne.
Qed.

(** X15.  With credentials and tokens in memory, a token that is not due (or
    has no refresh token to renew it with) is returned at once: nothing is
    loaded from the storage, nothing is sent, and the state is unchanged,
    whatever the world would answer. *)
Theorem access_token_warm_path (w : Answers) (s : State) (c : Credentials)
        (t : TokenEndpointResponse) (a : string) :
  cachedCredentials s = Some c -> cachedTokens s = Some t ->
  access_token t = Some a -> a <> "" ->
  shouldRefreshToken t (clock w) = false \/ truthyOpt (refresh_token t) = false ->
  getAccessToken w s = (inr a, s, []).
Proof.
  intros Hc Ht Ha Hne Hfresh.
  pose proof (getAccessToken_in_memory w s c t a Hc Ht Ha Hne) as K.
  destruct Hfresh as [D|R]; apply K; [left|right]; assumption.
Qed.

(** X16.  A due token is renewed once and the new token is then served from
    memory.  With credentials and a due token that has a refresh token in
    memory, and a worker that answers with an access token and a lifetime of
    [n > 60] seconds (no [expires_at]), [getAccessToken] posts one request,
    carrying the old refresh token, hands the merged credentials to the
    storage once and returns the new access token; and every later call
    before [(now / 1000 + n - 60) * 1000] returns the same token without any
    request, load or save. *)
Theorem due_token_renewed_once (w w' : Answers) (s : State) (c : Credentials)
        (t refreshed : TokenEndpointResponse) (a statusText : string) (n : Z) :
  cachedCredentials s = Some c -> cachedTokens s = Some t ->
  refreshInFlight s = None ->
  shouldRefreshToken t (clock w) = true -> truthyOpt (refresh_token t) = true ->
  fetched (refreshAnswers w) = HttpResponse true statusText ->
  body (refreshAnswers w) = JsonValue refreshed ->
  stored (refreshAnswers w) = SaveOk ->
  access_token refreshed = Some a -> a <> "" ->
  expires_at refreshed = None -> expires_in refreshed = Some n -> (60 < n)%Z ->
  (0 <= bodyTime (refreshAnswers w))%Z ->
  (clock w' < (bodyTime (refreshAnswers w) / 1000 + n - 60) * 1000)%Z ->
  let '(res, s1, fx) := getAccessToken w s in
  res = inr a /\ fx = []
  /\ requests s1 = (requests s ++ [refresh_token t])%list
  /\ saved s1
     = (saved s ++ [withTokens c (mergeTokens refreshed t (bodyTime (refreshAnswers w)))])%list
  /\ refreshInFlight s1 = None
  /\ getAccessToken w' s1 = (inr a, s1, []).
Proof.
  intros Hc Ht Hm Hdue Hrt Hf Hb Hs Ha Hne He Hi Hn Hnow Hlater.
  unfold getAccessToken at 1. unfold ensureCredentials, loadCredentials.
  rewrite Hc, Ht. cbn [cachedTokens]. rewrite Ht, Hdue, Hrt. cbn [andb].
  unfold refreshTokensAlone. rewrite Hrt. cbn [negb].
  unfold flightResult. rewrite Hf, Hb, Hs. cbn [awaited].
  set (m := mergeTokens refreshed t (bodyTime (refreshAnswers w))).
  assert (Am : access_token m = Some a) by exact Ha.
  assert (Em : expiresAtSecond m (bodyTime (refreshAnswers w) / 1000 + n)).
  { split.
    - subst m. unfold mergeTokens. cbn. rewrite He, Hi. cbn.
      replace (n =? 0)%Z with false by (symmetry; apply Z.eqb_neq; lia).
      reflexivity.
    - pose proof (Z.div_pos (bodyTime (refreshAnswers w)) 1000 Hnow ltac:(lia)). lia. }
  split.
  { unfold assertAccessToken. rewrite Am. cbn.
    apply truthy_true in Hne. now rewrite Hne. }
  split; [reflexivity|]. cbn.
  split; [reflexivity|]. split; [reflexivity|]. split; [reflexivity|].
  apply getAccessToken_in_memory
    with (c := withTokens c m) (t := m); try reflexivity; try assumption.
  left. destruct (shouldRefreshToken m (clock w')) eqn:D; [|reflexivity].
  apply (shouldRefresh_threshold m _ (clock w') Em) in D. lia.
Qed.

(** X17.  After [invalidateCredentialsCache] the next [getAccessToken] goes
    back to the storage: it loads the credentials once and, when the stored
    tokens are not due, returns their access token and keeps credentials and
    tokens in memory. *)
Theorem invalidate_then_reload (w : Answers) (s : State) (c : Credentials)
        (t : TokenEndpointResponse) (a : string) :
  loaded w = inr c -> tokens c = Some t ->
  access_token t = Some a -> a <> "" ->
  shouldRefreshToken t (clock w) = false ->
  let '(res, s', fx) := getAccessToken w (invalidateCredentialsCache s) in
  res = inr a /\ fx = [LoadCredentials]
  /\ cachedCredentials s' = Some c /\ cachedTokens s' = Some t
  /\ requests s' = requests s /\ saved s' = saved s.
Proof.
  intros Hl Ht Ha Hne Hfresh.
  unfold getAccessToken, ensureCredentials, loadCredentials.
  cbn [invalidateCredentialsCache setCachedTokens setCachedCredentials
       cachedCredentials cachedTokens].
  rewrite Hl. cbn. rewrite Ht, Hfresh. cbn.
  unfold assertAccessToken. rewrite Ha. cbn.
  apply truthy_true in Hne. rewrite Hne.
  split; [reflexivity|]. split; [reflexivity|]. split; [reflexivity|].
  split; [reflexivity|]. split; reflexivity.
Qed.

End TokenAccessFacts.

(** ** The callers of one refresh *)

Module SingleFlightFacts.

Import TokenManager TokenFacts TokenAccessFacts.

Lemma exec_app es1 : forall es2 s,
  exec s (es1 ++ es2)
  = match exec s es1 with
    | Some s' => exec s' es2
    | None => None
    end.
Proof.
  induction es1 as [|e es1 IH]; intros es2 s; simpl; [reflexivity|].
  destruct (step s e); [apply IH|reflexivity].
Qed.

(** Calls that come while the marker is set wait on the promise it holds;
    nothing else changes. *)
Lemma joiners_wait calls : forall s p,
  refreshInFlight s = Some p -> Forall (fun e => isJoin e = true) calls ->
  exec s calls = Some (addCallers s (repeat (waitingOn p) (List.length calls))).
Proof.
  induction calls as [|e calls IH]; intros s p M HF.
  - simpl. unfold addCallers. rewrite app_nil_r. now destruct s.
  - inversion HF as [|? ? He HF']; subst.
    destruct e as [creds cur| | | | |]; try discriminate. simpl in He.
    cbn [exec step]. rewrite He, M. cbn [negb].
    fold (waitingOn p).
    rewrite (IH (addCaller s (waitingOn p)) p M HF').
    f_equal. unfold addCallers, addCaller. simpl. now rewrite <- app_assoc.
Qed.

Lemma during_joiners s rt f k cc ct sv calls :
  Forall (fun e => isJoin e = true) calls ->
  exec (during s rt f k cc ct sv) calls
  = Some (during s rt f (k + List.length calls) cc ct sv).
Proof.
  intros HF. rewrite (joiners_wait calls _ (List.length (flights s))); [|reflexivity|exact HF].
  unfold addCallers, during. simpl. now rewrite <- app_assoc, repeat_app.
Qed.

(** The callers of a settled promise, resumed in the order they came. *)
Lemma resume_in_order n : forall s p r c0,
  nth_error (flights s) p = Some (Settled r) ->
  (forall i, (i < n)%nat -> nth_error (callers s) (c0 + i) = Some (waitingOn p)) ->
  exists s',
    exec s (map Resume (seq c0 n)) = Some s'
    /\ flights s' = flights s /\ requests s' = requests s /\ saved s' = saved s
    /\ cachedTokens s' = cachedTokens s /\ cachedCredentials s' = cachedCredentials s
    /\ refreshInFlight s' = (if (n =? 0)%nat then refreshInFlight s else None)
    /\ List.length (callers s') = List.length (callers s)
    /\ (forall i, (i < n)%nat ->
          nth_error (callers s') (c0 + i)
          = Some {| joined := Some p; outcome := Some (awaited r) |})
    /\ (forall j, (j < c0 \/ c0 + n <= j)%nat ->
          nth_error (callers s') j = nth_error (callers s) j).
Proof.
  induction n as [|n IH]; intros s p r c0 Hp Hw.
  - exists s. simpl. repeat split; auto. intros i Hi. lia.
  - cbn [seq map exec step].
    pose proof (Hw 0%nat ltac:(lia)) as H0. rewrite Nat.add_0_r in H0.
    rewrite H0. unfold waitingOn at 1. rewrite Hp.
    assert (Hlt : (c0 < List.length (callers s))%nat)
      by (apply nth_error_Some; congruence).
    set (s1 := {| cachedCredentials := cachedCredentials s; cachedTokens := cachedTokens s;
                  refreshInFlight := None; flights := flights s; requests := requests s;
                  saved := saved s;
                  callers := update_nth c0 {| joined := Some p; outcome := Some (awaited r) |}
                                        (callers s) |}).
    destruct (IH s1 p r (S c0)) as [s' [E [F [R [Sv [T [C [M [L [O K]]]]]]]]]].
    + exact Hp.
    + intros i Hi. subst s1. cbn [callers].
      rewrite nth_error_update_neq by lia.
      replace (S c0 + i)%nat with (c0 + S i)%nat by lia. apply Hw. lia.
    + exists s'. split; [exact E|]. subst s1. cbn in *.
      rewrite update_nth_length in L.
      repeat split; auto.
      * now destruct n.
      * intros i Hi. destruct i as [|i].
        -- rewrite Nat.add_0_r. rewrite K by lia.
           now apply nth_error_update_eq.
        -- replace (c0 + S i)%nat with (S c0 + i)%nat by lia. apply O. lia.
      * intros j Hj. rewrite K by lia. apply nth_error_update_neq. lia.
Qed.

Lemma nth_error_repeat_app {A} (l : list A) x k i :
  (i < k)%nat -> nth_error (l ++ repeat x k) (List.length l + i) = Some x.
Proof.
  intros H. rewrite nth_error_app2 by lia.
  replace (List.length l + i - List.length l)%nat with i by lia.
  revert i H. induction k as [|k IH]; intros i H; [lia|].
  destruct i; simpl; [reflexivity|]. apply IH. lia.
Qed.

(** The single flight, as far as it holds.  A call that finds no refresh
    in flight posts one request; any number of calls that come while that
    refresh is under way, or after it has settled and before its callers
    are resumed, post nothing and wait on the same promise; when the
    callers are then resumed, each of them gets the merged tokens, the
    marker is cleared, and the merged tokens have been cached and saved
    once. *)
Lemma joiners_share_one_refresh (s : State) (credentials : Credentials)
        (currentTokens refreshed : TokenEndpointResponse) (statusText : string) (now : Z)
        (early mid late after : list Event) :
  refreshInFlight s = None ->
  truthyOpt (refresh_token currentTokens) = true ->
  Forall (fun e => isJoin e = true) early ->
  Forall (fun e => isJoin e = true) mid ->
  Forall (fun e => isJoin e = true) late ->
  Forall (fun e => isJoin e = true) after ->
  let p := List.length (flights s) in
  let c := List.length (callers s) in
  let n := (1 + List.length early + List.length mid + List.length late
            + List.length after)%nat in
  let merged := mergeTokens refreshed currentTokens now in
  exists s1 s',
    exec s (Call credentials currentTokens :: early
            ++ FetchDone p (HttpResponse true statusText) :: mid
            ++ JsonDone p (JsonValue refreshed) now :: late
            ++ SaveDone p SaveOk :: after) = Some s1
    /\ refreshInFlight s1 = Some p
    /\ exec s1 (map Resume (seq c n)) = Some s'
    /\ requests s' = (requests s ++ [refresh_token currentTokens])%list
    /\ flights s' = (flights s ++ [Settled (Fulfilled (Some merged))])%list
    /\ List.length (callers s') = (c + n)%nat
    /\ (forall i, (i < n)%nat ->
          nth_error (callers s') (c + i)
          = Some {| joined := Some p; outcome := Some (inr merged) |})
    /\ refreshInFlight s' = None
    /\ cachedTokens s' = Some merged
    /\ cachedCredentials s' = Some (withTokens credentials merged)
    /\ saved s' = (saved s ++ [withTokens credentials merged])%list.
Proof.
  intros M T He Hm Hl Ha p c n merged.
  set (rt := refresh_token currentTokens).
  set (D := during s rt).
  assert (E1 : step s (Call credentials currentTokens)
               = Some (D (AwaitFetch credentials currentTokens) 1%nat
                         (cachedCredentials s) (cachedTokens s) (saved s))).
  { cbn [step]. rewrite T, M. reflexivity. }
  assert (E2 : forall k cc ct sv,
             step (D (AwaitFetch credentials currentTokens) k cc ct sv)
                  (FetchDone p (HttpResponse true statusText))
             = Some (D (AwaitJson credentials currentTokens) k cc ct sv)).
  { intros. unfold D, during. cbn [step flights]. subst p.
    rewrite nth_error_app_last. unfold setFlight. cbn.
    now rewrite update_nth_last. }
  assert (E3 : forall k cc ct sv,
             step (D (AwaitJson credentials currentTokens) k cc ct sv)
                  (JsonDone p (JsonValue refreshed) now)
             = Some (D (AwaitSave merged) k (Some (withTokens credentials merged))
                       (Some merged) (sv ++ [withTokens credentials merged])%list)).
  { intros. unfold D, during. cbn [step flights]. subst p.
    rewrite nth_error_app_last. cbn.
    now rewrite update_nth_last. }
  assert (E4 : forall k cc ct sv,
             step (D (AwaitSave merged) k cc ct sv) (SaveDone p SaveOk)
             = Some (D (Settled (Fulfilled (Some merged))) k cc ct sv)).
  { intros. unfold D, during. cbn [step flights]. subst p.
    rewrite nth_error_app_last. unfold setFlight. cbn.
    now rewrite update_nth_last. }
  set (s1 := D (Settled (Fulfilled (Some merged))) n
               (Some (withTokens credentials merged)) (Some merged)
               (saved s ++ [withTokens credentials merged])%list).
  assert (X : exec s (Call credentials currentTokens :: early
            ++ FetchDone p (HttpResponse true statusText) :: mid
            ++ JsonDone p (JsonValue refreshed) now :: late
            ++ SaveDone p SaveOk :: after) = Some s1).
  { cbn [exec]. rewrite E1. rewrite exec_app. unfold D. rewrite during_joiners by exact He.
    cbn [exec]. fold D. rewrite E2. rewrite exec_app. unfold D.
    rewrite during_joiners by exact Hm.
    cbn [exec]. fold D. rewrite E3. rewrite exec_app. unfold D.
    rewrite during_joiners by exact Hl.
    cbn [exec]. fold D. rewrite E4. unfold D.
    rewrite during_joiners by exact Ha. subst s1 n. unfold D. reflexivity. }
  destruct (resume_in_order n s1 p (Fulfilled (Some merged)) c)
    as [s' [E [F [R [Sv [Tk [C [Mk [L [O K]]]]]]]]]].
  { subst s1. unfold D, during. cbn [flights]. subst p. apply nth_error_app_last. }
  { intros i Hi. subst s1. unfold D, during. cbn [callers]. subst c.
    now apply nth_error_repeat_app. }
  exists s1, s'. split; [exact X|]. split; [reflexivity|]. split; [exact E|].
  subst s1. unfold D, during in *.
  cbn [flights requests saved cachedTokens cachedCredentials callers refreshInFlight] in *.
  rewrite length_app, repeat_length in L.
  assert (Hn : (n =? 0)%nat = false) by (apply Nat.eqb_neq; subst n; lia).
  rewrite Hn in Mk.
  repeat split; auto.
Qed.

End SingleFlightFacts.

(** ** src/actions/kickOfficialApi.ts *)

Module ApiFacts.

Import JsData KickOfficialApi.
Import TokenManager (JsError, KickCredentialsMissingError, Error).
Import Monitor (KickChannelStatus, Build_KickChannelStatus, cs_isLive,
                cs_displayName, cs_profileImageUrl, cs_liveStatusText,
                cs_viewerCount, cs_category).

Section MapFacts.

Context {V : Type}.

Lemma get_set_same k (v : V) m : get k (set k v m) = Some v.
Proof.
  induction m as [|[k' v'] m IH]; simpl.
  - now rewrite String.eqb_refl.
  - destruct (k' =? k) eqn:E; simpl; rewrite E; [reflexivity|exact IH].
Qed.

Lemma get_set_other k k' (v : V) m : k' <> k -> get k' (set k v m) = get k' m.
Proof.
  intros Hne. induction m as [|[k0 v0] m IH]; simpl.
  - apply String.eqb_neq in Hne. rewrite String.eqb_sym in Hne. now rewrite Hne.
  - destruct (k0 =? k) eqn:E; simpl.
    + apply String.eqb_eq in E. subst k0.
      assert (F : (k =? k') = false) by (apply String.eqb_neq; congruence).
      now rewrite F.
    + destruct (k0 =? k'); [reflexivity|exact IH].
Qed.

Lemma get_delete_same k (m : list (string * V)) : get k (delete k m) = None.
Proof.
  induction m as [|[k' v'] m IH]; simpl; [reflexivity|].
  destruct (k' =? k) eqn:E; simpl; [exact IH|]. now rewrite E.
Qed.

Lemma get_delete_other k k' (m : list (string * V)) :
  k' <> k -> get k' (delete k m) = get k' m.
Proof.
  intros Hne. induction m as [|[k0 v0] m IH]; simpl; [reflexivity|].
  destruct (k0 =? k) eqn:E; simpl.
  - apply String.eqb_eq in E. subst k0.
    assert (F : (k =? k') = false) by (apply String.eqb_neq; congruence).
    now rewrite F.
  - destruct (k0 =? k'); [reflexivity|exact IH].
Qed.

End MapFacts.

(** *** The authorized request *)

Lemma checked_ok r r' : checked r = inr r' -> r' = r /\ ok r = true.
Proof.
  unfold checked. destruct (status r =? 401)%nat; [discriminate|].
  destruct (ok r); cbn; [|discriminate]. intros H. now inversion H.
Qed.

Lemma checked_unauthorized r :
  status r = 401%nat -> exists m, checked r = inl (KickCredentialsMissingError m).
Proof. intros H. unfold checked. rewrite H. cbn. eauto. Qed.

Lemma grows_same s s' n :
  TokenManager.requests s' = TokenManager.requests s -> grows s s' n.
Proof. intros H. exists []. rewrite app_nil_r. split; [exact H|simpl; lia]. Qed.

Lemma grows_trans s1 s2 s3 n m :
  grows s1 s2 n -> grows s2 s3 m -> grows s1 s3 (n + m).
Proof.
  intros [l1 [H1 L1]] [l2 [H2 L2]]. exists (l1 ++ l2)%list.
  rewrite H2, H1, app_assoc, length_app. split; [reflexivity|lia].
Qed.

Lemma grows_then s1 s2 s3 n :
  grows s1 s2 n -> TokenManager.requests s3 = TokenManager.requests s2 -> grows s1 s3 n.
Proof. intros [l [H L]] E. exists l. now rewrite E. Qed.

Lemma grows_after s1 s2 s3 n :
  TokenManager.requests s2 = TokenManager.requests s1 -> grows s2 s3 n -> grows s1 s3 n.
Proof. intros E [l [H L]]. exists l. now rewrite <- E. Qed.

Lemma refreshTokensAlone_grows c t w s :
  grows s (fst (TokenAccess.refreshTokensAlone c t w s)) 1.
Proof.
  unfold TokenAccess.refreshTokensAlone.
  destruct (truthyOpt (TokenManager.refresh_token t)); cbn [negb].
  - destruct (TokenAccess.flightResult t w) as [r merged]. cbn.
    exists [TokenManager.refresh_token t]. split; [reflexivity|simpl; lia].
  - now apply grows_same.
Qed.

Lemma loadCredentials_requests w s :
  TokenManager.requests (snd (fst (TokenAccess.loadCredentials w s)))
  = TokenManager.requests s.
Proof.
  unfold TokenAccess.loadCredentials.
  destruct (TokenManager.cachedCredentials s); [reflexivity|].
  now destruct (TokenAccess.loaded w).
Qed.

Lemma ensureCredentials_grows w s :
  grows s (snd (fst (TokenAccess.ensureCredentials w s))) 1.
Proof.
  unfold TokenAccess.ensureCredentials.
  pose proof (loadCredentials_requests w s) as L.
  destruct (TokenAccess.loadCredentials w s) as [[[e|c] s1] fx]; cbn [fst snd] in *.
  - now apply grows_same.
  - set (s2 := match TokenManager.cachedTokens s1 with
               | Some _ => s1
               | None => TokenAccess.setCachedTokens (TokenManager.tokens c) s1
               end).
    assert (H2 : TokenManager.requests s2 = TokenManager.requests s).
    { subst s2. destruct (TokenManager.cachedTokens s1); exact L. }
    destruct (TokenManager.cachedTokens s2) as [cached|]; [|now apply grows_same].
    destruct (_ && _); [|now apply grows_same].
    pose proof (refreshTokensAlone_grows c cached (TokenAccess.refreshAnswers w) s2) as G.
    destruct (TokenAccess.refreshTokensAlone c cached (TokenAccess.refreshAnswers w) s2)
      as [s3 [e|t]]; cbn [fst snd] in *.
    + exact (grows_after _ _ _ _ H2 G).
    + apply (grows_after _ _ _ _ H2). eapply grows_then; [exact G|reflexivity].
Qed.

Lemma getAccessToken_grows w s :
  grows s (snd (fst (TokenAccess.getAccessToken w s))) 1.
Proof.
  unfold TokenAccess.getAccessToken.
  pose proof (ensureCredentials_grows w s) as G.
  destruct (TokenAccess.ensureCredentials w s) as [[[e|[t c]] s1] fx]; exact G.
Qed.

Lemma refreshCurrentTokens_grows w again s :
  grows s (snd (fst (TokenAccess.refreshCurrentTokens w again s))) 2.
Proof.
  unfold TokenAccess.refreshCurrentTokens.
  pose proof (ensureCredentials_grows w s) as G.
  destruct (TokenAccess.ensureCredentials w s) as [[[e|[t c]] s1] fx]; cbn [fst snd] in *.
  - destruct G as [l [H L]]. exists l. split; [exact H|lia].
  - pose proof (refreshTokensAlone_grows c t again s1) as G2.
    destruct (TokenAccess.refreshTokensAlone c t again s1) as [s2 r]; cbn [fst snd] in *.
    exact (grows_trans _ _ _ _ _ G G2).
Qed.

(** The access token [getAccessToken] returns is not empty, and is the one
    of the tokens then in memory. *)
Lemma getAccessToken_bearer w s a s' fx :
  TokenAccess.getAccessToken w s = (inr a, s', fx) ->
  a <> "" /\ exists t, TokenManager.cachedTokens s' = Some t
                       /\ TokenManager.access_token t = Some a.
Proof.
  unfold TokenAccess.getAccessToken.
  destruct (TokenAccess.ensureCredentials w s) as [[[e|[t c]] s1] fx1] eqn:E;
    [discriminate|].
  intros H. inversion H; subst.
  match goal with
  | K : TokenAccess.assertAccessToken t = inr a |- _ =>
      apply TokenAccessFacts.assertAccessToken_ok in K; destruct K as [K1 K2]
  end.
  split; [assumption|]. exists t. split; [|assumption].
  now apply TokenAccessFacts.ensureCredentials_tokens in E.
Qed.

Lemma authorized_bearers x s :
  (List.length (snd (fst (performAuthorizedRequest x s))) <= 2)%nat
  /\ Forall (fun b => b <> "") (snd (fst (performAuthorizedRequest x s))).
Proof.
  unfold performAuthorizedRequest.
  destruct (TokenAccess.getAccessToken (tokenAnswers x) s) as [[[e|a] s1] fx1] eqn:T1;
    [cbn; split; [lia|constructor]|].
  destruct (getAccessToken_bearer _ _ _ _ _ T1) as [Ane _].
  destruct (response x) as [e|r]; [cbn; split; [lia|repeat constructor; exact Ane]|].
  destruct (status r =? 401)%nat; [|cbn; split; [lia|repeat constructor; exact Ane]].
  destruct (TokenAccess.refreshCurrentTokens _ _ s1) as [[[e|t2] s2] fx2];
    [cbn; split; [lia|repeat constructor; exact Ane]|].
  destruct (TokenAccess.getAccessToken (retryTokenAnswers x) s2) as [[[e|a2] s3] fx3] eqn:T3;
    [cbn; split; [lia|repeat constructor; exact Ane]|].
  destruct (getAccessToken_bearer _ _ _ _ _ T3) as [A2ne _].
  cbn. split; [lia|repeat constructor; assumption].
Qed.

(** X12.  An authorized request, with the token manager as it is.  A
    response is returned only when its status is in the range 200-299.  No
    request is sent when no access token can be had, one when the first
    answer is not 401, and a second one only after a first answer 401, a
    refresh of the tokens and a new access token; every request carries an
    access token that is not empty, the second one the access token of the
    tokens then in memory.  When the first answer is not 401 the token
    manager is left as the first [getAccessToken] left it, and the result is
    decided by that answer; a second answer 401 is reported as missing
    credentials.  In all, at most four refresh requests are posted to the
    worker: at most one by each [getAccessToken], for a token that is due, and
    at most two by [refreshCurrentTokens]. *)
Theorem authorized_request_contract (x : Exchange) (s : TokenManager.State) :
  let '(res, s', bearers, fx) := performAuthorizedRequest x s in
  (forall r, res = inr r -> (200 <= status r <= 299)%nat)
  /\ (List.length bearers <= 2)%nat
  /\ Forall (fun b => b <> "") bearers
  /\ (bearers = [] <->
      exists e, fst (fst (TokenAccess.getAccessToken (tokenAnswers x) s)) = inl e)
  /\ (List.length bearers = 2%nat ->
      (exists r, response x = inr r /\ status r = 401%nat)
      /\ (exists t a, TokenManager.cachedTokens s' = Some t
                      /\ TokenManager.access_token t = Some a
                      /\ nth_error bearers 1 = Some a)
      /\ (forall r2, retryResponse x = inr r2 -> status r2 = 401%nat ->
                     exists m, res = inl (KickCredentialsMissingError m)))
  /\ (forall r, response x = inr r -> status r <> 401%nat ->
      forall a, fst (fst (TokenAccess.getAccessToken (tokenAnswers x) s)) = inr a ->
      res = checked r /\ bearers = [a]
      /\ s' = snd (fst (TokenAccess.getAccessToken (tokenAnswers x) s))
      /\ grows s s' 1)
  /\ grows s s' 4.
Proof.
  unfold performAuthorizedRequest.
  assert (OK : forall r r', checked r = inr r' -> (200 <= status r' <= 299)%nat).
  { intros r r' H. apply checked_ok in H. destruct H as [-> H].
    unfold ok in H. apply andb_true_iff in H. destruct H as [H1 H2].
    apply Nat.leb_le in H1, H2. lia. }
  pose proof (getAccessToken_grows (tokenAnswers x) s) as G1.
  destruct (TokenAccess.getAccessToken (tokenAnswers x) s) as [[[e|a] s1] fx1] eqn:T1;
    cbn [fst snd] in *.
  { split; [discriminate|]. split; [simpl; lia|]. split; [constructor|].
    split; [split; eauto|]. split; [discriminate|]. split; [discriminate|].
    destruct G1 as [l [H L]]. exists l. split; [exact H|lia]. }
  destruct (getAccessToken_bearer _ _ _ _ _ T1) as [Ane _].
  assert (W1 : grows s s1 4) by (destruct G1 as [l [H L]]; exists l; split; [exact H|lia]).
  destruct (response x) as [e|r] eqn:R1.
  { split; [discriminate|]. split; [simpl; lia|]. split; [repeat constructor; exact Ane|].
    split; [split; [discriminate|intros [e0 H]; discriminate]|].
    split; [discriminate|]. split; [discriminate|exact W1]. }
  destruct (status r =? 401)%nat eqn:S1.
  2:{ apply Nat.eqb_neq in S1.
      split; [intros r0 H; now apply (OK r)|]. split; [simpl; lia|].
      split; [repeat constructor; exact Ane|].
      split; [split; [discriminate|intros [e0 H]; discriminate]|].
      split; [discriminate|].
      split; [|exact W1].
      intros r0 H0 _ a0 Ha0. inversion H0; subst. inversion Ha0; subst. auto. }
  apply Nat.eqb_eq in S1.
  pose proof (refreshCurrentTokens_grows (renewalAnswers x) (renewalRefresh x) s1) as G2.
  destruct (TokenAccess.refreshCurrentTokens (renewalAnswers x) (renewalRefresh x) s1)
    as [[[e|t2] s2] fx2]; cbn [fst snd] in *.
  { split; [discriminate|]. split; [simpl; lia|]. split; [repeat constructor; exact Ane|].
    split; [split; [discriminate|intros [e0 H]; discriminate]|].
    split; [discriminate|].
    split; [intros r0 H0 N; inversion H0; subst; contradiction|].
    destruct (grows_trans _ _ _ _ _ G1 G2) as [l [H L]]. exists l. split; [exact H|lia]. }
  pose proof (getAccessToken_grows (retryTokenAnswers x) s2) as G3.
  destruct (TokenAccess.getAccessToken (retryTokenAnswers x) s2) as [[[e|a2] s3] fx3] eqn:T3;
    cbn [fst snd] in *.
  { split; [discriminate|]. split; [simpl; lia|]. split; [repeat constructor; exact Ane|].
    split; [split; [discriminate|intros [e0 H]; discriminate]|].
    split; [discriminate|].
    split; [intros r0 H0 N; inversion H0; subst; contradiction|].
    exact (grows_trans _ _ _ _ _ (grows_trans _ _ _ _ _ G1 G2) G3). }
  destruct (getAccessToken_bearer _ _ _ _ _ T3) as [A2ne [t [Ct At]]].
  split.
  { intros r0 H. destruct (retryResponse x) as [e|r2]; [discriminate|]. now apply (OK r2). }
  split; [simpl; lia|]. split; [repeat constructor; assumption|].
  split; [split; [discriminate|intros [e0 H]; discriminate]|].
  split.
  { intros _. split; [eauto|]. split; [exists t, a2; auto|].
    intros r2 E2 S2. rewrite E2. now apply checked_unauthorized. }
  split; [intros r0 H0 N; inversion H0; subst; contradiction|].
  exact (grows_trans _ _ _ _ _ (grows_trans _ _ _ _ _ G1 G2) G3).
Qed.

Section Network.

Variable exchange : Exchange.
Variable body : ApiAnswer.
Variable web : string -> WebAnswer.

Local Abbreviation fetchWebChannelInfo := (KickOfficialApi.fetchWebChannelInfo web).
Local Abbreviation fetchChannelStatus :=
  (KickOfficialApi.fetchChannelStatus exchange body web).

(** X8.  What the proxy answered is served from memory for one hour: after a
    lookup that got a payload at time [t0], every lookup of the same slug at
    a time from [t0] to [t0 + 3600000] returns the same information, sends
    no request and leaves the cache as it is. *)
Theorem web_info_cached_one_hour (slug : string) (t0 t : Z) (cache : WebInfoCache)
        (pic : ImageField) (name : option string) :
  web slug = WebPayload pic name ->
  (forall cached, get slug cache = Some cached ->
                  (t0 < timestamp cached \/ timestamp cached + WEB_INFO_CACHE_TTL < t0)%Z) ->
  (t0 <= t <= t0 + 3600000)%Z ->
  let '(first, cache1, reqs1) := fetchWebChannelInfo t0 slug cache in
  let '(again, cache2, reqs2) := fetchWebChannelInfo t slug cache1 in
  reqs1 = [GetWebChannel slug]
  /\ first = Some {| profileImageUrl := coalesceImageUrl pic; username := name |}
  /\ again = first /\ reqs2 = [] /\ cache2 = cache1.
Proof.
  intros Hweb Hstale Ht.
  assert (E1 : fetchWebChannelInfo t0 slug cache
               = (Some {| profileImageUrl := coalesceImageUrl pic; username := name |},
                  set slug {| info := {| profileImageUrl := coalesceImageUrl pic;
                                         username := name |};
                              timestamp := t0 |} cache,
                  [GetWebChannel slug])).
  { unfold KickOfficialApi.fetchWebChannelInfo. rewrite Hweb.
    destruct (get slug cache) as [cached|] eqn:G; [|reflexivity].
    destruct (Hstale cached eq_refl) as [H|H].
    - replace (timestamp cached <=? t0)%Z with false
        by (symmetry; apply Z.leb_gt; lia). reflexivity.
    - replace (t0 - timestamp cached <=? WEB_INFO_CACHE_TTL)%Z with false
        by (symmetry; apply Z.leb_gt; lia).
      now rewrite andb_false_r. }
  rewrite E1.
  unfold KickOfficialApi.fetchWebChannelInfo at 1.
  rewrite get_set_same. cbn [timestamp info].
  replace (t0 <=? t)%Z with true by (symmetry; apply Z.leb_le; lia).
  replace (t - t0 <=? WEB_INFO_CACHE_TTL)%Z with true
    by (symmetry; apply Z.leb_le; unfold WEB_INFO_CACHE_TTL; lia).
  cbn. auto.
Qed.

Lemma fetchWeb_requests t slug cache :
  snd (fetchWebChannelInfo t slug cache) = []
  \/ snd (fetchWebChannelInfo t slug cache) = [GetWebChannel slug].
Proof.
  unfold KickOfficialApi.fetchWebChannelInfo.
  destruct (get slug cache) as [cached|].
  - destruct (_ && _); [now left|]. destruct (web slug); now right.
  - destruct (web slug); now right.
Qed.

Lemma orOpt_truthy a b : truthyOpt b = true -> truthyOpt (orOpt a b) = true.
Proof. unfold orOpt. destruct (truthyOpt a) eqn:E; auto. Qed.

Lemma orOpt_not_empty a b : b <> Some "" -> orOpt a b <> Some "".
Proof.
  unfold orOpt. destruct (truthyOpt a) eqn:E; [|auto].
  intros _ ->. discriminate.
Qed.

(** What [fetchChannelStatus] does once the slug is known not to be empty:
    the authorized request, then the payload. *)
Lemma fetchChannelStatus_cases t slug cache s :
  toLowerCase (trim slug) <> "" ->
  let normalizedSlug := toLowerCase (trim slug) in
  let '(res, cache', reqs, s') := fetchChannelStatus t slug cache s in
  let '(authorized, s1, bearers, fx) := performAuthorizedRequest exchange s in
  s' = s1
  /\ apiRequests reqs = bearers
  /\ ((exists e, authorized = inl e /\ res = inl e
                 /\ reqs = map (GetChannels normalizedSlug) bearers /\ cache' = cache)
      \/ (exists r, authorized = inr r /\ firstEntry body = None
                    /\ res = match body with
                             | ApiThrows e => inl e
                             | ApiPayload _ => inr None
                             end
                    /\ reqs = map (GetChannels normalizedSlug) bearers /\ cache' = cache)
      \/ (exists r entry cs, authorized = inr r /\ firstEntry body = Some entry
                    /\ res = inr (Some cs)
                    /\ (reqs = map (GetChannels normalizedSlug) bearers
                        \/ reqs = (map (GetChannels normalizedSlug) bearers
                                   ++ [GetWebChannel normalizedSlug])%list))).
Proof.
  intros Hne normalizedSlug.
  unfold KickOfficialApi.fetchChannelStatus. fold normalizedSlug.
  apply truthy_true in Hne. fold normalizedSlug in Hne. rewrite Hne. cbn [negb].
  destruct (performAuthorizedRequest exchange s) as [[[authorized s1] bearers] fx].
  assert (A : forall l, apiRequests (map (GetChannels normalizedSlug) bearers ++ l)
                        = (bearers ++ apiRequests l)%list).
  { intros l. unfold apiRequests. rewrite flat_map_app. f_equal.
    clear. induction bearers as [|b bs IH]; simpl; [reflexivity|]. now f_equal. }
  assert (A0 : apiRequests (map (GetChannels normalizedSlug) bearers) = bearers).
  { rewrite <- (app_nil_r (map _ _)), A. apply app_nil_r. }
  destruct authorized as [e|r].
  { split; [reflexivity|]. split; [exact A0|]. left. eauto 6. }
  destruct body as [e|[[|entry l]|]].
  - split; [reflexivity|]. split; [exact A0|]. right; left. exists r. auto.
  - split; [reflexivity|]. split; [exact A0|]. right; left. exists r. auto.
  - match goal with
    | |- context [if ?c then _ else _] => destruct c
    end.
    + pose proof (fetchWeb_requests t normalizedSlug cache) as R.
      destruct (KickOfficialApi.fetchWebChannelInfo web t normalizedSlug cache)
        as [[wi c1] rq].
      simpl in R.
      destruct wi as [wi|]; (split; [reflexivity|]); (split;
        [rewrite A; destruct R as [-> | ->]; simpl; apply app_nil_r|]);
        right; right; exists r, entry; eexists; (split; [reflexivity|]);
        (split; [reflexivity|]); (split; [reflexivity|]);
        (destruct R as [-> | ->]; [left; apply app_nil_r|right; reflexivity]).
    + split; [reflexivity|]. split; [rewrite A; apply app_nil_r|].
      right; right. exists r, entry. eexists. split; [reflexivity|].
      split; [reflexivity|]. split; [reflexivity|]. left. apply app_nil_r.
  - split; [reflexivity|]. split; [exact A0|]. right; left. exists r. auto.
Qed.

(** X9.  The requests of one status check.  None at all, and the token
    manager untouched, for a slug that is empty once trimmed.  Otherwise the
    requests to the API are those of one authorized request for the trimmed,
    lower-cased slug: none when no access token can be had, at most two,
    each with an access token that is not empty; they are followed by at most
    one request to the proxy, for the same slug, and by none when the
    authorized request throws, when the body cannot be read or when it
    names no channel: the function then throws, or returns nothing, and
    leaves the cache as it is. *)
Theorem fetchChannelStatus_requests (t : Z) (slug : string) (cache : WebInfoCache)
        (s : TokenManager.State) :
  let normalizedSlug := toLowerCase (trim slug) in
  let '(res, cache', reqs, s') := fetchChannelStatus t slug cache s in
  (normalizedSlug = "" -> res = inr None /\ reqs = [] /\ cache' = cache /\ s' = s)
  /\ (normalizedSlug <> "" ->
      let '(authorized, s1, bearers, fx) := performAuthorizedRequest exchange s in
      s' = s1
      /\ (reqs = map (GetChannels normalizedSlug) bearers
          \/ reqs = (map (GetChannels normalizedSlug) bearers
                     ++ [GetWebChannel normalizedSlug])%list)
      /\ (List.length bearers <= 2)%nat
      /\ Forall (fun b => b <> "") bearers
      /\ (forall e, authorized = inl e ->
                    res = inl e /\ webRequests reqs = [] /\ cache' = cache)
      /\ (firstEntry body = None ->
          webRequests reqs = [] /\ cache' = cache
          /\ (forall r, authorized = inr r ->
                        res = match body with
                              | ApiThrows e => inl e
                              | ApiPayload _ => inr None
                              end))).
Proof.
  intros normalizedSlug.
  destruct (string_dec normalizedSlug "") as [E|E].
  - unfold KickOfficialApi.fetchChannelStatus. fold normalizedSlug. rewrite E. cbn.
    split; [auto|congruence].
  - pose proof (fetchChannelStatus_cases t slug cache s E) as C.
    pose proof (authorized_bearers exchange s) as B.
    fold normalizedSlug in C.
    destruct (fetchChannelStatus t slug cache s) as [[[res cache'] reqs] s'].
    destruct (performAuthorizedRequest exchange s) as [[[authorized s1] bearers] fx].
    cbn [fst snd] in B. destruct B as [B1 B2].
    destruct C as [C1 [C2 C3]].
    assert (W : forall l, webRequests (map (GetChannels normalizedSlug) l) = []).
    { induction l; simpl; auto. }
    split; [congruence|]. intros _.
    split; [exact C1|].
    destruct C3 as [[e [Ha [Hr [Hq Hc]]]]|[[r [Ha [Hf [Hr [Hq Hc]]]]]
                                          |[r [entry [cs [Ha [Hf [Hr Hq]]]]]]]].
    + clear C2. subst authorized res cache'.
      split; [now left|]. split; [exact B1|]. split; [exact B2|].
      assert (Wq : webRequests reqs = []) by (rewrite Hq; apply W).
      split; [intros e0 H0; inversion H0; subst; auto|].
      intros _. split; [exact Wq|]. split; [reflexivity|]. discriminate.
    + clear C2. subst cache'.
      split; [now left|]. split; [exact B1|]. split; [exact B2|].
      assert (Wq : webRequests reqs = []) by (rewrite Hq; apply W).
      split; [intros e0 H0; congruence|].
      intros _. split; [exact Wq|]. split; [reflexivity|]. intros r0 _. exact Hr.
    + split; [exact Hq|]. split; [exact B1|]. split; [exact B2|].
      split; [intros e0 H0; congruence|]. intros H0. congruence.
Qed.

Lemma fetchChannelStatus_entry t slug cache s cs :
  fst (fst (fst (fetchChannelStatus t slug cache s))) = inr (Some cs) ->
  exists entry, firstEntry body = Some entry
                /\ cs_isLive cs = liveOf entry
                /\ cs_liveStatusText cs = statusTextOf entry
                /\ cs_viewerCount cs = ofStream (stream entry) viewer_count
                /\ cs_category cs
                   = orOpt (category_name entry)
                           (ofStream (stream entry) stream_category_name).
Proof.
  unfold KickOfficialApi.fetchChannelStatus.
  destruct (truthy _); cbn [negb]; [|discriminate].
  destruct (performAuthorizedRequest exchange s) as [[[authorized s1] bearers] fx].
  destruct authorized as [e|r]; [discriminate|].
  destruct body as [e|[[|entry l]|]]; try discriminate.
  intros H. exists entry. split; [reflexivity|].
  revert H.
  match goal with
  | |- context [if ?c then _ else _] => destruct c
  end.
  - destruct (KickOfficialApi.fetchWebChannelInfo web t _ cache) as [[wi c1] rq].
    destruct wi as [wi|]; cbn; intros H; inversion H; subst cs; cbn; auto.
  - cbn. intros H; inversion H; subst cs; cbn; auto.
Qed.

(** X10.  A channel reported live always has a status text: the stream
    title, the session title, the session status, or the word [live]; and
    whatever text is reported, live or not, is never the empty string. *)
Theorem live_channel_has_status_text (t : Z) (slug : string) (cache : WebInfoCache)
        (s : TokenManager.State) (cs : KickChannelStatus) :
  fst (fst (fst (fetchChannelStatus t slug cache s))) = inr (Some cs) ->
  cs_liveStatusText cs <> Some ""
  /\ (cs_isLive cs = true -> exists text, cs_liveStatusText cs = Some text /\ text <> "").
Proof.
  intros H. apply fetchChannelStatus_entry in H.
  destruct H as [entry [_ [L [T _]]]]. rewrite L, T. unfold statusTextOf. split.
  - apply orOpt_not_empty. destruct (liveOf entry); discriminate.
  - intros E. rewrite E.
    assert (U : truthyOpt (orOpt (orOpt (orOpt (stream_title entry)
                  (ofStream (stream entry) session_title))
                  (ofStream (stream entry) session_status)) (Some "live")) = true)
      by now apply orOpt_truthy.
    destruct (orOpt _ (Some "live")) as [x|]; [|discriminate].
    exists x. split; [reflexivity|]. now apply truthy_true.
Qed.

(** X11.  What the API says wins over the proxy.  When the entry has a name
    that is not empty and is not the normalised slug, that name is the
    display name; when it has a profile picture, that picture is the image;
    and when it has both, the proxy is not asked at all. *)
Theorem api_fields_win (t : Z) (slug : string) (cache : WebInfoCache)
        (s : TokenManager.State) (entry : KickChannelEntry) (cs : KickChannelStatus) :
  firstEntry body = Some entry ->
  fst (fst (fst (fetchChannelStatus t slug cache s))) = inr (Some cs) ->
  (forall name, user_name entry = Some name -> name <> "" ->
                name <> toLowerCase (trim slug) -> cs_displayName cs = name)
  /\ (forall pic, coalesceImageUrl (user_profile_picture entry) = Some pic ->
                  pic <> "" -> cs_profileImageUrl cs = Some pic)
  /\ (forall name pic,
        user_name entry = Some name -> name <> "" ->
        name <> toLowerCase (trim slug) ->
        coalesceImageUrl (user_profile_picture entry) = Some pic -> pic <> "" ->
        webRequests (snd (fst (fetchChannelStatus t slug cache s))) = []).
Proof.
  unfold KickOfficialApi.fetchChannelStatus.
  remember (toLowerCase (trim slug)) as normalizedSlug eqn:En.
  destruct (truthy normalizedSlug); cbn [negb]; [|discriminate].
  destruct (performAuthorizedRequest exchange s) as [[[authorized s1] bearers] fx].
  assert (W : forall l, webRequests (map (GetChannels normalizedSlug) bearers ++ l)
                        = webRequests l).
  { intros l. unfold webRequests. rewrite flat_map_app.
    replace (flat_map _ (map (GetChannels normalizedSlug) bearers)) with (@nil string);
      [reflexivity|].
    clear. induction bearers; simpl; auto. }
  destruct authorized as [e|r]; [discriminate|].
  destruct body as [e|[[|entry' l]|]]; try discriminate.
  cbn [firstEntry]. intros E. inversion E. subst entry'. clear E.
  remember (orOpt _ (coalesceImageUrl (banner_picture entry))) as p0 eqn:Ep.
  remember (match user_name entry with
            | Some n => n
            | None => nullish (entry_slug entry) normalizedSlug
            end) as d0 eqn:Ed.
  remember (negb (truthyOpt (user_name entry))) as missing eqn:Em.
  remember (truthyOpt (coalesceImageUrl (user_profile_picture entry))) as hasPic eqn:Eh.
  remember (match user_name entry with
            | Some n => n =? normalizedSlug
            | None => false
            end) as raw eqn:Er.
  assert (Hname : forall name, user_name entry = Some name -> name <> "" ->
                               name <> normalizedSlug ->
                               missing = false /\ raw = false /\ d0 = name).
  { intros name Hn Hne Hns. subst missing raw d0. rewrite Hn. cbn.
    apply truthy_true in Hne. rewrite Hne.
    apply String.eqb_neq in Hns. now rewrite Hns. }
  assert (Hpic : forall pic, coalesceImageUrl (user_profile_picture entry) = Some pic ->
                             pic <> "" -> hasPic = true /\ p0 = Some pic).
  { intros pic Hp Hne. subst hasPic p0. rewrite Hp. cbn.
    apply truthy_true in Hne. unfold orOpt. cbn [truthyOpt].
    repeat (rewrite Hne; cbn [truthyOpt]). auto. }
  clear Ep Ed Em Eh Er.
  destruct (isNull p0 || missing || raw || negb hasPic) eqn:C.
  - destruct (KickOfficialApi.fetchWebChannelInfo web t normalizedSlug cache)
      as [[wi c1] rq].
    destruct wi as [wi|]; cbn; intros H; inversion H; subst cs; cbn.
    + split; [|split].
      * intros name Hn Hne Hns. destruct (Hname name Hn Hne Hns) as [M [R D]].
        rewrite M, R. cbn.
        destruct (username wi); [rewrite andb_false_r|]; auto.
      * intros pic Hp Hne. destruct (Hpic pic Hp Hne) as [P Q].
        rewrite P, Q. cbn. now rewrite andb_false_r.
      * intros name pic Hn Hne Hns Hp Hpe.
        destruct (Hname name Hn Hne Hns) as [M [R D]].
        destruct (Hpic pic Hp Hpe) as [P Q].
        rewrite M, R, P, Q in C. discriminate.
    + split; [|split].
      * intros name Hn Hne Hns. now destruct (Hname name Hn Hne Hns) as [M [R D]].
      * intros pic Hp Hne. now destruct (Hpic pic Hp Hne) as [P Q].
      * intros name pic Hn Hne Hns Hp Hpe.
        destruct (Hname name Hn Hne Hns) as [M [R D]].
        destruct (Hpic pic Hp Hpe) as [P Q].
        rewrite M, R, P, Q in C. discriminate.
  - cbn. intros H; inversion H; subst cs; cbn.
    split; [|split].
    + intros name Hn Hne Hns. now destruct (Hname name Hn Hne Hns) as [M [R D]].
    + intros pic Hp Hne. now destruct (Hpic pic Hp Hne) as [P Q].
    + intros. rewrite W. reflexivity.
Qed.

End Network.

End ApiFacts.


(** ** src/auth/storageProvider.ts *)

Module StorageFacts.

Import StorageProvider.

Lemma configureAll_configured calls : forall p,
  storageConfigured p = true ->
  configureAll calls p = p.
Proof.
  induction calls as [|x calls IH]; intros p Hc; [reflexivity|].
  simpl. unfold setCredentialStorage. rewrite Hc. cbn [andb].
  destruct (x =? currentStorage p)%nat eqn:E; cbn [negb].
  - apply Nat.eqb_eq in E. subst x.
    rewrite IH by reflexivity. destruct p; simpl in *. now subst.
  - now apply IH.
Qed.

(** X18.  The credential storage is fixed by the first call of
    [setCredentialStorage]: whatever calls follow, [getCredentialStorage]
    returns the storage of the first call; a later call with another storage
    throws and a later call with the same storage succeeds. *)
Theorem storage_fixed_by_first_call (first : Storage) (later : list Storage)
        (other : Storage) :
  let p := configureAll (first :: later) initial in
  getCredentialStorage p = first
  /\ storageConfigured p = true
  /\ (other <> first -> exists e, setCredentialStorage other p = inl e)
  /\ setCredentialStorage first p = inr p.
Proof.
  intros p.
  assert (E : p = {| currentStorage := first; storageConfigured := true |}).
  { subst p. cbn [configureAll]. unfold setCredentialStorage at 1.
    cbn [initial storageConfigured andb].
    now rewrite configureAll_configured. }
  rewrite E. clear E p.
  split; [reflexivity|]. split; [reflexivity|]. split.
  - intros Hne. unfold setCredentialStorage. cbn [storageConfigured currentStorage andb].
    apply Nat.eqb_neq in Hne. rewrite Hne. cbn. eauto.
  - unfold setCredentialStorage. cbn [storageConfigured currentStorage andb].
    now rewrite Nat.eqb_refl.
Qed.

End StorageFacts.

(** ** src/server/credentials.ts and src/auth/fileStorage.ts *)

Module FileFacts.

Import JsData Json FileCredentials ApiFacts.
Import TokenManager (JsError, KickCredentialsMissingError, Error).
Import Monitor (StringSet, set_add, set_has).

Lemma set_has_In x s : set_has x s = true <-> In x s.
Proof.
  unfold set_has. rewrite existsb_exists. split.
  - intros [y [H1 H2]]. apply String.eqb_eq in H2. now subst.
  - intros H. exists x. split; [exact H|apply String.eqb_refl].
Qed.

Lemma unique_fold l : forall acc,
  exists rest, fold_left (fun acc x => set_add x acc) l acc = (acc ++ rest)%list
               /\ (forall x, In x rest -> In x l).
Proof.
  induction l as [|y l IH]; intros acc; simpl.
  - exists []. split; [now rewrite app_nil_r|tauto].
  - unfold set_add at 2. destruct (set_has y acc).
    + destruct (IH acc) as [rest [E H]]. exists rest. split; [exact E|auto].
    + destruct (IH (acc ++ [y])%list) as [rest [E H]].
      exists (y :: rest). rewrite E, <- app_assoc. split; [reflexivity|].
      intros x [->|Hx]; auto.
Qed.

Lemma unique_head x l : exists rest, unique (x :: l) = x :: rest.
Proof.
  unfold unique. simpl.
  destruct (unique_fold l [x]) as [rest [E _]]. exists rest. exact E.
Qed.

Lemma fold_set_add_In l : forall acc x,
  In x (fold_left (fun acc x => set_add x acc) l acc) <-> In x acc \/ In x l.
Proof.
  induction l as [|y l IH]; intros acc x; simpl; [tauto|].
  rewrite IH. unfold set_add. destruct (set_has y acc) eqn:E.
  - apply set_has_In in E. split; [tauto|].
    intros [H|[<-|H]]; auto.
  - rewrite in_app_iff. simpl. tauto.
Qed.

Lemma unique_In l x : In x (unique l) <-> In x l.
Proof. unfold unique. rewrite fold_set_add_In. simpl. tauto. Qed.

Section Paths.

Variable normalize : string -> string.
Variable defaultSourcePath pluginCredentialsPath cwdCredentialsPath : string.
Variable writable readable removable : string -> bool.
Variable stringify : JValue -> string.
Variable parse : string -> JsError + JValue.
Variable readError : string -> JsError.

Local Abbreviation getWriteTargets :=
  (FileCredentials.getWriteTargets normalize defaultSourcePath pluginCredentialsPath).
Local Abbreviation getCandidatePaths :=
  (FileCredentials.getCandidatePaths normalize defaultSourcePath pluginCredentialsPath
                                     cwdCredentialsPath).
Local Abbreviation writeEach := (FileCredentials.writeEach writable).
Local Abbreviation persistToTargets :=
  (FileCredentials.persistToTargets normalize defaultSourcePath pluginCredentialsPath
                                    writable).
Local Abbreviation readCredentials :=
  (FileCredentials.readCredentials normalize defaultSourcePath pluginCredentialsPath
                                   cwdCredentialsPath readable parse readError).
Local Abbreviation readFirst := (FileCredentials.readFirst readable parse readError).
Local Abbreviation deleteCredentials :=
  (FileCredentials.deleteCredentials normalize defaultSourcePath pluginCredentialsPath
                                     removable).
Local Abbreviation unlinkEach := (FileCredentials.unlinkEach removable).
Local Abbreviation load :=
  (FileCredentials.load normalize defaultSourcePath pluginCredentialsPath
                        cwdCredentialsPath readable parse readError).
Local Abbreviation save :=
  (FileCredentials.save normalize defaultSourcePath pluginCredentialsPath
                        writable stringify).

Lemma writeEach_spec payload targets : forall fs,
  fst (writeEach payload targets fs) = filter writable targets
  /\ (forall p, In p targets -> writable p = true ->
                get p (snd (writeEach payload targets fs)) = Some payload)
  /\ (forall p, (In p targets -> writable p = false) ->
                get p (snd (writeEach payload targets fs)) = get p fs).
Proof using writable.
  induction targets as [|t targets IH]; intros fs; simpl.
  - split; [reflexivity|]. split; [intros p []|reflexivity].
  - destruct (writable t) eqn:W.
    + destruct (IH (set t payload fs)) as [H1 [H2 H3]].
      destruct (writeEach payload targets (set t payload fs)) as [ok fs'].
      simpl in *. split; [now rewrite H1|]. split.
      * intros p [->|Hp] Wp.
        -- destruct (in_dec string_dec p targets) as [I|I].
           ++ now apply H2.
           ++ rewrite H3; [apply get_set_same|intros I'; contradiction].
        -- now apply H2.
      * intros p Hp. rewrite H3; [|intros I'; apply Hp; now right].
        apply get_set_other. intros ->.
        rewrite Hp in W; [discriminate|now left].
    + destruct (IH fs) as [H1 [H2 H3]]. split; [exact H1|]. split.
      * intros p [->|Hp] Wp; [congruence|now apply H2].
      * intros p Hp. apply H3. intros I'. apply Hp. now right.
Qed.

(** What [persistToTargets] writes, and what it reports. *)
Lemma persistToTargets_spec (payload : string) (d : Disk) :
  let targets := getWriteTargets (cachedCredentialsPath d) in
  let '(res, d') := persistToTargets payload d in
  (filter writable targets = [] ->
   (exists e, res = inl e) /\ cachedCredentialsPath d' = cachedCredentialsPath d)
  /\ (forall first rest, filter writable targets = first :: rest ->
                         res = inr first /\ cachedCredentialsPath d' = Some first)
  /\ (forall p, In p targets -> writable p = true -> get p (files d') = Some payload)
  /\ (forall p, (In p targets -> writable p = false) -> get p (files d') = get p (files d)).
Proof using normalize defaultSourcePath pluginCredentialsPath writable.
  intros targets. unfold FileCredentials.persistToTargets. fold targets.
  destruct (writeEach_spec payload targets (files d)) as [H1 [H2 H3]].
  destruct (writeEach payload targets (files d)) as [ok fs'].
  simpl in H1, H2, H3. rewrite <- H1.
  destruct ok as [|first rest]; cbn.
  - split; [eauto|]. split; [discriminate|]. split; assumption.
  - split; [discriminate|]. split; [|split; assumption].
    intros f r E. now inversion E.
Qed.

(** X19.  Persisting writes every target that can be written and reports the
    first of them: [persistToTargets] throws exactly when no write target is
    writable; otherwise it returns the first writable target, in the order
    of the targets, remembers it as [cachedCredentialsPath], and leaves the
    payload in every writable target while every other file keeps its
    contents. *)
Theorem persist_first_writable (payload : string) (d : Disk) :
  let targets := getWriteTargets (cachedCredentialsPath d) in
  let '(res, d') := persistToTargets payload d in
  (filter writable targets = [] ->
   (exists e, res = inl e) /\ cachedCredentialsPath d' = cachedCredentialsPath d)
  /\ (forall first rest, filter writable targets = first :: rest ->
                         res = inr first /\ cachedCredentialsPath d' = Some first)
  /\ (forall p, In p targets -> writable p = true -> get p (files d') = Some payload)
  /\ (forall p, (In p targets -> writable p = false) -> get p (files d') = get p (files d)).
Proof using normalize defaultSourcePath pluginCredentialsPath writable.
  exact (persistToTargets_spec payload d).
Qed.

Lemma readFirst_skip locations : forall d,
  (forall p, In p locations -> get p (files d) = None) ->
  readFirst locations d
  = (inl (Error "Kick credentials not found. Run the auth helper to generate credentials.json."),
     d).
Proof.
  induction locations as [|c locations IH]; intros d H; simpl; [reflexivity|].
  rewrite (H c) by now left. apply IH. intros p Hp. apply H. now right.
Qed.

Lemma readFirst_app l1 l2 d :
  (forall p, In p l1 -> get p (files d) = None) ->
  readFirst (l1 ++ l2) d = readFirst l2 d.
Proof.
  induction l1 as [|c l1 IH]; intros H; simpl; [reflexivity|].
  rewrite (H c) by now left. apply IH. intros p Hp. apply H. now right.
Qed.

(** X20.  What [save] writes, [load] reads back.  When the default source
    path can be written and read, and the JSON text of the credentials
    object parses back to it, a [load] after a [save] returns the object
    with the four fields of the credentials, whatever else is on disk. *)
Theorem file_storage_round_trip (serverMetadata clientId clientSecret tokens : JValue)
        (d : Disk) :
  let credentials := credentialsObject serverMetadata clientId clientSecret tokens in
  writable (normalize defaultSourcePath) = true ->
  readable (normalize defaultSourcePath) = true ->
  parse (stringify (JObject credentials)) = inr (JObject credentials) ->
  let '(saved, d1) := save credentials d in
  saved = inr tt
  /\ cachedCredentialsPath d1 = Some (normalize defaultSourcePath)
  /\ fst (load d1) = inr (JObject credentials).
Proof using normalize defaultSourcePath pluginCredentialsPath cwdCredentialsPath writable readable stringify parse readError.
  intros credentials W R P.
  unfold FileCredentials.save, FileCredentials.writeCredentials.
  change (JObject [("serverMetadata", field "serverMetadata" credentials);
                   ("clientId", field "clientId" credentials);
                   ("clientSecret", field "clientSecret" credentials);
                   ("tokens", field "tokens" credentials)])
    with (JObject credentials).
  pose proof (persistToTargets_spec (stringify (JObject credentials)) d) as S.
  cbv zeta in S.
  destruct (persistToTargets (stringify (JObject credentials)) d) as [res d1] eqn:E.
  destruct S as [_ [S2 [S3 _]]].
  assert (T : exists rest, getWriteTargets (cachedCredentialsPath d)
                           = normalize defaultSourcePath :: rest).
  { unfold FileCredentials.getWriteTargets, pushCached.
    destruct (truthyOpt (cachedCredentialsPath d)); [destruct (cachedCredentialsPath d)|];
      cbn [map app]; apply unique_head. }
  destruct T as [rest T].
  assert (F : exists rest', filter writable (getWriteTargets (cachedCredentialsPath d))
                            = normalize defaultSourcePath :: rest').
  { rewrite T. simpl. rewrite W. eauto. }
  destruct F as [rest' F]. destruct (S2 _ _ F) as [-> C].
  split; [reflexivity|]. split; [exact C|].
  unfold FileCredentials.load, FileCredentials.readCredentials.
  assert (T' : exists rest, getCandidatePaths (cachedCredentialsPath d1)
                            = normalize defaultSourcePath :: rest).
  { unfold FileCredentials.getCandidatePaths, pushCached.
    destruct (truthyOpt (cachedCredentialsPath d1)); [destruct (cachedCredentialsPath d1)|];
      cbn [map app]; apply unique_head. }
  destruct T' as [rest'' ->]. simpl.
  rewrite (S3 (normalize defaultSourcePath)); [|rewrite T; now left|exact W].
  rewrite R. exact P.
Qed.

Lemma unlinkEach_spec targets : forall fs,
  (forall p, In p targets -> removable p = true) ->
  (forall p, In p targets -> get p (unlinkEach targets fs) = None)
  /\ (forall p, ~ In p targets -> get p (unlinkEach targets fs) = get p fs).
Proof using removable.
  induction targets as [|t targets IH]; intros fs Hr; simpl.
  - split; [intros p []|reflexivity].
  - assert (Hr' : forall p, In p targets -> removable p = true)
      by (intros p Hp; apply Hr; now right).
    destruct (get t fs) as [c|] eqn:G.
    + rewrite (Hr t) by now left.
      destruct (IH (delete t fs) Hr') as [H1 H2]. split.
      * intros p [->|Hp]; [|now apply H1].
        destruct (in_dec string_dec p targets) as [I|I]; [now apply H1|].
        rewrite H2 by exact I. apply get_delete_same.
      * intros p Hp. rewrite H2; [|intros I'; apply Hp; now right].
        apply get_delete_other. intros ->. apply Hp. now left.
    + destruct (IH fs Hr') as [H1 H2]. split.
      * intros p [->|Hp]; [|now apply H1].
        destruct (in_dec string_dec p targets) as [I|I]; [now apply H1|].
        now rewrite H2.
      * intros p Hp. apply H2. intros I'. apply Hp. now right.
Qed.

(** X21.  [deleteCredentials] removes the write targets only.  When every
    [unlink] succeeds, none of the write targets exists afterwards and the
    remembered path is forgotten; the [credentials.json] of the working
    directory is a place [readCredentials] looks at but not a write target:
    a following [readCredentials] returns what that file holds when it is
    still there, and throws the not-found error otherwise. *)
Theorem delete_leaves_working_directory_file (d : Disk) :
  (forall p, In p (getWriteTargets (cachedCredentialsPath d)) -> removable p = true) ->
  let d' := deleteCredentials d in
  cachedCredentialsPath d' = None
  /\ (forall p, In p (getWriteTargets (cachedCredentialsPath d)) ->
                get p (files d') = None)
  /\ (forall contents,
        get (normalize cwdCredentialsPath) (files d') = Some contents ->
        readable (normalize cwdCredentialsPath) = true ->
        fst (readCredentials d') = parse contents)
  /\ (get (normalize cwdCredentialsPath) (files d') = None ->
      readCredentials d'
      = (inl (Error "Kick credentials not found. Run the auth helper to generate credentials.json."),
         d')).
Proof using normalize defaultSourcePath pluginCredentialsPath cwdCredentialsPath readable removable parse readError.
  intros Hr d'.
  destruct (unlinkEach_spec (getWriteTargets (cachedCredentialsPath d)) (files d) Hr)
    as [H1 _].
  assert (H1' : forall p, In p (getWriteTargets (cachedCredentialsPath d)) ->
                          get p (files d') = None) by exact H1.
  assert (Hc : cachedCredentialsPath d' = None) by reflexivity.
  clearbody d'. clear H1.
  assert (Gone : forall p, In p [normalize defaultSourcePath; normalize pluginCredentialsPath] ->
                           get p (files d') = None).
  { intros p Hp. apply H1'. unfold FileCredentials.getWriteTargets.
    apply unique_In. apply in_map_iff.
    assert (Q : exists q, p = normalize q
                          /\ In q [defaultSourcePath; pluginCredentialsPath]).
    { destruct Hp as [<-|[<-|[]]]; eexists; (split; [reflexivity|]); simpl; auto. }
    destruct Q as [q [-> Hq]]. exists q. split; [reflexivity|].
    unfold pushCached.
    destruct (truthyOpt (cachedCredentialsPath d)); [destruct (cachedCredentialsPath d)|];
      try apply in_or_app; auto. }
  split; [exact Hc|]. split; [exact H1'|].
  assert (C : forall x, In x (getCandidatePaths (cachedCredentialsPath d')) ->
                        x = normalize defaultSourcePath \/ x = normalize pluginCredentialsPath
                        \/ x = normalize cwdCredentialsPath).
  { intros x Hx. rewrite Hc in Hx. unfold FileCredentials.getCandidatePaths in Hx.
    apply (proj1 (unique_In _ _)) in Hx. cbn in Hx.
    destruct Hx as [<-|[<-|[<-|[]]]]; auto. }
  assert (Cin : In (normalize cwdCredentialsPath) (getCandidatePaths (cachedCredentialsPath d'))).
  { rewrite Hc. unfold FileCredentials.getCandidatePaths. apply unique_In. cbn. auto. }
  split.
  - intros contents G R.
    unfold FileCredentials.readCredentials.
    revert C Cin. generalize (getCandidatePaths (cachedCredentialsPath d')).
    induction l as [|c l IH]; intros Hl Hin; [contradiction|].
    cbn [FileCredentials.readFirst].
    destruct (string_dec c (normalize cwdCredentialsPath)) as [->|Hne].
    + rewrite G, R. reflexivity.
    + rewrite Gone.
      * apply IH; [intros x Hx; apply Hl; now right|].
        destruct Hin as [E|Hin]; [contradiction|exact Hin].
      * destruct (Hl c (or_introl eq_refl)) as [-> | [-> | ->]];
          [now left|right; now left|congruence].
  - intros G. unfold FileCredentials.readCredentials. apply readFirst_skip.
    intros p Hp. destruct (C p Hp) as [-> | [-> | ->]];
      [apply Gone; now left|apply Gone; right; now left|exact G].
Qed.

End Paths.

End FileFacts.

(** ** src/auth/streamDeckStorage.ts *)

Module MutexFacts.

Import TokenManager (update_nth).
Import TokenFacts.
Import Mutex.

Lemma fulfilled_app s s' p :
  (exists l, promises s' = (promises s ++ l)%list) ->
  fulfilled s p = true -> fulfilled s' p = true.
Proof.
  intros [l E] H. unfold fulfilled in *. rewrite E.
  destruct (nth_error (promises s) p) as [x|] eqn:N; [|discriminate].
  rewrite nth_error_app1 by (apply nth_error_Some; congruence). now rewrite N.
Qed.

Lemma mutex_Inv_initial : Inv initial.
Proof.
  constructor; simpl; try reflexivity. intros k H. lia.
Qed.

Lemma nth_error_app3 {A} (l : list A) x y z i :
  nth_error (l ++ [x; y; z]) i
  = if (i <? List.length l)%nat then nth_error l i
    else if (i =? List.length l)%nat then Some x
    else if (i =? S (List.length l))%nat then Some y
    else if (i =? S (S (List.length l)))%nat then Some z
    else None.
Proof.
  destruct (i <? List.length l)%nat eqn:E.
  - apply Nat.ltb_lt in E. now apply nth_error_app1.
  - apply Nat.ltb_ge in E. rewrite nth_error_app2 by exact E.
    destruct (i =? List.length l)%nat eqn:E0.
    { apply Nat.eqb_eq in E0. subst. now rewrite Nat.sub_diag. }
    destruct (i =? S (List.length l))%nat eqn:E1.
    { apply Nat.eqb_eq in E1. subst.
      replace (S (List.length l) - List.length l)%nat with 1%nat by lia. reflexivity. }
    destruct (i =? S (S (List.length l)))%nat eqn:E2.
    { apply Nat.eqb_eq in E2. subst.
      replace (S (S (List.length l)) - List.length l)%nat with 2%nat by lia. reflexivity. }
    apply Nat.eqb_neq in E0, E1, E2.
    destruct (i - List.length l)%nat as [|[|[|m]]] eqn:K; try lia.
    simpl. now destruct m.
Qed.

Lemma fulfilled_update s s' p y q :
  promises s' = update_nth p y (promises s) -> settledKind y = true ->
  fulfilled s q = true -> fulfilled s' q = true.
Proof.
  intros E Y H. unfold fulfilled in *. rewrite E.
  destruct (Nat.eq_dec p q) as [->|N].
  - rewrite nth_error_update_eq.
    + destruct y; auto.
    + apply nth_error_Some. intros K. now rewrite K in H.
  - now rewrite nth_error_update_neq.
Qed.

Lemma nth_error_update {A} p (x : A) l i :
  (p < List.length l)%nat ->
  nth_error (update_nth p x l) i = if (i =? p)%nat then Some x else nth_error l i.
Proof.
  intros H. destruct (i =? p)%nat eqn:E.
  - apply Nat.eqb_eq in E. subst. now apply nth_error_update_eq.
  - apply Nat.eqb_neq in E. apply nth_error_update_neq. congruence.
Qed.

Ltac eqb_lia :=
  repeat match goal with
         | |- context [(?a =? ?b)%nat] =>
             first [ replace (a =? b)%nat with true by (symmetry; apply Nat.eqb_eq; lia)
                   | replace (a =? b)%nat with false by (symmetry; apply Nat.eqb_neq; lia) ]
         | |- context [(?a <? ?b)%nat] =>
             first [ replace (a <? b)%nat with true by (symmetry; apply Nat.ltb_lt; lia)
                   | replace (a <? b)%nat with false by (symmetry; apply Nat.ltb_ge; lia) ]
         end.

Ltac seven := refine (conj _ (conj _ (conj _ (conj _ (conj _ (conj _ _)))))).

Lemma mutex_Inv_step s e s' : Inv s -> step s e = Some s' -> Inv s'.
Proof.
  intros I H. destruct I as [Sz Rt Mx Cl].
  destruct e as [|p|k0|k0]; cbn [step] in H.
  - (* Lock *)
    inversion H; subst s'; clear H.
    set (s1 := {| promises := _; mutex := _; dispatches := _ |}).
    assert (Mono : forall q, fulfilled s q = true -> fulfilled s1 q = true).
    { intros q. apply fulfilled_app. eexists. reflexivity. }
    subst s1.
    constructor; cbn [promises mutex dispatches].
    + rewrite !length_app. cbn [List.length]. lia.
    + rewrite nth_error_app1 by lia. exact Rt.
    + rewrite length_app. cbn [List.length]. lia.
    + intros k Hk. rewrite length_app in Hk. cbn [List.length] in Hk.
      destruct (Nat.lt_ge_cases k (List.length (dispatches s))) as [L|L].
      * destruct (Cl k L) as [b [c [e [ph [P1 [P2 [P3 [D [Fe [Fc Fp]]]]]]]]]].
        exists b, c, e, ph.
        rewrite !nth_error_app1 by lia.
        seven; auto.
        -- intros He. split; [now apply Fe|apply Mono; now apply Fe].
      * assert (k = List.length (dispatches s)) by lia. subst k.
        exists false, false, false, Waiting.
        rewrite !nth_error_app3, TokenFacts.nth_error_snoc. eqb_lia.
        replace (List.length (promises s))
          with (3 * List.length (dispatches s) + 1)%nat by lia.
        replace (S (3 * List.length (dispatches s) + 1))
          with (3 * List.length (dispatches s) + 2)%nat by lia.
        rewrite Mx.
        seven; try discriminate; reflexivity.
  - (* Settle *)
    destruct (nth_error (promises s) p) as [[| |src cb [|]]|] eqn:Np; try discriminate.
    destruct (fulfilled s src && _) eqn:Cond; [|discriminate].
    apply andb_true_iff in Cond. destruct Cond as [Fs Fq].
    inversion H; subst s'; clear H.
    assert (Lp : (p < List.length (promises s))%nat)
      by (apply nth_error_Some; congruence).
    set (s1 := {| promises := update_nth p (Then src cb true) (promises s);
                  mutex := mutex s; dispatches := dispatches s |}).
    assert (Mono : forall q, fulfilled s q = true -> fulfilled s1 q = true).
    { intros q. apply (fulfilled_update s s1 p (Then src cb true)); reflexivity. }
    constructor; cbn [promises mutex dispatches s1].
    + rewrite update_nth_length. exact Sz.
    + rewrite nth_error_update by exact Lp.
      destruct (0 =? p)%nat eqn:E; [|exact Rt].
      apply Nat.eqb_eq in E. subst p. congruence.
    + exact Mx.
    + intros k Hk.
      destruct (Cl k Hk) as [b [c [e [ph [P1 [P2 [P3 [D [Fe [Fc Fp]]]]]]]]]].
      rewrite !nth_error_update by exact Lp.
      destruct (Nat.eq_dec p (3 * k + 1)) as [E1|E1]; [subst p; congruence|].
      destruct (Nat.eq_dec p (3 * k + 2)) as [E2|E2].
      * subst p.
        assert (J1 : src = (3 * k)%nat) by congruence.
        assert (J2 : cb = ReturnRelease (3 * k + 1)) by congruence.
        assert (J3 : c = false) by congruence.
        subst src cb c.
        exists b, true, e, ph. eqb_lia.
        seven; auto.
        -- intros He. split; [now apply Fe|apply Mono; now apply Fe].
        -- destruct ph as [|u|]; [exact Fp| |].
           ++ destruct Fp as [_ [Hc _]]. discriminate.
           ++ destruct Fp as [_ Hc]. discriminate.
      * destruct (Nat.eq_dec p (3 * k + 3)) as [E3|E3].
        -- subst p.
           assert (J1 : src = (3 * k)%nat) by congruence.
           assert (J2 : cb = ReturnPromise (3 * k + 1)) by congruence.
           assert (J3 : e = false) by congruence.
           subst src cb e.
           exists b, c, true, ph. eqb_lia.
           assert (Hb : b = true).
           { assert (F1 : fulfilled s (3 * k + 1) = true) by exact Fq.
             unfold fulfilled in F1. now rewrite P1 in F1. }
           seven; auto.
        -- exists b, c, e, ph. eqb_lia.
           seven; auto.
           intros He. split; [now apply Fe|apply Mono; now apply Fe].
  - (* Enter *)
    destruct (nth_error (dispatches s) k0) as [[a [|u|]]|] eqn:Dk; try discriminate.
    assert (Lk : (k0 < List.length (dispatches s))%nat)
      by (apply nth_error_Some; congruence).
    destruct (Cl k0 Lk) as [b0 [c0 [e0 [ph0 [Q1 [Q2 [Q3 [D0 [Fe0 [Fc0 Fp0]]]]]]]]]].
    assert (J1 : a = (3 * k0 + 2)%nat) by congruence.
    assert (J2 : ph0 = Waiting) by congruence.
    subst a ph0. clear D0. rewrite Q2 in H.
    destruct c0; [|discriminate]. inversion H; subst s'; clear H.
    constructor; cbn [promises mutex dispatches]; unfold setPhase;
      rewrite ?update_nth_length; auto.
    intros k Hk.
    destruct (Cl k Hk) as [b [c [e [ph [P1 [P2 [P3 [D [Fe [Fc Fp]]]]]]]]]].
    cbn [dispatches].
    rewrite nth_error_update by exact Lk.
    destruct (k =? k0)%nat eqn:E.
    + apply Nat.eqb_eq in E. subst k.
      assert (J1 : b = b0) by congruence.
      assert (J2 : c = true) by congruence.
      assert (J3 : e = e0) by congruence.
      subst b c e.
      exists b0, true, e0, (Inside (3 * k0 + 1)).
      seven; auto.
    + exists b, c, e, ph. seven; auto.
  - (* Unlock *)
    destruct (nth_error (dispatches s) k0) as [[a [|u|]]|] eqn:Dk; try discriminate.
    assert (Lk : (k0 < List.length (dispatches s))%nat)
      by (apply nth_error_Some; congruence).
    destruct (Cl k0 Lk) as [b0 [c0 [e0 [ph0 [Q1 [Q2 [Q3 [D0 [Fe0 [Fc0 Fp0]]]]]]]]]].
    assert (J1 : a = (3 * k0 + 2)%nat) by congruence.
    assert (J2 : ph0 = Inside u) by congruence.
    subst a ph0. clear D0.
    destruct Fp0 as [Hu [Hc0 Hb0]]. subst u c0 b0. rewrite Q1 in H.
    inversion H; subst s'; clear H.
    assert (Ln : (3 * k0 + 1 < List.length (promises s))%nat)
      by (apply nth_error_Some; congruence).
    set (s1 := {| promises := update_nth (3 * k0 + 1) (Created true) (promises s);
                  mutex := mutex s;
                  dispatches := setPhase k0 (3 * k0 + 2) Done s |}).
    assert (Mono : forall q, fulfilled s q = true -> fulfilled s1 q = true).
    { intros q. apply (fulfilled_update s s1 (3 * k0 + 1) (Created true)); reflexivity. }
    constructor; cbn [promises mutex dispatches s1]; unfold setPhase;
      rewrite ?update_nth_length; auto.
    + rewrite nth_error_update by exact Ln. eqb_lia. exact Rt.
    + intros k Hk.
      destruct (Cl k Hk) as [b [c [e [ph [P1 [P2 [P3 [D [Fe [Fc Fp]]]]]]]]]].
      rewrite !nth_error_update by assumption.
      destruct (k =? k0)%nat eqn:E.
      * apply Nat.eqb_eq in E. subst k.
        assert (J1 : b = false) by congruence.
        assert (J2 : c = true) by congruence.
        assert (J3 : e = e0) by congruence.
        subst b c e.
        exists true, true, e0, Done. eqb_lia.
        seven; auto;
          try (intros He; split; [reflexivity|apply Mono; now apply Fe0]).
      * apply Nat.eqb_neq in E.
        exists b, c, e, ph. eqb_lia.
        seven; auto;
          try (intros He; split; [now apply Fe|apply Mono; now apply Fe]).
Qed.

Lemma mutex_Inv_exec es : forall s s', Inv s -> exec s es = Some s' -> Inv s'.
Proof.
  induction es as [|e es IH]; cbn [exec]; intros s s' I H.
  - injection H as <-. exact I.
  - destruct (step s e) as [s1|] eqn:S1; [|discriminate].
    eapply IH; [eapply mutex_Inv_step; eassumption|exact H].
Qed.

(** When a call is past its [await] (it is inside [fn] or has left), the
    [this.mutex] its [lock] found had settled. *)
Lemma entered_chain s k ph :
  Inv s -> phaseOf s k = Some ph -> ph <> Waiting -> fulfilled s (3 * k) = true.
Proof.
  intros I H N. unfold phaseOf in H.
  destruct (nth_error (dispatches s) k) as [d|] eqn:D; [|discriminate].
  assert (Lk : (k < List.length (dispatches s))%nat)
    by (apply nth_error_Some; congruence).
  destruct (inv_call s I k Lk) as [b [c [e [ph0 [P1 [P2 [P3 [D0 [Fe [Fc Fp]]]]]]]]]].
  rewrite D in D0. injection D0 as ->. cbn in H. injection H as ->.
  apply Fc. destruct ph as [|u|]; [congruence| |]; tauto.
Qed.

(** The [this.mutex] a call of [lock] found has settled only when every
    earlier caller has left. *)
Lemma chain_left s : Inv s -> forall k, (k <= List.length (dispatches s))%nat ->
  fulfilled s (3 * k) = true ->
  forall j, (j < k)%nat -> left s j.
Proof.
  intros I. induction k as [|k IH]; intros Hk F j Hj; [lia|].
  destruct (inv_call s I k ltac:(lia)) as [b [c [e [ph [P1 [P2 [P3 [D [Fe [Fc Fp]]]]]]]]]].
  assert (He : e = true).
  { unfold fulfilled in F. replace (3 * S k)%nat with (3 * k + 3)%nat in F by lia.
    now rewrite P3 in F. }
  destruct (Fe He) as [Hb Fk].
  destruct (Nat.eq_dec j k) as [->|Hne].
  - unfold left, phaseOf. rewrite D. cbn.
    destruct ph as [|u|]; [congruence| |reflexivity].
    destruct Fp as [_ [_ Hb']]. congruence.
  - apply IH; [lia|exact Fk|lia].
Qed.

Lemma mutex_exec_app es1 : forall es2 s,
  exec s (es1 ++ es2)
  = match exec s es1 with
    | Some s' => exec s' es2
    | None => None
    end.
Proof.
  induction es1 as [|e es1 IH]; intros es2 s; cbn [exec app]; [reflexivity|].
  destruct (step s e); [apply IH|reflexivity].
Qed.

Lemma settle_step s p src cb :
  nth_error (promises s) p = Some (Then src cb false) ->
  fulfilled s src = true ->
  match cb with
  | ReturnRelease _ => true
  | ReturnPromise q => fulfilled s q
  end = true ->
  step s (Settle p)
  = Some {| promises := update_nth p (Then src cb true) (promises s);
            mutex := mutex s; dispatches := dispatches s |}.
Proof. intros N F Q. cbn [step]. now rewrite N, F, Q. Qed.

(** Once the earlier callers have left, the promises of the chain can
    settle, one after the other, up to the [this.mutex] the [k]-th call of
    [lock] found. *)
Lemma settle_chain s : Inv s -> forall k, (k <= List.length (dispatches s))%nat ->
  (forall j, (j < k)%nat -> left s j) ->
  exists es s',
    Forall (fun e => isSettle e = true) es
    /\ exec s es = Some s' /\ dispatches s' = dispatches s
    /\ fulfilled s' (3 * k) = true.
Proof.
  intros I. induction k as [|k IH]; intros Hk L.
  - exists [], s. split; [constructor|]. split; [reflexivity|]. split; [reflexivity|].
    unfold fulfilled. change (3 * 0)%nat with 0%nat. now rewrite (inv_root s I).
  - destruct (IH ltac:(lia) ltac:(intros j Hj; apply L; lia)) as [es [s1 [Fs [E [D F]]]]].
    pose proof (mutex_Inv_exec es s s1 I E) as I1.
    destruct (inv_call s1 I1 k ltac:(rewrite D; lia))
      as [b [c [e [ph [P1 [P2 [P3 [Dk [Fe [Fc Fp]]]]]]]]]].
    assert (Hb : b = true).
    { pose proof (L k ltac:(lia)) as Lk. unfold left, phaseOf in Lk.
      rewrite <- D, Dk in Lk. cbn in Lk. injection Lk as ->. tauto. }
    replace (3 * S k)%nat with (3 * k + 3)%nat by lia.
    destruct e.
    + exists es, s1. split; [exact Fs|]. split; [exact E|]. split; [exact D|].
      unfold fulfilled. now rewrite P3.
    + exists (es ++ [Settle (3 * k + 3)])%list. eexists.
      split; [apply Forall_app; split; [exact Fs|repeat constructor]|].
      rewrite mutex_exec_app, E. cbn [exec].
      rewrite (settle_step s1 _ _ _ P3 F)
        by (unfold fulfilled; rewrite P1; exact Hb).
      split; [reflexivity|]. split; [exact D|].
      unfold fulfilled. cbn [promises].
      rewrite nth_error_update_eq; [reflexivity|].
      apply nth_error_Some. congruence.
Qed.

(** X22.  The mutex lets one caller at a time into [fn], in the order of the
    calls.  In every state a sequence of calls of [dispatch], of settlings
    of promises and of resumptions leads to: at most one caller is inside
    [fn]; every caller that came before one that is inside, or that has
    left, has left; and a waiting caller whose predecessors have all left
    is let in once the promises of the chain have settled. *)
Theorem mutex_one_at_a_time (es : list Event) (s : State) :
  exec initial es = Some s ->
  (forall i j, holding s i -> holding s j -> i = j)
  /\ (forall i j, holding s i \/ left s i -> (j < i)%nat -> left s j)
  /\ (forall k, waiting s k -> (forall j, (j < k)%nat -> left s j) ->
      exists settles s',
        Forall (fun e => isSettle e = true) settles
        /\ exec s (settles ++ [Enter k]) = Some s'
        /\ holding s' k).
Proof.
  intros H. pose proof (mutex_Inv_exec es initial s mutex_Inv_initial H) as I.
  assert (Order : forall i j, holding s i \/ left s i -> (j < i)%nat -> left s j).
  { intros i j Hi Hj.
    assert (P : exists ph, phaseOf s i = Some ph /\ ph <> Waiting).
    { destruct Hi as [[n Hn]|Hl]; eexists; (split; [eassumption|discriminate]). }
    destruct P as [ph [Hp Hw]].
    apply (chain_left s I i); [|now apply (entered_chain s i ph)|exact Hj].
    unfold phaseOf in Hp.
    destruct (nth_error (dispatches s) i) eqn:D; [|discriminate].
    apply Nat.lt_le_incl. apply nth_error_Some. congruence. }
  split; [|split; [exact Order|]].
  - intros i j Hi Hj.
    destruct (Nat.lt_trichotomy i j) as [L|[E|L]]; [|exact E|].
    + pose proof (Order j i (or_introl Hj) L) as Li.
      destruct Hi as [n Hn]. unfold left in Li. congruence.
    + pose proof (Order i j (or_introl Hi) L) as Lj.
      destruct Hj as [n Hn]. unfold left in Lj. congruence.
  - intros k Hw Hl.
    assert (Lk : (k < List.length (dispatches s))%nat).
    { unfold waiting, phaseOf in Hw.
      destruct (nth_error (dispatches s) k) eqn:D; [|discriminate].
      apply nth_error_Some. congruence. }
    destruct (settle_chain s I k ltac:(lia) Hl) as [es1 [s1 [Fs [E [D F]]]]].
    pose proof (mutex_Inv_exec es1 s s1 I E) as I1.
    destruct (inv_call s1 I1 k ltac:(rewrite D; exact Lk))
      as [b [c [e [ph [P1 [P2 [P3 [Dk [Fe [Fc Fp]]]]]]]]]].
    assert (Hph : ph = Waiting).
    { unfold waiting, phaseOf in Hw. rewrite <- D, Dk in Hw. cbn in Hw. congruence. }
    subst ph.
    assert (Enter1 : forall s2,
               promises s2 = update_nth (3 * k + 2)
                               (Then (3 * k) (ReturnRelease (3 * k + 1)) true) (promises s1) ->
               dispatches s2 = dispatches s1 ->
               exists s', step s2 (Enter k) = Some s' /\ holding s' k).
    { intros s2 Hp Hd. cbn [step]. rewrite Hd, Dk, Hp.
      rewrite nth_error_update_eq by (apply nth_error_Some; congruence).
      eexists. split; [reflexivity|].
      exists (3 * k + 1)%nat. unfold phaseOf, setPhase. cbn [dispatches].
      rewrite Hd, nth_error_update_eq by (rewrite D; exact Lk). reflexivity. }
    destruct c.
    + destruct (Enter1 s1) as [s' [E1 H1]].
      * symmetry. clear - P2. revert P2. generalize (3 * k + 2)%nat.
        generalize (Then (3 * k) (ReturnRelease (3 * k + 1)) true).
        generalize (promises s1). induction l as [|x l IH]; intros y n;
          destruct n; cbn; try discriminate.
        -- intros H. now injection H as ->.
        -- intros H. f_equal. now apply IH.
      * reflexivity.
      * exists es1, s'. split; [exact Fs|].
        rewrite mutex_exec_app, E. cbn [exec]. rewrite E1. auto.
    + destruct (Enter1 {| promises := update_nth (3 * k + 2)
                              (Then (3 * k) (ReturnRelease (3 * k + 1)) true) (promises s1);
                          mutex := mutex s1; dispatches := dispatches s1 |})
        as [s' [E1 H1]]; [reflexivity|reflexivity|].
      exists (es1 ++ [Settle (3 * k + 2)])%list, s'.
      split; [apply Forall_app; split; [exact Fs|repeat constructor]|].
      rewrite <- app_assoc, mutex_exec_app, E. cbn [exec app].
      rewrite (settle_step s1 _ _ _ P2 F) by reflexivity.
      rewrite E1. auto.
Qed.

End MutexFacts.

Module StreamDeckFacts.

Import JsData Json StreamDeckStorage ApiFacts.
Import TokenManager (JsError, KickCredentialsMissingError, Error).

Lemma field_set_same k v (m : list (string * JValue)) : field k (set k v m) = v.
Proof. unfold field. now rewrite get_set_same. Qed.

Lemma valid_truthy v : isValidCredentials v = true -> truthyJ v = true.
Proof. destruct v; simpl; auto; discriminate. Qed.

(** X23.  What [save] stores, [load] returns: for credentials that pass
    [isValidCredentials], a [load] after a [save] returns them, without
    reading the credentials file, whatever that file holds; the save
    touches no other key of the global settings. *)
Theorem settings_storage_round_trip (credentials : JValue) (settings : Settings)
        (file : JsError + JValue) (k : string) :
  isValidCredentials credentials = true ->
  let settings1 := fst (save credentials settings) in
  let '(res, settings2, calls) := load file settings1 in
  res = inr credentials /\ settings2 = settings1 /\ readsFile calls = false
  /\ (k <> "credentials" -> get k settings1 = get k settings).
Proof.
  intros V settings1. subst settings1. unfold load, save, save_. cbn [fst].
  rewrite field_set_same, V, (valid_truthy _ V). cbn.
  split; [reflexivity|]. split; [reflexivity|]. split; [reflexivity|].
  intros Hne. now apply get_set_other.
Qed.

(** X24.  [load] returns only credentials that pass [isValidCredentials];
    credentials found in the file are moved into the global settings, so
    that the next [load] returns the same credentials without reading the
    file; and after [delete], [load] goes back to the file. *)
Theorem settings_load_validates_and_migrates (file again : JsError + JValue)
        (settings : Settings) :
  let '(res, settings1, calls) := load file settings in
  (forall v, res = inr v ->
             isValidCredentials v = true
             /\ load again settings1 = (inr v, settings1, [GetGlobalSettings]))
  /\ (forall v, file = inr v -> isValidCredentials v = true ->
                fst (fst (load file (fst (delete_ settings1)))) = inr v)
  /\ (forall e, file = inl e ->
                exists m, fst (fst (load file (fst (delete_ settings1)))) = inl (Error m)).
Proof.
  assert (D : forall s, field "credentials" (delete "credentials" s) = JUndefined).
  { intros s. unfold field. now rewrite get_delete_same. }
  unfold load at 1.
  destruct (truthyJ (field "credentials" settings)
            && isValidCredentials (field "credentials" settings)) eqn:C.
  - apply andb_true_iff in C. destruct C as [C1 C2].
    split; [|split].
    + intros v H. inversion H; subst v. split; [exact C2|].
      unfold load. now rewrite C1, C2.
    + intros v -> V. unfold load, delete_. cbn [fst]. rewrite D. cbn.
      rewrite V. reflexivity.
    + intros e ->. unfold load, delete_. cbn [fst]. rewrite D. cbn. eauto.
  - destruct file as [e|fileCreds].
    + cbn. split; [discriminate|]. split; [discriminate|].
      intros e0 H. inversion H; subst e0.
      unfold load, delete_. cbn [fst]. rewrite D. cbn. eauto.
    + destruct (isValidCredentials fileCreds) eqn:V; cbn.
      * split; [|split; [|discriminate]].
        -- intros v H. inversion H; subst v. split; [exact V|].
           unfold load. rewrite field_set_same, V, (valid_truthy _ V). reflexivity.
        -- intros v H _. inversion H; subst v.
           unfold load, delete_. cbn [fst]. rewrite D. cbn. now rewrite V.
      * split; [discriminate|]. split; [|discriminate].
        intros v H V'. inversion H; subst v. congruence.
Qed.

End StreamDeckFacts.

(** ** src/actions/live-status-action.ts: a poll during an alert, the
    aggregate of several channels *)

Section MonitorMoreFacts.

Import ImageUtils Monitor.

Variable toBase64 : string -> string.
Variable renderTextOverlay : option TextOverlay -> string.
Variable fetch : nat -> string -> ChannelFetch.
Variable now : Z.

Local Abbreviation checkAll := (Monitor.checkAll toBase64 renderTextOverlay fetch now).
Local Abbreviation refresh := (Monitor.refresh toBase64 renderTextOverlay fetch now).
Local Abbreviation settle := (Monitor.settle toBase64 renderTextOverlay now).
Local Abbreviation aggregate := (Monitor.aggregate toBase64 renderTextOverlay now).

Lemma settle_while_alerting old result st cache :
  alertTimer st = true ->
  snd (settle old result st cache) = []
  \/ snd (settle old result st cache) = [ClearInterval Alert; SetInterval Alert 1000].
Proof.
  intros T. unfold Monitor.settle.
  destruct (detectTransitions _ _ _ _ _) as [|x ids].
  - cbn [setLast alertTimer]. rewrite T. now left.
  - cbn [startAlert setLast alertTimer]. rewrite T. now right.
Qed.

(** X25.  While the alert of a button runs, a poll leaves the display to the
    alert: a refresh with the alert timer armed sets no title and no image;
    all it may do is restart the alert for a new transition.  The one
    exception is the refresh of several channels that are all not found,
    which shows the red image and "Not Found". *)
Theorem poll_during_alert_does_not_render (state : ActionState) (cache : ImageCache) :
  alertTimer state = true ->
  let fx := snd (refresh state cache) in
  fx = [] \/ fx = [ClearInterval Alert; SetInterval Alert 1000]
  \/ (fx = [SetImage RED; SetTitle "Not Found"]
      /\ (2 <= List.length (channels state))%nat
      /\ Forall (fun r => status r = not_found) (fst (checkAll 0 (channels state) cache))).
Proof.
  intros T fx. subst fx. unfold Monitor.refresh.
  destruct (channels state) as [|c1 [|c2 chs]] eqn:E.
  - now left.
  - destruct (Monitor.checkStreamerStatus _ _ _ _ 0 c1 cache) as [r c'].
    destruct (settle_while_alerting (multiResults state) r (setMultiResults [r] state) c' T)
      as [H|H]; rewrite H; auto.
  - destruct (checkAll 0 (c1 :: c2 :: chs) cache) as [all c'] eqn:A. cbn [fst].
    destruct (filter _ all) as [|v vs] eqn:F.
    + destruct all as [|a all'].
      * cbv beta iota. destruct (aggregate [] c') as [r c''].
        destruct (settle_while_alerting (multiResults state) r (setMultiResults [] state)
                    c'' T) as [H|H]; rewrite H; auto.
      * right. right. split; [reflexivity|]. split; [simpl; lia|].
        apply Forall_forall. intros x Hx.
        destruct (status_eqb (status x) not_found) eqn:S.
        -- destruct (status x); try discriminate; reflexivity.
        -- exfalso. assert (I : In x (filter (fun r => negb (status_eqb (status r) not_found))
                                            (a :: all'))).
           { apply filter_In. split; [exact Hx|]. now rewrite S. }
           rewrite F in I. contradiction.
    + destruct (aggregate (v :: vs) c') as [r c''].
      destruct (settle_while_alerting (multiResults state) r
                  (setMultiResults (v :: vs) state) c'' T) as [H|H]; rewrite H; auto.
Qed.

(** X26.  A refresh of several channels keeps the results that are not
    not-found, in the order of the channels, as the result snapshot, and
    stores their aggregate: the status is live exactly when one of them is
    live, the viewer count is the sum of theirs, and the channel list is
    unchanged. *)
Theorem multi_refresh_aggregates (state : ActionState) (cache : ImageCache) :
  (2 <= List.length (channels state))%nat ->
  let valid :=
    filter (fun r => negb (status_eqb (status r) not_found))
           (fst (checkAll 0 (channels state) cache)) in
  valid <> [] ->
  let state' := fst (fst (refresh state cache)) in
  multiResults state' = Some valid
  /\ channels state' = channels state
  /\ lastStatus state' = known (if existsb isLive valid then live else offline)
  /\ (exists r, lastResult state' = Some r
                /\ isLive r = existsb isLive valid
                /\ viewerCount r = Some (sumViewers valid)).
Proof.
  intros Hn valid Hv state'. subst state' valid.
  unfold Monitor.refresh.
  destruct (channels state) as [|c1 [|c2 chs]] eqn:E; simpl in Hn; try lia.
  destruct (checkAll 0 (c1 :: c2 :: chs) cache) as [all c'] eqn:A. cbn [fst] in *.
  destruct (filter _ all) as [|v vs] eqn:F; [congruence|].
  destruct (aggregate (v :: vs) c') as [r c''] eqn:G.
  assert (R : isLive r = existsb isLive (v :: vs)
              /\ status r = (if existsb isLive (v :: vs) then live else offline)
              /\ viewerCount r = Some (sumViewers (v :: vs))).
  { unfold Monitor.aggregate in G.
    destruct (generateCollageSvg _ _ _ _ _ _) as [svg cc].
    inversion G. subst. cbn. auto. }
  destruct R as [R1 [R2 R3]].
  destruct (settle_frame toBase64 renderTextOverlay now (multiResults state) r
              (setMultiResults (v :: vs) state) c'') as [H1 [H2 H3]].
  split; [rewrite H2; reflexivity|].
  split; [rewrite H1; exact E|].
  split; [rewrite H3, R2; reflexivity|].
  exists r. split.
  - unfold Monitor.settle.
    destruct (detectTransitions _ _ _ _ _) as [|x ids]; cbn [startAlert setLast alertTimer].
    + destruct (alertTimer _); [reflexivity|].
      destruct (Monitor.render _ _ _ r false _ c''); reflexivity.
    + reflexivity.
  - split; [exact R1|exact R3].
Qed.

End MonitorMoreFacts.

(** ** src/actions/live-status-action.ts: the handlers *)

Module HandlerFacts.

Import JsData ImageUtils Monitor Handlers ApiFacts.

Section Runtime.

Variable toBase64 : string -> string.
Variable renderTextOverlay : option TextOverlay -> string.
Variable fetch : nat -> string -> ChannelFetch.
Variable now : Z.

Local Abbreviation handle := (Handlers.handle toBase64 renderTextOverlay fetch now).

Lemma getState_other context b states :
  b <> context -> get b (snd (getState context states)) = get b states.
Proof.
  intros Hne. unfold getState. destruct (get context states); [reflexivity|].
  simpl. now apply get_set_other.
Qed.

Lemma getState_same context states :
  get context (snd (getState context states)) = Some (fst (getState context states)).
Proof.
  unfold getState. destruct (get context states) eqn:G; simpl; [exact G|].
  apply get_set_same.
Qed.

Lemma onState_other context f b states cache :
  b <> context ->
  get b (fst (fst (onState context f states cache))) = get b states.
Proof.
  intros Hne. unfold onState.
  pose proof (getState_other context b states Hne) as G.
  destruct (getState context states) as [st states1].
  destruct (f st cache) as [[st' cache'] fx]. simpl in *.
  rewrite get_set_other by exact Hne. exact G.
Qed.

Lemma opened_flat_map rs :
  opened (flat_map (fun channel => [Sleep 500; OpenUrl (streamUrl channel)]) rs)
  = map streamUrl rs.
Proof. induction rs as [|r rs IH]; simpl; [reflexivity|]. now rewrite IH. Qed.

(** X27.  A key press opens the streams that are live, and only those: the
    urls opened are [https://kick.com/<display name>] for the results the
    button watches that are live and have a display name, one url for each,
    in their order; nothing is opened for a channel that is not live, and
    the press changes neither a state that exists nor the image cache. *)
Theorem key_up_opens_live_streams_only (context : string) (states : States)
        (cache : ImageCache) :
  let state := fst (getState context states) in
  let '(states', cache', calls) := handle (KeyUp context) states cache in
  opened calls = map streamUrl (filter liveAndNamed (watched state))
  /\ (forall url, In url (opened calls) ->
        exists r name, In r (watched state) /\ isLive r = true
                       /\ displayName r = Some name /\ name <> ""
                       /\ url = "https://kick.com/" ++ name)
  /\ cache' = cache
  /\ get context states' = Some state
  /\ (forall b, b <> context -> get b states' = get b states).
Proof.
  intros state. subst state. cbn [Handlers.handle]. unfold onKeyUp.
  pose proof (getState_same context states) as Gs.
  pose proof (fun b => getState_other context b states) as Go.
  destruct (getState context states) as [state states1]. cbn [fst snd] in *.
  match goal with
  | |- opened ?c = _ /\ _ => set (calls := c)
  end.
  assert (O : opened calls = map streamUrl (filter liveAndNamed (watched state))).
  { subst calls. unfold watched.
    destruct (channels state) as [|c1 [|c2 chs]]; [reflexivity| |].
    - destruct (lastResult state) as [r|]; [|reflexivity].
      simpl. destruct (liveAndNamed r); reflexivity.
    - destruct (multiResults state) as [rs|]; [|reflexivity].
      apply opened_flat_map. }
  split; [exact O|]. split; [|split; [reflexivity|split; [exact Gs|]]].
  - intros url Hu. rewrite O in Hu. apply in_map_iff in Hu.
    destruct Hu as [r [Hr Hin]]. apply filter_In in Hin. destruct Hin as [Hin L].
    unfold liveAndNamed in L. apply andb_true_iff in L. destruct L as [L1 L2].
    destruct (displayName r) as [name|] eqn:D; [|discriminate].
    exists r, name. split; [exact Hin|]. split; [exact L1|]. split; [exact D|].
    split; [now apply truthy_true|]. subst url. unfold streamUrl. now rewrite D.
  - intros b Hb. now apply Go.
Qed.

(** X28.  The buttons are independent, and a button that disappears leaves
    nothing behind: whatever the event, the state of every other context is
    as before; and when a button disappears, its state is removed, the
    timers it had armed are cleared, and nothing is shown. *)
Theorem buttons_are_independent (e : PluginEvent) (states : States)
        (cache : ImageCache) (b : string) :
  let '(states', cache', calls) := handle e states cache in
  (b <> contextOf e -> get b states' = get b states)
  /\ (forall context state,
        e = WillDisappear context -> get context states = Some state ->
        get context states' = None /\ cache' = cache
        /\ calls = map (Button context)
                       ((if pollTimer state then [ClearInterval Poll] else [])
                        ++ (if alertTimer state then [ClearInterval Alert] else []))).
Proof.
  destruct e as [c ch|c ch|c|c|c|c|c]; cbn [Handlers.handle contextOf].
  - unfold onWillAppear.
    pose proof (onState_other c (configureChannel toBase64 renderTextOverlay fetch now ch)
                  b states cache) as H.
    destruct (onState c _ states cache) as [[s' c'] fx]. split; [exact H|discriminate].
  - unfold onDidReceiveSettings.
    pose proof (onState_other c (configureChannel toBase64 renderTextOverlay fetch now ch)
                  b states cache) as H.
    destruct (onState c _ states cache) as [[s' c'] fx]. split; [exact H|discriminate].
  - unfold onWillDisappear. destruct (get c states) as [st|] eqn:G.
    + split.
      * intros Hne. now apply get_delete_other.
      * intros context state E Hs. inversion E; subst context.
        rewrite G in Hs. inversion Hs; subst state.
        split; [apply get_delete_same|]. split; reflexivity.
    + split; [reflexivity|].
      intros context state E Hs. inversion E; subst context. congruence.
  - unfold onKeyDown.
    pose proof (onState_other c (fun state cache => (setKeyDownTime now state, cache, []))
                  b states cache) as H.
    destruct (onState c _ states cache) as [[s' c'] fx]. split; [exact H|discriminate].
  - unfold onKeyUp.
    pose proof (getState_other c b states) as H.
    destruct (getState c states) as [st states1]. split; [exact H|discriminate].
  - unfold onPollTimer.
    pose proof (onState_other c (refresh toBase64 renderTextOverlay fetch now)
                  b states cache) as H.
    destruct (onState c _ states cache) as [[s' c'] fx]. split; [exact H|discriminate].
  - unfold onAlertTimer.
    pose proof (onState_other c (alertTick toBase64 renderTextOverlay now)
                  b states cache) as H.
    destruct (onState c _ states cache) as [[s' c'] fx]. split; [exact H|discriminate].
Qed.

End Runtime.

End HandlerFacts.

(** ** The inspector and the plugin *)

Module InspectorFacts.

Import Monitor PropertyInspector.

Lemma trimStart_fixed s : startsWs s = false -> trimStart s = s.
Proof. destruct s as [|c r]; simpl; [auto|]. now intros ->. Qed.

Lemma trimEnd_fixed s : endsWs s = false -> trimEnd s = s.
Proof.
  induction s as [|c r IH]; [reflexivity|].
  destruct r as [|d r'].
  - simpl. now intros ->.
  - intros H. change (endsWs (String c (String d r'))) with (endsWs (String d r')) in H.
    change (trimEnd (String c (String d r')))
      with (match trimEnd (String d r') with
            | EmptyString => if is_ws c then EmptyString else String c EmptyString
            | r0 => String c r0
            end).
    now rewrite (IH H).
Qed.

Lemma trim_trim s : trim (trim s) = trim s.
Proof.
  destruct (trim_spec s) as [l [r [_ [_ [_ [H1 H2]]]]]].
  unfold trim at 1. rewrite (trimStart_fixed _ H1). now apply trimEnd_fixed.
Qed.

Lemma filter_map_trim_fixed (l : list string) :
  map trim (filter (fun val => (0 <? String.length val)%nat) (map trim l))
  = filter (fun val => (0 <? String.length val)%nat) (map trim l).
Proof.
  induction l as [|x l IH]; [reflexivity|]. simpl.
  destruct (0 <? String.length (trim x))%nat; simpl; [|exact IH].
  now rewrite trim_trim, IH.
Qed.

Lemma filter_idem {A} (f : A -> bool) l : filter f (filter f l) = filter f l.
Proof.
  induction l as [|x l IH]; [reflexivity|]. simpl.
  destruct (f x) eqn:E; simpl; [rewrite E|]; now rewrite IH.
Qed.

Lemma truthy_length s : truthy s = (0 <? String.length s)%nat.
Proof. now destruct s. Qed.

Lemma split_typed inputs :
  Forall (fun v => occurs ","%char (trim v) = false) inputs ->
  filter (fun val => (0 <? String.length val)%nat)
         (map trim (split_on ","%char (sendSettings inputs)))
  = typed inputs.
Proof.
  intros HF. unfold sendSettings. fold (typed inputs).
  assert (Hc : Forall (fun w => occurs ","%char w = false) (typed inputs)).
  { unfold typed. apply Forall_forall. intros w Hw.
    apply filter_In in Hw. destruct Hw as [Hw _]. apply in_map_iff in Hw.
    destruct Hw as [v [<- Hv]]. rewrite Forall_forall in HF. now apply HF. }
  destruct (typed inputs) as [|t ts] eqn:E.
  - reflexivity.
  - rewrite split_on_join; [|discriminate|exact Hc].
    rewrite <- E. unfold typed. rewrite filter_map_trim_fixed. apply filter_idem.
Qed.

(** X29.  What is typed in the inspector is what the plugin watches.  When
    no input holds a comma, the setting the inspector sends is read back by
    the plugin as the channels typed (trimmed, the empty inputs left out),
    cut to the first four; and the inspector shows the same setting as one
    input per channel typed, none lost, or as a single empty input when
    there is none. *)
Theorem inspector_settings_round_trip (inputs : Inputs) :
  Forall (fun v => occurs ","%char (trim v) = false) inputs ->
  parseChannels (Some (sendSettings inputs)) = firstn 4 (typed inputs)
  /\ updateUI (Some (sendSettings inputs))
     = match typed inputs with
       | [] => [""]
       | channels => channels
       end
  /\ sendSettings (updateUI (Some (sendSettings inputs))) = sendSettings inputs.
Proof.
  intros HF. pose proof (split_typed inputs HF) as S.
  assert (U : updateUI (Some (sendSettings inputs))
              = match typed inputs with
                | [] => [""]
                | channels => channels
                end).
  { unfold updateUI.
    assert (O : orElse (Some (sendSettings inputs)) "" = sendSettings inputs).
    { unfold orElse. destruct (truthy (sendSettings inputs)) eqn:T; [reflexivity|].
      destruct (sendSettings inputs); [reflexivity|discriminate]. }
    rewrite O.
    replace (filter truthy (map trim (split_on "," (sendSettings inputs))))
      with (typed inputs); [now destruct (typed inputs)|].
    rewrite <- S. apply filter_ext. intros a. symmetry. apply truthy_length. }
  split; [|split].
  - unfold parseChannels. cbn [nonEmpty]. now rewrite S.
  - exact U.
  - rewrite U. destruct (typed inputs) as [|t ts] eqn:E.
    + unfold sendSettings. fold (typed inputs). rewrite E. reflexivity.
    + unfold sendSettings at 1. fold (typed (t :: ts)).
      unfold sendSettings. fold (typed inputs). rewrite E. f_equal.
      rewrite <- E. unfold typed. rewrite filter_map_trim_fixed. apply filter_idem.
Qed.

End InspectorFacts.

(** ** kick-auth-worker/src/index.ts *)

Module WorkerFacts.

Import JsData Json AuthWorker.
Import TokenManager (JsError, KickCredentialsMissingError, Error).

Section Services.

Variable upstream : Upstream -> UpstreamAnswer.
Variable stringify : JValue -> string.
Variable toString : JValue -> string.
Variable destructureError : JsError.

Local Abbreviation fetchHandler :=
  (AuthWorker.fetchHandler upstream stringify toString destructureError).
Local Abbreviation relayToken := (AuthWorker.relayToken upstream stringify).

Lemma cors_cors r : headers r = corsHeaders -> allowsAnyOrigin r.
Proof. intros E h H. now rewrite E. Qed.

Lemma cors_json r : headers r = jsonHeaders -> allowsAnyOrigin r.
Proof. intros E h H. rewrite E. now right. Qed.

Lemma relayToken_spec params :
  allowsAnyOrigin (fst (relayToken params)) /\ snd (relayToken params) = [PostToken params].
Proof.
  unfold AuthWorker.relayToken.
  destruct (upstream (PostToken params)) as [e|st [e|data]]; cbn;
    (split; [|reflexivity]);
    first [apply cors_cors; reflexivity | apply cors_json; reflexivity].
Qed.

Lemma destructure_fields body k v :
  destructure destructureError body k = inr v ->
  v = match body with
      | JObject fields => field k fields
      | _ => JUndefined
      end.
Proof. destruct body; cbn; intros H; inversion H; reflexivity. Qed.

(** X30.  The worker answers every request, and every answer carries the
    headers that open it to any origin; it sends at most one request
    upstream; and the client secret leaves the worker only in a form posted
    to the token endpoint, which is posted only for a [POST] to [/token]
    whose body has a code, a redirect uri and a code verifier, or for a
    [POST] to [/refresh] whose body has a refresh token: when one of them is
    missing the answer is 400 and nothing is sent. *)
Theorem worker_contract (request : Request) (env : Env) :
  let '(response, sent) := fetchHandler request env in
  allowsAnyOrigin response
  /\ (List.length sent <= 1)%nat
  /\ (forall params, In (PostToken params) sent ->
        method request = "POST"
        /\ param "client_id" params = Some (KICK_CLIENT_ID env)
        /\ param "client_secret" params = Some (KICK_CLIENT_SECRET env)
        /\ exists fields, json request = inr (JObject fields)
           /\ ((path request = "/token"
                /\ param "grant_type" params = Some "authorization_code"
                /\ truthyJ (field "code" fields) = true
                /\ truthyJ (field "redirect_uri" fields) = true
                /\ truthyJ (field "code_verifier" fields) = true
                /\ param "code" params = Some (toString (field "code" fields)))
               \/ (path request = "/refresh"
                   /\ param "grant_type" params = Some "refresh_token"
                   /\ truthyJ (field "refresh_token" fields) = true
                   /\ param "refresh_token" params
                      = Some (toString (field "refresh_token" fields)))))
  /\ (method request = "POST" -> path request = "/refresh" ->
      (forall fields, json request = inr (JObject fields) ->
                      truthyJ (field "refresh_token" fields) = false ->
                      status response = 400%nat /\ sent = [])).
Proof.
  unfold AuthWorker.fetchHandler.
  destruct (method request =? "OPTIONS") eqn:M0.
  { split; [now apply cors_cors|]. split; [simpl; lia|]. split; [intros ? []|].
    intros Hm. apply String.eqb_eq in M0. congruence. }
  destruct ((path request =? "/auth-params") && (method request =? "GET")) eqn:R1.
  { split; [now apply cors_json|]. split; [simpl; lia|]. split; [intros ? []|].
    intros Hm Hp. apply andb_true_iff in R1. destruct R1 as [R1 _].
    apply String.eqb_eq in R1. rewrite Hp in R1. discriminate. }
  destruct ((path request =? "/token") && (method request =? "POST")) eqn:R2.
  { apply andb_true_iff in R2. destruct R2 as [P2 M2].
    apply String.eqb_eq in P2, M2.
    assert (NR : path request = "/refresh" -> False) by (rewrite P2; discriminate).
    destruct (json request) as [e|b] eqn:J.
    { split; [now apply cors_cors|]. split; [simpl; lia|]. split; [intros ? []|].
      intros _ Hp. now destruct (NR Hp). }
    destruct (destructure destructureError b "code") as [e|code] eqn:D1.
    { split; [now apply cors_cors|]. split; [simpl; lia|]. split; [intros ? []|].
      intros _ Hp. now destruct (NR Hp). }
    destruct (destructure destructureError b "redirect_uri") as [e|ru] eqn:D2.
    { split; [now apply cors_cors|]. split; [simpl; lia|]. split; [intros ? []|].
      intros _ Hp. now destruct (NR Hp). }
    destruct (destructure destructureError b "code_verifier") as [e|cv] eqn:D3.
    { split; [now apply cors_cors|]. split; [simpl; lia|]. split; [intros ? []|].
      intros _ Hp. now destruct (NR Hp). }
    destruct (negb (truthyJ code) || negb (truthyJ ru) || negb (truthyJ cv)) eqn:T.
    { split; [now apply cors_cors|]. split; [simpl; lia|]. split; [intros ? []|].
      intros _ Hp. now destruct (NR Hp). }
    apply orb_false_iff in T. destruct T as [T T3].
    apply orb_false_iff in T. destruct T as [T1 T2].
    apply negb_false_iff in T1, T2, T3.
    match goal with
    | |- context [AuthWorker.relayToken _ _ ?p] =>
        destruct (relayToken_spec p) as [C S];
        destruct (AuthWorker.relayToken upstream stringify p) as [resp sent]
    end.
    cbn [fst snd] in C, S. subst sent.
    split; [exact C|]. split; [simpl; lia|]. split.
    - intros params [H|[]]. inversion H; subst params; clear H.
      split; [exact M2|]. split; [reflexivity|]. split; [reflexivity|].
      apply destructure_fields in D1, D2, D3. subst code ru cv.
      destruct b; try (cbn in T1; discriminate).
      exists fields. split; [reflexivity|]. left.
      repeat split; assumption || reflexivity.
    - intros _ Hp. now destruct (NR Hp). }
  destruct ((path request =? "/refresh") && (method request =? "POST")) eqn:R3.
  { apply andb_true_iff in R3. destruct R3 as [P3 M3].
    apply String.eqb_eq in P3, M3.
    destruct (json request) as [e|b] eqn:J.
    { split; [now apply cors_cors|]. split; [simpl; lia|]. split; [intros ? []|].
      intros _ _ fields H. discriminate. }
    destruct (destructure destructureError b "refresh_token") as [e|rt] eqn:D1.
    { split; [now apply cors_cors|]. split; [simpl; lia|]. split; [intros ? []|].
      intros _ _ fields H. inversion H; subst b. discriminate. }
    destruct (negb (truthyJ rt)) eqn:T.
    { split; [now apply cors_cors|]. split; [simpl; lia|]. split; [intros ? []|].
      intros _ _ fields H _. split; reflexivity. }
    apply negb_false_iff in T.
    match goal with
    | |- context [AuthWorker.relayToken _ _ ?p] =>
        destruct (relayToken_spec p) as [C S];
        destruct (AuthWorker.relayToken upstream stringify p) as [resp sent]
    end.
    cbn [fst snd] in C, S. subst sent.
    split; [exact C|]. split; [simpl; lia|]. split.
    - intros params [H|[]]. inversion H; subst params; clear H.
      split; [exact M3|]. split; [reflexivity|]. split; [reflexivity|].
      apply destructure_fields in D1. subst rt.
      destruct b; try (cbn in T; discriminate).
      exists fields. split; [reflexivity|]. right.
      repeat split; assumption || reflexivity.
    - intros _ _ fields H F. inversion H; subst b.
      apply destructure_fields in D1. subst rt. congruence. }
  assert (NR : method request = "POST" -> path request = "/refresh" -> False).
  { intros Hm Hp. rewrite Hm, Hp in R3. discriminate. }
  destruct (String.prefix "/proxy/channel/" (path request) && (method request =? "GET")) eqn:R4.
  { destruct (negb (truthy (last (split_on "/" (path request)) ""))).
    { split; [now apply cors_cors|]. split; [simpl; lia|]. split; [intros ? []|].
      intros Hm Hp. now destruct (NR Hm Hp). }
    destruct (upstream (GetChannel _)) as [e|st data].
    { split; [now apply cors_cors|]. split; [simpl; lia|].
      split; [intros ? [H|[]]; discriminate|].
      intros Hm Hp. now destruct (NR Hm Hp). }
    destruct (negb (okStatus st)).
    { split; [now apply cors_cors|]. split; [simpl; lia|].
      split; [intros ? [H|[]]; discriminate|].
      intros Hm Hp. now destruct (NR Hm Hp). }
    destruct data as [e|d].
    { split; [now apply cors_cors|]. split; [simpl; lia|].
      split; [intros ? [H|[]]; discriminate|].
      intros Hm Hp. now destruct (NR Hm Hp). }
    split; [now apply cors_json|]. split; [simpl; lia|].
    split; [intros ? [H|[]]; discriminate|].
    intros Hm Hp. now destruct (NR Hm Hp). }
  split; [now apply cors_cors|]. split; [simpl; lia|]. split; [intros ? []|].
  intros Hm Hp. now destruct (NR Hm Hp).
Qed.

End Services.

End WorkerFacts.

(* ================================================================== *)
(** ** The properties at the sample inputs *)
(* ================================================================== *)

Import Samples.

(** The premises of C1 hold of three channels that are all missing. *)
Lemma refresh_all_not_found_witness :
  (2 <= List.length (channels threeChannels))%nat
  /\ Forall (fun r => status r = not_found)
       (fst (checkAll sampleBase64 sampleOverlay allMissing 0 0 (channels threeChannels) []))
  /\ refresh sampleBase64 sampleOverlay allMissing 0 threeChannels []
     = (threeChannels, [], [SetImage RED; SetTitle "Not Found"]).
Proof.
  assert (H1 : (2 <= List.length (channels threeChannels))%nat) by (simpl; lia).
  assert (H2 : Forall (fun r => status r = not_found)
                 (fst (checkAll sampleBase64 sampleOverlay allMissing 0 0
                         (channels threeChannels) [])))
    by (vm_compute; repeat constructor).
  split; [exact H1|]. split; [exact H2|].
  exact (proj1 (refresh_all_not_found sampleBase64 sampleOverlay allMissing 0
                  threeChannels [] H1 H2)).
Defined.

(** C3, the claim as stated fails: a button configured with ["a"] whose first
    poll failed has last status error, not offline; when the next poll finds
    the channel live the alert starts for ["a"]. *)
Lemma single_channel_error_then_live_alerts :
  lastStatus afterFailedPoll = known error
  /\ channels afterFailedPoll = ["a"]
  /\ (forall toBase64 renderTextOverlay now cache,
         fst (fst (configureChannel toBase64 renderTextOverlay allFailing now
                     (Some "a") initialState cache)) = afterFailedPoll)
  /\ (forall toBase64 renderTextOverlay now cache,
         status (fst (checkStreamerStatus toBase64 renderTextOverlay allLive now 0 "a" cache))
         = live
         /\ alertStarted (snd (refresh toBase64 renderTextOverlay allLive now
                                 afterFailedPoll cache))
         /\ alertingChannels (fst (fst (refresh toBase64 renderTextOverlay allLive now
                                          afterFailedPoll cache))) = ["a"]).
Proof.
  split; [reflexivity|]. split; [reflexivity|]. split.
  - intros. reflexivity.
  - intros. split; [reflexivity|]. split; [|reflexivity].
    unfold alertStarted. vm_compute. left. reflexivity.
Qed.

(** The amended C3 at the same button. *)
Lemma single_channel_transition_witness :
  channels afterFailedPoll = ["a"] /\ "a" <> ""
  /\ (alertStarted (snd (refresh sampleBase64 sampleOverlay allLive 0 afterFailedPoll []))
      <-> isLive (plain error (Some "a")) = false
          /\ isLive (fst (checkStreamerStatus sampleBase64 sampleOverlay allLive 0 0 "a" []))
             = true).
Proof.
  assert (H1 : channels afterFailedPoll = ["a"]) by reflexivity.
  assert (H2 : "a" <> "") by discriminate.
  split; [exact H1|]. split; [exact H2|].
  exact (proj1 (proj1 (single_channel_transition sampleBase64 sampleOverlay allLive 0
                         afterFailedPoll [] "a" H1 H2)
                  (plain error (Some "a")) eq_refl)).
Defined.


(** Fifty calls on fifty images fill the cache and the oldest image is
    asked again; the next call misses, and the ten images evicted are the
    ten after it: the image found again stays. *)
Lemma image_cache_bounded_lru_witness :
  List.length (cacheAfter sampleBase64 sampleOverlay fiftyCallsAndAHit) = MAX_CACHE_SIZE
  /\ cacheMiss (fullCacheKey "new" true None) 51
       (cacheAfter sampleBase64 sampleOverlay fiftyCallsAndAHit)
  /\ evicted (cacheAfter sampleBase64 sampleOverlay fiftyCallsAndAHit)
     = map (fun n => fullCacheKey (nat_str n) true None) (seq 1 10)
  /\ lastUse (fullCacheKey "0" true None) fiftyCallsAndAHit = Some 50%Z
  /\ List.length (prune (cacheAfter sampleBase64 sampleOverlay fiftyCallsAndAHit)) = 40%nat.
Proof.
  assert (H1 : List.length (cacheAfter sampleBase64 sampleOverlay fiftyCallsAndAHit)
               = MAX_CACHE_SIZE) by (vm_compute; reflexivity).
  assert (H2 : cacheMiss (fullCacheKey "new" true None) 51
                 (cacheAfter sampleBase64 sampleOverlay fiftyCallsAndAHit))
    by (vm_compute; exact I).
  split; [exact H1|]. split; [exact H2|]. split; [vm_compute; reflexivity|].
  split; [vm_compute; reflexivity|].
  exact (proj1 (proj2 (proj2 (proj2 (proj2
    (proj1 (proj2 (proj2 (proj2
       (image_cache_bounded_lru sampleBase64 sampleOverlay fiftyCallsAndAHit))))
       "new" true None 51%Z H1 H2)))))).
Defined.

(** A refresh whose request fails by the network, from the initial state. *)
Lemma refresh_failure_explicit_witness :
  TokenManager.refreshInFlight TokenManager.initial = None
  /\ truthyOpt (TokenManager.refresh_token staleTokens) = true
  /\ exists s',
      TokenManager.exec TokenManager.initial
        [TokenManager.Call someCredentials staleTokens;
         TokenManager.FetchDone 0 (TokenManager.NetworkFailure (TokenManager.Error "fetch failed"));
         TokenManager.Resume 0] = Some s'
      /\ nth_error (TokenManager.callers s') 0
         = Some {| TokenManager.joined := Some 0%nat;
                   TokenManager.outcome := Some (inl (TokenManager.Error "fetch failed")) |}
      /\ TokenManager.cachedTokens s' = None
      /\ TokenManager.cachedCredentials s' = None
      /\ TokenManager.saved s' = []
      /\ TokenManager.refreshInFlight s' = None.
Proof.
  split; [reflexivity|]. split; [reflexivity|].
  exact (proj2 (TokenFacts.refresh_failure_explicit TokenManager.initial someCredentials
                  staleTokens eq_refl)
           eq_refl
           (TokenManager.NetworkFailure (TokenManager.Error "fetch failed"))
           (TokenManager.Error "fetch failed") eq_refl).
Defined.

(** A setting with blanks, an empty entry and a trailing comma, on a fresh
    button. *)
Lemma configure_channel_list_witness :
  Forall (fun c => occurs ","%char c = false) (channels initialState)
  /\ channels (fst (fst (configureChannel sampleBase64 sampleOverlay allMissing 0
                           (Some " a , b ,,") initialState [])))
     = ["a"; "b"].
Proof.
  assert (H : Forall (fun c => occurs ","%char c = false) (channels initialState))
    by constructor.
  split; [exact H|].
  exact (proj1 (configure_channel_list sampleBase64 sampleOverlay allMissing 0
                  (Some " a , b ,,") initialState [] H)).
Defined.

(** C8, the claim as stated fails: an error result is titled
    "foo\nNot Found", not "foo\nERROR"; an offline result that carries an
    image is shown with that image, not with the static red one. *)
Lemma render_error_and_offline_not_as_claimed :
  (forall toBase64 renderTextOverlay now cache,
      render toBase64 renderTextOverlay now errorResult false singleFoo cache
      = ([SetTitle ("foo" ++ NL ++ "Not Found"); SetImage RED], cache))
  /\ "foo" ++ NL ++ "Not Found" <> "foo" ++ NL ++ toUpperCase (status_str error)
  /\ (forall toBase64 renderTextOverlay now cache,
         render toBase64 renderTextOverlay now offlineWithImage false singleFoo cache
         = ([SetTitle ("Foo" ++ NL ++ "OFFLINE");
             SetImage "data:image/svg+xml;base64,AAAA"], cache))
  /\ "data:image/svg+xml;base64,AAAA" <> RED.
Proof.
  split; [intros; reflexivity|]. split; [discriminate|].
  split; [intros; reflexivity|]. discriminate.
Qed.

(** The amended C8 at the offline result that carries an image. *)
Lemma render_single_channel_witness :
  List.length (channels singleFoo) = 1%nat
  /\ false && alertToggleState singleFoo = false
  /\ render sampleBase64 sampleOverlay 0 offlineWithImage false singleFoo []
     = ([SetTitle ("Foo" ++ NL ++ "OFFLINE");
         SetImage (indicatorOr (base64Image offlineWithImage) offlineWithImage)], []).
Proof.
  split; [reflexivity|]. split; [reflexivity|].
  refine (proj1 (proj2 (proj1 (proj2
    (render_single_channel sampleBase64 sampleOverlay 0 offlineWithImage false
       singleFoo [] eq_refl eq_refl)) "Foo" eq_refl _)) eq_refl).
  discriminate.
Defined.

(** A category of four words, the last in code units above 256, at the
    width [render] uses. *)
Lemma wrapText_lines_within_witness :
  (1 <= 15)%nat /\ CodeUnits.softBreaksOnly wideCategory
  /\ CodeUnits.wrapText wideCategory 15
     = Some (CodeUnits.ofString "Just Chatting" ++ [10%N]
             ++ CodeUnits.ofString "and more " ++ [26085%N; 26412%N; 35486%N])%list
  /\ exists out,
      CodeUnits.wrapText wideCategory 15 = Some out
      /\ Forall (CodeUnits.within 15) (CodeUnits.linesOf out)
      /\ ((List.length wideCategory <= 15)%nat -> out = wideCategory).
Proof.
  assert (H1 : (1 <= 15)%nat) by lia.
  assert (H2 : CodeUnits.softBreaksOnly wideCategory) by (repeat split; reflexivity).
  split; [exact H1|]. split; [exact H2|]. split; [reflexivity|].
  exact (CodeUnitFacts.wrapText_lines_within wideCategory 15 H1 H2).
Defined.

(** C9, the claim as stated fails: the SVG text returned for three sample
    items holds four clip paths, not three; the fourth is [mainClip]. *)
Lemma collage_three_items_four_clip_paths :
  fst (generateCollageSvg sampleBase64 sampleOverlay threeItems None 0 [])
  = "data:image/svg+xml;base64," ++ collageSvg sampleOverlay threeItems None
  /\ countOcc "<clipPath" (collageSvg sampleOverlay threeItems None) = 4%nat
  /\ countOcc "<clipPath" (collageSvg sampleOverlay threeItems None) <> 3%nat
  /\ countOcc (Q "<clipPath id='mainClip'>") (collageSvg sampleOverlay threeItems None)
     = 1%nat
  /\ countOcc (Q "<clipPath id='clip") (collageSvg sampleOverlay threeItems None) = 3%nat.
Proof.
  split; [reflexivity|]. split; [vm_compute; reflexivity|].
  split; [vm_compute; discriminate|]. split; vm_compute; reflexivity.
Qed.

(** The amended C9 at the same three items. *)
Lemma collage_three_tiles_witness :
  occurs "<"%char "A" = false /\ occurs "<"%char "B" = false
  /\ occurs "<"%char "C" = false
  /\ countOcc "<clipPath" (sampleOverlay None) = 0%nat
  /\ countOcc "<pattern" (sampleOverlay None) = 0%nat
  /\ countOcc "<path" (sampleOverlay None) = 0%nat
  /\ countOcc "<clipPath" (collageSvg sampleOverlay threeItems None) = 4%nat
  /\ countOcc "<pattern" (collageSvg sampleOverlay threeItems None) = 3%nat
  /\ countOcc "<path" (collageSvg sampleOverlay threeItems None) = 3%nat.
Proof.
  assert (Ha : occurs "<"%char "A" = false) by reflexivity.
  assert (Hb : occurs "<"%char "B" = false) by reflexivity.
  assert (Hc : occurs "<"%char "C" = false) by reflexivity.
  assert (H1 : countOcc "<clipPath" (sampleOverlay None) = 0%nat) by reflexivity.
  assert (H2 : countOcc "<pattern" (sampleOverlay None) = 0%nat) by reflexivity.
  assert (H3 : countOcc "<path" (sampleOverlay None) = 0%nat) by reflexivity.
  split; [exact Ha|]. split; [exact Hb|]. split; [exact Hc|].
  split; [exact H1|]. split; [exact H2|]. split; [exact H3|].
  destruct (collage_three_tiles sampleBase64 sampleOverlay
              {| image := "A"; ImageUtils.isLive := true; isFlashing := false |}
              {| image := "B"; ImageUtils.isLive := false; isFlashing := false |}
              {| image := "C"; ImageUtils.isLive := true; isFlashing := false |}
              None 0 [] Ha Hb Hc H1 H2 H3) as [_ [[K1 _] [[K2 _] [[K3 _] _]]]].
  split; [exact K1|]. split; [exact K2|exact K3].
Defined.

(** A first call on an empty cache, and the same call a second later. *)
Lemma cache_round_trip_witness :
  cacheMiss (fullCacheKey "A" true None) 0 []
  /\ (1000 < 0 + IMAGE_CACHE_MS)%Z
  /\ fst (getProcessedImage sampleBase64 sampleOverlay "A" true None 1000
            (snd (getProcessedImage sampleBase64 sampleOverlay "A" true None 0 [])))
     = fst (getProcessedImage sampleBase64 sampleOverlay "A" true None 0 []).
Proof.
  assert (H1 : cacheMiss (fullCacheKey "A" true None) 0 []) by exact I.
  assert (H2 : (1000 < 0 + IMAGE_CACHE_MS)%Z) by reflexivity.
  split; [exact H1|]. split; [exact H2|].
  exact (proj1 (cache_round_trip sampleBase64 sampleOverlay "A" true None 0 1000 [] H1 H2)).
Defined.

(** The same two channels, written with other blanks, on a button that is
    polling them. *)
Lemma configure_idempotent_witness :
  Forall (fun c => occurs ","%char c = false) (channels initialState)
  /\ parseChannels (Some "a,b") <> []
  /\ parseChannels (Some " a , b ,") = parseChannels (Some "a,b")
  /\ configureChannel sampleBase64 sampleOverlay allLive 60000 (Some " a , b ,")
       (fst (fst (configureChannel sampleBase64 sampleOverlay allMissing 0
                    (Some "a,b") initialState []))) []
     = (fst (fst (configureChannel sampleBase64 sampleOverlay allMissing 0
                    (Some "a,b") initialState [])), [], []).
Proof.
  assert (H1 : Forall (fun c => occurs ","%char c = false) (channels initialState))
    by constructor.
  assert (H2 : parseChannels (Some "a,b") <> []) by discriminate.
  assert (H3 : parseChannels (Some " a , b ,") = parseChannels (Some "a,b"))
    by reflexivity.
  split; [exact H1|]. split; [exact H2|]. split; [exact H3|].
  exact (configure_idempotent sampleBase64 sampleOverlay allMissing 0
           (Some "a,b") (Some " a , b ,") initialState [] [] allLive 60000 H1 H2 H3).
Defined.

(** A refresh that succeeds, from the initial state. *)
Lemma refresh_success_merges_witness :
  TokenManager.refreshInFlight TokenManager.initial = None
  /\ truthyOpt (TokenManager.refresh_token staleTokens) = true
  /\ TokenManager.refresh_token
       (TokenManager.mergeTokens refreshedTokens staleTokens 1700000100000)
     = Some "refresh-1"
  /\ TokenManager.expires_at
       (TokenManager.mergeTokens refreshedTokens staleTokens 1700000100000)
     = Some 1700003700%Z
  /\ exists s',
      TokenManager.exec TokenManager.initial
        [TokenManager.Call someCredentials staleTokens;
         TokenManager.FetchDone 0 (TokenManager.HttpResponse true "OK");
         TokenManager.JsonDone 0 (TokenManager.JsonValue refreshedTokens) 1700000100000;
         TokenManager.SaveDone 0 TokenManager.SaveOk;
         TokenManager.Resume 0] = Some s'
      /\ TokenManager.cachedTokens s'
         = Some (TokenManager.mergeTokens refreshedTokens staleTokens 1700000100000).
Proof.
  split; [reflexivity|]. split; [reflexivity|]. split; [reflexivity|].
  split; [reflexivity|].
  destruct (TokenFacts.refresh_success_merges TokenManager.initial someCredentials
              staleTokens refreshedTokens "OK" 1700000100000 eq_refl eq_refl)
    as [s' [H1 [_ [H2 _]]]].
  exists s'. split; [exact H1|exact H2].
Defined.

(** *** The further properties at the sample inputs *)

Import Json MoreSamples.

(** Two texts that differ only by an escaping already done. *)
Lemma escapeXml_injective_witness :
  "<" <> "&lt;"
  /\ XmlEscape.escapeXml "<" <> XmlEscape.escapeXml "&lt;".
Proof.
  assert (H : "<" <> "&lt;") by discriminate.
  split; [exact H|].
  exact (XmlFacts.escapeXml_injective "<" "&lt;" H).
Defined.

(** The picture of the channel [Foo Bar], already in the cache. *)
Lemma profile_image_file_name_witness :
  fst (ProfileImage.getLocalProfileImage "/cache" sampleJoin everyFile noDownload everyFile
         "Foo Bar" "https://files.kick.com/images/pic.PNG?v=1")
  = Some "/cache/Foo_Bar.png"
  /\ ProfileImage.safeSlug "Foo Bar" = "Foo_Bar"
  /\ ProfileImage.extOf "https://files.kick.com/images/pic.PNG?v=1" = "png"
  /\ String.length (ProfileImage.safeSlug "Foo Bar") = String.length "Foo Bar".
Proof.
  assert (H : fst (ProfileImage.getLocalProfileImage "/cache" sampleJoin everyFile
                     noDownload everyFile "Foo Bar"
                     "https://files.kick.com/images/pic.PNG?v=1")
              = Some "/cache/Foo_Bar.png") by reflexivity.
  split; [exact H|]. split; [reflexivity|]. split; [reflexivity|].
  exact (proj1 (proj2 (ProfileImageFacts.profile_image_file_name
                         "/cache" sampleJoin everyFile noDownload everyFile
                         "Foo Bar" "https://files.kick.com/images/pic.PNG?v=1"
                         "/cache/Foo_Bar.png" H))).
Defined.

(** A lookup at time 1000 on an empty cache, and the same lookup one hour
    later. *)
Lemma web_info_cached_one_hour_witness :
  fooWeb "foo"
  = KickOfficialApi.WebPayload (KickOfficialApi.ImageString "https://files.kick.com/web.png")
                               (Some "FooFromWeb")
  /\ (1000 <= 3601000 <= 1000 + 3600000)%Z
  /\ (let '(first, cache1, reqs1) :=
        KickOfficialApi.fetchWebChannelInfo fooWeb 1000 "foo" [] in
      let '(again, cache2, reqs2) :=
        KickOfficialApi.fetchWebChannelInfo fooWeb 3601000 "foo" cache1 in
      reqs1 = [KickOfficialApi.GetWebChannel "foo"]
      /\ first = Some {| KickOfficialApi.profileImageUrl :=
                           KickOfficialApi.coalesceImageUrl
                             (KickOfficialApi.ImageString "https://files.kick.com/web.png");
                         KickOfficialApi.username := Some "FooFromWeb" |}
      /\ again = first /\ reqs2 = [] /\ cache2 = cache1).
Proof.
  assert (H1 : fooWeb "foo"
               = KickOfficialApi.WebPayload
                   (KickOfficialApi.ImageString "https://files.kick.com/web.png")
                   (Some "FooFromWeb")) by reflexivity.
  assert (H2 : forall cached, JsData.get "foo" (@nil (string * KickOfficialApi.WebCacheEntry))
                              = Some cached ->
                              (1000 < KickOfficialApi.timestamp cached
                               \/ KickOfficialApi.timestamp cached
                                  + KickOfficialApi.WEB_INFO_CACHE_TTL < 1000)%Z)
    by (intros cached H; discriminate H).
  assert (H3 : (1000 <= 3601000 <= 1000 + 3600000)%Z) by lia.
  split; [exact H1|]. split; [exact H3|].
  exact (ApiFacts.web_info_cached_one_hour fooWeb "foo" 1000 3601000 [] _ _ H1 H2 H3).
Defined.

(** The channel [Foo], live, without a stream title, asked with tokens that
    are not due and an API that answers at once. *)
Lemma live_channel_has_status_text_witness :
  fst (fst (fst (KickOfficialApi.fetchChannelStatus answeredAtOnce fooBody fooWeb 0 " Foo " []
                   (holdingTokens freshCredentials freshTokens))))
  = inr (Some fooStatus)
  /\ cs_liveStatusText fooStatus <> Some ""
  /\ (cs_isLive fooStatus = true ->
      exists text, cs_liveStatusText fooStatus = Some text /\ text <> "").
Proof.
  assert (H : fst (fst (fst (KickOfficialApi.fetchChannelStatus answeredAtOnce fooBody
                               fooWeb 0 " Foo " []
                               (holdingTokens freshCredentials freshTokens))))
              = inr (Some fooStatus)) by reflexivity.
  split; [exact H|].
  exact (ApiFacts.live_channel_has_status_text answeredAtOnce fooBody fooWeb 0 " Foo " []
           (holdingTokens freshCredentials freshTokens) fooStatus H).
Defined.

(** The same channel: the proxy would give another name and another
    picture, and is not asked. *)
Lemma api_fields_win_witness :
  KickOfficialApi.firstEntry fooBody = Some fooEntry
  /\ fst (fst (fst (KickOfficialApi.fetchChannelStatus answeredAtOnce fooBody fooWeb 0
                      " Foo " [] (holdingTokens freshCredentials freshTokens))))
     = inr (Some fooStatus)
  /\ cs_displayName fooStatus = "Foo"
  /\ cs_profileImageUrl fooStatus = Some "https://files.kick.com/foo.png"
  /\ snd (fst (KickOfficialApi.fetchChannelStatus answeredAtOnce fooBody fooWeb 0 " Foo " []
                 (holdingTokens freshCredentials freshTokens)))
     = [KickOfficialApi.GetChannels "foo" "fresh-access"].
Proof.
  assert (H1 : KickOfficialApi.firstEntry fooBody = Some fooEntry) by reflexivity.
  assert (H2 : fst (fst (fst (KickOfficialApi.fetchChannelStatus answeredAtOnce fooBody
                                fooWeb 0 " Foo " []
                                (holdingTokens freshCredentials freshTokens))))
               = inr (Some fooStatus)) by reflexivity.
  destruct (ApiFacts.api_fields_win answeredAtOnce fooBody fooWeb 0 " Foo " []
              (holdingTokens freshCredentials freshTokens) fooEntry fooStatus H1 H2)
    as [N [P W]].
  split; [exact H1|]. split; [exact H2|].
  split; [apply N; [reflexivity|discriminate|discriminate]|].
  split; [apply P; [reflexivity|discriminate]|].
  reflexivity.
Defined.

(** An authorized request with tokens that are due and an API that answers
    401 to the first request: the tokens are refreshed before the first
    request, and again after the answer; two requests are sent to the API and
    two refresh requests are posted to the worker. *)
Example authorized_request_after_renewal :
  let '(res, s', bearers, fx) :=
    KickOfficialApi.performAuthorizedRequest answeredAfterRenewal
      (holdingTokens someCredentials staleTokens) in
  res = inr okResponse
  /\ bearers = ["new-access"; "new-access"]
  /\ TokenManager.requests s' = [Some "refresh-1"; Some "refresh-1"]
  /\ fx = [].
Proof. vm_compute. repeat split; reflexivity. Qed.

(** Tokens that expire in 2027, asked for in 2023, with a storage that
    cannot be read. *)
Lemma access_token_warm_path_witness :
  TokenAccess.shouldRefreshToken freshTokens 1700000000000 = false
  /\ TokenAccess.getAccessToken (worldAt 1700000000000 noStorage)
                                (holdingTokens freshCredentials freshTokens)
     = (inr "fresh-access", holdingTokens freshCredentials freshTokens, []).
Proof.
  assert (H : TokenAccess.shouldRefreshToken freshTokens 1700000000000 = false)
    by reflexivity.
  split; [exact H|].
  exact (TokenAccessFacts.access_token_warm_path (worldAt 1700000000000 noStorage)
           (holdingTokens freshCredentials freshTokens) freshCredentials freshTokens
           "fresh-access" eq_refl eq_refl eq_refl ltac:(discriminate) (or_introl H)).
Defined.

(** Tokens that expired at second 1700000000, renewed for one hour at
    second 1700000100, and asked for again a quarter of an hour later. *)
Lemma due_token_renewed_once_witness :
  TokenAccess.shouldRefreshToken staleTokens 1700000050000 = true
  /\ (1700001000000 < (1700000100000 / 1000 + 3600 - 60) * 1000)%Z
  /\ (let '(res, s1, fx) :=
        TokenAccess.getAccessToken (worldAt 1700000050000 noStorage)
                                   (holdingTokens someCredentials staleTokens) in
      res = inr "new-access" /\ fx = []
      /\ TokenManager.requests s1 = [Some "refresh-1"]
      /\ TokenAccess.getAccessToken (worldAt 1700001000000 noStorage) s1
         = (inr "new-access", s1, [])).
Proof.
  assert (H1 : TokenAccess.shouldRefreshToken staleTokens 1700000050000 = true)
    by reflexivity.
  assert (H2 : (1700001000000 < (1700000100000 / 1000 + 3600 - 60) * 1000)%Z)
    by reflexivity.
  split; [exact H1|]. split; [exact H2|].
  pose proof (TokenAccessFacts.due_token_renewed_once
                (worldAt 1700000050000 noStorage) (worldAt 1700001000000 noStorage)
                (holdingTokens someCredentials staleTokens) someCredentials staleTokens
                refreshedTokens "new-access" "OK" 3600
                eq_refl eq_refl eq_refl H1 eq_refl eq_refl eq_refl eq_refl eq_refl
                ltac:(discriminate) eq_refl eq_refl ltac:(reflexivity)
                ltac:(discriminate) H2) as T.
  destruct (TokenAccess.getAccessToken (worldAt 1700000050000 noStorage)
                                       (holdingTokens someCredentials staleTokens))
    as [[res s1] fx].
  destruct T as [T1 [T2 [T3 [_ [_ T6]]]]].
  split; [exact T1|]. split; [exact T2|]. split; [exact T3|exact T6].
Defined.

(** The cache dropped, and the fresh credentials found in the storage. *)
Lemma invalidate_then_reload_witness :
  TokenAccess.shouldRefreshToken freshTokens 1700000000000 = false
  /\ (let '(res, s', fx) :=
        TokenAccess.getAccessToken (worldAt 1700000000000 (inr freshCredentials))
          (TokenAccess.invalidateCredentialsCache (holdingTokens someCredentials staleTokens)) in
      res = inr "fresh-access" /\ fx = [TokenAccess.LoadCredentials]
      /\ TokenManager.cachedCredentials s' = Some freshCredentials
      /\ TokenManager.cachedTokens s' = Some freshTokens
      /\ TokenManager.requests s' = TokenManager.requests (holdingTokens someCredentials staleTokens)
      /\ TokenManager.saved s' = TokenManager.saved (holdingTokens someCredentials staleTokens)).
Proof.
  assert (H : TokenAccess.shouldRefreshToken freshTokens 1700000000000 = false)
    by reflexivity.
  split; [exact H|].
  exact (TokenAccessFacts.invalidate_then_reload
           (worldAt 1700000000000 (inr freshCredentials))
           (holdingTokens someCredentials staleTokens) freshCredentials freshTokens
           "fresh-access" eq_refl eq_refl eq_refl ltac:(discriminate) H).
Defined.

(** Credentials saved on a disk that has older files, and loaded again. *)
Lemma file_storage_round_trip_witness :
  everyFile (samePath "/repo/credentials.json") = true
  /\ sampleParse (sampleStringify (JObject sampleCredentialsObject))
     = inr (JObject sampleCredentialsObject)
  /\ (let '(saved, d1) :=
        FileCredentials.save samePath "/repo/credentials.json" "/plugin/credentials.json"
                             everyFile sampleStringify sampleCredentialsObject twoFiles in
      saved = inr tt
      /\ FileCredentials.cachedCredentialsPath d1 = Some (samePath "/repo/credentials.json")
      /\ fst (FileCredentials.load samePath "/repo/credentials.json"
                "/plugin/credentials.json" "/cwd/credentials.json" everyFile
                sampleParse sampleReadError d1)
         = inr (JObject sampleCredentialsObject)).
Proof.
  assert (H1 : everyFile (samePath "/repo/credentials.json") = true) by reflexivity.
  assert (H2 : sampleParse (sampleStringify (JObject sampleCredentialsObject))
               = inr (JObject sampleCredentialsObject)) by reflexivity.
  split; [exact H1|]. split; [exact H2|].
  exact (FileFacts.file_storage_round_trip samePath "/repo/credentials.json"
           "/plugin/credentials.json" "/cwd/credentials.json" everyFile everyFile
           sampleStringify sampleParse sampleReadError
           (JObject []) (JString "") (JString "")
           (JObject [("access_token", JString "abc")]) twoFiles H1 H1 H2).
Defined.

(** The same disk after a deletion: the file of the repository is gone, the
    file of the working directory is read. *)
Lemma delete_leaves_working_directory_file_witness :
  (forall p, In p (FileCredentials.getWriteTargets samePath "/repo/credentials.json"
                     "/plugin/credentials.json"
                     (FileCredentials.cachedCredentialsPath twoFiles)) ->
             everyFile p = true)
  /\ JsData.get "/repo/credentials.json"
       (FileCredentials.files
          (FileCredentials.deleteCredentials samePath "/repo/credentials.json"
             "/plugin/credentials.json" everyFile twoFiles)) = None
  /\ fst (FileCredentials.readCredentials samePath "/repo/credentials.json"
            "/plugin/credentials.json" "/cwd/credentials.json" everyFile sampleParse
            sampleReadError
            (FileCredentials.deleteCredentials samePath "/repo/credentials.json"
               "/plugin/credentials.json" everyFile twoFiles))
     = sampleParse "B".
Proof.
  assert (H : forall p, In p (FileCredentials.getWriteTargets samePath
                                "/repo/credentials.json" "/plugin/credentials.json"
                                (FileCredentials.cachedCredentialsPath twoFiles)) ->
                        everyFile p = true) by (intros p _; reflexivity).
  destruct (FileFacts.delete_leaves_working_directory_file samePath
              "/repo/credentials.json" "/plugin/credentials.json" "/cwd/credentials.json"
              everyFile everyFile sampleParse sampleReadError twoFiles H)
    as [_ [G [R _]]].
  split; [exact H|]. split.
  - apply G. left. reflexivity.
  - apply R; reflexivity.
Defined.

(** Three callers: the second is inside, alone, once the first has left;
    the third waits, and is let in after the second has left. *)
Lemma mutex_one_at_a_time_witness :
  exists s, Mutex.exec Mutex.initial twoDispatches = Some s
            /\ Mutex.left s 0 /\ Mutex.holding s 1 /\ Mutex.waiting s 2
            /\ (forall i, Mutex.holding s i -> i = 1%nat)
            /\ (forall j, Mutex.holding s 1 -> (j < 1)%nat -> Mutex.left s j)
            /\ Mutex.exec Mutex.initial
                 (twoDispatches ++ [Mutex.Settle 8; Mutex.Enter 2])%list = None
            /\ exists s', Mutex.exec s [Mutex.Unlock 1; Mutex.Settle 6; Mutex.Settle 8;
                                        Mutex.Enter 2] = Some s'
                          /\ Mutex.holding s' 2.
Proof.
  assert (E : exists s, Mutex.exec Mutex.initial twoDispatches = Some s).
  { vm_compute. eexists. reflexivity. }
  destruct E as [s E]. exists s.
  pose proof (MutexFacts.mutex_one_at_a_time twoDispatches s E) as [One [Order _]].
  vm_compute in E. injection E as <-.
  split; [vm_compute; reflexivity|].
  split; [vm_compute; reflexivity|]. split; [eexists; vm_compute; reflexivity|].
  split; [vm_compute; reflexivity|].
  split; [|split; [|split]].
  - intros i Hi. apply (One i 1%nat Hi). eexists; vm_compute; reflexivity.
  - intros j H1 Hj. apply (Order 1%nat j); [left; exact H1|exact Hj].
  - vm_compute. reflexivity.
  - eexists. split; [vm_compute; reflexivity|]. eexists; vm_compute; reflexivity.
Defined.

(** Credentials saved in empty settings, and loaded while the file cannot
    be read. *)
Lemma settings_storage_round_trip_witness :
  StreamDeckStorage.isValidCredentials (JObject sampleCredentialsObject) = true
  /\ (let settings1 :=
        fst (StreamDeckStorage.save (JObject sampleCredentialsObject) []) in
      let '(res, settings2, calls) :=
        StreamDeckStorage.load (inl (TokenManager.Error "ENOENT")) settings1 in
      res = inr (JObject sampleCredentialsObject) /\ settings2 = settings1
      /\ StreamDeckStorage.readsFile calls = false
      /\ ("theme" <> "credentials" -> JsData.get "theme" settings1 = JsData.get "theme" [])).
Proof.
  assert (H : StreamDeckStorage.isValidCredentials (JObject sampleCredentialsObject) = true)
    by reflexivity.
  split; [exact H|].
  exact (StreamDeckFacts.settings_storage_round_trip (JObject sampleCredentialsObject) []
           (inl (TokenManager.Error "ENOENT")) "theme" H).
Defined.

(** A poll of a button whose alert runs, the channel still live. *)
Lemma poll_during_alert_does_not_render_witness :
  alertTimer alerting = true
  /\ snd (refresh sampleBase64 sampleOverlay allLive 30000 alerting []) = [].
Proof.
  assert (H : alertTimer alerting = true) by reflexivity.
  split; [exact H|].
  destruct (poll_during_alert_does_not_render sampleBase64 sampleOverlay allLive 30000
              alerting [] H) as [E|[E|[E _]]].
  - exact E.
  - exfalso. revert E. vm_compute. discriminate.
  - exfalso. revert E. vm_compute. discriminate.
Defined.

(** Two channels, the first of which goes live. *)
Lemma multi_refresh_aggregates_witness :
  (2 <= List.length (channels twoOffline))%nat
  /\ filter (fun r => negb (status_eqb (status r) not_found))
            (fst (checkAll sampleBase64 sampleOverlay firstGoesLive 0 0
                    (channels twoOffline) [])) <> []
  /\ lastStatus (fst (fst (refresh sampleBase64 sampleOverlay firstGoesLive 0 twoOffline [])))
     = known live
  /\ channels (fst (fst (refresh sampleBase64 sampleOverlay firstGoesLive 0 twoOffline [])))
     = ["a"; "b"].
Proof.
  assert (H1 : (2 <= List.length (channels twoOffline))%nat) by (simpl; lia).
  assert (H2 : filter (fun r => negb (status_eqb (status r) not_found))
                 (fst (checkAll sampleBase64 sampleOverlay firstGoesLive 0 0
                         (channels twoOffline) [])) <> [])
    by (vm_compute; discriminate).
  destruct (multi_refresh_aggregates sampleBase64 sampleOverlay firstGoesLive 0
              twoOffline [] H1 H2) as [_ [C [L _]]].
  split; [exact H1|]. split; [exact H2|]. split; [|exact C].
  rewrite L. reflexivity.
Defined.

(** Three inputs, one of them empty. *)
Lemma inspector_settings_round_trip_witness :
  Forall (fun v => occurs ","%char (trim v) = false) threeInputs
  /\ PropertyInspector.sendSettings threeInputs = "foo,bar"
  /\ parseChannels (Some (PropertyInspector.sendSettings threeInputs)) = ["foo"; "bar"]
  /\ PropertyInspector.updateUI (Some (PropertyInspector.sendSettings threeInputs))
     = ["foo"; "bar"].
Proof.
  assert (H : Forall (fun v => occurs ","%char (trim v) = false) threeInputs)
    by (repeat constructor).
  destruct (InspectorFacts.inspector_settings_round_trip threeInputs H) as [P [U _]].
  split; [exact H|]. split; [reflexivity|]. split; [exact P|exact U].
Defined.
